(** * Post-copy live migration (migration-postcopy.c): a shallow embedding

    The development follows the layout of the C file: the request codec
    between the umem daemon and the source, the outgoing (source) engine,
    the incoming page-state bitmaps and the fault-pipe readers.

    Conventions.
    - A C integer of width w is a [Z]; where the C arithmetic can wrap, the
      reduction modulo [2^w] is written out.
    - A byte is a [Z] in [0, 256); a byte stream is a [list Z].
    - A bitmap ([unsigned long *] used with test_bit/set_bit) is a [Z] whose
      bit [i] is [Z.testbit _ i].
    - [abort()] and failed [assert]s are an explicit outcome. *)

From Stdlib Require Import ZArith List Lia Bool Arith.
From Equations Require Import Equations.
Import ListNotations.
Local Open Scope Z_scope.

Set Implicit Arguments.

(* ===================================================================== *)
(** * Errno values used by the file (negated on return, as in C) *)

Definition EAGAIN : Z := 11.
Definition EINVAL : Z := 22.
Definition ENOSYS : Z := 38.

(* ===================================================================== *)
(** * QEMUFile, write side *)

Module QF.

(** Modelled from the spec: QEMUFile and its put/get primitives live in
    the buffered-file layer, which is not among the sources.  Section 6 of
    the specification fixes the wire format: a byte stream, all
    multi-byte integers big-endian.  A file opened for writing is the
    list of bytes written so far. *)
Definition t : Type := list Z.

Definition qemu_put_byte (f : t) (v : Z) : t := f ++ [v mod 256].

Definition qemu_put_buffer (f : t) (buf : list Z) : t :=
  fold_left qemu_put_byte buf f.

Definition qemu_put_be32 (f : t) (v : Z) : t :=
  let f := qemu_put_byte f (Z.shiftr v 24) in
  let f := qemu_put_byte f (Z.shiftr v 16) in
  let f := qemu_put_byte f (Z.shiftr v 8) in
  qemu_put_byte f v.

Definition qemu_put_be64 (f : t) (v : Z) : t :=
  let f := qemu_put_be32 f (Z.shiftr v 32) in
  qemu_put_be32 f v.

End QF.

(* ===================================================================== *)
(** * umem daemon on destination <-> qemu on source protocol *)

(** Request commands.  The numeric codes are declared in a header that is
    not among the sources; the model takes them in declaration order.  The
    proofs only use that they are three distinct byte values. *)
Definition QEMU_UMEM_REQ_EOC : Z := 0.
Definition QEMU_UMEM_REQ_PAGE : Z := 1.
Definition QEMU_UMEM_REQ_PAGE_CONT : Z := 2.

(** [struct QEMUUMemReq] (declared in a header; the fields are those this
    file uses).  [idstr] is the NUL-terminated block name without its
    terminator; [pgoffs] is the array [req->pgoffs] points into, so
    advancing the pointer is [skipn]. *)
Record QEMUUMemReq : Type := mkReq {
  cmd : Z;
  len : Z;
  idstr : list Z;
  nr : Z;
  pgoffs : list Z
}.

Definition set_cmd (r : QEMUUMemReq) (c : Z) : QEMUUMemReq :=
  mkReq c (len r) (idstr r) (nr r) (pgoffs r).
Definition set_len (r : QEMUUMemReq) (n : Z) : QEMUUMemReq :=
  mkReq (cmd r) n (idstr r) (nr r) (pgoffs r).
Definition set_idstr (r : QEMUUMemReq) (s : list Z) : QEMUUMemReq :=
  mkReq (cmd r) (len r) s (nr r) (pgoffs r).
Definition set_nr (r : QEMUUMemReq) (n : Z) : QEMUUMemReq :=
  mkReq (cmd r) (len r) (idstr r) n (pgoffs r).
Definition set_pgoffs (r : QEMUUMemReq) (l : list Z) : QEMUUMemReq :=
  mkReq (cmd r) (len r) (idstr r) (nr r) l.
(** [tmp.pgoffs += n] *)
Definition advance_pgoffs (r : QEMUUMemReq) (n : Z) : QEMUUMemReq :=
  set_pgoffs r (skipn (Z.to_nat n) (pgoffs r)).

(** The entries [pgoffs[0 .. nr-1]] that a sender reads.  Reading past the
    end of the array is undefined in C; the model reads 0 there. *)
Definition req_pgoffs_array (r : QEMUUMemReq) : list Z :=
  map (fun i => nth i (pgoffs r) 0) (seq 0 (Z.to_nat (nr r))).

Definition strlen (s : list Z) : Z := Z.of_nat (length s).

Definition postcopy_incoming_send_req_idstr (f : QF.t) (s : list Z) : QF.t :=
  let f := QF.qemu_put_byte f (strlen s) in
  QF.qemu_put_buffer f s.

Definition postcopy_incoming_send_req_pgoffs (f : QF.t) (n : Z)
           (offs : list Z) : QF.t :=
  let f := QF.qemu_put_be32 f n in
  fold_left (fun f i => QF.qemu_put_be64 f (nth i offs 0))
            (seq 0 (Z.to_nat n)) f.

(** [None] is [abort()]. *)
Definition postcopy_incoming_send_req_one (f : QF.t) (req : QEMUUMemReq)
  : option QF.t :=
  let f := QF.qemu_put_byte f (cmd req) in
  if cmd req =? QEMU_UMEM_REQ_EOC then Some f
  else if cmd req =? QEMU_UMEM_REQ_PAGE then
    let f := postcopy_incoming_send_req_idstr f (idstr req) in
    Some (postcopy_incoming_send_req_pgoffs f (nr req) (pgoffs req))
  else if cmd req =? QEMU_UMEM_REQ_PAGE_CONT then
    Some (postcopy_incoming_send_req_pgoffs f (nr req) (pgoffs req))
  else None.

(** [#define MAX_PAGE_NR ((32 * 1024 - 1 - 1 - 256 - 2) / sizeof(uint64_t))] *)
Definition MAX_PAGE_NR : Z := (32 * 1024 - 1 - 1 - 256 - 2) / 8.

Section SendReq.
(** The sink that receives each message.  For the file transport it is
    [postcopy_incoming_send_req_one] on a [QF.t]; instantiated with a
    recorder it yields the sequence of messages handed to the sink. *)
Context {F : Type}.
Variable send_one : F -> QEMUUMemReq -> option F.

(** The [while (nr > 0)] loop shared by the PAGE and PAGE_CONT cases. *)
Equations? send_req_loop (f : F) (n : Z) (tmp : QEMUUMemReq)
  : option F by wf (Z.to_nat n) lt :=
  send_req_loop f n tmp with Z_gt_dec n 0 := {
    | right _ => Some f
    | left _ =>
        let tmp := set_nr tmp (Z.min n MAX_PAGE_NR) in
        match send_one f tmp with
        | None => None
        | Some f' =>
            send_req_loop f' (n - nr tmp) (advance_pgoffs tmp (nr tmp))
        end }.
Proof.
  assert (MAX_PAGE_NR = 4063) by reflexivity. lia.
Qed.

Definition postcopy_file_incoming_send_req (f : F) (req : QEMUUMemReq)
  : option F :=
  let n := nr req in
  let tmp := req in
  if cmd req =? QEMU_UMEM_REQ_EOC then send_one f tmp
  else if cmd req =? QEMU_UMEM_REQ_PAGE then
    let tmp := set_nr tmp (Z.min n MAX_PAGE_NR) in
    match send_one f tmp with
    | None => None
    | Some f' =>
        let n := n - nr tmp in
        let tmp := advance_pgoffs tmp (nr tmp) in
        let tmp := set_cmd tmp QEMU_UMEM_REQ_PAGE_CONT in
        (* fall through *)
        send_req_loop f' n tmp
    end
  else if cmd req =? QEMU_UMEM_REQ_PAGE_CONT then send_req_loop f n tmp
  else None.
End SendReq.

(** The messages a request is split into: the sink records each one. *)
Definition record_one (log : list QEMUUMemReq) (r : QEMUUMemReq)
  : option (list QEMUUMemReq) := Some (log ++ [r]).

Definition frames_of (req : QEMUUMemReq) : option (list QEMUUMemReq) :=
  postcopy_file_incoming_send_req record_one [] req.

(** Handing a list of messages to a sink, stopping at the first abort. *)
Fixpoint send_all {F : Type} (send_one : F -> QEMUUMemReq -> option F)
         (fs : list QEMUUMemReq) (f : F) : option F :=
  match fs with
  | [] => Some f
  | r :: fs' =>
      match send_one f r with
      | None => None
      | Some f' => send_all send_one fs' f'
      end
  end.


(* ===================================================================== *)
(** * QEMUFile, read side, and the source's request parser *)

Module QR.

(** Modelled from the spec: the read buffer of a connection is "an explicit
    object supporting peek(len, offset) -> bytes | need-more and skip(n)"
    (section 9); the buffered-file layer itself is not among the sources.
    A file opened for reading is the list of bytes that are available and
    not yet consumed.  A peek returns what is there, possibly fewer bytes
    than asked for (its C return value is the length of the list); peeking
    one byte where there is none yields 0; skip consumes bytes that are
    buffered and does nothing otherwise. *)
Definition t : Type := list Z.

Definition qemu_peek_buffer (f : t) (size : Z) (offset : Z) : list Z :=
  firstn (Z.to_nat size) (skipn (Z.to_nat offset) f).

Definition qemu_peek_byte (f : t) (offset : Z) : Z :=
  nth (Z.to_nat offset) f 0.

Definition qemu_file_skip (f : t) (size : Z) : t :=
  if size <=? Z.of_nat (length f) then skipn (Z.to_nat size) f else f.

End QR.

(** [be32_to_cpu], [be64_to_cpu] on the bytes as they lie in memory. *)
Definition be_to_cpu (bytes : list Z) : Z :=
  fold_left (fun acc b => acc * 256 + b) bytes 0.

(** The block name as a C string: the bytes up to the first NUL. *)
Fixpoint c_str (bytes : list Z) : list Z :=
  match bytes with
  | [] => []
  | b :: rest => if b =? 0 then [] else b :: c_str rest
  end.

(** The parsing functions return the C return value, the request as filled
    in so far and the offset cursor. *)
Definition postcopy_outgoing_recv_req_idstr (f : QR.t) (req : QEMUUMemReq)
           (offset : Z) : Z * QEMUUMemReq * Z :=
  let req := set_len req (QR.qemu_peek_byte f offset) in
  let offset := offset + 1 in
  if len req =? 0 then (- EAGAIN, req, offset)
  else
    let got := QR.qemu_peek_buffer f (len req) offset in
    let ret := Z.of_nat (length got) in
    let offset := offset + ret in
    if negb (ret =? len req) then (- EAGAIN, req, offset)
    else (0, set_idstr req (c_str got), offset).

(** The [for (i = 0; i < req->nr; i++)] loop; [k] counts the remaining
    iterations and [acc] is the part of [req->pgoffs] filled in so far.
    [None] is the short read, on which the array is freed. *)
Fixpoint recv_req_pgoffs_loop (f : QR.t) (k : nat) (offset : Z)
         (acc : list Z) : option (list Z) * Z :=
  match k with
  | O => (Some acc, offset)
  | S k' =>
      let got := QR.qemu_peek_buffer f 8 offset in
      let ret := Z.of_nat (length got) in
      let offset := offset + 8 in
      if negb (ret =? 8) then (None, offset)
      else recv_req_pgoffs_loop f k' offset (acc ++ [be_to_cpu got])
  end.

Definition postcopy_outgoing_recv_req_pgoffs (f : QR.t) (req : QEMUUMemReq)
           (offset : Z) : Z * QEMUUMemReq * Z :=
  let got := QR.qemu_peek_buffer f 4 offset in
  let ret := Z.of_nat (length got) in
  let offset := offset + 4 in
  if negb (ret =? 4) then (- EAGAIN, req, offset)
  else
    let req := set_nr req (be_to_cpu got) in
    match recv_req_pgoffs_loop f (Z.to_nat (nr req)) offset [] with
    | (None, offset) => (- EAGAIN, set_pgoffs req [], offset)
    | (Some l, offset) => (0, set_pgoffs req l, offset)
    end.

(** [None] is [abort()].  Otherwise the C return value, the request and the
    file afterwards. *)
Definition postcopy_outgoing_recv_req (f : QR.t) (req : QEMUUMemReq)
  : option (Z * QEMUUMemReq * QR.t) :=
  let offset := 0 in
  let got := QR.qemu_peek_buffer f 1 offset in
  let size := Z.of_nat (length got) in
  if size <=? 0 then Some (- EAGAIN, req, f)
  else
    let req := set_cmd req (hd 0 got) in
    let offset := offset + 1 in
    if cmd req =? QEMU_UMEM_REQ_EOC then
      Some (0, req, QR.qemu_file_skip f offset)
    else if cmd req =? QEMU_UMEM_REQ_PAGE then
      let '(ret, req, offset) :=
        postcopy_outgoing_recv_req_idstr f req offset in
      if ret <? 0 then Some (ret, req, f)
      else
        let '(ret, req, offset) :=
          postcopy_outgoing_recv_req_pgoffs f req offset in
        if ret <? 0 then Some (ret, req, f)
        else Some (0, req, QR.qemu_file_skip f offset)
    else if cmd req =? QEMU_UMEM_REQ_PAGE_CONT then
      let '(ret, req, offset) :=
        postcopy_outgoing_recv_req_pgoffs f req offset in
      if ret <? 0 then Some (ret, req, f)
      else Some (0, req, QR.qemu_file_skip f offset)
    else None.

(** [QEMUUMemReq req = {.pgoffs = NULL};] *)
Definition req_init : QEMUUMemReq := mkReq 0 0 [] 0 [].

(** ** Vocabulary for the codec properties *)

(** The bytes [qemu_put_be32] and [qemu_put_be64] append. *)
Definition be32_bytes (v : Z) : list Z :=
  [Z.shiftr v 24 mod 256; Z.shiftr v 16 mod 256; Z.shiftr v 8 mod 256;
   v mod 256].

Definition be64_bytes (v : Z) : list Z :=
  be32_bytes (Z.shiftr v 32) ++ be32_bytes v.

(** A request as the request builder produces it: a known command, a
    non-empty block name of at most 255 non-NUL characters, [nr] 64-bit
    offsets with [nr] a [uint32_t]. *)
Record req_wf (r : QEMUUMemReq) : Prop := {
  wf_cmd : cmd r = QEMU_UMEM_REQ_EOC \/ cmd r = QEMU_UMEM_REQ_PAGE
           \/ cmd r = QEMU_UMEM_REQ_PAGE_CONT;
  wf_idstr : Forall (fun b => 0 < b < 256) (idstr r);
  wf_idlen : 0 < strlen (idstr r) <= 255;
  wf_nr : nr r = Z.of_nat (length (pgoffs r));
  wf_nr32 : nr r < 2 ^ 32;
  wf_pgoffs : Forall (fun v => 0 <= v < 2 ^ 64) (pgoffs r)
}.

(** Number of bytes of the message that a parsed request came from. *)
Definition wire_size (r : QEMUUMemReq) : Z :=
  if cmd r =? QEMU_UMEM_REQ_EOC then 1
  else if cmd r =? QEMU_UMEM_REQ_PAGE then 1 + (1 + len r) + 4 + 8 * nr r
  else 1 + 4 + 8 * nr r.

(** The bytes of one message as they appear on the wire. *)
Definition wire_bytes (r : QEMUUMemReq) : list Z :=
  cmd r ::
  (if cmd r =? QEMU_UMEM_REQ_PAGE then strlen (idstr r) :: idstr r else [])
  ++ (if cmd r =? QEMU_UMEM_REQ_EOC then []
      else be32_bytes (nr r) ++ flat_map be64_bytes (pgoffs r)).

(** A message as it goes on the wire: the offsets it carries are the
    [nr] first entries of the array its [pgoffs] points into. *)
Definition frame_on_wire (r : QEMUUMemReq) : QEMUUMemReq :=
  set_pgoffs r (req_pgoffs_array r).

Definition is_bytes (f : list Z) : Prop := Forall (fun b => 0 <= b < 256) f.

(* ===================================================================== *)
(** * Machine integers and bitmaps *)

Definition u32 (x : Z) : Z := x mod 2 ^ 32.
Definition u64 (x : Z) : Z := x mod 2 ^ 64.
(** Conversion to [int] (two's complement, 32 bits). *)
Definition to_int (x : Z) : Z := (x + 2 ^ 31) mod 2 ^ 32 - 2 ^ 31.

(** qemu/bitops.h on a bitmap held as a [Z]. *)
Definition test_bit (n : Z) (bitmap : Z) : bool := Z.testbit bitmap n.
Definition set_bit (n : Z) (bitmap : Z) : Z := Z.setbit bitmap n.
Definition clear_bit (n : Z) (bitmap : Z) : Z := Z.clearbit bitmap n.
Definition test_and_set_bit (n : Z) (bitmap : Z) : bool * Z :=
  (Z.testbit bitmap n, Z.setbit bitmap n).

(** [ffs(3)]: one plus the index of the least significant set bit, 0 for 0. *)
Fixpoint ctz (p : positive) : Z :=
  match p with
  | xO p' => 1 + ctz p'
  | _ => 0
  end.

Definition ffs (x : Z) : Z :=
  match x with
  | Z0 => 0
  | Zpos p => 1 + ctz p
  | Zneg p => 1 + ctz p
  end.

(* ===================================================================== *)
(** * Incoming part: page geometry and blocks *)

(** The read-only page parameters of [struct PostcopyIncomingUMemDaemon],
    as [postcopy_incoming_prepare] computes them from [getpagesize()]. *)
Record PageGeom : Type := mkGeom {
  host_page_size : Z;
  host_page_shift : Z;
  nr_host_pages_per_target_page : Z;
  host_to_target_page_shift : Z;
  nr_target_pages_per_host_page : Z;
  target_to_host_page_shift : Z
}.

Module UMB.
(** [struct UMemBlock]: the fields this file uses.  The four bitmaps are
    [phys_requested], [phys_received], [clean_bitmap] (indexed by target
    page) and [pending_clean_bitmap] (indexed by host page). *)
Record t : Type := mk {
  idstr : list Z;
  offset : Z;
  length : Z;
  phys_requested : Z;
  phys_received : Z;
  clean_bitmap : Z;
  pending_clean_bitmap : Z;
  nr_pending_clean : Z
}.

Definition set_phys_requested (b : t) (v : Z) : t :=
  mk (idstr b) (offset b) (length b) v (phys_received b) (clean_bitmap b)
     (pending_clean_bitmap b) (nr_pending_clean b).
Definition set_phys_received (b : t) (v : Z) : t :=
  mk (idstr b) (offset b) (length b) (phys_requested b) v (clean_bitmap b)
     (pending_clean_bitmap b) (nr_pending_clean b).
Definition set_clean_bitmap (b : t) (v : Z) : t :=
  mk (idstr b) (offset b) (length b) (phys_requested b) (phys_received b) v
     (pending_clean_bitmap b) (nr_pending_clean b).
Definition set_pending_clean (b : t) (bitmap n : Z) : t :=
  mk (idstr b) (offset b) (length b) (phys_requested b) (phys_received b)
     (clean_bitmap b) bitmap n.
End UMB.

Section TargetPage.
(** [TARGET_PAGE_BITS] comes from the target's cpu header. *)
Variable TARGET_PAGE_BITS : Z.

Definition TARGET_PAGE_SIZE : Z := Z.shiftl 1 TARGET_PAGE_BITS.

(** Lines of [postcopy_incoming_prepare] that set the page parameters;
    [pagesize] is [getpagesize()].  The divisions are C [int] divisions. *)
Definition prepare_geom (pagesize : Z) : PageGeom :=
  let nr_h := Z.quot TARGET_PAGE_SIZE pagesize in
  let nr_t := Z.quot pagesize TARGET_PAGE_SIZE in
  mkGeom pagesize (ffs pagesize - 1)
         nr_h (ffs nr_t - 1)
         nr_t (ffs nr_h - 1).

(* --------------------------------------------------------------------- *)
(** ** postcopy_incoming_umem_ram_loaded *)

(** The [for] loop that looks for a target page of the host page that has
    not been received; [k] counts the remaining iterations. *)
Fixpoint all_received_from (received : Z) (bit i : Z) (k : nat) : bool :=
  match k with
  | O => true
  | S k' =>
      if negb (test_bit (bit + i) received) then false
      else all_received_from received bit (i + 1) k'
  end.

(** Returns the block with the [received] bit set and the contents of
    [umemd.page_cached]: the host pages on which
    [postcopy_incoming_umem_mark_cached] is then called, when there are
    any. *)
Definition postcopy_incoming_umem_ram_loaded (g : PageGeom) (block : UMB.t)
           (offset : Z)
  : UMB.t * list Z :=
  let bit := to_int (Z.shiftr offset TARGET_PAGE_BITS) in
  let '(old, received) := test_and_set_bit bit (UMB.phys_received block) in
  let block := UMB.set_phys_received block received in
  if negb old then
    if TARGET_PAGE_SIZE >=? host_page_size g then
      let pgoff := Z.shiftr offset (host_page_shift g) in
      (block,
       map (fun i => u64 (pgoff + Z.of_nat i))
           (seq 0 (Z.to_nat (nr_host_pages_per_target_page g))))
    else
      let bit := Z.land bit (Z.lnot (nr_host_pages_per_target_page g - 1)) in
      let mark_cache :=
        all_received_from received bit 0
          (Z.to_nat (nr_target_pages_per_host_page g)) in
      if mark_cache then (block, [Z.shiftr offset (host_page_shift g)])
      else (block, [])
  else (block, []).

(* --------------------------------------------------------------------- *)
(** ** postcopy_incoming_umem_send_page_req *)

(** A page counts as present when it is clean (with precopy) or received. *)
Definition page_present (precopy_enabled : bool) (block : UMB.t) (p : Z)
  : bool :=
  (precopy_enabled && test_bit p (UMB.clean_bitmap block))
  || test_bit p (UMB.phys_received block).

(** First loop of the host >= ... else branch: is every target page of the
    host page present? *)
Fixpoint marked_clean_from (precopy_enabled : bool) (block : UMB.t)
         (target_pgoff j : Z) (k : nat) : bool :=
  match k with
  | O => true
  | S k' =>
      if precopy_enabled
         && test_bit (u64 (target_pgoff + j)) (UMB.clean_bitmap block)
      then marked_clean_from precopy_enabled block target_pgoff (j + 1) k'
      else if test_bit (u64 (target_pgoff + j)) (UMB.phys_received block)
      then marked_clean_from precopy_enabled block target_pgoff (j + 1) k'
      else false
  end.

(** Second loop: test-and-set [requested] for each target page of the host
    page, appending the ones that were clear to [req.pgoffs]. *)
Fixpoint request_from (requested : Z) (acc : list Z)
         (target_pgoff j : Z) (k : nat) : Z * list Z :=
  match k with
  | O => (requested, acc)
  | S k' =>
      let '(old, requested') :=
        test_and_set_bit (u64 (target_pgoff + j)) requested in
      request_from requested'
                   (if negb old then acc ++ [u64 (target_pgoff + j)] else acc)
                   target_pgoff (j + 1) k'
  end.

(** One iteration of either [for (i = 0; i < page_request->nr; i++)] loop.
    The state is the [requested] bitmap, [req.pgoffs] and
    [page_clean->pgoffs]. *)
Definition send_page_req_step (g : PageGeom) (precopy_enabled : bool)
           (block : UMB.t) (st : Z * list Z * list Z) (pgoff : Z)
  : Z * list Z * list Z :=
  let '(requested, req_pgoffs, clean_pgoffs) := st in
  if TARGET_PAGE_SIZE >=? host_page_size g then
    let target_pgoff := Z.shiftr pgoff (host_to_target_page_shift g) in
    if page_present precopy_enabled block target_pgoff then
      (requested, req_pgoffs,
       clean_pgoffs
         ++ map (fun j => u64 (pgoff + Z.of_nat j))
                (seq 0 (Z.to_nat (nr_host_pages_per_target_page g))))
    else
      let '(old, requested') := test_and_set_bit target_pgoff requested in
      (requested',
       if negb old then req_pgoffs ++ [target_pgoff] else req_pgoffs,
       clean_pgoffs)
  else
    let n := Z.to_nat (nr_target_pages_per_host_page g) in
    let target_pgoff := u64 (Z.shiftl pgoff (host_to_target_page_shift g)) in
    if marked_clean_from precopy_enabled block target_pgoff 0 n then
      (requested, req_pgoffs, clean_pgoffs ++ [pgoff])
    else
      let '(requested', req_pgoffs') :=
        request_from requested req_pgoffs target_pgoff 0 n in
      (requested', req_pgoffs', clean_pgoffs).

(** First part of [postcopy_incoming_umem_send_page_req]: the request and
    the clean list built from the faults [page_request] that
    [umem_get_page_request] returned for [block].  [same_block] is
    [umemd.last_block_write == block].  In the first branch a negative
    [host_to_target_page_shift] makes the shift undefined in C: [None]. *)
Definition send_page_req_build (g : PageGeom) (precopy_enabled : bool)
           (same_block : bool) (block : UMB.t) (page_request : list Z)
  : option (UMB.t * QEMUUMemReq * list Z) :=
  if (TARGET_PAGE_SIZE >=? host_page_size g)
     && (host_to_target_page_shift g <? 0)
  then None
  else
    let '(requested, req_pgoffs, clean_pgoffs) :=
      fold_left (send_page_req_step g precopy_enabled block) page_request
                (UMB.phys_requested block, [], []) in
    let req :=
      if negb same_block
      then mkReq QEMU_UMEM_REQ_PAGE 0 (UMB.idstr block)
                 (Z.of_nat (length req_pgoffs)) req_pgoffs
      else mkReq QEMU_UMEM_REQ_PAGE_CONT 0 []
                 (Z.of_nat (length req_pgoffs)) req_pgoffs in
    Some (UMB.set_phys_requested block requested, req, clean_pgoffs).

(** The write side of the daemon: [umemd.mig_write] (the bytes written to
    the source so far, [None] once closed) and [umemd.last_block_write]
    (the index of the block in [umemd.blocks]). *)
Record MigWrite : Type := mkMigWrite {
  mig_write : option QF.t;
  last_block_write : option nat
}.

(** The whole function, for the file transport ([umemd.rdma == NULL]).
    [get_error] and [page_request] are the result of
    [umem_get_page_request], [mark_error] that of [umem_mark_page_cached].
    Returns the C return value, the write side, the block and the list
    handed to [umem_mark_page_cached], if it was called.  [None] is
    undefined behaviour or [abort()]. *)
Definition postcopy_incoming_umem_send_page_req (g : PageGeom)
           (precopy_enabled : bool) (w : MigWrite) (index : nat)
           (block : UMB.t) (get_error : Z) (page_request : list Z)
           (mark_error : Z)
  : option (Z * MigWrite * UMB.t * option (list Z)) :=
  if negb (get_error =? 0) then Some (get_error, w, block, None)
  else
    let same_block :=
      match last_block_write w with
      | Some i => Nat.eqb i index
      | None => false
      end in
    match send_page_req_build g precopy_enabled same_block block
                              page_request with
    | None => None
    | Some (block', req, page_clean) =>
        let marked :=
          if (0 <? Z.of_nat (length page_clean)) then Some page_clean
          else None in
        if (0 <? Z.of_nat (length page_clean)) && negb (mark_error =? 0)
        then Some (mark_error, w, block', marked)
        else if 0 <? nr req then
          match mig_write w with
          | Some f =>
              match postcopy_file_incoming_send_req
                      postcopy_incoming_send_req_one f req with
              | None => None
              | Some f' =>
                  Some (0, mkMigWrite (Some f') (Some index), block', marked)
              end
          | None => Some (0, w, block', marked)
          end
        else Some (0, w, block', marked)
    end.

End TargetPage.

(* ===================================================================== *)
(** * QEMUFile, consuming reads *)

(** Modelled from the spec: the get primitives of the buffered-file layer
    (not among the sources) read big-endian integers from the byte stream
    (section 6).  At the end of the stream [qemu_get_byte] returns 0 and
    [qemu_get_buffer] returns fewer bytes than asked for. *)
Definition qemu_get_byte (f : QR.t) : Z * QR.t := (hd 0 f, tl f).

Definition qemu_get_buffer (f : QR.t) (size : Z) : list Z * QR.t :=
  (firstn (Z.to_nat size) f, skipn (Z.to_nat size) f).

Fixpoint qemu_get_bytes (n : nat) (f : QR.t) : list Z * QR.t :=
  match n with
  | O => ([], f)
  | S n' =>
      let '(b, f) := qemu_get_byte f in
      let '(bs, f) := qemu_get_bytes n' f in
      (b :: bs, f)
  end.

Definition qemu_get_be32 (f : QR.t) : Z * QR.t :=
  let '(bs, f) := qemu_get_bytes 4 f in (be_to_cpu bs, f).

Definition qemu_get_be64 (f : QR.t) : Z * QR.t :=
  let '(bs, f) := qemu_get_bytes 8 f in (be_to_cpu bs, f).

(* ===================================================================== *)
(** * QEMU_VM_POSTCOPY section: the INIT subtype *)

Definition QEMU_VM_POSTCOPY_INIT : Z := 0.
Definition QEMU_VM_POSTCOPY_SECTION_FULL : Z := 1.
Definition POSTCOPY_OPTION_PRECOPY : Z := 1.

(** [savevm_ram_handlers.load_state] *)
Inductive ram_load_handler : Type :=
| postcopy_incoming_ram_load
| postcopy_incoming_ram_load_precopy.

(** What [postcopy_incoming_loadvm_init] asks of its surroundings: whether
    the file is an RDMA one, whether its descriptor is open read/write,
    whether [mem_path] is set, and the result of
    [postcopy_incoming_prepare]. *)
Record InitEnv : Type := mkInitEnv {
  file_is_rdma : bool;
  fd_is_rdwr : bool;
  mem_path_set : bool;
  prepare_error : Z
}.

(** Returns the C return value, [umemd.precopy_enabled], the RAM load
    handler and the file. *)
Definition postcopy_incoming_loadvm_init (env : InitEnv)
           (precopy_enabled : bool) (handler : ram_load_handler)
           (f : QR.t) (size : Z)
  : Z * bool * ram_load_handler * QR.t :=
  if negb (size =? 8) then (- EINVAL, precopy_enabled, handler, f)
  else
    let '(options, f) := qemu_get_be64 f in
    let '(options, precopy_enabled) :=
      if negb (Z.land options POSTCOPY_OPTION_PRECOPY =? 0)
      then (u64 (Z.land options (Z.lnot POSTCOPY_OPTION_PRECOPY)), true)
      else (options, false) in
    if negb (options =? 0) then (- ENOSYS, precopy_enabled, handler, f)
    else if negb (file_is_rdma env) && negb (fd_is_rdwr env)
    then (- EINVAL, precopy_enabled, handler, f)
    else if mem_path_set env then (- ENOSYS, precopy_enabled, handler, f)
    else if negb (prepare_error env =? 0)
    then (prepare_error env, precopy_enabled, handler, f)
    else if precopy_enabled
    then (0, precopy_enabled, postcopy_incoming_ram_load_precopy, f)
    else (0, precopy_enabled, postcopy_incoming_ram_load, f).

(** [postcopy_outgoing_state_begin]: the INIT section the source writes. *)
Definition postcopy_outgoing_state_begin (f : QF.t) (precopy_count : Z)
  : QF.t :=
  let options := 0 in
  let options :=
    if precopy_count >? 0 then Z.lor options POSTCOPY_OPTION_PRECOPY
    else options in
  let f := QF.qemu_put_byte f QEMU_VM_POSTCOPY_INIT in
  let f := QF.qemu_put_be32 f 8 in
  QF.qemu_put_be64 f options.

(** [postcopy_outgoing_state_complete] *)
Definition postcopy_outgoing_state_complete (f : QF.t) (buffer : list Z)
  : QF.t :=
  let f := QF.qemu_put_byte f QEMU_VM_POSTCOPY_SECTION_FULL in
  let f := QF.qemu_put_be32 f (Z.of_nat (length buffer)) in
  QF.qemu_put_buffer f buffer.

(* ===================================================================== *)
(** * The umem daemon: state word, clean bitmap, threads *)

Definition UMEM_STATE_EOS_RECEIVED : Z := 0x01.
Definition UMEM_STATE_EOC_SEND_REQ : Z := 0x02.
Definition UMEM_STATE_EOC_SENDING : Z := 0x04.
Definition UMEM_STATE_EOC_SENT : Z := 0x08.
Definition UMEM_STATE_QUIT_RECEIVED : Z := 0x10.
Definition UMEM_STATE_QUIT_HANDLED : Z := 0x20.
Definition UMEM_STATE_QUIT_QUEUED : Z := 0x40.
Definition UMEM_STATE_QUIT_SENDING : Z := 0x80.
Definition UMEM_STATE_QUIT_SENT : Z := 0x100.
Definition UMEM_STATE_ERROR_REQ : Z := 0x1000.
Definition UMEM_STATE_ERROR_SENDING : Z := 0x2000.
Definition UMEM_STATE_ERROR_SENT : Z := 0x3000.

Definition UMEM_STATE_QUIT_MASK : Z :=
  Z.lor UMEM_STATE_QUIT_QUEUED
        (Z.lor UMEM_STATE_QUIT_SENDING
               (Z.lor UMEM_STATE_QUIT_SENT
                      (Z.lor UMEM_STATE_QUIT_RECEIVED
                             UMEM_STATE_QUIT_HANDLED))).
Definition UMEM_STATE_END_MASK : Z :=
  Z.lor UMEM_STATE_EOS_RECEIVED
        (Z.lor UMEM_STATE_EOC_SEND_REQ
               (Z.lor UMEM_STATE_EOC_SENDING
                      (Z.lor UMEM_STATE_EOC_SENT UMEM_STATE_QUIT_MASK))).

(** Command bytes of the control pipes.  They are declared in umem.h, which
    is not among the sources; the model takes the characters 'q', 'Q' and
    'E'.  The code requires [UMEM_QEMU_QUIT] to differ from 0. *)
Definition UMEM_QEMU_QUIT : Z := 113.
Definition UMEM_DAEMON_QUIT : Z := 81.
Definition UMEM_DAEMON_ERROR : Z := 69.

(** Threads the daemon starts while it runs. *)
Inductive thread_id : Type :=
| bitmap_thread
| pending_clean_thread.

(** The part of the global [umemd] that the functions below touch.
    [to_qemu] tells whether the file to the supervisor is open
    ([umemd.to_qemu != NULL]); [to_qemu_pipe] holds the bytes written to
    that pipe so far, which outlive the closing of the file. *)
Record Umemd : Type := mkUmemd {
  state : Z;
  precopy_enabled : bool;
  blocks : list UMB.t;
  mig_read : option QR.t;
  to_qemu : bool;
  to_qemu_pipe : QF.t;
  from_qemu : option QR.t;
  spawned : list thread_id
}.

Definition set_state (u : Umemd) (v : Z) : Umemd :=
  mkUmemd v (precopy_enabled u) (blocks u) (mig_read u) (to_qemu u)
          (to_qemu_pipe u) (from_qemu u) (spawned u).
Definition set_blocks (u : Umemd) (v : list UMB.t) : Umemd :=
  mkUmemd (state u) (precopy_enabled u) v (mig_read u) (to_qemu u)
          (to_qemu_pipe u) (from_qemu u) (spawned u).
Definition set_mig_read (u : Umemd) (v : option QR.t) : Umemd :=
  mkUmemd (state u) (precopy_enabled u) (blocks u) v (to_qemu u)
          (to_qemu_pipe u) (from_qemu u) (spawned u).
Definition set_to_qemu (u : Umemd) (v : bool) : Umemd :=
  mkUmemd (state u) (precopy_enabled u) (blocks u) (mig_read u) v
          (to_qemu_pipe u) (from_qemu u) (spawned u).
Definition set_to_qemu_pipe (u : Umemd) (v : QF.t) : Umemd :=
  mkUmemd (state u) (precopy_enabled u) (blocks u) (mig_read u) (to_qemu u)
          v (from_qemu u) (spawned u).
Definition set_from_qemu (u : Umemd) (v : option QR.t) : Umemd :=
  mkUmemd (state u) (precopy_enabled u) (blocks u) (mig_read u) (to_qemu u)
          (to_qemu_pipe u) v (spawned u).
Definition spawn (u : Umemd) (t : thread_id) : Umemd :=
  mkUmemd (state u) (precopy_enabled u) (blocks u) (mig_read u) (to_qemu u)
          (to_qemu_pipe u) (from_qemu u) (spawned u ++ [t]).

(** [state & mask] as a C condition. *)
Definition state_has (u : Umemd) (mask : Z) : bool :=
  negb (Z.land (state u) mask =? 0).

Definition postcopy_incoming_umem_error_req (u : Umemd) : Umemd :=
  set_state u (Z.lor (state u) UMEM_STATE_ERROR_REQ).

Definition postcopy_incoming_umem_recv_quit (u : Umemd) : Umemd :=
  if state_has u UMEM_STATE_QUIT_RECEIVED then u
  else
    let u := set_state u (Z.lor (state u) UMEM_STATE_QUIT_RECEIVED) in
    let u := set_from_qemu u None in
    set_state u (Z.lor (state u) UMEM_STATE_QUIT_HANDLED).

Definition postcopy_incoming_umem_queue_quit_locked (u : Umemd) : Umemd :=
  if state_has u UMEM_STATE_QUIT_QUEUED then u
  else set_state u (Z.lor (state u) UMEM_STATE_QUIT_QUEUED).

Definition postcopy_incoming_umem_req_eoc (u : Umemd) : Umemd :=
  set_state u (Z.lor (state u) UMEM_STATE_EOC_SEND_REQ).

Definition postcopy_incoming_umem_done (u : Umemd) : Umemd :=
  postcopy_incoming_umem_queue_quit_locked
    (postcopy_incoming_umem_req_eoc u).

Definition postcopy_incoming_umem_eos_received (u : Umemd) : Umemd :=
  let u := postcopy_incoming_umem_queue_quit_locked u in
  set_state u (Z.lor (state u) UMEM_STATE_EOS_RECEIVED).

(** [all_done] is the conjunction of [umem_shmem_finished] over the
    blocks, which the backing store decides. *)
Definition postcopy_incoming_umem_check_umem_done (all_done : bool)
           (u : Umemd) : bool * Umemd :=
  if all_done then (true, postcopy_incoming_umem_done u) else (false, u).

(* --------------------------------------------------------------------- *)
(** ** Reading the clean bitmap *)

(** [strncmp(a, b, n) == 0] on C strings held without their terminator. *)
Fixpoint strncmp_eq (a b : list Z) (n : nat) : bool :=
  match n with
  | O => true
  | S n' =>
      match a, b with
      | [], [] => true
      | x :: a', y :: b' => (x =? y) && strncmp_eq a' b' n'
      | _, _ => false
      end
  end.

(** The [QLIST_FOREACH] search of [postcopy_incoming_umemd_read_clean_bitmap]:
    the index of the first block whose name matches. *)
Fixpoint find_block_index (bs : list UMB.t) (name : list Z) (idlen : Z)
  : option nat :=
  match bs with
  | [] => None
  | b :: bs' =>
      if strncmp_eq (UMB.idstr b) name (Z.to_nat idlen) then Some O
      else option_map S (find_block_index bs' name idlen)
  end.

(** The bytes of a bitmap in memory and the bitmap of a list of 64-bit
    words, for a little-endian host with [HOST_LONG_BITS == 64]. *)
Definition bitmap_bytes (bitmap : Z) (n : nat) : list Z :=
  map (fun j => Z.land (Z.shiftr bitmap (8 * Z.of_nat j)) 255) (seq 0 n).

Fixpoint bitmap_of_words (ws : list Z) : Z :=
  match ws with
  | [] => 0
  | w :: ws' => Z.lor w (Z.shiftl (bitmap_of_words ws') 64)
  end.

(** [postcopy_be64_to_bitmap]: each group of 8 bytes, read as a big-endian
    integer, becomes one word of the bitmap.  [n] is the number of words,
    [length / sizeof(uint64_t)]. *)
Fixpoint postcopy_be64_to_bitmap (buffer : list Z) (n : nat) : list Z :=
  match n with
  | O => []
  | S n' =>
      be_to_cpu (firstn 8 buffer)
      :: postcopy_be64_to_bitmap (skipn 8 buffer) n'
  end.

(** [qemu_get_buffer] into the memory of a bitmap followed by
    [postcopy_be64_to_bitmap]: the bytes read replace the first bytes of
    the bitmap, the first [bitmap_length] bytes are converted, the rest of
    the bitmap is untouched.  The caller checks [bitmap_length] against
    the allocation of the bitmap. *)
Definition load_be64_bitmap (old : Z) (got : list Z) (bitmap_length : Z)
  : Z :=
  let n := Z.to_nat bitmap_length in
  let mem := got ++ skipn (length got) (bitmap_bytes old n) in
  let low :=
    bitmap_of_words (postcopy_be64_to_bitmap mem (Z.to_nat (bitmap_length / 8)))
  in
  Z.lor low (Z.shiftl (Z.shiftr old (8 * bitmap_length)) (8 * bitmap_length)).

(** Modelled from the spec: [bitmap_copy(dst, src, nbits)] of the bitmap
    library (not among the sources) copies whole words, "sized to the
    block's target-page count (rounded up to 64)" (section 4.2). *)
Definition bitmap_copy (dst src nbits : Z) : Z :=
  let k := 64 * ((nbits + 63) / 64) in
  Z.lor (Z.land src (Z.ones k)) (Z.shiftl (Z.shiftr dst k) k).

Section CleanBitmap.
Variable TARGET_PAGE_BITS : Z.

Definition postcopy_incoming_umemd_read_clean_bitmap_done (block : UMB.t)
  : UMB.t :=
  let nbits := Z.shiftr (UMB.length block) TARGET_PAGE_BITS in
  let block :=
    UMB.set_phys_requested block
      (bitmap_copy (UMB.phys_requested block) (UMB.phys_received block)
                   nbits) in
  UMB.set_clean_bitmap block
    (bitmap_copy (UMB.clean_bitmap block) (UMB.phys_received block) nbits).

(** Replace the block at [index]. *)
Fixpoint update_block (bs : list UMB.t) (index : nat) (b : UMB.t)
  : list UMB.t :=
  match bs, index with
  | [], _ => []
  | _ :: bs', O => b :: bs'
  | x :: bs', S i => x :: update_block bs' i b
  end.

(** The bytes allocated for each of the bitmaps [phys_requested],
    [phys_received] and [clean_bitmap] of a block:
    [postcopy_incoming_create_umemd] gives them
    [ROUND_UP(block->length >> TARGET_PAGE_BITS, 64)] bits ([nbits] there
    is an [int]; the model keeps its mathematical value). *)
Definition bitmap_alloc_bytes (block : UMB.t) : Z :=
  8 * ((Z.shiftr (UMB.length block) TARGET_PAGE_BITS + 63) / 64).

(** Returns the C return value, the file and the blocks.  The buffer
    that is read into and converted is the memory of [phys_received]: a
    [bitmap_length] beyond its allocation writes past it, [None]. *)
Definition postcopy_incoming_umemd_read_clean_bitmap (f : QR.t)
           (bs : list UMB.t) (name : list Z) (idlen : Z)
           (block_offset block_length bitmap_length : Z)
  : option (Z * QR.t * list UMB.t) :=
  if negb (bitmap_length mod 8 =? 0) then Some (- EINVAL, f, bs)
  else
    match find_block_index bs name idlen with
    | None => Some (- EINVAL, f, bs)
    | Some index =>
        let block := nth index bs (UMB.mk [] 0 0 0 0 0 0 0) in
        if bitmap_alloc_bytes block <? bitmap_length then None
        else
          let '(got, f) := qemu_get_buffer f bitmap_length in
          let block :=
            UMB.set_phys_received block
              (load_be64_bitmap (UMB.phys_received block) got
                                bitmap_length) in
          let block := postcopy_incoming_umemd_read_clean_bitmap_done block in
          Some (0, f, update_block bs index block)
    end.

(** The [for (;;)] loop of
    [postcopy_file_incoming_umemd_read_clean_bitmap]; [None] when a record
    overflows its bitmap and when [fuel] runs out before the loop ends. *)
Fixpoint read_clean_bitmap_loop (fuel : nat) (f : QR.t) (bs : list UMB.t)
  : option (Z * QR.t * list UMB.t) :=
  match fuel with
  | O => None
  | S fuel' =>
      let '(idlen, f) := qemu_get_byte f in
      let '(name, f) := qemu_get_buffer f idlen in
      let '(block_offset, f) := qemu_get_be64 f in
      let '(block_length, f) := qemu_get_be64 f in
      let '(bitmap_length, f) := qemu_get_be64 f in
      if (idlen =? 0) && (block_offset =? 0) && (block_length =? 0)
         && (bitmap_length =? 0)
      then Some (0, f, bs)
      else
        match postcopy_incoming_umemd_read_clean_bitmap
                f bs (c_str name) idlen block_offset block_length
                bitmap_length with
        | None => None
        | Some (ret, f, bs) =>
            if ret <? 0 then Some (ret, f, bs)
            else read_clean_bitmap_loop fuel' f bs
        end
  end.

(** Every turn of the loop but the last consumes at least one byte, and
    an empty stream reads as the terminator. *)
Definition postcopy_file_incoming_umemd_read_clean_bitmap (f : QR.t)
           (bs : list UMB.t) : option (Z * QR.t * list UMB.t) :=
  read_clean_bitmap_loop (S (length f)) f bs.

(** [postcopy_incoming_umemd_mig_read_init] for the file transport
    ([umemd.rdma == NULL]).  [None]: [umemd.mig_read] is NULL, or the loop
    above overflowed a bitmap or did not end. *)
Definition postcopy_incoming_umemd_mig_read_init (all_done : bool)
           (u : Umemd) : option (Z * Umemd) :=
  if negb (precopy_enabled u) then Some (0, spawn u pending_clean_thread)
  else
    match mig_read u with
    | None => None
    | Some f =>
        match postcopy_file_incoming_umemd_read_clean_bitmap f (blocks u)
        with
        | None => None
        | Some (ret, f, bs) =>
            let u := set_blocks (set_mig_read u (Some f)) bs in
            if negb (ret =? 0) then Some (ret, u)
            else
              let u := spawn u bitmap_thread in
              let '(_, u) :=
                postcopy_incoming_umem_check_umem_done all_done u in
              Some (0, u)
        end
    end.

End CleanBitmap.

(* --------------------------------------------------------------------- *)
(** ** Daemon threads *)

Section IncomingThread.
(** [struct IncomingThread]: an optional [init_func] and a [loop_func],
    each returning an error code.  [None] from either is [abort()] or
    undefined behaviour. *)
Variable init_func : option (Umemd -> option (Z * Umemd)).
Variable loop_func : Umemd -> option (Z * Umemd).

(** The [for (;;)] of [postcopy_incoming_umemd_thread].  The result is the
    daemon when the thread returns, with the number of calls of
    [loop_func]; [None] when the thread aborts or is still running after
    [fuel] turns. *)
Fixpoint umemd_thread_loop (fuel : nat) (calls : nat) (u : Umemd)
  : option (nat * Umemd) :=
  match fuel with
  | O => None
  | S fuel' =>
      if Z.land (state u) UMEM_STATE_END_MASK =? UMEM_STATE_END_MASK
      then Some (calls, u)
      else
        match loop_func u with
        | None => None
        | Some (error, u) =>
            if negb (error =? 0) then Some (S calls, u)
            else umemd_thread_loop fuel' (S calls) u
        end
  end.

Definition postcopy_incoming_umemd_thread (fuel : nat) (u : Umemd)
  : option (nat * Umemd) :=
  match init_func with
  | Some init =>
      match init u with
      | None => None
      | Some (error, u) =>
          if negb (error =? 0)
          then Some (O, postcopy_incoming_umem_error_req u)
          else umemd_thread_loop fuel O u
      end
  | None => umemd_thread_loop fuel O u
  end.
End IncomingThread.

(** What [select] and the supervisor's pipe give one turn of
    [postcopy_incoming_umemd_pipe_loop]. *)
Record PipeEnv : Type := mkPipeEnv {
  select_ret : Z;
  errno_is_eintr : bool;
  from_qemu_readable : bool
}.

(** Modelled from the spec: [umem_daemon_error] and [umem_daemon_quit]
    (umem.c, not among the sources) send the control protocol's "command
    byte only" (section 6). *)
Definition umem_daemon_error (f : QF.t) : QF.t :=
  QF.qemu_put_byte f UMEM_DAEMON_ERROR.
Definition umem_daemon_quit (f : QF.t) : QF.t :=
  QF.qemu_put_byte f UMEM_DAEMON_QUIT.

(** [None] is [abort()]. *)
Definition postcopy_incoming_umemd_pipe_loop (env : PipeEnv) (u : Umemd)
  : option (Z * Umemd) :=
  if select_ret env =? -1 then
    if errno_is_eintr env then Some (0, u) else Some (select_ret env, u)
  else
    let after_cmd :=
      match from_qemu u with
      | Some f =>
          if from_qemu_readable env then
            let '(c, f) := qemu_get_byte f in
            let u := set_from_qemu u (Some f) in
            if c =? UMEM_QEMU_QUIT then
              Some (postcopy_incoming_umem_done
                      (postcopy_incoming_umem_recv_quit u))
            else if c =? 0 then Some u
            else None
          else Some u
      | None => Some u
      end in
    match after_cmd with
    | None => None
    | Some u =>
        if negb (to_qemu u) then Some (0, u)
        else
          let u :=
            if state_has u UMEM_STATE_ERROR_REQ
               && negb (state_has u UMEM_STATE_ERROR_SENDING)
            then
              let u := set_state u (Z.lor (state u)
                                          UMEM_STATE_ERROR_SENDING) in
              let u := set_to_qemu_pipe u
                         (umem_daemon_error (to_qemu_pipe u)) in
              set_state u (Z.lor (state u) UMEM_STATE_ERROR_SENT)
            else u in
          let u :=
            if state_has u UMEM_STATE_QUIT_QUEUED
               && negb (state_has u (Z.lor UMEM_STATE_QUIT_SENDING
                                           UMEM_STATE_QUIT_SENT))
            then
              let u := set_state u (Z.lor (state u)
                                          UMEM_STATE_QUIT_SENDING) in
              let u := set_to_qemu_pipe u
                         (umem_daemon_quit (to_qemu_pipe u)) in
              let u := set_to_qemu u false in
              set_state u (Z.lor (state u) UMEM_STATE_QUIT_SENT)
            else u in
          Some (0, u)
    end.

(** The supervisor's pipe gives a turn of the pipe loop nothing to read,
    the QUIT command, or the end of the file (which reads as 0); on any
    other byte the loop calls [abort()]. *)
Definition no_unknown_command (env : PipeEnv) (u : Umemd) : Prop :=
  match from_qemu u with
  | Some f =>
      from_qemu_readable env = false
      \/ hd 0 f = UMEM_QEMU_QUIT \/ hd 0 f = 0
  | None => True
  end.

(** The header of one clean-bitmap record, as the loop of
    [postcopy_file_incoming_umemd_read_clean_bitmap] reads it: name length,
    name, block offset, block length, bitmap length, and the file after
    it. *)
Definition clean_bitmap_header (f : QR.t)
  : Z * list Z * Z * Z * Z * QR.t :=
  let '(idlen, f) := qemu_get_byte f in
  let '(name, f) := qemu_get_buffer f idlen in
  let '(block_offset, f) := qemu_get_be64 f in
  let '(block_length, f) := qemu_get_be64 f in
  let '(bitmap_length, f) := qemu_get_be64 f in
  (idlen, name, block_offset, block_length, bitmap_length, f).

(** The header at the start of [f] is the terminator of the records. *)
Definition is_terminator (f : QR.t) : bool :=
  let '(idlen, _, block_offset, block_length, bitmap_length, _) :=
    clean_bitmap_header f in
  (idlen =? 0) && (block_offset =? 0) && (block_length =? 0)
  && (bitmap_length =? 0).

(** [accepted_records TPB f bs f' bs' n]: starting with the file [f] and
    the blocks [bs], the record reader accepts [n] records one after the
    other, none of them the terminator, and leaves the file [f'] and the
    blocks [bs']. *)
Inductive accepted_records (TARGET_PAGE_BITS : Z)
  : QR.t -> list UMB.t -> QR.t -> list UMB.t -> nat -> Prop :=
| accepted_none (f : QR.t) (bs : list UMB.t) :
    accepted_records TARGET_PAGE_BITS f bs f bs O
| accepted_next (f f1 f2 f' : QR.t) (bs bs2 bs' : list UMB.t)
                (idlen block_offset block_length bitmap_length ret : Z)
                (name : list Z) (n : nat) :
    clean_bitmap_header f
    = (idlen, name, block_offset, block_length, bitmap_length, f1) ->
    is_terminator f = false ->
    postcopy_incoming_umemd_read_clean_bitmap
      TARGET_PAGE_BITS f1 bs (c_str name) idlen block_offset block_length
      bitmap_length = Some (ret, f2, bs2) ->
    0 <= ret ->
    accepted_records TARGET_PAGE_BITS f2 bs2 f' bs' n ->
    accepted_records TARGET_PAGE_BITS f bs f' bs' (S n).

(** A daemon about to read a clean-bitmap record for block "r" whose
    bitmap length is 12. *)
Definition umemd_bad_bitmap : Umemd :=
  mkUmemd 0 true [UMB.mk [114] 0 524288 0 0 0 0 0]
          (Some ([1; 114] ++ [0; 0; 0; 0; 0; 0; 0; 0]
                   ++ [0; 0; 0; 0; 0; 8; 0; 0] ++ [0; 0; 0; 0; 0; 0; 0; 12]
                   ++ [255; 0; 0; 0; 0; 0; 0; 1; 128; 0; 0; 0]))
          true [] (Some []) [].

(** A daemon about to read two clean-bitmap records for block "r" (128
    target pages of 4096 bytes): a well-formed one of 16 bytes, then one
    whose bitmap length is 12. *)
Definition umemd_bad_second_bitmap : Umemd :=
  mkUmemd 0 true [UMB.mk [114] 0 524288 0 0 0 0 0]
          (Some ([1; 114] ++ [0; 0; 0; 0; 0; 0; 0; 0]
                   ++ [0; 0; 0; 0; 0; 8; 0; 0] ++ [0; 0; 0; 0; 0; 0; 0; 16]
                   ++ [0; 0; 0; 0; 0; 0; 0; 5; 0; 0; 0; 0; 0; 0; 0; 0]
                   ++ [1; 114] ++ [0; 0; 0; 0; 0; 0; 0; 0]
                   ++ [0; 0; 0; 0; 0; 8; 0; 0] ++ [0; 0; 0; 0; 0; 0; 0; 12]
                   ++ [255; 0; 0; 0; 0; 0; 0; 1; 128; 0; 0; 0]))
          true [] (Some []) [].

(* ===================================================================== *)
(** * Outgoing part *)

Module RB.
(** [RAMBlock]: the fields this file uses. *)
Record t : Type := mk {
  idstr : list Z;
  offset : Z;
  length : Z
}.
End RB.

(** [RAM_SAVE_FLAG_EOS] is defined with the RAM codec, which is not among
    the sources; the model takes the codec's value. *)
Definition RAM_SAVE_FLAG_EOS : Z := 0x10.

(** What the source writes to the migration stream.  The page codec
    ([ram_save_page], [ram_save_block]) is outside this file: a page it
    writes is recorded by block and offset. *)
Inductive stream_item : Type :=
| SavePage (block : RB.t) (offset : Z)
| PutBe64 (v : Z).

Definition ram_save_page (f : list stream_item) (block : RB.t) (offset : Z)
  : list stream_item := f ++ [SavePage block offset].

(** Modelled from the spec: [postcopy_bitmap_to_uint64] (declared in
    postcopy.h, not among the sources) reads the 64 bits of a bitmap that
    start at a word; section 9 fixes the word layout ("on 32-bit hosts
    split into two machine words (low word first)").  [word] is the index
    of the 64-bit word. *)
Definition postcopy_bitmap_to_uint64 (bitmap : Z) (word : Z) : Z :=
  Z.land (Z.shiftr bitmap (64 * word)) (Z.ones 64).

Definition BIT_WORD (i : Z) : Z := i / 64.

(** [enum] of the states of [PostcopyOutgoingState]. *)
Inductive po_state : Type :=
| PO_STATE_ACTIVE
| PO_STATE_EOC_RECEIVED
| PO_STATE_ALL_PAGES_SENT
| PO_STATE_COMPLETED
| PO_STATE_ERROR_RECEIVE.

Definition po_state_eqb (a b : po_state) : bool :=
  match a, b with
  | PO_STATE_ACTIVE, PO_STATE_ACTIVE
  | PO_STATE_EOC_RECEIVED, PO_STATE_EOC_RECEIVED
  | PO_STATE_ALL_PAGES_SENT, PO_STATE_ALL_PAGES_SENT
  | PO_STATE_COMPLETED, PO_STATE_COMPLETED
  | PO_STATE_ERROR_RECEIVE, PO_STATE_ERROR_RECEIVE => true
  | _, _ => false
  end.

(** [MigrationState] with its [PostcopyOutgoingState]: [po] is
    [s->state], [file] the stream written so far, [file_read] the buffered
    requests, [last_seen] the argument of the last
    [ram_save_set_last_seen_block]. *)
Record MigrationState : Type := mkMS {
  po : po_state;
  last_block_read : option RB.t;
  file : list stream_item;
  file_read : QR.t;
  ram_list : list RB.t;
  prefault_forward : Z;
  prefault_backward : Z;
  move_background : bool;
  no_background : bool;
  last_seen : option (RB.t * Z)
}.

Definition set_po (m : MigrationState) (v : po_state) : MigrationState :=
  mkMS v (last_block_read m) (file m) (file_read m) (ram_list m)
       (prefault_forward m) (prefault_backward m) (move_background m)
       (no_background m) (last_seen m).
Definition set_last_block_read (m : MigrationState) (v : option RB.t)
  : MigrationState :=
  mkMS (po m) v (file m) (file_read m) (ram_list m)
       (prefault_forward m) (prefault_backward m) (move_background m)
       (no_background m) (last_seen m).
Definition set_file (m : MigrationState) (v : list stream_item)
  : MigrationState :=
  mkMS (po m) (last_block_read m) v (file_read m) (ram_list m)
       (prefault_forward m) (prefault_backward m) (move_background m)
       (no_background m) (last_seen m).
Definition set_file_read (m : MigrationState) (v : QR.t) : MigrationState :=
  mkMS (po m) (last_block_read m) (file m) v (ram_list m)
       (prefault_forward m) (prefault_backward m) (move_background m)
       (no_background m) (last_seen m).
Definition set_last_seen (m : MigrationState) (v : option (RB.t * Z))
  : MigrationState :=
  mkMS (po m) (last_block_read m) (file m) (file_read m) (ram_list m)
       (prefault_forward m) (prefault_backward m) (move_background m)
       (no_background m) v.

(** Modelled from the spec: [ram_find_block] (with the RAM codec, not among
    the sources) "look[s] up the block" named by the request (section
    4.8): the first block of the list whose name matches. *)
Fixpoint ram_find_block (bs : list RB.t) (name : list Z) (n : Z)
  : option RB.t :=
  match bs with
  | [] => None
  | b :: bs' =>
      if strncmp_eq name (RB.idstr b) (Z.to_nat n) then Some b
      else ram_find_block bs' name n
  end.

Section Outgoing.
Variable TARGET_PAGE_BITS : Z.

(* --------------------------------------------------------------------- *)
(** ** The clean bitmap *)

Definition postcopy_bitmap_length (length : Z) : Z :=
  u64 ((Z.shiftr length TARGET_PAGE_BITS + 63) / 64 * 8).

(** The inner [for (j = 0; j < 63; j++)] loop of the unaligned case, from
    [j] on for [k] turns. *)
Fixpoint clean_word_loop (bitmap : Z) (i : Z) (tmp : Z) (j : Z) (k : nat)
  : Z :=
  match k with
  | O => tmp
  | S k' =>
      let tmp := if negb (test_bit (i + j) bitmap) then set_bit j tmp
                 else tmp in
      clean_word_loop bitmap i tmp (j + 1) k'
  end.

(** The [for (i = end_uint64; i < end; i++)] loop of the last, partial
    word. *)
Fixpoint clean_tail_loop (bitmap : Z) (end_uint64 : Z) (tmp : Z) (i : Z)
         (k : nat) : Z :=
  match k with
  | O => tmp
  | S k' =>
      let tmp := if negb (test_bit i bitmap)
                 then set_bit (i - end_uint64) tmp else tmp in
      clean_tail_loop bitmap end_uint64 tmp (i + 1) k'
  end.

(** The [for (i = start; i < end_uint64; i += 64)] loops, from [i] on for
    [k] turns. *)
Fixpoint clean_words_aligned (f : QF.t) (bitmap : Z) (i : Z) (k : nat)
  : QF.t :=
  match k with
  | O => f
  | S k' =>
      let val := postcopy_bitmap_to_uint64 bitmap (BIT_WORD i) in
      let val := u64 (Z.lnot val) in
      clean_words_aligned (QF.qemu_put_be64 f val) bitmap (i + 64) k'
  end.

Fixpoint clean_words_unaligned (f : QF.t) (bitmap : Z) (i : Z) (k : nat)
  : QF.t :=
  match k with
  | O => f
  | S k' =>
      let tmp := clean_word_loop bitmap i 0 0 63 in
      let val := postcopy_bitmap_to_uint64 tmp 0 in
      clean_words_unaligned (QF.qemu_put_be64 f val) bitmap (i + 64) k'
  end.

(** The body of the [QTAILQ_FOREACH] of
    [postcopy_outgoing_send_clean_bitmap]. *)
Definition send_clean_bitmap_block (bitmap : Z) (f : QF.t) (block : RB.t)
  : QF.t :=
  let f := QF.qemu_put_byte f (strlen (RB.idstr block)) in
  let f := QF.qemu_put_buffer f (RB.idstr block) in
  let f := QF.qemu_put_be64 f (RB.offset block) in
  let f := QF.qemu_put_be64 f (RB.length block) in
  let start := Z.shiftr (RB.offset block) TARGET_PAGE_BITS in
  let end_ := Z.shiftr (u64 (RB.offset block + RB.length block))
                       TARGET_PAGE_BITS in
  let length := postcopy_bitmap_length (RB.length block) in
  let f := QF.qemu_put_be64 f length in
  let end_uint64 :=
    u64 (start + Z.land (u64 (end_ - start)) (u64 (Z.lnot 63))) in
  let nwords := Z.to_nat ((end_uint64 - start + 63) / 64) in
  let f :=
    if start mod 64 =? 0
    then clean_words_aligned f bitmap start nwords
    else clean_words_unaligned f bitmap start nwords in
  if end_uint64 <? end_ then
    let tmp := clean_tail_loop bitmap end_uint64 0 end_uint64
                               (Z.to_nat (end_ - end_uint64)) in
    QF.qemu_put_be64 f (postcopy_bitmap_to_uint64 tmp 0)
  else f.

(** [bitmap] is the migration (dirty) bitmap, [bs] the RAM block list. *)
Definition postcopy_outgoing_send_clean_bitmap (f : QF.t) (bitmap : Z)
           (bs : list RB.t) : QF.t :=
  let f := fold_left (send_clean_bitmap_block bitmap) bs f in
  (* terminator *)
  let f := QF.qemu_put_byte f 0 in
  let f := QF.qemu_put_be64 f 0 in
  let f := QF.qemu_put_be64 f 0 in
  QF.qemu_put_be64 f 0.

(* --------------------------------------------------------------------- *)
(** ** Serving requests *)

(** [None]: a failed [assert], or no block to read from
    ([s->last_block_read == NULL]).  [prefault_pgoffset] is the [int]
    parameter. *)
Definition postcopy_outgoing_ram_save_page (f : list stream_item)
           (last : option RB.t) (pgoffset : Z) (forward : bool)
           (prefault_pgoffset : Z) : option (list stream_item) :=
  match last with
  | None => None
  | Some block =>
      let go (pgoffset : Z) :=
        let offset := u64 (Z.shiftl pgoffset TARGET_PAGE_BITS) in
        if offset >=? RB.length block then
          if forward && (prefault_pgoffset >? 0) then Some f else None
        else Some (ram_save_page f block offset) in
      if forward then go (u64 (pgoffset + prefault_pgoffset))
      else if pgoffset <? u64 prefault_pgoffset then Some f
      else go (u64 (pgoffset - prefault_pgoffset))
  end.

(** The inner [for (i = 0; i < req->nr; i++)] loops. *)
Fixpoint save_pages (f : list stream_item) (last : option RB.t)
         (ps : list Z) (forward : bool) (prefault_pgoffset : Z)
  : option (list stream_item) :=
  match ps with
  | [] => Some f
  | p :: ps' =>
      match postcopy_outgoing_ram_save_page f last p forward
                                            prefault_pgoffset with
      | None => None
      | Some f' => save_pages f' last ps' forward prefault_pgoffset
      end
  end.

(** The outer [for (j = 1; j <= n; j++)] loops, from [j] on for [k] turns;
    [j] is a [uint64_t] passed as an [int]. *)
Fixpoint prefault_pages (f : list stream_item) (last : option RB.t)
         (ps : list Z) (forward : bool) (j : Z) (k : nat)
  : option (list stream_item) :=
  match k with
  | O => Some f
  | S k' =>
      match save_pages f last ps forward (to_int j) with
      | None => None
      | Some f' => prefault_pages f' last ps forward (j + 1) k'
      end
  end.

(** The [if (migrate_postcopy_outgoing_move_background())] block of the
    PAGE case.  It reads [req->pgoffs[req->nr - 1]] and
    [s->last_block_read->length]: with no entry in the request, with
    [nr] beyond the array, or with no block to read from, that is a read
    out of bounds or through NULL, [None]. *)
Definition move_background_last_seen (ms : MigrationState)
           (req : QEMUUMemReq) : option MigrationState :=
  if move_background ms then
    match last_block_read ms with
    | None => None
    | Some block =>
        if (nr req <=? 0) || (Z.of_nat (length (pgoffs req)) <? nr req)
        then None
        else
          let last_offset :=
            u64 (Z.shiftl
                   (u64 (nth (Z.to_nat (nr req - 1)) (pgoffs req) 0
                         + prefault_forward ms))
                   TARGET_PAGE_BITS) in
          let last_offset :=
            Z.min last_offset
                  (u64 (RB.length block - Z.shiftl 1 TARGET_PAGE_BITS)) in
          Some (set_last_seen ms (Some (block, last_offset)))
    end
  else Some ms.

(** Returns the C return value and the state; [None] is a failed [assert]
    or undefined behaviour. *)
Definition postcopy_outgoing_handle_req (ms : MigrationState)
           (req : QEMUUMemReq) : option (Z * MigrationState) :=
  let serve (ms : MigrationState) :=
    if po_state_eqb (po ms) PO_STATE_ALL_PAGES_SENT then Some (0, ms)
    else
      let ps := req_pgoffs_array req in
      match save_pages (file ms) (last_block_read ms) ps true 0 with
      | None => None
      | Some f =>
          (* forward prefault *)
          match prefault_pages f (last_block_read ms) ps true 1
                               (Z.to_nat (u64 (prefault_forward ms))) with
          | None => None
          | Some f =>
              match move_background_last_seen ms req with
              | None => None
              | Some ms =>
                  (* backward prefault *)
                  match prefault_pages f (last_block_read ms) ps false 1
                                       (Z.to_nat (u64 (prefault_backward ms)))
                  with
                  | None => None
                  | Some f => Some (0, set_file ms f)
                  end
              end
          end
      end in
  if cmd req =? QEMU_UMEM_REQ_EOC then
    if po_state_eqb (po ms) PO_STATE_ALL_PAGES_SENT
    then Some (1, set_po ms PO_STATE_COMPLETED)
    else Some (1, set_po ms PO_STATE_EOC_RECEIVED)
  else if cmd req =? QEMU_UMEM_REQ_PAGE then
    match ram_find_block (ram_list ms) (idstr req) (strlen (idstr req)) with
    | None => Some (- EINVAL, ms)
    | Some block => serve (set_last_block_read ms (Some block))
    end
  else if cmd req =? QEMU_UMEM_REQ_PAGE_CONT then serve ms
  else Some (- EINVAL, ms).

(** The [do ... while (ret == 0)] loop of
    [postcopy_outgoing_recv_handler]; [None] also when [fuel] runs out. *)
Fixpoint recv_handler_loop (fuel : nat) (ms : MigrationState)
  : option (Z * MigrationState) :=
  match fuel with
  | O => None
  | S fuel' =>
      match postcopy_outgoing_recv_req (file_read ms) req_init with
      | None => None
      | Some (ret, req, fr) =>
          let ms := set_file_read ms fr in
          if ret <? 0 then
            Some (if ret =? - EAGAIN then 0 else ret, ms)
          else
            match postcopy_outgoing_handle_req ms req with
            | None => None
            | Some (ret, ms) =>
                if ret =? 0 then recv_handler_loop fuel' ms
                else Some (ret, ms)
            end
      end
  end.

(** Each request handled consumes at least one byte of [file_read]. *)
Definition postcopy_outgoing_recv_handler (ms : MigrationState)
  : option MigrationState :=
  if po_state_eqb (po ms) PO_STATE_ACTIVE
     || po_state_eqb (po ms) PO_STATE_ALL_PAGES_SENT
  then
    match recv_handler_loop (S (length (file_read ms))) ms with
    | None => None
    | Some (ret, ms) =>
        if ret <? 0 then
          match po ms with
          | PO_STATE_ACTIVE => Some (set_po ms PO_STATE_ERROR_RECEIVE)
          | PO_STATE_ALL_PAGES_SENT => Some (set_po ms PO_STATE_COMPLETED)
          | _ => None
          end
        else Some ms
    end
  else None.

(* --------------------------------------------------------------------- *)
(** ** Background sending and the scheduler *)

Definition postcopy_outgoing_ram_all_sent (ms : MigrationState)
  : option MigrationState :=
  if po_state_eqb (po ms) PO_STATE_ACTIVE then
    let ms := set_po ms PO_STATE_ALL_PAGES_SENT in
    Some (set_file ms (file ms ++ [PutBe64 RAM_SAVE_FLAG_EOS]))
  else None.

(** What one turn of the background [while] loop observes: the rate limit,
    the page [ram_save_block] wrote ([None]: no more blocks), the result of
    the zero-timeout [select] and the milliseconds since the call began. *)
Record BgIter : Type := mkBgIter {
  rate_limited : bool;
  saved : option (RB.t * Z);
  select_ok : bool;
  read_set : bool;
  write_set : bool;
  elapsed_ms : Z
}.

Definition MAX_WAIT : Z := 50.

(** The [while (qemu_file_rate_limit(f) == 0)] loop; the observations end
    with the rate limit being hit. *)
Fixpoint background_loop (iters : list BgIter) (i : Z) (ms : MigrationState)
  : option MigrationState :=
  match iters with
  | [] => Some ms
  | it :: iters' =>
      if rate_limited it then Some ms
      else
        match saved it with
        | None => postcopy_outgoing_ram_all_sent ms
        | Some (block, offset) =>
            let ms := set_file ms (ram_save_page (file ms) block offset) in
            if select_ok it && (read_set it || negb (write_set it))
            then Some ms
            else
              let i := i + 1 in
              if (Z.land i 63 =? 0) && (elapsed_ms it >? MAX_WAIT)
              then Some ms
              else background_loop iters' i ms
        end
  end.

Definition postcopy_outgoing_ram_save_background (bytes_remaining : Z)
           (iters : list BgIter) (ms : MigrationState)
  : option (Z * MigrationState) :=
  match po ms with
  | PO_STATE_ACTIVE =>
      if no_background ms then
        if bytes_remaining =? 0 then
          match postcopy_outgoing_ram_all_sent ms with
          | None => None
          | Some ms => Some (0, ms)
          end
        else Some (0, ms)
      else
        match background_loop iters 0 ms with
        | None => None
        | Some ms => Some (0, ms)
        end
  | PO_STATE_EOC_RECEIVED =>
      let ms := set_file ms (file ms ++ [PutBe64 RAM_SAVE_FLAG_EOS]) in
      Some (0, set_po ms PO_STATE_COMPLETED)
  | PO_STATE_ERROR_RECEIVE => Some (-1, ms)
  | _ => None
  end.

(** What one call of [postcopy_outgoing_loop] observes. *)
Record LoopEnv : Type := mkLoopEnv {
  rate_limit_hit : bool;
  sel_ret : Z;
  sel_eintr : bool;
  sel_read : bool;
  sel_write : bool;
  bytes_remaining : Z;
  bg_iters : list BgIter
}.

Definition postcopy_outgoing_loop (env : LoopEnv) (ms : MigrationState)
  : option (Z * MigrationState) :=
  let in_readfds :=
    po_state_eqb (po ms) PO_STATE_ACTIVE
    || po_state_eqb (po ms) PO_STATE_ALL_PAGES_SENT in
  let in_writefds :=
    (po_state_eqb (po ms) PO_STATE_ACTIVE
     || po_state_eqb (po ms) PO_STATE_EOC_RECEIVED)
    && negb (rate_limit_hit env) in
  if sel_ret env =? -1 then
    if sel_eintr env then Some (0, ms) else Some (sel_ret env, ms)
  else if in_readfds && sel_read env then
    match postcopy_outgoing_recv_handler ms with
    | None => None
    | Some ms => Some (0, ms)
    end
  else if in_writefds && sel_write env then
    postcopy_outgoing_ram_save_background (bytes_remaining env)
                                          (bg_iters env) ms
  else Some (0, ms).

(** The [while] loop of [postcopy_outgoing] over the file transport; the
    observations of the successive calls are [envs], and the function
    returns the state reached when they are used up. *)
Fixpoint postcopy_outgoing (envs : list LoopEnv) (ret : Z)
         (ms : MigrationState) : option (Z * MigrationState) :=
  if po_state_eqb (po ms) PO_STATE_ERROR_RECEIVE
     || po_state_eqb (po ms) PO_STATE_COMPLETED
  then Some (ret, ms)
  else
    match envs with
    | [] => Some (ret, ms)
    | env :: envs' =>
        match postcopy_outgoing_loop env ms with
        | None => None
        | Some (ret, ms) =>
            if ret <? 0 then Some (ret, ms)
            else postcopy_outgoing envs' ret ms
        end
    end.

End Outgoing.

(* --------------------------------------------------------------------- *)
(** ** Vocabulary for the order of service *)

(** [a; a+1; ...; a+k-1] *)
Definition zrange (a : Z) (k : nat) : list Z :=
  map (fun i => a + Z.of_nat i) (seq 0 k).

(** Page [p] lies inside the block. *)
Definition in_block (TARGET_PAGE_BITS : Z) (b : RB.t) (p : Z) : bool :=
  p * 2 ^ TARGET_PAGE_BITS <? RB.length b.

(** The pages served for the requested pages [ps] with windows [F] and
    [B]: the requested pages; then, for each distance 1..F, the pages that
    far after each requested page, if inside the block; then, for each
    distance 1..B, the pages that far before each requested page, if not
    below page 0. *)
Definition served_pages (TARGET_PAGE_BITS : Z) (b : RB.t) (ps : list Z)
           (F B : Z) : list Z :=
  ps
  ++ flat_map (fun j => filter (in_block TARGET_PAGE_BITS b)
                               (map (fun p => p + j) ps))
              (zrange 1 (Z.to_nat F))
  ++ flat_map (fun j => flat_map (fun p => if j <=? p then [p - j] else [])
                                 ps)
              (zrange 1 (Z.to_nat B)).

(** Every page of [ps] is a page of the block. *)
Definition in_range (TARGET_PAGE_BITS : Z) (b : RB.t) (ps : list Z) : Prop :=
  Forall (fun p => 0 <= p /\ in_block TARGET_PAGE_BITS b p = true) ps.

(* ===================================================================== *)
(** * The fault pipes *)

(** A pipe is the list of bytes written to it and not yet read.  One
    [read(2)] either fails ([EINTR] or another error) or returns at least
    one and at most [count] of the bytes that are there, as many as the
    kernel chooses ([cap] + 1 at most); it returns 0 on an empty pipe
    whose writer has gone. *)
Inductive read_event : Type :=
| ReadEintr
| ReadFail
| ReadSome (cap : nat).

Definition pipe_read (pipe : list Z) (cap : nat) (count : Z)
  : list Z * list Z :=
  let n := Nat.min (S cap) (Z.to_nat count) in
  (firstn n pipe, skipn n pipe).

(** Writing [data] into a byte array at [pos], and [memmove] to the start
    of the array. *)
Definition store (buf : list Z) (pos : Z) (data : list Z) : list Z :=
  firstn (Z.to_nat pos) buf ++ data
  ++ skipn (Z.to_nat pos + length data) buf.

Definition memmove_front (buf : list Z) (src : Z) (n : Z) : list Z :=
  store buf 0 (firstn (Z.to_nat n) (skipn (Z.to_nat src) buf)).

(** The byte groups of [n] consecutive 8-byte entries. *)
Fixpoint groups8 (n : nat) (bytes : list Z) : list (list Z) :=
  match n with
  | O => []
  | S n' => firstn 8 bytes :: groups8 n' (skipn 8 bytes)
  end.

Section FaultPipe.
(** [PIPE_BUF] (limits.h), the host page shift, and the value of a
    [uint64_t] held in 8 bytes of memory in host byte order. *)
Variable PIPE_BUF : Z.
Variable host_page_shift_ : Z.
Variable host_u64 : list Z -> Z.

(** [sizeof(buf)] for [uint64_t buf[PIPE_BUF / sizeof(uint64_t)]]. *)
Definition sizeof_buf : Z := 8 * (PIPE_BUF / 8).

(** [buf[i]] *)
Definition buf_u64 (buf : list Z) (i : nat) : Z :=
  host_u64 (firstn 8 (skipn (8 * i) buf)).

Definition fault_addr (pgoff : Z) : Z :=
  u64 (Z.shiftl pgoff host_page_shift_).

(** The buffer of a reader: the pipe it reads, the array and the number of
    bytes held in it. *)
Record FaultBuf : Type := mkFaultBuf {
  fb_pipe : list Z;
  fb_buf : list Z;
  fb_offset : Z
}.

(* --------------------------------------------------------------------- *)
(** ** postcopy_incoming_fault_loop (supervisor side) *)

(** One turn observes a read and, if it comes to that, the number of bytes
    [qemu_write_full] managed to write. *)
Record FaultTurn : Type := mkFaultTurn {
  ft_read : read_event;
  ft_written : Z
}.

(** What the loop has done: the addresses handed to [qemu_safe_ram_ptr],
    the bytes written to [write_fd], whether a write fell short, and
    whether the loop has left (both descriptors closed). *)
Record FaultLoop : Type := mkFaultLoop {
  fl_fb : FaultBuf;
  fl_touched : list Z;
  fl_out : list Z;
  fl_write_failed : bool;
  fl_closed : bool
}.

Fixpoint postcopy_incoming_fault_loop (turns : list FaultTurn)
         (st : FaultLoop) : FaultLoop :=
  match turns with
  | [] => st
  | t :: turns' =>
      let '(mkFaultLoop (mkFaultBuf pipe buf offset) touched out _ _) := st in
      match ft_read t with
      | ReadEintr => postcopy_incoming_fault_loop turns' st
      | ReadFail => mkFaultLoop (fl_fb st) touched out false true
      | ReadSome cap =>
          let '(data, pipe) := pipe_read pipe cap (sizeof_buf - offset) in
          let ret := Z.of_nat (length data) in
          if ret =? 0
          then mkFaultLoop (mkFaultBuf pipe buf offset) touched out false true
          else
            let buf := store buf offset data in
            let offset := offset + ret in
            let nreq := to_int (offset / 8) in
            if nreq =? 0 then
              postcopy_incoming_fault_loop
                turns' (mkFaultLoop (mkFaultBuf pipe buf offset)
                                    touched out false false)
            else
              let touched :=
                touched ++ map (fun i => fault_addr (buf_u64 buf i))
                               (seq 0 (Z.to_nat nreq)) in
              let ret := ft_written t in
              let out := out ++ firstn (Z.to_nat ret) buf in
              if negb (ret =? nreq * 8) then
                mkFaultLoop (mkFaultBuf pipe buf offset) touched out true true
              else
                let buf := memmove_front buf ret (offset - ret) in
                let offset := offset - ret in
                postcopy_incoming_fault_loop
                  turns' (mkFaultLoop (mkFaultBuf pipe buf offset)
                                      touched out false false)
      end
  end.

(* --------------------------------------------------------------------- *)
(** ** postcopy_incoming_umemd_fault_loop (daemon side) *)

(** The block that holds [addr], as the [QLIST_FOREACH] finds it, and the
    arguments of the [umem_remove_shmem] call: the index of the block and
    the offset inside it. *)
Fixpoint remove_shmem_call (bs : list UMB.t) (index : nat) (addr : Z)
  : option (nat * Z) :=
  match bs with
  | [] => None
  | b :: bs' =>
      if (UMB.offset b <=? addr)
         && (addr <? u64 (UMB.offset b + UMB.length b))
      then Some (index, u64 (addr - UMB.offset b))
      else remove_shmem_call bs' (S index) addr
  end.

(** The [for (i = 0; i < nreq; i++)] loop; [None] is [abort()]. *)
Fixpoint remove_shmem_loop (bs : list UMB.t) (addrs : list Z)
  : option (list (nat * Z)) :=
  match addrs with
  | [] => Some []
  | a :: addrs' =>
      match remove_shmem_call bs O a with
      | None => None
      | Some c =>
          match remove_shmem_loop bs addrs' with
          | None => None
          | Some cs => Some (c :: cs)
          end
      end
  end.

(** One call.  Returns the C return value, the daemon (its state word
    changes when everything is done), the buffer and the
    [umem_remove_shmem] calls made.  [None] is [abort()]. *)
Definition postcopy_incoming_umemd_fault_loop (rd : read_event)
           (all_done : bool) (u : Umemd) (fb : FaultBuf)
  : option (Z * Umemd * FaultBuf * list (nat * Z)) :=
  match rd with
  | ReadEintr => Some (0, u, fb, [])
  | ReadFail => Some (-1, u, fb, [])
  | ReadSome cap =>
      let '(data, pipe) :=
        pipe_read (fb_pipe fb) cap (sizeof_buf - fb_offset fb) in
      let ret := Z.of_nat (length data) in
      if ret =? 0 then Some (1, u, mkFaultBuf pipe (fb_buf fb) (fb_offset fb),
                             [])
      else
        let buf := store (fb_buf fb) (fb_offset fb) data in
        let offset := fb_offset fb + ret in
        let nreq := to_int (offset / 8) in
        match remove_shmem_loop
                (blocks u)
                (map (fun i => fault_addr (buf_u64 buf i))
                     (seq 0 (Z.to_nat nreq))) with
        | None => None
        | Some calls =>
            let offset := Z.land offset (8 - 1) in
            let buf := memmove_front buf (nreq * 8) offset in
            let '(done, u) :=
              postcopy_incoming_umem_check_umem_done all_done u in
            Some (if done then 1 else 0, u, mkFaultBuf pipe buf offset, calls)
        end
  end.

(** The successive calls made by [postcopy_incoming_umemd_fault_thread],
    until one returns non-zero; the list of reads ends the run. *)
Fixpoint postcopy_incoming_umemd_fault_thread
         (reads : list (read_event * bool)) (u : Umemd) (fb : FaultBuf)
         (calls : list (nat * Z))
  : option (bool * Umemd * FaultBuf * list (nat * Z)) :=
  match reads with
  | [] => Some (false, u, fb, calls)
  | (rd, all_done) :: reads' =>
      match postcopy_incoming_umemd_fault_loop rd all_done u fb with
      | None => None
      | Some (error, u, fb, cs) =>
          if negb (error =? 0) then Some (true, u, fb, calls ++ cs)
          else postcopy_incoming_umemd_fault_thread reads' u fb (calls ++ cs)
      end
  end.

(** The bytes a reader still has to deal with: those held in its array
    followed by those in the pipe. *)
Definition pending_bytes (fb : FaultBuf) : list Z :=
  firstn (Z.to_nat (fb_offset fb)) (fb_buf fb) ++ fb_pipe fb.

(** A reader's buffer between two reads: an array of [sizeof(buf)] bytes
    holding fewer than 8 bytes. *)
Definition fault_buf_ok (fb : FaultBuf) : Prop :=
  Z.of_nat (length (fb_buf fb)) = sizeof_buf /\ 0 <= fb_offset fb < 8.

(** The addresses of the entries made of [bytes]. *)
Definition fault_addrs (bytes : list Z) : list Z :=
  map (fun g => fault_addr (host_u64 g)) (groups8 (length bytes / 8) bytes).

End FaultPipe.

(* ===================================================================== *)
(** * Vocabulary for the further properties *)


(** A page of [block] written to the stream at a page-aligned offset
    inside the block. *)
Definition page_of (TARGET_PAGE_BITS : Z) (block : RB.t)
           (it : stream_item) : Prop :=
  exists offset,
    it = SavePage block offset
    /\ 0 <= offset < RB.length block
    /\ offset mod 2 ^ TARGET_PAGE_BITS = 0.

Definition is_page (it : stream_item) : Prop :=
  match it with
  | SavePage _ _ => True
  | PutBe64 _ => False
  end.

(** The clean bits of [n] pages from page index [i] on: bit [j] (below
    [n]) is set when page [i + j] is not dirty in [bitmap]; the bits from
    [n] up are clear. *)
Definition clean_bits (bitmap i n : Z) : Z :=
  Z.land (Z.lnot (Z.shiftr bitmap i)) (Z.ones n).

(* ===================================================================== *)
(** * QEMU_VM_POSTCOPY section: the SECTION_FULL subtype and the dispatch *)

Definition SAVE_VM_FULL_SIZE_MAX : Z := 16 * 1024 * 1024.

(** [postcopy_incoming_loadvm_section_full].  [create_umemd_error] is the
    result of [postcopy_incoming_create_umemd].  Returns the C return
    value, the file and the contents of [*buf_file] when it is set. *)
Definition postcopy_incoming_loadvm_section_full (create_umemd_error : Z)
           (f : QR.t) (size : Z) : Z * QR.t * option (list Z) :=
  if size >? SAVE_VM_FULL_SIZE_MAX then (- EINVAL, f, None)
  else
    let '(buf, f) := qemu_get_buffer f size in
    let read_size := Z.of_nat (length buf) in
    if negb (size =? read_size) then (- EINVAL, f, None)
    else if negb (create_umemd_error =? 0)
    then (create_umemd_error, f, None)
    else (0, f, Some buf).

(** [postcopy_incoming_loadvm_state]: the subtype byte and the 32-bit size
    select the loader. *)
Definition postcopy_incoming_loadvm_state (env : InitEnv)
           (create_umemd_error : Z) (precopy_enabled : bool)
           (handler : ram_load_handler) (f : QR.t)
  : Z * bool * ram_load_handler * QR.t * option (list Z) :=
  let '(subtype, f) := qemu_get_byte f in
  let '(size, f) := qemu_get_be32 f in
  if subtype =? QEMU_VM_POSTCOPY_INIT then
    let '(ret, precopy_enabled, handler, f) :=
      postcopy_incoming_loadvm_init env precopy_enabled handler f size in
    (ret, precopy_enabled, handler, f, None)
  else if subtype =? QEMU_VM_POSTCOPY_SECTION_FULL then
    let '(ret, f, buf) :=
      postcopy_incoming_loadvm_section_full create_umemd_error f size in
    (ret, precopy_enabled, handler, f, buf)
  else (- EINVAL, precopy_enabled, handler, f, None).

(* ===================================================================== *)
(** * The daemon's state word under concurrent updates *)

(** The threads of the daemon share [umemd.state] under [umemd.mutex].
    One step is a turn of the pipe loop, or one of the critical sections
    in which the other threads update the state word
    ([postcopy_incoming_umem_error_req], [..._req_eoc],
    [..._eos_received], [..._done], and the two critical sections of
    [postcopy_incoming_umem_check_eoc_req], which sets EOC_SENDING when a
    request is pending and not yet under way, and EOC_SENT after it has
    sent the request), or any change the other threads make to the
    blocks, the stream file and the thread list, which leaves the state
    word and the control pipes alone.  These are all the writes to
    [umemd.state] after its initialisation; the control files are opened
    once, by [postcopy_incoming_umemd_pipe_init], before the first turn
    of the pipe loop.  A run is any interleaving of such steps after
    that. *)
Inductive daemon_step : Umemd -> Umemd -> Prop :=
| step_pipe_loop (env : PipeEnv) (u u' : Umemd) (ret : Z) :
    postcopy_incoming_umemd_pipe_loop env u = Some (ret, u') ->
    daemon_step u u'
| step_error_req (u : Umemd) :
    daemon_step u (postcopy_incoming_umem_error_req u)
| step_req_eoc (u : Umemd) :
    daemon_step u (postcopy_incoming_umem_req_eoc u)
| step_eos_received (u : Umemd) :
    daemon_step u (postcopy_incoming_umem_eos_received u)
| step_done (u : Umemd) :
    daemon_step u (postcopy_incoming_umem_done u)
| step_eoc_sending (u : Umemd) :
    state_has u UMEM_STATE_EOC_SEND_REQ = true ->
    state_has u (Z.lor UMEM_STATE_EOC_SENDING UMEM_STATE_EOC_SENT) = false ->
    daemon_step u (set_state u (Z.lor (state u) UMEM_STATE_EOC_SENDING))
| step_eoc_sent (u : Umemd) :
    state_has u UMEM_STATE_EOC_SENDING = true ->
    daemon_step u (set_state u (Z.lor (state u) UMEM_STATE_EOC_SENT))
| step_other_fields (u u' : Umemd) :
    state u' = state u ->
    precopy_enabled u' = precopy_enabled u ->
    to_qemu u' = to_qemu u ->
    to_qemu_pipe u' = to_qemu_pipe u ->
    from_qemu u' = from_qemu u ->
    daemon_step u u'.

Inductive daemon_run : Umemd -> Umemd -> Prop :=
| run_refl (u : Umemd) : daemon_run u u
| run_step (u v w : Umemd) :
    daemon_run u v -> daemon_step v w -> daemon_run u w.

(** The three parts of a turn of [postcopy_incoming_umemd_pipe_loop] whose
    [select] succeeded, named so that each can be reasoned about by
    itself: the command read from the supervisor, the ERROR command and
    the QUIT command. *)
Definition pipe_loop_command (env : PipeEnv) (u : Umemd) : option Umemd :=
  match from_qemu u with
  | Some f =>
      if from_qemu_readable env then
        let '(c, f) := qemu_get_byte f in
        let u := set_from_qemu u (Some f) in
        if c =? UMEM_QEMU_QUIT then
          Some (postcopy_incoming_umem_done
                  (postcopy_incoming_umem_recv_quit u))
        else if c =? 0 then Some u
        else None
      else Some u
  | None => Some u
  end.

Definition pipe_loop_error (u : Umemd) : Umemd :=
  if state_has u UMEM_STATE_ERROR_REQ
     && negb (state_has u UMEM_STATE_ERROR_SENDING)
  then
    let u := set_state u (Z.lor (state u) UMEM_STATE_ERROR_SENDING) in
    let u := set_to_qemu_pipe u (umem_daemon_error (to_qemu_pipe u)) in
    set_state u (Z.lor (state u) UMEM_STATE_ERROR_SENT)
  else u.

Definition pipe_loop_quit (u : Umemd) : Umemd :=
  if state_has u UMEM_STATE_QUIT_QUEUED
     && negb (state_has u (Z.lor UMEM_STATE_QUIT_SENDING
                                 UMEM_STATE_QUIT_SENT))
  then
    let u := set_state u (Z.lor (state u) UMEM_STATE_QUIT_SENDING) in
    let u := set_to_qemu_pipe u (umem_daemon_quit (to_qemu_pipe u)) in
    let u := set_to_qemu u false in
    set_state u (Z.lor (state u) UMEM_STATE_QUIT_SENT)
  else u.

(** What has gone to the supervisor: [e] and [q] tell whether the ERROR
    and the QUIT command have been written. *)
Definition supervisor_told (e q : bool) : list Z :=
  (if e then [UMEM_DAEMON_ERROR] else [])
  ++ (if q then [UMEM_DAEMON_QUIT] else []).

(* ===================================================================== *)
(** * The supervisor's side of the control pipes *)

(** [fd_close]: a descriptor is closed once and then reads -1. *)
Definition fd_close (fd : Z) : Z := if fd >=? 0 then -1 else fd.

Definition PIS_STATE_QUIT_RECEIVED : Z := 0x01.
Definition PIS_STATE_QUIT_QUEUED : Z := 0x02.
Definition PIS_STATE_QUIT_SENT : Z := 0x04.

Module PIS.
(** [struct PostcopyIncomingState]: the fields the quit protocol uses.
    [to_umemd] tells whether the file to the daemon is open
    ([state.to_umemd != NULL]) and [to_umemd_pipe] holds the bytes written
    to that pipe so far; [handler] tells whether
    [postcopy_incoming_qemu_handle_req] is installed on [from_umemd_fd];
    [vm_stopped] records a call of [vm_stop]. *)
Record t : Type := mk {
  state : Z;
  to_umemd_fd : Z;
  to_umemd : bool;
  to_umemd_pipe : QF.t;
  from_umemd_fd : Z;
  from_umemd : option QR.t;
  handler : bool;
  vm_stopped : bool
}.

Definition set_state (s : t) (v : Z) : t :=
  mk v (to_umemd_fd s) (to_umemd s) (to_umemd_pipe s) (from_umemd_fd s)
     (from_umemd s) (handler s) (vm_stopped s).
Definition has (s : t) (mask : Z) : bool :=
  negb (Z.land (state s) mask =? 0).
End PIS.

(** Modelled from the spec: [umem_qemu_quit] (umem.c, not among the
    sources) sends the control protocol's "command byte only" (section
    6), here the supervisor's QUIT. *)
Definition umem_qemu_quit (f : QF.t) : QF.t :=
  QF.qemu_put_byte f UMEM_QEMU_QUIT.

(** In the functions below [None] stands for the use of a file that is
    NULL, and for [abort()]. *)
Definition postcopy_incoming_qemu_recv_quit (s : PIS.t) : option PIS.t :=
  if PIS.has s PIS_STATE_QUIT_RECEIVED then Some s
  else
    match PIS.from_umemd s with
    | None => None
    | Some _ =>
        Some (PIS.mk (Z.lor (PIS.state s) PIS_STATE_QUIT_RECEIVED)
                     (PIS.to_umemd_fd s) (PIS.to_umemd s)
                     (PIS.to_umemd_pipe s)
                     (fd_close (PIS.from_umemd_fd s)) None false
                     (PIS.vm_stopped s))
    end.

Definition postcopy_incoming_qemu_check_quite_queued (s : PIS.t)
  : option PIS.t :=
  if PIS.has s PIS_STATE_QUIT_QUEUED
     && negb (PIS.has s PIS_STATE_QUIT_SENT)
  then
    if PIS.to_umemd s then
      Some (PIS.mk (Z.lor (PIS.state s) PIS_STATE_QUIT_SENT)
                   (fd_close (PIS.to_umemd_fd s)) false
                   (PIS.to_umemd_pipe s) (PIS.from_umemd_fd s)
                   (PIS.from_umemd s) (PIS.handler s) (PIS.vm_stopped s))
    else None
  else Some s.

Definition postcopy_incoming_qemu_queue_quit (s : PIS.t) : option PIS.t :=
  if PIS.has s PIS_STATE_QUIT_QUEUED then Some s
  else if PIS.to_umemd s then
    Some (PIS.mk (Z.lor (PIS.state s) PIS_STATE_QUIT_QUEUED)
                 (PIS.to_umemd_fd s) true
                 (umem_qemu_quit (PIS.to_umemd_pipe s))
                 (PIS.from_umemd_fd s) (PIS.from_umemd s) (PIS.handler s)
                 (PIS.vm_stopped s))
  else None.

Definition postcopy_incoming_qemu_cleanup (s : PIS.t) : option PIS.t :=
  if PIS.to_umemd_fd s >=? 0 then
    match postcopy_incoming_qemu_queue_quit s with
    | None => None
    | Some s => postcopy_incoming_qemu_check_quite_queued s
    end
  else Some s.

Definition postcopy_incoming_qemu_handle_req (s : PIS.t) : option PIS.t :=
  match PIS.from_umemd s with
  | None => None
  | Some f =>
      let '(c, f) := qemu_get_byte f in
      let s := PIS.mk (PIS.state s) (PIS.to_umemd_fd s) (PIS.to_umemd s)
                      (PIS.to_umemd_pipe s) (PIS.from_umemd_fd s) (Some f)
                      (PIS.handler s) (PIS.vm_stopped s) in
      let after :=
        if c =? UMEM_DAEMON_QUIT then
          match postcopy_incoming_qemu_recv_quit s with
          | None => None
          | Some s =>
              match postcopy_incoming_qemu_queue_quit s with
              | None => None
              | Some s => postcopy_incoming_qemu_cleanup s
              end
          end
        else if c =? UMEM_DAEMON_ERROR then
          Some (PIS.mk (PIS.state s) (PIS.to_umemd_fd s) (PIS.to_umemd s)
                       (PIS.to_umemd_pipe s) (PIS.from_umemd_fd s)
                       (PIS.from_umemd s) (PIS.handler s) true)
        else None in
      match after with
      | None => None
      | Some s => postcopy_incoming_qemu_check_quite_queued s
      end
  end.

(** The supervisor reaches the quit protocol through the fd handler and
    through [postcopy_incoming_qemu_cleanup]; a run is any sequence of
    such calls. *)
Inductive supervisor_step : PIS.t -> PIS.t -> Prop :=
| step_handle_req (s s' : PIS.t) :
    postcopy_incoming_qemu_handle_req s = Some s' -> supervisor_step s s'
| step_cleanup (s s' : PIS.t) :
    postcopy_incoming_qemu_cleanup s = Some s' -> supervisor_step s s'.

Inductive supervisor_run : PIS.t -> PIS.t -> Prop :=
| sup_refl (s : PIS.t) : supervisor_run s s
| sup_step (s t u : PIS.t) :
    supervisor_run s t -> supervisor_step t u -> supervisor_run s u.

(* ===================================================================== *)
(** * Writing to the fault pipe *)

(** What one call of [qemu_write_full] on [umemd.fault_write_fd] does:
    it takes the whole chunk; or it takes nothing and leaves [errno]; or
    it takes the first [n] bytes and leaves [errno]. *)
Inductive write_event : Type :=
| WriteAll
| WriteNone (errno : Z)
| WritePart (n : Z) (errno : Z).

Section FaultRequest.
(** [PIPE_BUF] (limits.h), [EWOULDBLOCK] (errno.h) and the eight bytes a
    [uint64_t] occupies in memory. *)
Variable PIPE_BUF : Z.
Variable EWOULDBLOCK : Z.
Variable host_bytes : Z -> list Z.

(** The [while (length > 0)] loop of
    [postcopy_incoming_umem_fault_request]; [buf] is what is left to
    write and [writes] the bytes each call of [qemu_write_full] has put
    into the pipe.  The result is the C return value, the writes and
    whether [postcopy_incoming_umem_mark_pending_clean] was called;
    [None] when the loop is still running after [events]. *)
Fixpoint fault_request_loop (events : list write_event) (nonblock : bool)
         (buf : list Z) (writes : list (list Z))
  : option (Z * list (list Z) * bool) :=
  let length := Z.of_nat (List.length buf) in
  if length >? 0 then
    match events with
    | [] => None
    | e :: events' =>
        let size := Z.land (Z.min PIPE_BUF length) (u64 (Z.lnot (8 - 1))) in
        let chunk := firstn (Z.to_nat size) buf in
        let '(ret, errno, taken) :=
          match e with
          | WriteAll => (size, 0, chunk)
          | WriteNone errno => (0, errno, [])
          | WritePart n errno => (n, errno, firstn (Z.to_nat n) chunk)
          end in
        let writes := if 0 <? ret then writes ++ [taken] else writes in
        if negb (ret =? size) then
          let error := - errno in
          if (error =? - EAGAIN) || (error =? - EWOULDBLOCK) then
            if nonblock then Some (0, writes, true)
            else fault_request_loop events' nonblock buf writes
          else Some (error, writes, false)
        else
          fault_request_loop events' nonblock
                             (skipn (Z.to_nat size) buf) writes
    end
  else Some (0, writes, false).

(** [postcopy_incoming_umem_fault_request] for the pages [pgoffs]
    (the entries [page_cached->pgoffs[0 .. nr-1]]). *)
Definition postcopy_incoming_umem_fault_request
           (events : list write_event) (nonblock : bool) (pgoffs : list Z)
  : option (Z * list (list Z) * bool) :=
  fault_request_loop events nonblock (flat_map host_bytes pgoffs) [].

End FaultRequest.

(** Every call of [qemu_write_full] takes its chunk whole or not at all,
    as a pipe does for writes of at most [PIPE_BUF] bytes, and a call that
    takes nothing leaves a positive [errno]. *)
Definition atomic_writes (events : list write_event) : Prop :=
  Forall (fun e => match e with
                   | WriteAll => True
                   | WriteNone errno => 0 < errno
                   | WritePart _ _ => False
                   end) events.

(** A chunk handed to the pipe: whole 8-byte entries, at least one, and
    no more than [PIPE_BUF] bytes. *)
Definition whole_entries (PIPE_BUF : Z) (chunk : list Z) : Prop :=
  0 < Z.of_nat (length chunk) <= PIPE_BUF
  /\ Z.of_nat (length chunk) mod 8 = 0.

(* ===================================================================== *)
(** * The daemon's end of the migration stream *)

(** [postcopy_incoming_send_req] with [rdma == NULL]: the
    [assert(!!f ^ !!rdma)] fails when the file is NULL. *)
Definition postcopy_incoming_send_req (f : option QF.t)
           (req : QEMUUMemReq) : option QF.t :=
  match f with
  | None => None
  | Some f =>
      postcopy_file_incoming_send_req postcopy_incoming_send_req_one f req
  end.

(** [postcopy_incoming_umem_check_eoc_req].  Only [req.cmd] is set before
    the request is sent; [junk] stands for what the other fields of the
    local variable hold.  Returns the daemon, the write side and, when the
    file to the source was closed, the bytes it had been given.  [None] is
    a failed [assert] or [abort()]. *)
Definition postcopy_incoming_umem_check_eoc_req (junk : QEMUUMemReq)
           (u : Umemd) (w : MigWrite)
  : option (Umemd * MigWrite * option QF.t) :=
  if negb (state_has u UMEM_STATE_EOC_SEND_REQ)
     || state_has u (Z.lor UMEM_STATE_EOC_SENDING UMEM_STATE_EOC_SENT)
  then Some (u, w, None)
  else
    let u := set_state u (Z.lor (state u) UMEM_STATE_EOC_SENDING) in
    let req := set_cmd junk QEMU_UMEM_REQ_EOC in
    match postcopy_incoming_send_req (mig_write w) req with
    | None => None
    | Some f =>
        let w := mkMigWrite None (last_block_write w) in
        Some (set_state u (Z.lor (state u) UMEM_STATE_EOC_SENT), w, Some f)
    end.

(** What [postcopy_incoming_umem_ram_load] asks of its surroundings:
    whether [umemd.version_id] is [RAM_SAVE_VERSION_ID], the file error
    seen after the first word, [umem_shmem_finished] for the block, the
    page codec [ram_load_page] (its return value and what it leaves of
    the file), the file error seen after the page, the result of
    [umem_mark_page_cached], and what the writes to the fault pipe
    meet. *)
Record RamLoadEnv : Type := mkRamLoadEnv {
  version_ok : bool;
  get64_error : Z;
  shmem_finished : bool;
  ram_load_page : QR.t -> Z * QR.t;
  page_file_error : Z;
  mark_page_cached_error : Z;
  fault_writes : list write_event
}.

(** What a call of [postcopy_incoming_umem_ram_load] does outside the
    daemon's record: the host pages handed to [umem_mark_page_cached],
    the writes to the fault pipe, and the number of pages newly marked
    pending, which is added to [umemd.nr_pending_clean] (the condition
    variable is signalled when it is not 0). *)
Record RamLoadOut : Type := mkRamLoadOut {
  rl_cached : list Z;
  rl_writes : list (list Z);
  rl_new_pending : Z
}.

Definition no_ram_load_out : RamLoadOut := mkRamLoadOut [] [] 0.

(** The [QLIST_FOREACH] of [postcopy_incoming_umem_mark_pending_clean]:
    the first block with [block->offset <= addr] and
    [addr < block->offset + block->length], with [addr - block->offset];
    [index] counts the blocks passed. *)
Fixpoint block_of_address (bs : list UMB.t) (index : nat) (addr : Z)
  : option (nat * Z) :=
  match bs with
  | [] => None
  | block :: bs' =>
      if (UMB.offset block <=? addr)
         && (addr <? u64 (UMB.offset block + UMB.length block))
      then Some (index, u64 (addr - UMB.offset block))
      else block_of_address bs' (S index) addr
  end.

(** The bits allocated for [pending_clean_bitmap]:
    [postcopy_incoming_create_umemd] gives it
    [bitmap_new(block->length >> umemd.host_page_shift)], which is whole
    words of 64 bits. *)
Definition pending_clean_alloc_bits (shift : Z) (block : UMB.t) : Z :=
  64 * ((Z.shiftr (UMB.length block) shift + 63) / 64).

(** One turn of the loop of [postcopy_incoming_umem_mark_pending_clean]:
    the entry is taken as a page of guest memory, the block that holds
    its address is looked up, and the page is marked in the
    [pending_clean_bitmap] of that block; [added] counts the pages that
    were not marked before.  [None] is a bit beyond the allocation of the
    bitmap. *)
Definition mark_pending_clean_one (shift : Z) (st : list UMB.t * Z)
           (pgoff : Z) : option (list UMB.t * Z) :=
  let '(bs, added) := st in
  let addr := u64 (Z.shiftl pgoff shift) in
  match block_of_address bs O addr with
  | None => Some (bs, added)
  | Some (index, addr) =>
      let block := nth index bs (UMB.mk [] 0 0 0 0 0 0 0) in
      let pgoff := Z.shiftr addr shift in
      if pending_clean_alloc_bits shift block <=? pgoff then None
      else
        let '(old, bitmap) :=
          test_and_set_bit pgoff (UMB.pending_clean_bitmap block) in
        if old then Some (bs, added)
        else
          Some (update_block
                  bs index
                  (UMB.set_pending_clean block bitmap
                                         (UMB.nr_pending_clean block + 1)),
                added + 1)
  end.

(** [postcopy_incoming_umem_mark_pending_clean] on the entries of
    [umemd.page_cached]: the blocks and the number of pages newly
    marked. *)
Fixpoint postcopy_incoming_umem_mark_pending_clean (shift : Z)
         (bs : list UMB.t) (added : Z) (pgoffs : list Z)
  : option (list UMB.t * Z) :=
  match pgoffs with
  | [] => Some (bs, added)
  | pgoff :: pgoffs' =>
      match mark_pending_clean_one shift (bs, added) pgoff with
      | None => None
      | Some (bs, added) =>
          postcopy_incoming_umem_mark_pending_clean shift bs added pgoffs'
      end
  end.

(** Two values of a block that differ at most in what
    [postcopy_incoming_umem_mark_pending_clean] writes: the second has
    every bit of [pending_clean_bitmap] the first has, and
    [nr_pending_clean] has not gone down. *)
Definition same_but_pending (b b' : UMB.t) : Prop :=
  UMB.idstr b' = UMB.idstr b
  /\ UMB.offset b' = UMB.offset b
  /\ UMB.length b' = UMB.length b
  /\ UMB.phys_requested b' = UMB.phys_requested b
  /\ UMB.phys_received b' = UMB.phys_received b
  /\ UMB.clean_bitmap b' = UMB.clean_bitmap b
  /\ (forall n, Z.testbit (UMB.pending_clean_bitmap b) n = true ->
                Z.testbit (UMB.pending_clean_bitmap b') n = true)
  /\ UMB.nr_pending_clean b <= UMB.nr_pending_clean b'.

(** The [QLIST_FOREACH] of [postcopy_incoming_umem_block_from_stream]:
    the index of the first block with [!strncmp(id, block->idstr, len)]. *)
Fixpoint block_index_from_stream (bs : list UMB.t) (id : list Z) (len : Z)
  : option nat :=
  match bs with
  | [] => None
  | b :: bs' =>
      if strncmp_eq id (UMB.idstr b) (Z.to_nat len) then Some O
      else option_map S (block_index_from_stream bs' id len)
  end.

Section RamLoad.
Variable TARGET_PAGE_BITS : Z.
(** The flags of the RAM codec other than [RAM_SAVE_FLAG_EOS] are defined
    with the codec, which is not among the sources: they are left
    open. *)
Variable RAM_SAVE_FLAG_MEM_SIZE : Z.
Variable RAM_SAVE_FLAG_COMPRESS : Z.
Variable RAM_SAVE_FLAG_PAGE : Z.
Variable RAM_SAVE_FLAG_XBZRLE : Z.
Variable RAM_SAVE_FLAG_CONTINUE : Z.
(** [PIPE_BUF], [EWOULDBLOCK] and the bytes of a [uint64_t] in memory,
    for the writes to the fault pipe. *)
Variable PIPE_BUF : Z.
Variable EWOULDBLOCK : Z.
Variable host_bytes : Z -> list Z.

(** [postcopy_incoming_umem_mark_cached] on the entries [pgoffs] of
    [umemd.page_cached]: the C return value, the blocks, the writes to
    the fault pipe and the number of pages newly marked pending.  [None]
    when the writes go on after [events], or a page is marked beyond the
    allocation of its bitmap. *)
Definition postcopy_incoming_umem_mark_cached (g : PageGeom)
           (mark_error : Z) (events : list write_event) (bs : list UMB.t)
           (pgoffs : list Z)
  : option (Z * list UMB.t * list (list Z) * Z) :=
  if negb (mark_error =? 0) then Some (mark_error, bs, [], 0)
  else
    match postcopy_incoming_umem_fault_request
            PIPE_BUF EWOULDBLOCK host_bytes events true pgoffs with
    | None => None
    | Some (ret, writes, pending) =>
        if pending then
          match postcopy_incoming_umem_mark_pending_clean
                  (host_page_shift g) bs 0 pgoffs with
          | None => None
          | Some (bs, added) => Some (ret, bs, writes, added)
          end
        else Some (ret, bs, writes, 0)
    end.

(** [postcopy_incoming_ram_load_get64]: the address, the flags and the
    file; [TARGET_PAGE_MASK] is [~(TARGET_PAGE_SIZE - 1)]. *)
Definition postcopy_incoming_ram_load_get64 (f : QR.t) : Z * Z * QR.t :=
  let '(addr, f) := qemu_get_be64 f in
  let low := TARGET_PAGE_SIZE TARGET_PAGE_BITS - 1 in
  (Z.land addr (Z.lnot low), Z.land addr low, f).

(** [postcopy_incoming_umem_block_from_stream]: the block, the new
    [umemd.last_block_read] and the file. *)
Definition postcopy_incoming_umem_block_from_stream (bs : list UMB.t)
           (last : option nat) (f : QR.t) (flags : Z)
  : option nat * option nat * QR.t :=
  if negb (Z.land flags RAM_SAVE_FLAG_CONTINUE =? 0) then (last, last, f)
  else
    let '(len, f) := qemu_get_byte f in
    let '(id, f) := qemu_get_buffer f len in
    match block_index_from_stream bs (c_str id) len with
    | Some i => (Some i, Some i, f)
    | None => (None, last, f)
    end.

(** [postcopy_incoming_umem_ram_load], with the call of
    [postcopy_incoming_umem_ram_loaded] at its end: the bit of the page
    is set and the host pages to mark are collected, and if there are
    any, [postcopy_incoming_umem_mark_cached] is called on them.  [last]
    is [umemd.last_block_read].  Returns the C return value, [last], the
    daemon and what was done outside it; [None] is a failed [assert], the
    use of a NULL file, fault-pipe writes that go on after those of
    [env], or a page marked beyond the allocation of its bitmap. *)
Definition postcopy_incoming_umem_ram_load (g : PageGeom)
           (env : RamLoadEnv) (last : option nat) (u : Umemd)
  : option (Z * option nat * Umemd * RamLoadOut) :=
  if negb (version_ok env) then Some (- EINVAL, last, u, no_ram_load_out)
  else
    match mig_read u with
    | None => None
    | Some f =>
        let '(offset, flags, f) := postcopy_incoming_ram_load_get64 f in
        let u := set_mig_read u (Some f) in
        if negb (get64_error env =? 0)
        then Some (get64_error env, last, u, no_ram_load_out)
        else if negb (Z.land flags RAM_SAVE_FLAG_MEM_SIZE =? 0) then None
        else if negb (Z.land flags RAM_SAVE_FLAG_EOS =? 0) then
          let u := postcopy_incoming_umem_req_eoc u in
          let u := set_mig_read u None in
          let u := postcopy_incoming_umem_eos_received u in
          Some (0, last, u, no_ram_load_out)
        else if Z.land flags
                       (Z.lor RAM_SAVE_FLAG_COMPRESS
                              (Z.lor RAM_SAVE_FLAG_PAGE
                                     RAM_SAVE_FLAG_XBZRLE)) =? 0
        then Some (0, last, u, no_ram_load_out)
        else
          let '(found, last, f) :=
            postcopy_incoming_umem_block_from_stream (blocks u) last f
                                                     flags in
          let u := set_mig_read u (Some f) in
          match found with
          | None => Some (- EINVAL, last, u, no_ram_load_out)
          | Some i =>
              if shmem_finished env then None
              else
                let '(error, f) := ram_load_page env f in
                let u := set_mig_read u (Some f) in
                if negb (error =? 0)
                then Some (error, last, u, no_ram_load_out)
                else if negb (page_file_error env =? 0)
                then Some (page_file_error env, last, u, no_ram_load_out)
                else
                  let block := nth i (blocks u) (UMB.mk [] 0 0 0 0 0 0 0) in
                  let '(block, cached) :=
                    postcopy_incoming_umem_ram_loaded
                      TARGET_PAGE_BITS g block offset in
                  let u := set_blocks u (update_block (blocks u) i block) in
                  if 0 <? Z.of_nat (length cached) then
                    match postcopy_incoming_umem_mark_cached
                            g (mark_page_cached_error env)
                            (fault_writes env) (blocks u) cached with
                    | None => None
                    | Some (error, bs, writes, added) =>
                        Some (error, last, set_blocks u bs,
                              mkRamLoadOut cached writes added)
                    end
                  else Some (0, last, u, no_ram_load_out)
          end
    end.

(** [postcopy_incoming_umemd_mig_read_loop] for the file transport. *)
Definition postcopy_incoming_umemd_mig_read_loop (g : PageGeom)
           (env : RamLoadEnv) (last : option nat) (u : Umemd)
  : option (Z * option nat * Umemd * RamLoadOut) :=
  match mig_read u with
  | None => Some (- EINVAL, last, u, no_ram_load_out)
  | Some _ =>
      match postcopy_incoming_umem_ram_load g env last u with
      | None => None
      | Some (error, last, u, out) =>
          if negb (error =? 0)
          then Some (error, last, postcopy_incoming_umem_error_req u, out)
          else Some (error, last, u, out)
      end
  end.

End RamLoad.

(* ===================================================================== *)
(** * The daemon's write loop *)

(** What [umem_get_page_request] and [umem_mark_page_cached] give for a
    block whose descriptor [select] reported readable. *)
Record FaultEvent : Type := mkFaultEvent {
  fe_get_error : Z;
  fe_page_request : list Z;
  fe_mark_error : Z
}.

(** What one turn of [postcopy_incoming_umemd_mig_write_loop] learns from
    [select]: its return value, whether [errno] is [EINTR], and for each
    block, in list order, the event on its descriptor if [FD_ISSET] holds
    for it. *)
Record WriteEnv : Type := mkWriteEnv {
  wsel_ret : Z;
  wsel_eintr : bool;
  wsel_ready : list (option FaultEvent)
}.

Section WriteLoop.
Variable TARGET_PAGE_BITS : Z.
Variable g : PageGeom.

(** The second [QLIST_FOREACH] of the write loop, from block [index] on:
    the C return value, the write side, the blocks and the lists handed to
    [umem_mark_page_cached] with the index of their block. *)
Fixpoint mig_write_blocks (precopy : bool)
         (ready : list (option FaultEvent)) (index : nat)
         (bs : list UMB.t) (w : MigWrite)
  : option (Z * MigWrite * list UMB.t * list (nat * list Z)) :=
  match bs with
  | [] => Some (0, w, [], [])
  | b :: bs' =>
      match hd None ready with
      | None =>
          match mig_write_blocks precopy (tl ready) (S index) bs' w with
          | None => None
          | Some (ret, w, bs'', marks) => Some (ret, w, b :: bs'', marks)
          end
      | Some e =>
          match postcopy_incoming_umem_send_page_req
                  TARGET_PAGE_BITS g precopy w index b (fe_get_error e)
                  (fe_page_request e) (fe_mark_error e) with
          | None => None
          | Some (ret, w, b', marked) =>
              let mark :=
                match marked with
                | Some l => [(index, l)]
                | None => []
                end in
              if negb (ret =? 0) then Some (ret, w, b' :: bs', mark)
              else
                match mig_write_blocks precopy (tl ready) (S index) bs' w
                with
                | None => None
                | Some (ret, w, bs'', marks) =>
                    Some (ret, w, b' :: bs'', mark ++ marks)
                end
          end
      end
  end.

(** [postcopy_incoming_umemd_mig_write_loop].  Returns the C return
    value, the daemon, the write side, the page-cache marks and, when the
    file to the source was closed in this turn, the bytes it had been
    given. *)
Definition postcopy_incoming_umemd_mig_write_loop (junk : QEMUUMemReq)
           (env : WriteEnv) (u : Umemd) (w : MigWrite)
  : option (Z * Umemd * MigWrite * list (nat * list Z) * option QF.t) :=
  if wsel_ret env =? -1 then
    if wsel_eintr env then Some (0, u, w, [], None)
    else Some (wsel_ret env, u, w, [], None)
  else
    match mig_write_blocks (precopy_enabled u) (wsel_ready env) O
                           (blocks u) w with
    | None => None
    | Some (ret, w, bs, marks) =>
        let u := set_blocks u bs in
        if negb (ret =? 0)
        then Some (ret, postcopy_incoming_umem_error_req u, w, marks, None)
        else
          match postcopy_incoming_umem_check_eoc_req junk u w with
          | None => None
          | Some (u, w, out) => Some (0, u, w, marks, out)
          end
    end.

End WriteLoop.

(** The file to the source after a call is the file before it with bytes
    appended, and a closed file stays closed. *)
Definition write_side_grows (w w' : MigWrite) : Prop :=
  match mig_write w with
  | None => mig_write w' = None
  | Some f0 => exists mid, mig_write w' = Some (f0 ++ mid)
  end.
(* ===================================================================== *)
(** * Properties *)

(* --------------------------------------------------------------------- *)
(** ** Splitting a request into messages *)

Lemma MAX_PAGE_NR_eq : MAX_PAGE_NR = 4063.
Proof. reflexivity. Qed.

Lemma send_req_loop_step {F : Type} (one : F -> QEMUUMemReq -> option F)
      (f : F) (n : Z) (tmp : QEMUUMemReq) :
  send_req_loop one f n tmp =
  if Z_gt_dec n 0 then
    match one f (set_nr tmp (Z.min n MAX_PAGE_NR)) with
    | None => None
    | Some f' =>
        send_req_loop one f' (n - Z.min n MAX_PAGE_NR)
          (advance_pgoffs (set_nr tmp (Z.min n MAX_PAGE_NR))
                          (Z.min n MAX_PAGE_NR))
    end
  else Some f.
Proof.
  rewrite send_req_loop_equation_1.
  destruct (Z_gt_dec n 0); reflexivity.
Qed.

Lemma req_pgoffs_array_firstn (r : QEMUUMemReq) :
  0 <= nr r <= Z.of_nat (length (pgoffs r)) ->
  req_pgoffs_array r = firstn (Z.to_nat (nr r)) (pgoffs r).
Proof.
  unfold req_pgoffs_array. intros H.
  assert (Hk : (Z.to_nat (nr r) <= length (pgoffs r))%nat) by lia.
  revert Hk. generalize (Z.to_nat (nr r)) as k.
  generalize (pgoffs r) as l. clear.
  induction l as [|x l IH]; intros k Hk.
  - assert (k = 0%nat) by (simpl in Hk; lia). subst. reflexivity.
  - destruct k as [|k]; [reflexivity|].
    simpl. f_equal. rewrite <- seq_shift, map_map.
    apply IH. simpl in Hk. lia.
Qed.

(** What the loop hands to a recording sink, for an array of [n] entries. *)
Lemma send_req_loop_frames (k : nat) :
  forall (n : Z) (tmp : QEMUUMemReq) (log : list QEMUUMemReq),
    (Z.to_nat n <= k)%nat ->
    n = Z.of_nat (length (pgoffs tmp)) ->
    exists fs,
      send_req_loop record_one log n tmp = Some (log ++ fs)
      /\ Forall (fun r => cmd r = cmd tmp /\ idstr r = idstr tmp
                          /\ 0 < nr r <= MAX_PAGE_NR
                          /\ nr r <= Z.of_nat (length (pgoffs r))) fs
      /\ concat (map req_pgoffs_array fs) = pgoffs tmp
      /\ (0 < n <= MAX_PAGE_NR -> fs = [set_nr tmp n]).
Proof.
  induction k as [|k IH]; intros n tmp log Hk Hn;
    rewrite send_req_loop_step; destruct (Z_gt_dec n 0) as [Hpos|Hnpos].
  1: lia.
  1, 3: exists []; rewrite app_nil_r; repeat split; auto; try lia;
    destruct (pgoffs tmp); [reflexivity | simpl in Hn; lia].
  unfold record_one at 1.
  set (m := Z.min n MAX_PAGE_NR).
  assert (Hm : 0 < m <= MAX_PAGE_NR /\ m <= n)
    by (unfold m; rewrite MAX_PAGE_NR_eq; lia).
  set (first := set_nr tmp m).
  destruct (IH (n - m) (advance_pgoffs first m) (log ++ [first]))
    as (fs & Hrun & Hall & Hcat & _).
  - lia.
  - simpl. rewrite length_skipn. lia.
  - exists (first :: fs). rewrite Hrun, <- app_assoc. simpl.
    split; [reflexivity|]. split; [|split].
    + constructor; [simpl; repeat split; lia | exact Hall].
    + simpl. rewrite Hcat. simpl.
      rewrite req_pgoffs_array_firstn by (simpl; lia).
      simpl. apply firstn_skipn.
    + intros Hle. assert (m = n) by (unfold m; lia).
      assert (Hz : n - m = 0) by lia.
      rewrite Hz in Hrun. rewrite send_req_loop_step in Hrun.
      destruct (Z_gt_dec 0 0); [lia|].
      injection Hrun as Hrun.
      rewrite <- (app_nil_r (log ++ [first])) in Hrun at 1.
      apply app_inv_head in Hrun. subst fs. unfold first.
      congruence.
Qed.

(** The sink only sees the messages: whatever the sink, the loop hands it,
    in order, the messages that the recording sink collects. *)
Lemma send_req_loop_sink (k : nat) :
  forall (n : Z) (tmp : QEMUUMemReq) (log : list QEMUUMemReq),
    (Z.to_nat n <= k)%nat ->
    exists fs,
      send_req_loop record_one log n tmp = Some (log ++ fs)
      /\ forall (F : Type) (one : F -> QEMUUMemReq -> option F) (f : F),
          send_req_loop one f n tmp = send_all one fs f.
Proof.
  induction k as [|k IH]; intros n tmp log Hk;
    rewrite send_req_loop_step; destruct (Z_gt_dec n 0) as [Hpos|Hnpos].
  1: lia.
  1, 3: exists []; rewrite app_nil_r; split; [reflexivity|];
    intros F one f; rewrite send_req_loop_step;
    destruct (Z_gt_dec n 0); [lia | reflexivity].
  unfold record_one at 1.
  set (m := Z.min n MAX_PAGE_NR).
  assert (Hm : 0 < m) by (unfold m; rewrite MAX_PAGE_NR_eq; lia).
  set (first := set_nr tmp m).
  destruct (IH (n - m) (advance_pgoffs first m) (log ++ [first]))
    as (fs & Hrun & Hsink); [lia|].
  exists (first :: fs). rewrite Hrun, <- app_assoc. simpl.
  split; [reflexivity|].
  intros F one f. rewrite send_req_loop_step.
  destruct (Z_gt_dec n 0); [|lia].
  fold m. fold first. destruct (one f first); [apply Hsink | reflexivity].
Qed.

(** The file transport: the bytes written are those of the recorded
    messages, serialised one after the other. *)
Lemma postcopy_file_incoming_send_req_sink (req : QEMUUMemReq)
      (F : Type) (one : F -> QEMUUMemReq -> option F) (f : F) :
  postcopy_file_incoming_send_req one f req =
  match frames_of req with
  | None => None
  | Some fs => send_all one fs f
  end.
Proof.
  unfold frames_of, postcopy_file_incoming_send_req.
  destruct (cmd req =? QEMU_UMEM_REQ_EOC).
  { simpl. destruct (one f req); reflexivity. }
  destruct (cmd req =? QEMU_UMEM_REQ_PAGE).
  { unfold record_one at 1.
    set (first := set_nr req (Z.min (nr req) MAX_PAGE_NR)).
    destruct (send_req_loop_sink (k := Z.to_nat (nr req - nr first))
                (nr req - nr first)
                (set_cmd (advance_pgoffs first (nr first))
                         QEMU_UMEM_REQ_PAGE_CONT)
                ([] ++ [first])) as (fs & Hrun & Hsink); [lia|].
    rewrite Hrun. simpl.
    destruct (one f first); [apply Hsink|reflexivity]. }
  destruct (cmd req =? QEMU_UMEM_REQ_PAGE_CONT); [|reflexivity].
  destruct (send_req_loop_sink (k := Z.to_nat (nr req)) (nr req) req [])
    as (fs & Hrun & Hsink); [lia|].
  rewrite Hrun. apply Hsink.
Qed.

(** The messages of a PAGE request: the first keeps the command and the
    block name, the loop supplies the rest. *)
Lemma frames_of_page (req : QEMUUMemReq) :
  cmd req = QEMU_UMEM_REQ_PAGE ->
  nr req = Z.of_nat (length (pgoffs req)) ->
  let m := Z.min (nr req) MAX_PAGE_NR in
  let first := set_nr req m in
  let tmp := set_cmd (advance_pgoffs first m) QEMU_UMEM_REQ_PAGE_CONT in
  exists rest,
    frames_of req = Some (first :: rest)
    /\ Forall (fun r => cmd r = QEMU_UMEM_REQ_PAGE_CONT
                        /\ idstr r = idstr req
                        /\ 0 < nr r <= MAX_PAGE_NR
                        /\ nr r <= Z.of_nat (length (pgoffs r))) rest
    /\ concat (map req_pgoffs_array rest) = skipn (Z.to_nat m) (pgoffs req)
    /\ (nr req <= MAX_PAGE_NR -> rest = [])
    /\ (MAX_PAGE_NR < nr req <= 2 * MAX_PAGE_NR ->
        rest = [set_nr tmp (nr req - MAX_PAGE_NR)]).
Proof.
  intros Hcmd Hwf m first tmp.
  assert (Hm : 0 <= m <= nr req /\ m <= MAX_PAGE_NR)
    by (unfold m; rewrite MAX_PAGE_NR_eq; lia).
  unfold frames_of, postcopy_file_incoming_send_req.
  rewrite Hcmd. simpl (_ =? _). cbv iota. unfold record_one at 1.
  fold m. fold first. change (nr first) with m. fold tmp.
  destruct (send_req_loop_frames (k := Z.to_nat (nr req - m))
              (n := nr req - m) tmp ([] ++ [first]))
    as (fs & Hrun & Hall & Hcat & Hone).
  - lia.
  - simpl. rewrite length_skipn. lia.
  - exists fs. rewrite Hrun. split; [reflexivity|].
    split; [|split; [exact Hcat|split]].
    + eapply Forall_impl; [|exact Hall]. simpl. intros r H. tauto.
    + intros Hle. assert (Hz : nr req - m = 0) by (unfold m; lia).
      rewrite Hz, send_req_loop_step in Hrun.
      destruct (Z_gt_dec 0 0); [lia|]. simpl in Hrun.
      injection Hrun as Hrun. auto.
    + intros Hgt. assert (Hz : m = MAX_PAGE_NR) by (unfold m; lia).
      rewrite <- Hz. apply Hone. lia.
Qed.

(* --------------------------------------------------------------------- *)
(** ** Size of a serialised message *)

Lemma length_qemu_put_byte (f : QF.t) (v : Z) :
  length (QF.qemu_put_byte f v) = S (length f).
Proof. unfold QF.qemu_put_byte. rewrite length_app. simpl. lia. Qed.

Lemma length_qemu_put_buffer (buf : list Z) :
  forall f : QF.t,
    length (QF.qemu_put_buffer f buf) = (length f + length buf)%nat.
Proof.
  unfold QF.qemu_put_buffer.
  induction buf as [|b buf IH]; intros f; simpl; [lia|].
  rewrite IH, length_qemu_put_byte. lia.
Qed.

Lemma length_qemu_put_be32 (f : QF.t) (v : Z) :
  length (QF.qemu_put_be32 f v) = (length f + 4)%nat.
Proof.
  unfold QF.qemu_put_be32. cbv zeta.
  rewrite !length_qemu_put_byte. lia.
Qed.

Lemma length_qemu_put_be64 (f : QF.t) (v : Z) :
  length (QF.qemu_put_be64 f v) = (length f + 8)%nat.
Proof.
  unfold QF.qemu_put_be64. cbv zeta.
  rewrite !length_qemu_put_be32. lia.
Qed.

Lemma length_send_req_pgoffs (n : Z) (offs : list Z) (f : QF.t) :
  length (postcopy_incoming_send_req_pgoffs f n offs) =
  (length f + 4 + 8 * Z.to_nat n)%nat.
Proof.
  unfold postcopy_incoming_send_req_pgoffs. cbv zeta.
  assert (H : forall (l : list nat) (g : QF.t),
             length (fold_left
                       (fun f i => QF.qemu_put_be64 f (nth i offs 0)) l g) =
             (length g + 8 * length l)%nat).
  { induction l as [|i l IH]; intros g; simpl; [lia|].
    rewrite IH, length_qemu_put_be64. lia. }
  rewrite H, length_qemu_put_be32, length_seq. reflexivity.
Qed.

(** Bytes on the wire of one message: 1 for the command, 1 + strlen(idstr)
    for the name of a PAGE message, 4 for the count, 8 per offset. *)
Lemma length_send_req_one (r : QEMUUMemReq) (f g : QF.t) :
  postcopy_incoming_send_req_one f r = Some g ->
  cmd r <> QEMU_UMEM_REQ_EOC ->
  Z.of_nat (length g) =
  Z.of_nat (length f) + 1
  + (if cmd r =? QEMU_UMEM_REQ_PAGE then 1 + strlen (idstr r) else 0)
  + 4 + 8 * Z.max 0 (nr r).
Proof.
  unfold postcopy_incoming_send_req_one, postcopy_incoming_send_req_idstr.
  cbv zeta. intros H Hne.
  destruct (cmd r =? QEMU_UMEM_REQ_EOC) eqn:E0; [apply Z.eqb_eq in E0; tauto|].
  destruct (cmd r =? QEMU_UMEM_REQ_PAGE).
  - injection H as <-.
    rewrite length_send_req_pgoffs, length_qemu_put_buffer,
      !length_qemu_put_byte. unfold strlen. lia.
  - destruct (cmd r =? QEMU_UMEM_REQ_PAGE_CONT); [|discriminate].
    injection H as <-.
    rewrite length_send_req_pgoffs, !length_qemu_put_byte. lia.
Qed.

Lemma frames_of_page_cont (req : QEMUUMemReq) :
  cmd req = QEMU_UMEM_REQ_PAGE_CONT ->
  nr req = Z.of_nat (length (pgoffs req)) ->
  exists fs,
    frames_of req = Some fs
    /\ Forall (fun r => cmd r = QEMU_UMEM_REQ_PAGE_CONT
                        /\ idstr r = idstr req
                        /\ 0 < nr r <= MAX_PAGE_NR
                        /\ nr r <= Z.of_nat (length (pgoffs r))) fs
    /\ concat (map req_pgoffs_array fs) = pgoffs req.
Proof.
  intros Hcmd Hwf.
  unfold frames_of, postcopy_file_incoming_send_req.
  rewrite Hcmd. simpl (_ =? _). cbv iota.
  destruct (send_req_loop_frames (k := Z.to_nat (nr req)) req [] (Nat.le_refl _) Hwf)
    as (fs & Hrun & Hall & Hcat & _).
  exists fs. rewrite Hrun. split; [reflexivity|]. split; [|exact Hcat].
  eapply Forall_impl; [|exact Hall]. simpl. intros r H.
  rewrite Hcmd in H. tauto.
Qed.

(** C2 as the specification states it fails: [MAX_PAGE_NR] is 4063, so a
    PAGE request of 4062 + 1 offsets is not split; it goes out as one PAGE
    message carrying 4063 offsets. *)
Lemma frame_bound_4062_fails :
  let req := mkReq QEMU_UMEM_REQ_PAGE 0 [114; 97; 109] 4063 (repeat 0 4063) in
  MAX_PAGE_NR <> 4062
  /\ frames_of req = Some [req]
  /\ ~ (nr req <= 4062).
Proof.
  split; [discriminate|]. split; [vm_compute; reflexivity|].
  simpl. lia.
Qed.

(** C2, amended.  [MAX_PAGE_NR = 4063].  Every request is sent as messages
    of at most 4063 offsets each; each message, serialised, takes at most
    32768 bytes; a PAGE request of exactly 4063 offsets is one PAGE message;
    one of 4064 offsets is one PAGE message of 4063 offsets followed by one
    PAGE_CONT message with the last offset. *)
Theorem send_req_frames_bounded (req : QEMUUMemReq) :
  cmd req = QEMU_UMEM_REQ_PAGE \/ cmd req = QEMU_UMEM_REQ_PAGE_CONT ->
  nr req = Z.of_nat (length (pgoffs req)) ->
  strlen (idstr req) <= 255 ->
  MAX_PAGE_NR = 4063
  /\ exists fs,
      frames_of req = Some fs
      /\ (forall f : QF.t,
            postcopy_file_incoming_send_req postcopy_incoming_send_req_one
              f req = send_all postcopy_incoming_send_req_one fs f)
      /\ Forall (fun r =>
                   nr r <= MAX_PAGE_NR
                   /\ exists bytes,
                       postcopy_incoming_send_req_one [] r = Some bytes
                       /\ Z.of_nat (length bytes) <= 32768) fs
      /\ (cmd req = QEMU_UMEM_REQ_PAGE -> nr req = MAX_PAGE_NR ->
          fs = [req])
      /\ (cmd req = QEMU_UMEM_REQ_PAGE -> nr req = MAX_PAGE_NR + 1 ->
          fs = [mkReq QEMU_UMEM_REQ_PAGE (len req) (idstr req)
                      MAX_PAGE_NR (pgoffs req);
                mkReq QEMU_UMEM_REQ_PAGE_CONT (len req) (idstr req) 1
                      (skipn (Z.to_nat MAX_PAGE_NR) (pgoffs req))]).
Proof.
  intros Hcmd Hwf Hid. split; [reflexivity|].
  assert (Hsize : forall r,
             (cmd r = QEMU_UMEM_REQ_PAGE \/ cmd r = QEMU_UMEM_REQ_PAGE_CONT) ->
             idstr r = idstr req -> 0 <= nr r <= MAX_PAGE_NR ->
             nr r <= MAX_PAGE_NR
             /\ exists bytes,
                 postcopy_incoming_send_req_one [] r = Some bytes
                 /\ Z.of_nat (length bytes) <= 32768).
  { intros r Hc Hi Hn. split; [lia|].
    destruct (postcopy_incoming_send_req_one [] r) as [bytes|] eqn:E.
    - exists bytes. split; [reflexivity|].
      rewrite (length_send_req_one r [] E)
        by (destruct Hc as [-> | ->]; discriminate).
      rewrite Hi. rewrite MAX_PAGE_NR_eq in Hn.
      destruct (cmd r =? QEMU_UMEM_REQ_PAGE); simpl length; lia.
    - exfalso. unfold postcopy_incoming_send_req_one in E.
      destruct Hc as [Hc | Hc]; rewrite Hc in E; discriminate. }
  destruct Hcmd as [Hcmd|Hcmd].
  - destruct (frames_of_page req Hcmd Hwf)
      as (rest & Hfr & Hall & Hcat & Hle & Hgt).
    eexists. split; [exact Hfr|]. split; [|split; [|split]].
    + intros f. rewrite postcopy_file_incoming_send_req_sink, Hfr.
      reflexivity.
    + constructor.
      * apply Hsize; simpl; auto. rewrite MAX_PAGE_NR_eq. lia.
      * eapply Forall_impl; [|exact Hall]. simpl.
        intros r (Hc & Hi & Hn & _). apply Hsize; auto; lia.
    + intros _ Hn. rewrite (Hle ltac:(lia)). f_equal.
      destruct req as [c ln i n l]. simpl in *. unfold set_nr. simpl.
      f_equal. rewrite MAX_PAGE_NR_eq in *. lia.
    + intros _ Hn. rewrite Hgt by (rewrite MAX_PAGE_NR_eq in *; lia).
      assert (Hm : Z.min (nr req) MAX_PAGE_NR = MAX_PAGE_NR)
        by (rewrite MAX_PAGE_NR_eq in *; lia).
      rewrite Hm. unfold set_nr, set_cmd, advance_pgoffs, set_pgoffs. simpl.
      rewrite Hcmd. repeat f_equal. lia.
  - destruct (frames_of_page_cont req Hcmd Hwf) as (fs & Hfr & Hall & Hcat).
    exists fs. split; [exact Hfr|]. split; [|split; [|split]].
    + intros f. rewrite postcopy_file_incoming_send_req_sink, Hfr.
      reflexivity.
    + eapply Forall_impl; [|exact Hall]. simpl.
      intros r (Hc & Hi & Hn & _). apply Hsize; auto; lia.
    + intros H. rewrite H in Hcmd. discriminate.
    + intros H. rewrite H in Hcmd. discriminate.
Qed.

Lemma send_req_frames_bounded_witness :
  MAX_PAGE_NR = 4063
  /\ exists fs,
      frames_of (mkReq QEMU_UMEM_REQ_PAGE 0 [114; 97; 109] 3 [5; 6; 7]) = Some fs
      /\ Forall (fun r =>
                   nr r <= MAX_PAGE_NR
                   /\ exists bytes,
                       postcopy_incoming_send_req_one [] r = Some bytes
                       /\ Z.of_nat (length bytes) <= 32768) fs.
Proof.
  destruct (@send_req_frames_bounded
              (mkReq QEMU_UMEM_REQ_PAGE 0 [114; 97; 109] 3 [5; 6; 7]))
    as (HM & fs & Hfr & _ & Hall & _).
  - left. reflexivity.
  - reflexivity.
  - unfold strlen. simpl. lia.
  - split; [exact HM|]. exists fs. split; [exact Hfr | exact Hall].
Defined.

(* --------------------------------------------------------------------- *)
(** ** Big-endian integers *)

Lemma qemu_put_buffer_app (buf : list Z) :
  forall f : QF.t,
    QF.qemu_put_buffer f buf = f ++ map (fun b => b mod 256) buf.
Proof.
  unfold QF.qemu_put_buffer.
  induction buf as [|b buf IH]; intros f; simpl.
  - now rewrite app_nil_r.
  - rewrite IH. unfold QF.qemu_put_byte. now rewrite <- app_assoc.
Qed.

Lemma qemu_put_be32_app (f : QF.t) (v : Z) :
  QF.qemu_put_be32 f v = f ++ be32_bytes v.
Proof.
  unfold QF.qemu_put_be32, QF.qemu_put_byte, be32_bytes. cbv zeta.
  now rewrite <- !app_assoc.
Qed.

Lemma qemu_put_be64_app (f : QF.t) (v : Z) :
  QF.qemu_put_be64 f v = f ++ be64_bytes v.
Proof.
  unfold QF.qemu_put_be64, be64_bytes. cbv zeta.
  now rewrite !qemu_put_be32_app, <- app_assoc.
Qed.

Lemma be_to_cpu_be32 (v : Z) :
  0 <= v < 2 ^ 32 -> be_to_cpu (be32_bytes v) = v.
Proof.
  intros Hv. unfold be_to_cpu, be32_bytes. cbn [fold_left].
  rewrite !Z.shiftr_div_pow2 by (clear; lia).
  change (2 ^ 24) with (256 * (256 * 256)).
  change (2 ^ 16) with (256 * 256). change (2 ^ 8) with 256.
  rewrite <- !Z.div_div by (clear; lia).
  assert (Hv' : v / 256 / 256 / 256 / 256 = 0).
  { rewrite !Z.div_div by (clear; lia). apply Z.div_small.
    change (256 * (256 * (256 * 256))) with (2 ^ 32). exact Hv. }
  pose proof (Z.div_mod v 256 ltac:(clear; lia)) as E0.
  pose proof (Z.div_mod (v / 256) 256 ltac:(clear; lia)) as E1.
  pose proof (Z.div_mod (v / 256 / 256) 256 ltac:(clear; lia)) as E2.
  pose proof (Z.div_mod (v / 256 / 256 / 256) 256 ltac:(clear; lia)) as E3.
  rewrite Hv' in E3. clear Hv Hv'. revert E0 E1 E2 E3.
  generalize (v mod 256) ((v / 256) mod 256) ((v / 256 / 256) mod 256)
             ((v / 256 / 256 / 256) mod 256).
  generalize (v / 256 / 256 / 256).
  generalize (v / 256 / 256).
  generalize (v / 256).
  intros. lia.
Qed.

Lemma be_to_cpu_app (a b : list Z) :
  be_to_cpu (a ++ b) = be_to_cpu a * 256 ^ Z.of_nat (length b) + be_to_cpu b.
Proof.
  unfold be_to_cpu. rewrite fold_left_app.
  generalize (fold_left (fun acc x => acc * 256 + x) a 0) as x.
  induction b as [|y b IH]; intros x.
  - simpl. lia.
  - cbn [fold_left length]. rewrite IH, (IH (0 * 256 + y)).
    rewrite Nat2Z.inj_succ, Z.pow_succ_r by lia. lia.
Qed.

Lemma be_to_cpu_be64 (v : Z) :
  0 <= v < 2 ^ 64 -> be_to_cpu (be64_bytes v) = v.
Proof.
  intros Hv. unfold be64_bytes.
  rewrite be_to_cpu_app. simpl length.
  change (256 ^ Z.of_nat 4) with (2 ^ 32).
  assert (H32 : 0 <= Z.shiftr v 32 < 2 ^ 32).
  { rewrite Z.shiftr_div_pow2 by lia. split.
    - apply Z.div_pos; lia.
    - apply Z.div_lt_upper_bound; [lia|].
      change (2 ^ 32 * 2 ^ 32) with (2 ^ 64). lia. }
  rewrite (be_to_cpu_be32 H32).
  assert (Hlow : be_to_cpu (be32_bytes v) = v mod 2 ^ 32).
  { assert (E : be32_bytes v = be32_bytes (v mod 2 ^ 32)).
    { unfold be32_bytes. rewrite <- !Z.land_ones by lia.
      change 256 with (2 ^ 8). rewrite <- !Z.land_ones by lia.
      f_equal; [|f_equal; [|f_equal; [|f_equal]]];
        apply Z.bits_inj'; intros n Hn;
        rewrite ?Z.land_spec, ?Z.shiftr_spec, ?Z.land_spec by lia;
        destruct (Z.ltb_spec n 8);
        rewrite ?Z.ones_spec_low, ?Z.ones_spec_high by lia;
        rewrite ?andb_true_r, ?andb_false_r; auto. }
    rewrite E. apply be_to_cpu_be32. apply Z.mod_pos_bound. lia. }
  rewrite Hlow, Z.shiftr_div_pow2 by lia.
  pose proof (Z.div_mod v (2 ^ 32) ltac:(lia)). lia.
Qed.

Lemma length_be32_bytes (v : Z) : length (be32_bytes v) = 4%nat.
Proof. reflexivity. Qed.

Lemma length_be64_bytes (v : Z) : length (be64_bytes v) = 8%nat.
Proof. reflexivity. Qed.

(* --------------------------------------------------------------------- *)
(** ** The serialiser in closed form *)

Lemma send_req_pgoffs_app (offs : list Z) (f : QF.t) :
  postcopy_incoming_send_req_pgoffs f (Z.of_nat (length offs)) offs =
  f ++ be32_bytes (Z.of_nat (length offs)) ++ flat_map be64_bytes offs.
Proof.
  unfold postcopy_incoming_send_req_pgoffs. cbv zeta.
  rewrite Nat2Z.id, qemu_put_be32_app.
  assert (H : forall (l pre : list Z) (h : QF.t),
             offs = pre ++ l ->
             fold_left (fun f i => QF.qemu_put_be64 f (nth i offs 0))
                       (seq (length pre) (length l)) h =
             h ++ flat_map be64_bytes l).
  { induction l as [|x l IH]; intros pre h Hoffs; simpl.
    - now rewrite app_nil_r.
    - rewrite qemu_put_be64_app.
      replace (nth (length pre) offs 0) with x
        by (subst offs; now rewrite nth_middle).
      specialize (IH (pre ++ [x]) (h ++ be64_bytes x)).
      rewrite length_app, Nat.add_1_r in IH.
      rewrite IH by (subst offs; now rewrite <- app_assoc).
      now rewrite <- app_assoc. }
  rewrite (H offs [] _ eq_refl). now rewrite <- app_assoc.
Qed.

Lemma map_mod_bytes (l : list Z) :
  Forall (fun b => 0 < b < 256) l -> map (fun b => b mod 256) l = l.
Proof.
  induction 1 as [|b l Hb _ IH]; simpl; [reflexivity|].
  rewrite IH, Z.mod_small by lia. reflexivity.
Qed.

Lemma send_req_one_wire (r : QEMUUMemReq) (f : QF.t) :
  req_wf r ->
  postcopy_incoming_send_req_one f r = Some (f ++ wire_bytes r).
Proof.
  intros [Hc Hid Hlen Hnr _ _].
  unfold postcopy_incoming_send_req_one, wire_bytes,
    postcopy_incoming_send_req_idstr.
  cbv zeta. rewrite Hnr, !send_req_pgoffs_app, qemu_put_buffer_app.
  rewrite (map_mod_bytes Hid). unfold QF.qemu_put_byte.
  assert (Hm : strlen (idstr r) mod 256 = strlen (idstr r))
    by (apply Z.mod_small; lia).
  rewrite Hm.
  destruct Hc as [Hc | [Hc | Hc]]; rewrite Hc; simpl (_ =? _); cbv iota;
    [ change (QEMU_UMEM_REQ_EOC mod 256) with QEMU_UMEM_REQ_EOC
    | change (QEMU_UMEM_REQ_PAGE mod 256) with QEMU_UMEM_REQ_PAGE
    | change (QEMU_UMEM_REQ_PAGE_CONT mod 256) with QEMU_UMEM_REQ_PAGE_CONT ];
    f_equal; rewrite <- ?app_assoc; simpl; rewrite ?app_nil_r; reflexivity.
Qed.

Lemma send_req_pgoffs_array (f : QF.t) (n : Z) (offs : list Z) :
  postcopy_incoming_send_req_pgoffs f n offs
  = f ++ be32_bytes n
      ++ flat_map be64_bytes
           (map (fun i => nth i offs 0) (seq 0 (Z.to_nat n))).
Proof.
  unfold postcopy_incoming_send_req_pgoffs. cbv zeta.
  rewrite qemu_put_be32_app, app_assoc.
  generalize (f ++ be32_bytes n) as h.
  generalize (seq 0 (Z.to_nat n)) as l.
  induction l as [|i l IH]; intros h; cbn [fold_left map flat_map].
  - now rewrite app_nil_r.
  - rewrite IH, qemu_put_be64_app, <- !app_assoc. reflexivity.
Qed.

Lemma map_mod_small (l : list Z) :
  Forall (fun b => 0 <= b < 256) l -> map (fun b => b mod 256) l = l.
Proof.
  induction 1 as [|b l Hb _ IH]; simpl; [reflexivity|].
  rewrite IH, Z.mod_small by lia. reflexivity.
Qed.

(** The bytes one PAGE or PAGE_CONT message puts into the file: the
    command, for PAGE the length and the characters of the block name,
    the count, and the [nr] first offsets of the array. *)
Lemma send_req_one_emits (r : QEMUUMemReq) (f : QF.t) :
  cmd r = QEMU_UMEM_REQ_PAGE \/ cmd r = QEMU_UMEM_REQ_PAGE_CONT ->
  Forall (fun b => 0 <= b < 256) (idstr r) ->
  strlen (idstr r) <= 255 ->
  postcopy_incoming_send_req_one f r
  = Some (f ++ wire_bytes (frame_on_wire r)).
Proof.
  intros Hc Hid Hlen.
  unfold postcopy_incoming_send_req_one, wire_bytes, frame_on_wire,
    postcopy_incoming_send_req_idstr.
  cbn [cmd idstr nr pgoffs set_pgoffs]. cbv zeta.
  rewrite !send_req_pgoffs_array, qemu_put_buffer_app.
  rewrite (map_mod_small Hid). unfold QF.qemu_put_byte.
  assert (Hm : strlen (idstr r) mod 256 = strlen (idstr r))
    by (apply Z.mod_small; unfold strlen in *; lia).
  rewrite Hm. fold (req_pgoffs_array r).
  destruct Hc as [Hc | Hc]; rewrite Hc; simpl (_ =? _); cbv iota;
    [ change (QEMU_UMEM_REQ_PAGE mod 256) with QEMU_UMEM_REQ_PAGE
    | change (QEMU_UMEM_REQ_PAGE_CONT mod 256) with QEMU_UMEM_REQ_PAGE_CONT ];
    f_equal; rewrite <- ?app_assoc; simpl; rewrite ?app_nil_r; reflexivity.
Qed.

Lemma send_all_emits (fs : list QEMUUMemReq) :
  Forall (fun r => (cmd r = QEMU_UMEM_REQ_PAGE
                    \/ cmd r = QEMU_UMEM_REQ_PAGE_CONT)
                   /\ Forall (fun b => 0 <= b < 256) (idstr r)
                   /\ strlen (idstr r) <= 255) fs ->
  forall f : QF.t,
    send_all postcopy_incoming_send_req_one fs f
    = Some (f ++ flat_map (fun r => wire_bytes (frame_on_wire r)) fs).
Proof.
  induction 1 as [|r fs (Hc & Hid & Hlen) _ IH]; intros f;
    cbn [send_all flat_map].
  - now rewrite app_nil_r.
  - rewrite (@send_req_one_emits r f Hc Hid Hlen), IH, <- app_assoc.
    reflexivity.
Qed.

(** C9.  Splitting a request into messages loses and duplicates nothing.
    For every PAGE (or PAGE_CONT) request whose array holds [nr] offsets
    and whose block name is a string of at most 255 bytes, what
    [postcopy_file_incoming_send_req] appends to the file is, byte for
    byte, a sequence of messages, each made of its command, for PAGE the
    length and the characters of the block name, the count as 32 bits and
    its offsets as 64 bits each, big-endian; and the offsets of these
    messages, concatenated in order, are the request's array.  For a PAGE
    request the sequence is one PAGE message, carrying the block name,
    followed by PAGE_CONT messages only. *)
Theorem send_req_split_preserves_offsets (req : QEMUUMemReq) :
  cmd req = QEMU_UMEM_REQ_PAGE \/ cmd req = QEMU_UMEM_REQ_PAGE_CONT ->
  nr req = Z.of_nat (length (pgoffs req)) ->
  Forall (fun b => 0 <= b < 256) (idstr req) ->
  strlen (idstr req) <= 255 ->
  exists fs,
    frames_of req = Some fs
    /\ (forall f : QF.t,
          postcopy_file_incoming_send_req postcopy_incoming_send_req_one f req
          = Some (f ++ flat_map
                         (fun r =>
                            cmd r ::
                            (if cmd r =? QEMU_UMEM_REQ_PAGE
                             then strlen (idstr r) :: idstr r else [])
                            ++ be32_bytes (nr r)
                            ++ flat_map be64_bytes (req_pgoffs_array r))
                         fs))
    /\ Forall (fun r => nr r = Z.of_nat (length (req_pgoffs_array r))) fs
    /\ concat (map req_pgoffs_array fs) = pgoffs req
    /\ (cmd req = QEMU_UMEM_REQ_PAGE ->
        exists first rest,
          fs = first :: rest
          /\ cmd first = QEMU_UMEM_REQ_PAGE /\ idstr first = idstr req
          /\ Forall (fun r => cmd r = QEMU_UMEM_REQ_PAGE_CONT) rest)
    /\ (cmd req = QEMU_UMEM_REQ_PAGE_CONT ->
        Forall (fun r => cmd r = QEMU_UMEM_REQ_PAGE_CONT) fs).
Proof.
  intros Hcmd Hwf Hid Hlen.
  assert (Hbytes : forall fs : list QEMUUMemReq,
             Forall (fun r => cmd r = QEMU_UMEM_REQ_PAGE
                              \/ cmd r = QEMU_UMEM_REQ_PAGE_CONT) fs ->
             flat_map (fun r => wire_bytes (frame_on_wire r)) fs
             = flat_map
                 (fun r =>
                    cmd r ::
                    (if cmd r =? QEMU_UMEM_REQ_PAGE
                     then strlen (idstr r) :: idstr r else [])
                    ++ be32_bytes (nr r)
                    ++ flat_map be64_bytes (req_pgoffs_array r)) fs).
  { induction 1 as [|r fs Hr _ IH]; cbn [flat_map]; [reflexivity|].
    rewrite IH. f_equal. unfold wire_bytes, frame_on_wire.
    cbn [cmd idstr nr pgoffs set_pgoffs].
    destruct Hr as [Hr|Hr]; rewrite Hr; reflexivity. }
  assert (Hcount : forall fs : list QEMUUMemReq,
             Forall (fun r => 0 <= nr r) fs ->
             Forall (fun r => nr r = Z.of_nat (length (req_pgoffs_array r)))
                    fs).
  { intros fs H. eapply Forall_impl; [|exact H]. intros r Hr. cbv beta in *.
    unfold req_pgoffs_array. rewrite length_map, length_seq. lia. }
  destruct Hcmd as [Hcmd|Hcmd].
  - destruct (frames_of_page req Hcmd Hwf) as (rest & Hfr & Hall & Hcat & _).
    assert (Hcmds : Forall (fun r => cmd r = QEMU_UMEM_REQ_PAGE
                                     \/ cmd r = QEMU_UMEM_REQ_PAGE_CONT)
                           (set_nr req (Z.min (nr req) MAX_PAGE_NR)
                                   :: rest)).
    { constructor; [left; exact Hcmd|].
      eapply Forall_impl; [|exact Hall]. cbv beta. tauto. }
    eexists. split; [exact Hfr|]. split; [|split; [|split; [|split]]].
    + intros f. rewrite postcopy_file_incoming_send_req_sink, Hfr.
      rewrite send_all_emits; [now rewrite (Hbytes _ Hcmds)|].
      constructor.
      * cbn [cmd idstr set_nr]. auto.
      * eapply Forall_impl; [|exact Hall]. cbv beta.
        intros r (Hc & Hi & _). rewrite Hi. auto.
    + apply Hcount. constructor.
      * cbn [nr set_nr]. rewrite MAX_PAGE_NR_eq. lia.
      * eapply Forall_impl; [|exact Hall]. cbv beta. lia.
    + cbn [map concat]. rewrite Hcat.
      rewrite req_pgoffs_array_firstn
        by (simpl; rewrite MAX_PAGE_NR_eq; lia).
      simpl. apply firstn_skipn.
    + intros _. do 2 eexists. split; [reflexivity|].
      split; [exact Hcmd|]. split; [reflexivity|].
      eapply Forall_impl; [|exact Hall]. simpl. tauto.
    + intros H. rewrite H in Hcmd. discriminate.
  - destruct (frames_of_page_cont req Hcmd Hwf) as (fs & Hfr & Hall & Hcat).
    assert (Hcmds : Forall (fun r => cmd r = QEMU_UMEM_REQ_PAGE
                                     \/ cmd r = QEMU_UMEM_REQ_PAGE_CONT) fs).
    { eapply Forall_impl; [|exact Hall]. cbv beta. tauto. }
    exists fs. split; [exact Hfr|].
    split; [|split; [|split; [exact Hcat|split]]].
    + intros f. rewrite postcopy_file_incoming_send_req_sink, Hfr.
      rewrite send_all_emits; [now rewrite (Hbytes _ Hcmds)|].
      eapply Forall_impl; [|exact Hall]. cbv beta.
      intros r (Hc & Hi & _). rewrite Hi. auto.
    + apply Hcount. eapply Forall_impl; [|exact Hall]. cbv beta. lia.
    + intros H. rewrite H in Hcmd. discriminate.
    + intros _. eapply Forall_impl; [|exact Hall]. simpl. tauto.
Qed.

Lemma send_req_split_preserves_offsets_witness :
  exists fs,
    frames_of (mkReq QEMU_UMEM_REQ_PAGE 0 [114; 97; 109] 3 [5; 6; 7]) = Some fs
    /\ postcopy_file_incoming_send_req
         postcopy_incoming_send_req_one [9]
         (mkReq QEMU_UMEM_REQ_PAGE 0 [114; 97; 109] 3 [5; 6; 7])
       = Some ([9] ++ flat_map
                        (fun r =>
                           cmd r ::
                           (if cmd r =? QEMU_UMEM_REQ_PAGE
                            then strlen (idstr r) :: idstr r else [])
                           ++ be32_bytes (nr r)
                           ++ flat_map be64_bytes (req_pgoffs_array r))
                        fs)
    /\ concat (map req_pgoffs_array fs) = [5; 6; 7].
Proof.
  destruct (@send_req_split_preserves_offsets
              (mkReq QEMU_UMEM_REQ_PAGE 0 [114; 97; 109] 3 [5; 6; 7]))
    as (fs & Hfr & Hbytes & _ & Hcat & _).
  - left. reflexivity.
  - reflexivity.
  - repeat constructor; lia.
  - cbn. lia.
  - exists fs. split; [exact Hfr|]. split; [apply Hbytes | exact Hcat].
Defined.

(* --------------------------------------------------------------------- *)
(** ** Peeking *)

Lemma peek_length (f : QR.t) (size offset : Z) :
  0 <= size -> 0 <= offset ->
  Z.of_nat (length (QR.qemu_peek_buffer f size offset)) =
  Z.max 0 (Z.min size (Z.of_nat (length f) - offset)).
Proof.
  intros Hs Ho. unfold QR.qemu_peek_buffer.
  rewrite length_firstn, length_skipn. lia.
Qed.

Lemma peek_exact (p x rest : list Z) (size offset : Z) :
  offset = Z.of_nat (length p) -> size = Z.of_nat (length x) ->
  QR.qemu_peek_buffer (p ++ x ++ rest) size offset = x.
Proof.
  intros -> ->. unfold QR.qemu_peek_buffer. rewrite !Nat2Z.id.
  rewrite skipn_app, skipn_all, Nat.sub_diag. simpl.
  rewrite firstn_app, firstn_all, Nat.sub_diag. simpl.
  apply app_nil_r.
Qed.

Lemma Forall_firstn_skipn {A : Type} (P : A -> Prop) (l : list A) :
  Forall P l -> forall n m, Forall P (firstn n (skipn m l)).
Proof.
  intros H n m. rewrite Forall_forall in *. intros x Hx.
  apply H. rewrite <- (firstn_skipn m l). apply in_or_app. right.
  rewrite <- (firstn_skipn n (skipn m l)). apply in_or_app. now left.
Qed.

Lemma peek_is_bytes (f : QR.t) (size offset : Z) :
  is_bytes f -> is_bytes (QR.qemu_peek_buffer f size offset).
Proof.
  unfold is_bytes, QR.qemu_peek_buffer. intros H.
  now apply Forall_firstn_skipn.
Qed.

Lemma be_to_cpu_nonneg (l : list Z) : is_bytes l -> 0 <= be_to_cpu l.
Proof.
  unfold be_to_cpu. intros H.
  assert (G : forall x, 0 <= x ->
                        0 <= fold_left (fun acc b => acc * 256 + b) l x).
  { induction H as [|b l Hb _ IH]; intros x Hx; simpl; [lia|].
    apply IH. lia. }
  apply G. lia.
Qed.

Lemma peek_prefix (f suffix : list Z) (size offset : Z) :
  0 <= offset -> 0 <= size ->
  offset + size <= Z.of_nat (length f) ->
  QR.qemu_peek_buffer f size offset =
  QR.qemu_peek_buffer (f ++ suffix) size offset.
Proof.
  intros Ho Hs Hle. unfold QR.qemu_peek_buffer.
  rewrite skipn_app, firstn_app, length_skipn.
  replace (Z.to_nat size - (length f - Z.to_nat offset))%nat with 0%nat
    by lia.
  simpl. now rewrite app_nil_r.
Qed.

Lemma peek_byte_prefix (f suffix : list Z) (offset : Z) :
  0 <= offset < Z.of_nat (length f) ->
  QR.qemu_peek_byte f offset = QR.qemu_peek_byte (f ++ suffix) offset.
Proof.
  intros H. unfold QR.qemu_peek_byte. rewrite app_nth1 by lia. reflexivity.
Qed.

Lemma peek_byte_range (f : QR.t) (offset : Z) :
  is_bytes f -> 0 <= QR.qemu_peek_byte f offset < 256.
Proof.
  unfold is_bytes, QR.qemu_peek_byte. intros H.
  destruct (nth_in_or_default (Z.to_nat offset) f 0) as [Hin | ->]; [|lia].
  rewrite Forall_forall in H. now apply H.
Qed.

(* --------------------------------------------------------------------- *)
(** ** The parser, piece by piece *)

(** Projections of updated requests, without touching the arithmetic. *)
Ltac req_simpl :=
  cbn [cmd len idstr nr pgoffs
       set_cmd set_len set_idstr set_nr set_pgoffs advance_pgoffs] in *.

Lemma recv_req_idstr_cases (f : QR.t) (req : QEMUUMemReq) (off : Z)
      (ret : Z) (req' : QEMUUMemReq) (off' : Z) :
  0 <= off -> is_bytes f ->
  postcopy_outgoing_recv_req_idstr f req off = (ret, req', off') ->
  cmd req' = cmd req /\ nr req' = nr req /\ pgoffs req' = pgoffs req
  /\ (ret = - EAGAIN
      \/ (ret = 0 /\ 0 < len req' /\ off' = off + 1 + len req'
          /\ off' <= Z.of_nat (length f))).
Proof.
  intros Ho Hb. unfold postcopy_outgoing_recv_req_idstr. cbv zeta.
  pose proof (peek_byte_range off Hb) as Hl.
  set (l := QR.qemu_peek_byte f off) in *.
  change (len (set_len req l)) with l.
  destruct (l =? 0) eqn:El.
  { intros H. injection H as <- <- <-. req_simpl. auto. }
  apply Z.eqb_neq in El.
  pose proof (@peek_length f l (off + 1) ltac:(lia) ltac:(lia)) as Hp.
  destruct (Z.of_nat (length (QR.qemu_peek_buffer f l (off + 1))) =? l)
    eqn:Eg; simpl negb; cbv iota.
  - apply Z.eqb_eq in Eg. intros H. injection H as <- <- <-. req_simpl.
    repeat split; auto. right. repeat split; lia.
  - intros H. injection H as <- <- <-. req_simpl. auto.
Qed.

Lemma recv_req_pgoffs_loop_result (f : QR.t) (k : nat) :
  forall (off : Z) (acc : list Z),
    0 <= off ->
    (off + 8 * Z.of_nat k <= Z.of_nat (length f) ->
     exists l, recv_req_pgoffs_loop f k off acc
               = (Some l, off + 8 * Z.of_nat k)
               /\ length l = (length acc + k)%nat)
    /\ (Z.of_nat (length f) < off + 8 * Z.of_nat k ->
        off <= Z.of_nat (length f) ->
        exists off', recv_req_pgoffs_loop f k off acc = (None, off')).
Proof.
  induction k as [|k IH]; intros off acc Ho.
  - split; [|lia]. intros _. exists acc. simpl.
    split; [f_equal; lia | lia].
  - cbn [recv_req_pgoffs_loop]. cbv zeta.
    pose proof (@peek_length f 8 off ltac:(lia) Ho) as Hp.
    destruct (Z.of_nat (length (QR.qemu_peek_buffer f 8 off)) =? 8) eqn:Eg;
      simpl negb; cbv iota.
    + apply Z.eqb_eq in Eg.
      destruct (IH (off + 8) (acc ++ [be_to_cpu (QR.qemu_peek_buffer f 8 off)])
                  ltac:(lia)) as [IHok IHshort].
      split.
      * intros Hle. destruct IHok as (l & Hl & Hlen); [lia|].
        exists l. rewrite Hl. split; [f_equal; lia|].
        rewrite Hlen, length_app. simpl. lia.
      * intros Hlt _. apply IHshort; lia.
    + apply Z.eqb_neq in Eg. split; [lia|]. intros _ _. eauto.
Qed.

Lemma recv_req_pgoffs_loop_decode (offs : list Z) :
  forall (p rest acc : list Z),
    Forall (fun v => 0 <= v < 2 ^ 64) offs ->
    recv_req_pgoffs_loop (p ++ flat_map be64_bytes offs ++ rest)
                         (length offs) (Z.of_nat (length p)) acc
    = (Some (acc ++ offs),
       Z.of_nat (length p) + 8 * Z.of_nat (length offs)).
Proof.
  induction offs as [|x offs IH]; intros p rest acc Hall.
  - simpl. rewrite app_nil_r. f_equal. lia.
  - inversion Hall as [|? ? Hx Hall']; subst.
    cbn [recv_req_pgoffs_loop flat_map length]. cbv zeta.
    rewrite <- (app_assoc (be64_bytes x)).
    rewrite (@peek_exact p (be64_bytes x) _ 8 _ eq_refl eq_refl).
    rewrite length_be64_bytes. simpl negb. cbv iota.
    rewrite (be_to_cpu_be64 Hx).
    specialize (IH (p ++ be64_bytes x) rest (acc ++ [x]) Hall').
    rewrite length_app, length_be64_bytes, <- !app_assoc in IH.
    replace (Z.of_nat (length p) + 8) with (Z.of_nat (length p + 8)) by lia.
    rewrite IH. cbn [app length]. f_equal. lia.
Qed.

Lemma recv_req_pgoffs_cases (f : QR.t) (req : QEMUUMemReq) (off : Z)
      (ret : Z) (req' : QEMUUMemReq) (off' : Z) :
  0 <= off -> is_bytes f ->
  postcopy_outgoing_recv_req_pgoffs f req off = (ret, req', off') ->
  cmd req' = cmd req /\ len req' = len req /\ idstr req' = idstr req
  /\ (ret = - EAGAIN
      \/ (ret = 0 /\ 0 <= nr req' /\ off' = off + 4 + 8 * nr req'
          /\ off' <= Z.of_nat (length f)
          /\ Z.of_nat (length (pgoffs req')) = nr req')).
Proof.
  intros Ho Hb. unfold postcopy_outgoing_recv_req_pgoffs. cbv zeta.
  pose proof (@peek_length f 4 off ltac:(lia) Ho) as Hp.
  pose proof (be_to_cpu_nonneg (peek_is_bytes 4 off Hb)) as Hn.
  set (n := be_to_cpu (QR.qemu_peek_buffer f 4 off)) in *.
  destruct (Z.of_nat (length (QR.qemu_peek_buffer f 4 off)) =? 4) eqn:Eg;
    simpl negb; cbv iota.
  2: { intros H. injection H as <- <- <-. auto. }
  apply Z.eqb_eq in Eg. change (nr (set_nr req n)) with n.
  destruct (@recv_req_pgoffs_loop_result f (Z.to_nat n) (off + 4) []
              ltac:(lia)) as [Hok Hshort].
  destruct (Z_le_gt_dec (off + 4 + 8 * Z.of_nat (Z.to_nat n))
                        (Z.of_nat (length f))) as [Hle | Hgt].
  - destruct Hok as (l & Hl & Hlen); [lia|]. rewrite Hl.
    intros H. injection H as <- <- <-. req_simpl.
    rewrite Z2Nat.id in * by lia.
    do 3 (split; [reflexivity|]). right.
    split; [reflexivity|]. split; [exact Hn|]. split; [reflexivity|].
    split; [exact Hle|]. rewrite Hlen. cbn [length]. lia.
  - destruct Hshort as (o & Hl); [lia|lia|]. rewrite Hl.
    intros H. injection H as <- <- <-. req_simpl. auto.
Qed.

Lemma qemu_file_skip_buffered (f : QR.t) (n : Z) :
  n <= Z.of_nat (length f) ->
  QR.qemu_file_skip f n = skipn (Z.to_nat n) f.
Proof.
  intros H. unfold QR.qemu_file_skip.
  destruct (Z.leb_spec n (Z.of_nat (length f))); [reflexivity | lia].
Qed.

(** Every return of the parser: either try-again with the file untouched,
    or success with exactly the bytes of the parsed message skipped. *)
Lemma recv_req_outcome (f : QR.t) (req : QEMUUMemReq)
      (ret : Z) (req' : QEMUUMemReq) (f' : QR.t) :
  is_bytes f ->
  postcopy_outgoing_recv_req f req = Some (ret, req', f') ->
  (ret = - EAGAIN /\ f' = f)
  \/ (ret = 0 /\ wire_size req' <= Z.of_nat (length f)
      /\ f' = skipn (Z.to_nat (wire_size req')) f).
Proof.
  intros Hb. unfold postcopy_outgoing_recv_req. cbv zeta.
  pose proof (@peek_length f 1 0 ltac:(lia) ltac:(lia)) as Hp.
  destruct (Z.of_nat (length (QR.qemu_peek_buffer f 1 0)) <=? 0) eqn:E1.
  { intros H. injection H as <- <- <-. auto. }
  apply Z.leb_gt in E1.
  set (c := hd 0 (QR.qemu_peek_buffer f 1 0)).
  change (cmd (set_cmd req c)) with c.
  destruct (c =? QEMU_UMEM_REQ_EOC) eqn:Ec0.
  { intros H. injection H as <- <- <-. right.
    unfold wire_size. simpl cmd. rewrite Ec0.
    rewrite qemu_file_skip_buffered by lia.
    split; [reflexivity|]. split; [lia | reflexivity]. }
  destruct (c =? QEMU_UMEM_REQ_PAGE) eqn:Ec1.
  { destruct (postcopy_outgoing_recv_req_idstr f (set_cmd req c) (0 + 1))
      as [[r1 q1] o1] eqn:Eid.
    destruct (@recv_req_idstr_cases f _ (0 + 1) _ _ _ ltac:(lia) Hb Eid)
      as (Hc1 & _ & _ & Hid).
    destruct Hid as [-> | (-> & Hl1 & Ho1 & Hle1)].
    { simpl. intros H. injection H as <- <- <-. auto. }
    simpl (0 <? 0). cbv iota.
    destruct (postcopy_outgoing_recv_req_pgoffs f q1 o1)
      as [[r2 q2] o2] eqn:Epg.
    destruct (@recv_req_pgoffs_cases f _ o1 _ _ _ ltac:(lia) Hb Epg)
      as (Hc2 & Hl2 & _ & Hpg).
    destruct Hpg as [-> | (-> & Hn2 & Ho2 & Hle2 & _)].
    { simpl. intros H. injection H as <- <- <-. auto. }
    simpl (0 <? 0). cbv iota.
    intros H. injection H as <- <- <-. right.
    assert (Hw : wire_size q2 = o2).
    { unfold wire_size. rewrite Hc2, Hc1. simpl cmd. rewrite Ec0, Ec1. lia. }
    rewrite Hw, qemu_file_skip_buffered by lia. auto. }
  destruct (c =? QEMU_UMEM_REQ_PAGE_CONT) eqn:Ec2; [|discriminate].
  destruct (postcopy_outgoing_recv_req_pgoffs f (set_cmd req c) (0 + 1))
    as [[r2 q2] o2] eqn:Epg.
  destruct (@recv_req_pgoffs_cases f _ (0 + 1) _ _ _ ltac:(lia) Hb Epg)
    as (Hc2 & _ & _ & Hpg).
  destruct Hpg as [-> | (-> & Hn2 & Ho2 & Hle2 & _)].
  { simpl. intros H. injection H as <- <- <-. auto. }
  simpl (0 <? 0). cbv iota.
  intros H. injection H as <- <- <-. right.
  assert (Hw : wire_size q2 = o2).
  { unfold wire_size. rewrite Hc2. simpl cmd. rewrite Ec0, Ec1. lia. }
  rewrite Hw, qemu_file_skip_buffered by lia. auto.
Qed.

Lemma recv_req_pgoffs_complete (p rest offs : list Z) (req : QEMUUMemReq) :
  Z.of_nat (length offs) < 2 ^ 32 ->
  Forall (fun v => 0 <= v < 2 ^ 64) offs ->
  postcopy_outgoing_recv_req_pgoffs
    (p ++ be32_bytes (Z.of_nat (length offs))
       ++ flat_map be64_bytes offs ++ rest)
    req (Z.of_nat (length p))
  = (0, set_pgoffs (set_nr req (Z.of_nat (length offs))) offs,
     Z.of_nat (length p) + 4 + 8 * Z.of_nat (length offs)).
Proof.
  intros Hn Hall. unfold postcopy_outgoing_recv_req_pgoffs. cbv zeta.
  rewrite (@peek_exact p (be32_bytes (Z.of_nat (length offs))) _ 4 _
             eq_refl eq_refl).
  rewrite length_be32_bytes. simpl negb. cbv iota.
  rewrite be_to_cpu_be32 by lia.
  change (nr (set_nr req (Z.of_nat (length offs))))
    with (Z.of_nat (length offs)).
  rewrite Nat2Z.id.
  pose proof (@recv_req_pgoffs_loop_decode offs
                (p ++ be32_bytes (Z.of_nat (length offs))) rest [] Hall)
    as Hloop.
  rewrite length_app, length_be32_bytes, <- app_assoc in Hloop.
  replace (Z.of_nat (length p) + 4) with (Z.of_nat (length p + 4)) by lia.
  rewrite Hloop. cbn [app]. f_equal; lia.
Qed.

Lemma recv_req_pgoffs_prefix (f suffix p body : list Z) (n : Z)
      (req : QEMUUMemReq) :
  f ++ suffix = p ++ be32_bytes n ++ body ->
  suffix <> [] ->
  Z.of_nat (length body) = 8 * n -> 0 <= n < 2 ^ 32 ->
  exists req' off',
    postcopy_outgoing_recv_req_pgoffs f req (Z.of_nat (length p))
    = (- EAGAIN, req', off').
Proof.
  intros Hw Hs Hbody Hn. unfold postcopy_outgoing_recv_req_pgoffs. cbv zeta.
  assert (Hlen : Z.of_nat (length f)
                 < Z.of_nat (length p) + 4 + 8 * n).
  { apply (f_equal (@length Z)) in Hw.
    rewrite !length_app, length_be32_bytes in Hw.
    destruct suffix; [congruence | simpl in Hw; lia]. }
  pose proof (@peek_length f 4 (Z.of_nat (length p)) ltac:(lia) ltac:(lia))
    as Hp.
  destruct (Z.of_nat (length (QR.qemu_peek_buffer f 4 (Z.of_nat (length p))))
            =? 4) eqn:Eg; simpl negb; cbv iota; [|eauto].
  apply Z.eqb_eq in Eg.
  rewrite (@peek_prefix f suffix 4 (Z.of_nat (length p))) by lia.
  rewrite Hw, (@peek_exact p (be32_bytes n) body 4 _ eq_refl eq_refl).
  rewrite be_to_cpu_be32 by lia. change (nr (set_nr req n)) with n.
  destruct (@recv_req_pgoffs_loop_result f (Z.to_nat n)
              (Z.of_nat (length p) + 4) [] ltac:(lia)) as [_ Hshort].
  destruct Hshort as (o & Hl); [lia|lia|]. rewrite Hl. eauto.
Qed.

Lemma c_str_nonzero (l : list Z) :
  Forall (fun b => 0 < b < 256) l -> c_str l = l.
Proof.
  induction 1 as [|b l Hb _ IH]; simpl; [reflexivity|].
  destruct (Z.eqb_spec b 0); [lia|]. now rewrite IH.
Qed.

Lemma length_flat_map_be64 (offs : list Z) :
  Z.of_nat (length (flat_map be64_bytes offs)) = 8 * Z.of_nat (length offs).
Proof.
  induction offs as [|x offs IH]; [reflexivity|].
  cbn [flat_map]. rewrite length_app, length_be64_bytes.
  cbn [length]. lia.
Qed.

(** A whole message in the buffer is parsed and consumed, whatever
    follows it. *)
Lemma qemu_file_skip_app (w rest : list Z) (n : Z) :
  n = Z.of_nat (length w) -> QR.qemu_file_skip (w ++ rest) n = rest.
Proof.
  intros ->. rewrite qemu_file_skip_buffered by (rewrite length_app; lia).
  rewrite Nat2Z.id, skipn_app, skipn_all, Nat.sub_diag. reflexivity.
Qed.

Lemma recv_req_complete (r : QEMUUMemReq) (rest : list Z) :
  req_wf r ->
  exists req',
    postcopy_outgoing_recv_req (wire_bytes r ++ rest) req_init
    = Some (0, req', rest)
    /\ cmd req' = cmd r
    /\ (cmd r = QEMU_UMEM_REQ_PAGE -> idstr req' = idstr r)
    /\ (cmd r <> QEMU_UMEM_REQ_EOC ->
        nr req' = nr r /\ pgoffs req' = pgoffs r).
Proof.
  intros [Hc Hid Hlen Hnr Hn32 Hoffs].
  unfold wire_bytes.
  destruct Hc as [Hc | [Hc | Hc]]; rewrite Hc; simpl (_ =? _); cbv iota.
  - (* EOC *)
    exists (set_cmd req_init QEMU_UMEM_REQ_EOC). split.
    + cbn [app]. unfold postcopy_outgoing_recv_req. cbv zeta.
      assert (Hpeek1 : QR.qemu_peek_buffer (QEMU_UMEM_REQ_EOC :: rest) 1 0
                       = [QEMU_UMEM_REQ_EOC]) by reflexivity.
      rewrite Hpeek1. cbn [length hd]. change (Z.of_nat 1 <=? 0) with false.
      cbv iota. change (cmd (set_cmd req_init QEMU_UMEM_REQ_EOC))
        with QEMU_UMEM_REQ_EOC.
      change (QEMU_UMEM_REQ_EOC =? QEMU_UMEM_REQ_EOC) with true. cbv iota.
      change (QEMU_UMEM_REQ_EOC :: rest) with ([QEMU_UMEM_REQ_EOC] ++ rest).
      rewrite qemu_file_skip_app by reflexivity. reflexivity.
    + req_simpl. split; [auto|]. split; [intros H; discriminate H|].
      congruence.
  - (* PAGE *)
    rewrite Hnr. set (n := Z.of_nat (length (pgoffs r))).
    set (L := strlen (idstr r)) in *.
    set (q := set_idstr (set_len (set_cmd req_init QEMU_UMEM_REQ_PAGE) L)
                        (idstr r)).
    exists (set_pgoffs (set_nr q n) (pgoffs r)).
    split; [|req_simpl; repeat split; auto].
    set (W := [QEMU_UMEM_REQ_PAGE; L] ++ idstr r).
    assert (Hf : (QEMU_UMEM_REQ_PAGE
                  :: (L :: idstr r)
                     ++ be32_bytes n ++ flat_map be64_bytes (pgoffs r)) ++ rest
                 = W ++ be32_bytes n ++ flat_map be64_bytes (pgoffs r) ++ rest).
    { unfold W. cbn [app]. now rewrite <- !app_assoc. }
    rewrite Hf. clear Hf.
    assert (HW : Z.of_nat (length W) = 2 + L).
    { unfold W, L, strlen. rewrite length_app. cbn [length]. lia. }
    unfold postcopy_outgoing_recv_req. cbv zeta.
    assert (Hpeek1 : QR.qemu_peek_buffer
                       (W ++ be32_bytes n ++ flat_map be64_bytes (pgoffs r)
                          ++ rest) 1 0 = [QEMU_UMEM_REQ_PAGE])
      by reflexivity.
    rewrite Hpeek1. cbn [length hd]. change (Z.of_nat 1 <=? 0) with false.
    cbv iota. change (cmd (set_cmd req_init QEMU_UMEM_REQ_PAGE))
      with QEMU_UMEM_REQ_PAGE.
    change (QEMU_UMEM_REQ_PAGE =? QEMU_UMEM_REQ_EOC) with false.
    change (QEMU_UMEM_REQ_PAGE =? QEMU_UMEM_REQ_PAGE) with true. cbv iota.
    (* idstr *)
    assert (Hidp : postcopy_outgoing_recv_req_idstr
                     (W ++ be32_bytes n ++ flat_map be64_bytes (pgoffs r)
                        ++ rest)
                     (set_cmd req_init QEMU_UMEM_REQ_PAGE) (0 + 1)
                   = (0, q, 2 + L)).
    { unfold postcopy_outgoing_recv_req_idstr. cbv zeta.
      assert (Hb1 : QR.qemu_peek_byte
                      (W ++ be32_bytes n ++ flat_map be64_bytes (pgoffs r)
                         ++ rest) (0 + 1) = L) by reflexivity.
      rewrite Hb1.
      change (len (set_len (set_cmd req_init QEMU_UMEM_REQ_PAGE) L)) with L.
      destruct (Z.eqb_spec L 0) as [E|_]; [lia|].
      assert (Hpk : QR.qemu_peek_buffer
                      (W ++ be32_bytes n ++ flat_map be64_bytes (pgoffs r)
                         ++ rest) L (0 + 1 + 1) = idstr r).
      { unfold W. rewrite <- app_assoc.
        apply (@peek_exact [QEMU_UMEM_REQ_PAGE; L] (idstr r)); reflexivity. }
      rewrite Hpk. fold (strlen (idstr r)). fold L. rewrite Z.eqb_refl.
      cbn [negb]. rewrite (c_str_nonzero Hid). unfold q. f_equal; lia. }
    rewrite Hidp. change (0 <? 0) with false. cbv iota.
    rewrite <- HW.
    unfold n.
    rewrite (@recv_req_pgoffs_complete W rest (pgoffs r) q ltac:(lia) Hoffs).
    change (0 <? 0) with false. cbv iota.
    rewrite app_assoc, app_assoc, qemu_file_skip_app.
    + reflexivity.
    + rewrite !length_app, length_be32_bytes.
      pose proof (length_flat_map_be64 (pgoffs r)). lia.
  - (* PAGE_CONT *)
    rewrite Hnr. set (n := Z.of_nat (length (pgoffs r))).
    set (q := set_cmd req_init QEMU_UMEM_REQ_PAGE_CONT).
    exists (set_pgoffs (set_nr q n) (pgoffs r)).
    split; [|req_simpl; repeat split; auto; intros H; discriminate H].
    cbn [app].
    change (QEMU_UMEM_REQ_PAGE_CONT
              :: (be32_bytes n ++ flat_map be64_bytes (pgoffs r)) ++ rest)
      with ([QEMU_UMEM_REQ_PAGE_CONT]
              ++ (be32_bytes n ++ flat_map be64_bytes (pgoffs r)) ++ rest).
    rewrite <- (app_assoc (be32_bytes n)).
    unfold postcopy_outgoing_recv_req. cbv zeta.
    assert (Hpeek1 : QR.qemu_peek_buffer
                       ([QEMU_UMEM_REQ_PAGE_CONT] ++ be32_bytes n
                          ++ flat_map be64_bytes (pgoffs r) ++ rest) 1 0
                     = [QEMU_UMEM_REQ_PAGE_CONT]) by reflexivity.
    rewrite Hpeek1. cbn [length hd]. change (Z.of_nat 1 <=? 0) with false.
    cbv iota. change (cmd (set_cmd req_init QEMU_UMEM_REQ_PAGE_CONT))
      with QEMU_UMEM_REQ_PAGE_CONT.
    change (QEMU_UMEM_REQ_PAGE_CONT =? QEMU_UMEM_REQ_EOC) with false.
    change (QEMU_UMEM_REQ_PAGE_CONT =? QEMU_UMEM_REQ_PAGE) with false.
    change (QEMU_UMEM_REQ_PAGE_CONT =? QEMU_UMEM_REQ_PAGE_CONT) with true.
    cbv iota. fold q.
    change (0 + 1) with (Z.of_nat (length [QEMU_UMEM_REQ_PAGE_CONT])).
    unfold n.
    rewrite (@recv_req_pgoffs_complete [QEMU_UMEM_REQ_PAGE_CONT] rest
               (pgoffs r) q ltac:(lia) Hoffs).
    change (0 <? 0) with false. cbv iota.
    rewrite app_assoc, app_assoc, qemu_file_skip_app.
    + reflexivity.
    + rewrite !length_app, length_be32_bytes.
      pose proof (length_flat_map_be64 (pgoffs r)). cbn [length]. lia.
Qed.
(** A message that is only partly in the buffer: try-again, and the
    buffer is left as it was. *)
Lemma recv_req_prefix (r : QEMUUMemReq) (f suffix : list Z) :
  req_wf r ->
  f ++ suffix = wire_bytes r -> suffix <> [] ->
  exists req',
    postcopy_outgoing_recv_req f req_init = Some (- EAGAIN, req', f).
Proof.
  intros [Hc Hid Hlen Hnr Hn32 Hoffs] Hw Hs.
  destruct f as [|c f1]; [eexists; reflexivity|].
  unfold wire_bytes in Hw. cbn [app] in Hw. injection Hw as Hcmd Hw.
  unfold postcopy_outgoing_recv_req. cbv zeta.
  assert (Hpeek1 : QR.qemu_peek_buffer (c :: f1) 1 0 = [c]) by reflexivity.
  rewrite Hpeek1. cbn [length hd]. change (Z.of_nat 1 <=? 0) with false.
  cbv iota. change (cmd (set_cmd req_init c)) with c. subst c.
  pose proof (length_flat_map_be64 (pgoffs r)) as Hflat.
  destruct Hc as [Hc | [Hc | Hc]]; rewrite Hc in *;
    simpl (_ =? _) in *; cbv iota in *.
  - (* EOC: nothing can be missing after the command byte *)
    destruct f1; [|discriminate Hw]. cbn [app] in Hw. contradiction.
  - (* PAGE *)
    destruct f1 as [|l f2]; [eexists; reflexivity|].
    cbn [app] in Hw. injection Hw as Hl Hw. subst l.
    set (L := strlen (idstr r)) in *.
    unfold postcopy_outgoing_recv_req_idstr. cbv zeta.
    assert (Hb1 : QR.qemu_peek_byte (QEMU_UMEM_REQ_PAGE :: L :: f2) (0 + 1)
                  = L) by reflexivity.
    rewrite Hb1.
    change (len (set_len (set_cmd req_init QEMU_UMEM_REQ_PAGE) L)) with L.
    destruct (Z.eqb_spec L 0) as [E|_]; [lia|].
    pose proof (@peek_length (QEMU_UMEM_REQ_PAGE :: L :: f2) L (0 + 1 + 1)
                  ltac:(lia) ltac:(lia)) as Hp.
    destruct (Z.of_nat (length (QR.qemu_peek_buffer
                                  (QEMU_UMEM_REQ_PAGE :: L :: f2) L
                                  (0 + 1 + 1))) =? L) eqn:Eg;
      cbn [negb]; cbv iota; [|eexists; reflexivity].
    apply Z.eqb_eq in Eg. rewrite Eg.
    change (0 <? 0) with false. cbv iota.
    destruct (@recv_req_pgoffs_prefix (QEMU_UMEM_REQ_PAGE :: L :: f2) suffix
                ([QEMU_UMEM_REQ_PAGE; L] ++ idstr r)
                (flat_map be64_bytes (pgoffs r)) (nr r)
                (set_idstr (set_len (set_cmd req_init QEMU_UMEM_REQ_PAGE) L)
                   (c_str (QR.qemu_peek_buffer
                             (QEMU_UMEM_REQ_PAGE :: L :: f2) L (0 + 1 + 1)))))
      as (q & o & Hpg).
    + cbn [app]. rewrite Hw. reflexivity.
    + exact Hs.
    + lia.
    + lia.
    + replace (0 + 1 + 1 + L)
        with (Z.of_nat (length ([QEMU_UMEM_REQ_PAGE; L] ++ idstr r)))
        by (rewrite length_app; unfold L, strlen; cbn [length]; lia).
      rewrite Hpg. eexists. reflexivity.
  - (* PAGE_CONT *)
    cbn [app] in Hw.
    destruct (@recv_req_pgoffs_prefix (QEMU_UMEM_REQ_PAGE_CONT :: f1) suffix
                [QEMU_UMEM_REQ_PAGE_CONT]
                (flat_map be64_bytes (pgoffs r)) (nr r)
                (set_cmd req_init QEMU_UMEM_REQ_PAGE_CONT))
      as (q & o & Hpg).
    + cbn [app]. rewrite Hw. reflexivity.
    + exact Hs.
    + lia.
    + lia.
    + change (0 + 1) with (Z.of_nat (length [QEMU_UMEM_REQ_PAGE_CONT])).
      rewrite Hpg. eexists. reflexivity.
Qed.

(** C6.  The source's request parser is atomic with respect to its input.
    (1) Whatever the buffer holds, the parser either returns try-again and
    leaves the buffer as it was, or returns success and has skipped exactly
    the bytes of the message it parsed.  (2) If the buffer holds only a
    proper prefix of a message (the command byte, the block name or the
    offset array is cut short), the parser returns try-again and consumes
    nothing.  (3) If the buffer holds a whole message, the parser returns
    the request that was sent and consumes that message only. *)
Theorem recv_req_peek_then_commit :
  (forall (f : QR.t) (req : QEMUUMemReq) ret req' f',
      is_bytes f ->
      postcopy_outgoing_recv_req f req = Some (ret, req', f') ->
      (ret = - EAGAIN /\ f' = f)
      \/ (ret = 0 /\ wire_size req' <= Z.of_nat (length f)
          /\ f' = skipn (Z.to_nat (wire_size req')) f))
  /\ (forall (r : QEMUUMemReq) (w f suffix : list Z),
         req_wf r ->
         postcopy_incoming_send_req_one [] r = Some w ->
         w = f ++ suffix -> suffix <> [] ->
         exists req',
           postcopy_outgoing_recv_req f req_init = Some (- EAGAIN, req', f))
  /\ (forall (r : QEMUUMemReq) (w rest : list Z),
         req_wf r ->
         postcopy_incoming_send_req_one [] r = Some w ->
         exists req',
           postcopy_outgoing_recv_req (w ++ rest) req_init
           = Some (0, req', rest)
           /\ cmd req' = cmd r
           /\ (cmd r = QEMU_UMEM_REQ_PAGE -> idstr req' = idstr r)
           /\ (cmd r <> QEMU_UMEM_REQ_EOC ->
               nr req' = nr r /\ pgoffs req' = pgoffs r)).
Proof.
  split; [|split].
  - intros f req ret req' f' Hb H. eapply recv_req_outcome; eassumption.
  - intros r w f suffix Hwf Hsend Hw Hs.
    rewrite (send_req_one_wire [] Hwf) in Hsend. injection Hsend as <-.
    cbn [app] in Hw. eapply recv_req_prefix; eauto.
  - intros r w rest Hwf Hsend.
    rewrite (send_req_one_wire [] Hwf) in Hsend. injection Hsend as <-.
    cbn [app]. apply recv_req_complete. exact Hwf.
Qed.

Lemma recv_req_peek_then_commit_witness :
  (exists req',
      postcopy_outgoing_recv_req
        [1; 2; 65; 66; 0; 0; 0; 1; 0; 0; 0; 0; 0; 0; 0; 5; 0] req_init
      = Some (0, req', [0])
      /\ pgoffs req' = [5])
  /\ (exists req',
         postcopy_outgoing_recv_req [1; 2; 65] req_init
         = Some (- EAGAIN, req', [1; 2; 65])).
Proof.
  pose (r := mkReq QEMU_UMEM_REQ_PAGE 0 [65; 66] 1 [5]).
  assert (Hwf : req_wf r).
  { constructor; cbn [r cmd idstr nr pgoffs].
    - right. left. reflexivity.
    - repeat constructor.
    - unfold strlen. simpl. lia.
    - reflexivity.
    - reflexivity.
    - repeat constructor; discriminate. }
  destruct recv_req_peek_then_commit as (_ & Hshort & Hfull).
  split.
  - destruct (Hfull r _ [0] Hwf eq_refl) as (req' & Hrun & _ & _ & Hp).
    exists req'. split; [exact Hrun|].
    apply Hp. discriminate.
  - apply (Hshort r _ [1; 2; 65]
             [66; 0; 0; 0; 1; 0; 0; 0; 0; 0; 0; 0; 5] Hwf eq_refl).
    + reflexivity.
    + discriminate.
Defined.

(* ===================================================================== *)
(** * The INIT section *)

Lemma be_to_cpu_bound (l : list Z) :
  is_bytes l -> be_to_cpu l < 256 ^ Z.of_nat (length l).
Proof.
  unfold be_to_cpu. intros H.
  assert (G : forall x k, 0 <= k -> x < 256 ^ k ->
                fold_left (fun acc b => acc * 256 + b) l x
                < 256 ^ (k + Z.of_nat (length l))).
  { induction H as [|b l Hb _ IH]; intros x k Hk Hx; cbn [fold_left length].
    - now rewrite Z.add_0_r.
    - replace (k + Z.of_nat (S (length l)))
        with ((k + 1) + Z.of_nat (length l)) by lia.
      apply IH; [lia|]. rewrite Z.pow_add_r, Z.pow_1_r by lia. lia. }
  apply (G 0 0); [lia | reflexivity].
Qed.

Lemma qemu_get_bytes_spec (n : nat) :
  forall f : QR.t,
    is_bytes f ->
    is_bytes (fst (qemu_get_bytes n f))
    /\ length (fst (qemu_get_bytes n f)) = n
    /\ snd (qemu_get_bytes n f) = skipn n f.
Proof.
  induction n as [|n IH]; intros f Hf; cbn [qemu_get_bytes].
  - repeat split. constructor.
  - unfold qemu_get_byte.
    assert (Htl : is_bytes (tl f))
      by (destruct f; [constructor | now inversion Hf]).
    destruct (IH (tl f) Htl) as (Hb & Hl & Hs).
    destruct (qemu_get_bytes n (tl f)) as [bs f'] eqn:E. cbn [fst snd] in *.
    split; [|split].
    + constructor; [|exact Hb].
      destruct f; cbn [hd]; [lia | now inversion Hf].
    + cbn [length]. now rewrite Hl.
    + rewrite Hs. destruct f; [now rewrite skipn_nil | reflexivity].
Qed.

Lemma qemu_get_be64_range (f : QR.t) :
  is_bytes f -> 0 <= fst (qemu_get_be64 f) < 2 ^ 64.
Proof.
  intros Hf. unfold qemu_get_be64.
  destruct (qemu_get_bytes_spec 8 Hf) as (Hb & Hl & _).
  destruct (qemu_get_bytes 8 f) as [bs f']. cbn [fst] in *.
  split; [now apply be_to_cpu_nonneg|].
  pose proof (be_to_cpu_bound Hb) as H. rewrite Hl in H. exact H.
Qed.

(** Clearing PRECOPY in a mask leaves 0 exactly for the masks 0 and 1. *)
Lemma option_mask_bits (o : Z) :
  0 <= o ->
  (Z.land o POSTCOPY_OPTION_PRECOPY =? 0) = negb (Z.testbit o 0)
  /\ 0 <= Z.land o (Z.lnot POSTCOPY_OPTION_PRECOPY) <= o
  /\ (Z.land o (Z.lnot POSTCOPY_OPTION_PRECOPY) = 0
      <-> o = 0 \/ o = POSTCOPY_OPTION_PRECOPY).
Proof.
  intros Ho. unfold POSTCOPY_OPTION_PRECOPY.
  destruct o as [|p|p]; [| |lia].
  - repeat split; try reflexivity; try lia; auto.
  - destruct p as [p|p|]; cbn; repeat split; try lia;
      try (intros H; discriminate H); try (intros [H|H]; discriminate H);
      auto.
Qed.

(** C7.  The INIT loader: a payload size other than 8 is an error
    ([-EINVAL]) and changes nothing; with size 8, precopy mode is enabled
    exactly when bit 0 (PRECOPY) of the option mask is set, and any other
    bit set is an error ([-ENOSYS]); the loader succeeds only on the masks 0
    and 1, and does so on those whenever its surroundings allow it (a
    read/write connection or RDMA, no mem_path, prepare succeeds), choosing
    the precopy RAM loader exactly when PRECOPY is set. *)
Theorem loadvm_init_option_mask (env : InitEnv) (pre : bool)
        (h : ram_load_handler) (f : QR.t) (size : Z) :
  is_bytes f ->
  let options := fst (qemu_get_be64 f) in
  let '(ret, pre', h', f') := postcopy_incoming_loadvm_init env pre h f size in
  (size <> 8 -> ret = - EINVAL /\ pre' = pre /\ h' = h /\ f' = f)
  /\ (size = 8 ->
      pre' = Z.testbit options 0
      /\ (Z.land options (Z.lnot POSTCOPY_OPTION_PRECOPY) <> 0 ->
          ret = - ENOSYS))
  /\ (ret = 0 ->
      size = 8 /\ (options = 0 \/ options = POSTCOPY_OPTION_PRECOPY)
      /\ h' = (if pre' then postcopy_incoming_ram_load_precopy
               else postcopy_incoming_ram_load))
  /\ (size = 8 -> options = 0 \/ options = POSTCOPY_OPTION_PRECOPY ->
      (file_is_rdma env = true \/ fd_is_rdwr env = true) ->
      mem_path_set env = false -> prepare_error env = 0 ->
      ret = 0).
Proof.
  intros Hf options. unfold postcopy_incoming_loadvm_init.
  pose proof (qemu_get_be64_range Hf) as Hrange. fold options in Hrange.
  destruct (Z.eqb_spec size 8) as [Hs|Hs]; cbn [negb].
  2: { split; [intros _; repeat split|].
       split; [intros; contradiction|].
       split; [intros H0; discriminate H0 | intros; contradiction]. }
  subst options. destruct (qemu_get_be64 f) as [o f1]. cbn [fst] in *.
  destruct (option_mask_bits (proj1 Hrange)) as (Hbit & Hle & Hmask).
  rewrite Hbit, negb_involutive.
  assert (Hu : u64 (Z.land o (Z.lnot POSTCOPY_OPTION_PRECOPY))
               = Z.land o (Z.lnot POSTCOPY_OPTION_PRECOPY))
    by (apply Z.mod_small; lia).
  assert (Hrest : ((if Z.testbit o 0
                    then (u64 (Z.land o (Z.lnot POSTCOPY_OPTION_PRECOPY)),
                          true)
                    else (o, false))
                   = (Z.land o (Z.lnot POSTCOPY_OPTION_PRECOPY),
                      Z.testbit o 0))).
  { destruct (Z.testbit o 0) eqn:Eb; [now rewrite Hu|].
    f_equal. symmetry.
    rewrite <- Z.ldiff_land. apply Z.bits_inj'. intros n Hn.
    rewrite Z.ldiff_spec.
    destruct (Z.eq_dec n 0) as [->|Hn0].
    - rewrite Eb. reflexivity.
    - unfold POSTCOPY_OPTION_PRECOPY.
      replace (Z.testbit 1 n) with false; [now rewrite andb_true_r|].
      symmetry. apply (Z.pow2_bits_false 0). lia. }
  rewrite Hrest. clear Hrest Hu Hbit.
  set (M := Z.land o (Z.lnot POSTCOPY_OPTION_PRECOPY)) in *.
  set (b := Z.testbit o 0).
  destruct (Z.eqb_spec M 0) as [Hz|Hz]; cbn [negb].
  2: { split; [intros Hne; contradiction|].
       split; [intros _; split; [reflexivity | reflexivity]|].
       split; [intros H0; discriminate H0|].
       intros _ Ho. exfalso. apply Hz, Hmask, Ho. }
  assert (Ho : o = 0 \/ o = POSTCOPY_OPTION_PRECOPY) by (apply Hmask, Hz).
  destruct (file_is_rdma env) eqn:Erdma, (fd_is_rdwr env) eqn:Erw;
    cbn [negb andb].
  4: { split; [intros Hne; contradiction|].
       split; [intros _; split; [reflexivity | intros Hm; contradiction]|].
       split; [intros H0; discriminate H0|].
       intros _ _ [Hc|Hc]; discriminate Hc. }
  all: destruct (mem_path_set env) eqn:Emem;
    [ split; [intros Hne; contradiction|];
      split; [intros _; split; [reflexivity | intros Hm; contradiction]|];
      split; [intros H0; discriminate H0|];
      intros _ _ _ Hc; discriminate Hc |].
  all: destruct (Z.eqb_spec (prepare_error env) 0) as [Hp|Hp]; cbn [negb];
    [| split; [intros Hne; contradiction|];
       split; [intros _; split; [reflexivity | intros Hm; contradiction]|];
       split; [intros H0; contradiction|];
       intros _ _ _ _ Hc; contradiction ].
  all: destruct b;
    (split; [intros Hne; contradiction|];
     split; [intros _; split; [reflexivity | intros Hm; contradiction]|];
     split; [intros _; split; [exact Hs | split; [exact Ho | reflexivity]]
            | intros; reflexivity]).
Qed.

Lemma loadvm_init_option_mask_witness :
  is_bytes [0; 0; 0; 0; 0; 0; 0; 1]
  /\ postcopy_incoming_loadvm_init (mkInitEnv false true false 0) false
       postcopy_incoming_ram_load [0; 0; 0; 0; 0; 0; 0; 1] 8
     = (0, true, postcopy_incoming_ram_load_precopy, []).
Proof.
  assert (Hb : is_bytes [0; 0; 0; 0; 0; 0; 0; 1])
    by (repeat constructor; discriminate).
  split; [exact Hb|].
  pose proof (@loadvm_init_option_mask (mkInitEnv false true false 0) false
                postcopy_incoming_ram_load _ 8 Hb) as H.
  destruct (postcopy_incoming_loadvm_init (mkInitEnv false true false 0)
              false postcopy_incoming_ram_load [0; 0; 0; 0; 0; 0; 0; 1] 8)
    as [[[ret pre'] h'] f'] eqn:E.
  destruct H as (_ & H2 & H3 & H4).
  assert (Hret : ret = 0).
  { apply H4; try reflexivity. - right. reflexivity. - right. reflexivity. }
  destruct (H2 eq_refl) as [Hpre _].
  destruct (H3 Hret) as (_ & _ & Hh).
  vm_compute in E. injection E as _ _ _ <-.
  rewrite Hret, Hh, Hpre. reflexivity.
Defined.
(* ===================================================================== *)
(** * Rejecting a malformed clean bitmap *)

Lemma read_clean_bitmap_loop_step (TPB : Z) (fuel : nat) (f : QR.t)
      (bs : list UMB.t) :
  read_clean_bitmap_loop TPB (S fuel) f bs =
  let '(idlen, name, block_offset, block_length, bitmap_length, f1) :=
    clean_bitmap_header f in
  if (idlen =? 0) && (block_offset =? 0) && (block_length =? 0)
     && (bitmap_length =? 0)
  then Some (0, f1, bs)
  else
    match postcopy_incoming_umemd_read_clean_bitmap
            TPB f1 bs (c_str name) idlen block_offset block_length
            bitmap_length with
    | None => None
    | Some (ret, f2, bs2) =>
        if ret <? 0 then Some (ret, f2, bs2)
        else read_clean_bitmap_loop TPB fuel f2 bs2
    end.
Proof.
  cbn [read_clean_bitmap_loop]. unfold clean_bitmap_header.
  destruct (qemu_get_byte f) as [idlen f1].
  destruct (qemu_get_buffer f1 idlen) as [name f2].
  destruct (qemu_get_be64 f2) as [bo f3].
  destruct (qemu_get_be64 f3) as [bl f4].
  destruct (qemu_get_be64 f4) as [len f5]. reflexivity.
Qed.

Lemma length_qemu_get_bytes (n : nat) :
  forall f : QR.t, (length (snd (qemu_get_bytes n f)) <= length f)%nat.
Proof.
  induction n as [|n IH]; intros f; cbn [qemu_get_bytes snd].
  - lia.
  - unfold qemu_get_byte. specialize (IH (tl f)).
    destruct (qemu_get_bytes n (tl f)) as [bs f1]. cbn [snd] in *.
    destruct f; cbn [tl length] in *; lia.
Qed.

Lemma length_qemu_get_be64 (f : QR.t) :
  (length (snd (qemu_get_be64 f)) <= length f)%nat.
Proof.
  unfold qemu_get_be64. pose proof (length_qemu_get_bytes 8 f) as H.
  destruct (qemu_get_bytes 8 f) as [bs f1]. exact H.
Qed.

(** A header that is not the terminator takes at least one byte. *)
Lemma header_consumes (f f1 : QR.t) (idlen bo bl len : Z) (name : list Z) :
  clean_bitmap_header f = (idlen, name, bo, bl, len, f1) ->
  is_terminator f = false ->
  (length f1 < length f)%nat.
Proof.
  intros Hh Ht. destruct f as [|x f].
  { vm_compute in Ht. discriminate. }
  unfold clean_bitmap_header, qemu_get_byte, qemu_get_buffer in Hh.
  cbn [hd tl] in Hh.
  pose proof (length_qemu_get_be64 (skipn (Z.to_nat x) f)) as H1.
  destruct (qemu_get_be64 (skipn (Z.to_nat x) f)) as [v1 g1].
  pose proof (length_qemu_get_be64 g1) as H2.
  destruct (qemu_get_be64 g1) as [v2 g2].
  pose proof (length_qemu_get_be64 g2) as H3.
  destruct (qemu_get_be64 g2) as [v3 g3].
  injection Hh as _ _ _ _ _ <-. cbn [snd length] in *.
  rewrite length_skipn in H1. lia.
Qed.

Lemma read_clean_bitmap_file_shrinks (TPB : Z) (f f2 : QR.t)
      (bs bs2 : list UMB.t) (name : list Z) (idlen bo bl len ret : Z) :
  postcopy_incoming_umemd_read_clean_bitmap TPB f bs name idlen bo bl len
  = Some (ret, f2, bs2) ->
  (length f2 <= length f)%nat.
Proof.
  unfold postcopy_incoming_umemd_read_clean_bitmap.
  destruct (negb (len mod 8 =? 0)).
  { intros E; injection E as _ <- _. lia. }
  destruct (find_block_index bs name idlen) as [index|].
  2:{ intros E; injection E as _ <- _. lia. }
  destruct (bitmap_alloc_bytes TPB _ <? len); [discriminate|].
  unfold qemu_get_buffer. intros E; injection E as _ <- _.
  rewrite length_skipn. lia.
Qed.

Lemma accepted_records_length (TPB : Z) (f f' : QR.t) (bs bs' : list UMB.t)
      (n : nat) :
  accepted_records TPB f bs f' bs' n ->
  (n + length f' <= length f)%nat.
Proof.
  induction 1 as [f bs | f f1 f2 f' bs bs2 bs' idlen bo bl len ret name n
                           Hh Ht Hr Hret _ IH].
  - lia.
  - pose proof (header_consumes Hh Ht).
    pose proof (@read_clean_bitmap_file_shrinks _ _ _ _ _ _ _ _ _ _ _ Hr).
    lia.
Qed.

(** The loop over the records passes the accepted ones. *)
Lemma accepted_records_loop (TPB : Z) (f f' : QR.t) (bs bs' : list UMB.t)
      (n : nat) :
  accepted_records TPB f bs f' bs' n ->
  forall fuel,
    read_clean_bitmap_loop TPB (n + fuel) f bs
    = read_clean_bitmap_loop TPB fuel f' bs'.
Proof.
  induction 1 as [f bs | f f1 f2 f' bs bs2 bs' idlen bo bl len ret name n
                           Hh Ht Hr Hret _ IH]; intros fuel.
  - reflexivity.
  - cbn [Nat.add]. rewrite read_clean_bitmap_loop_step.
    unfold is_terminator in Ht. rewrite Hh in *. rewrite Ht, Hr.
    replace (ret <? 0) with false by (symmetry; apply Z.ltb_ge; exact Hret).
    apply IH.
Qed.

Lemma state_has_lor_disjoint (u : Umemd) (m mask : Z) :
  Z.land m mask = 0 ->
  state_has (set_state u (Z.lor (state u) m)) mask = state_has u mask.
Proof.
  intros H. unfold state_has. cbn [state set_state].
  now rewrite Z.land_lor_distr_l, H, Z.lor_0_r.
Qed.

(** Receiving QUIT and finishing only add quit and end-of-command bits to
    the state word; the error bits and the supervisor file are left. *)
Lemma quit_done_adds_bits (w : Umemd) :
  let w' := postcopy_incoming_umem_done
              (postcopy_incoming_umem_recv_quit w) in
  to_qemu w' = to_qemu w /\ to_qemu_pipe w' = to_qemu_pipe w
  /\ exists m, state w' = Z.lor (state w) m
               /\ Z.land m UMEM_STATE_ERROR_REQ = 0
               /\ Z.land m UMEM_STATE_ERROR_SENDING = 0.
Proof.
  unfold postcopy_incoming_umem_done,
    postcopy_incoming_umem_queue_quit_locked,
    postcopy_incoming_umem_req_eoc, postcopy_incoming_umem_recv_quit.
  destruct (state_has w UMEM_STATE_QUIT_RECEIVED);
    match goal with
    | |- context [if ?c then _ else _] => destruct c
    end;
    cbn [to_qemu to_qemu_pipe state set_state set_from_qemu];
    (split; [reflexivity|]); (split; [reflexivity|]);
    rewrite <- ?Z.lor_assoc; eexists; (split; [reflexivity|]);
    split; reflexivity.
Qed.

Lemma state_has_lor (s m mask : Z) (u : Umemd) :
  state u = Z.lor s m -> Z.land m mask = 0 ->
  Z.land (state u) mask = Z.land s mask.
Proof.
  intros -> H. now rewrite Z.land_lor_distr_l, H, Z.lor_0_r.
Qed.

(** C8.  A clean-bitmap record whose bitmap length is not a multiple of 8
    is rejected, wherever it stands among the records.  (1) The record
    reader returns [-EINVAL] and leaves the file and every block's
    bitmaps as they were.  (2) When the loop over the records, after any
    number of accepted records, meets such a header, it returns
    [-EINVAL] with the blocks as the accepted records left them, and with
    it the init function of the stream-reader thread; the thread then
    sets [UMEM_STATE_ERROR_REQ] and returns without calling its loop
    function, so no page is read; the control pipes are untouched.
    (3) With [ERROR_REQ] set and not yet being sent, a turn of the pipe
    loop whose select succeeds, while the file to the supervisor is open
    and the supervisor's pipe holds no unknown command, returns 0, writes
    the ERROR command to the supervisor and sets
    [UMEM_STATE_ERROR_SENT]. *)
Theorem bad_bitmap_length_rejected (TPB : Z) :
  (forall (f : QR.t) (bs : list UMB.t) (name : list Z)
          (idlen block_offset block_length bitmap_length : Z),
      bitmap_length mod 8 <> 0 ->
      postcopy_incoming_umemd_read_clean_bitmap
        TPB f bs name idlen block_offset block_length bitmap_length
      = Some (- EINVAL, f, bs))
  /\ (forall (u : Umemd) (f f' f1 : QR.t) (bs' : list UMB.t) (n : nat)
             (name : list Z)
             (idlen block_offset block_length bitmap_length : Z)
             (all_done : bool) (loop_func : Umemd -> option (Z * Umemd))
             (fuel : nat),
         precopy_enabled u = true ->
         mig_read u = Some f ->
         accepted_records TPB f (blocks u) f' bs' n ->
         clean_bitmap_header f'
         = (idlen, name, block_offset, block_length, bitmap_length, f1) ->
         bitmap_length mod 8 <> 0 ->
         postcopy_file_incoming_umemd_read_clean_bitmap TPB f (blocks u)
         = Some (- EINVAL, f1, bs')
         /\ exists u',
             postcopy_incoming_umemd_thread
               (Some (postcopy_incoming_umemd_mig_read_init TPB all_done))
               loop_func fuel u = Some (O, u')
             /\ blocks u' = bs'
             /\ state u' = Z.lor (state u) UMEM_STATE_ERROR_REQ
             /\ state_has u' UMEM_STATE_ERROR_REQ = true
             /\ to_qemu u' = to_qemu u
             /\ to_qemu_pipe u' = to_qemu_pipe u
             /\ from_qemu u' = from_qemu u)
  /\ (forall (env : PipeEnv) (u : Umemd),
         select_ret env <> -1 ->
         to_qemu u = true ->
         state_has u UMEM_STATE_ERROR_REQ = true ->
         state_has u UMEM_STATE_ERROR_SENDING = false ->
         no_unknown_command env u ->
         exists u' tail,
           postcopy_incoming_umemd_pipe_loop env u = Some (0, u')
           /\ to_qemu_pipe u'
              = to_qemu_pipe u ++ [UMEM_DAEMON_ERROR] ++ tail
           /\ Z.land (state u') UMEM_STATE_ERROR_SENT
              = UMEM_STATE_ERROR_SENT).
Proof.
  split; [|split].
  - intros f bs name idlen bo bl len Hlen.
    unfold postcopy_incoming_umemd_read_clean_bitmap.
    destruct (Z.eqb_spec (len mod 8) 0); [contradiction | reflexivity].
  - intros u f f' f1 bs' n name idlen bo bl len all_done loop_func fuel
           Hpre Hmig Hacc Hhdr Hlen.
    assert (Hloop : postcopy_file_incoming_umemd_read_clean_bitmap
                      TPB f (blocks u) = Some (- EINVAL, f1, bs')).
    { unfold postcopy_file_incoming_umemd_read_clean_bitmap.
      pose proof (accepted_records_length Hacc) as Hn.
      replace (S (length f)) with (n + S (length f - n))%nat by lia.
      rewrite (accepted_records_loop Hacc).
      rewrite read_clean_bitmap_loop_step, Hhdr.
      assert (Hnz : (len =? 0) = false).
      { apply Z.eqb_neq. intros ->. apply Hlen. reflexivity. }
      rewrite Hnz, andb_false_r.
      unfold postcopy_incoming_umemd_read_clean_bitmap.
      destruct (Z.eqb_spec (len mod 8) 0); [contradiction|]. reflexivity. }
    split; [exact Hloop|].
    unfold postcopy_incoming_umemd_thread,
      postcopy_incoming_umemd_mig_read_init.
    rewrite Hpre, Hmig, Hloop. cbn [negb].
    change (- EINVAL =? 0) with false. cbn [negb].
    eexists. split; [reflexivity|].
    split; [reflexivity|]. split; [reflexivity|].
    split; [|repeat split].
    unfold state_has, postcopy_incoming_umem_error_req.
    cbn [state set_state set_blocks set_mig_read].
    rewrite Z.land_lor_distr_l, Z.land_diag.
    apply negb_true_iff, Z.eqb_neq. intros H.
    apply Z.lor_eq_0_iff in H. destruct H as [_ H]. discriminate H.
  - intros env u Hsel Hopen Hreq Hsending Hcmd.
    unfold postcopy_incoming_umemd_pipe_loop.
    destruct (Z.eqb_spec (select_ret env) (-1)) as [E|_]; [contradiction|].
    (* reading a command leaves the error bits and the supervisor file *)
    set (after := match from_qemu u with
                  | Some f =>
                      if from_qemu_readable env then
                        let '(c, f0) := qemu_get_byte f in
                        let u0 := set_from_qemu u (Some f0) in
                        if c =? UMEM_QEMU_QUIT then
                          Some (postcopy_incoming_umem_done
                                  (postcopy_incoming_umem_recv_quit u0))
                        else if c =? 0 then Some u0 else None
                      else Some u
                  | None => Some u
                  end).
    assert (Hsome : exists v, after = Some v).
    { unfold after, no_unknown_command in *.
      destruct (from_qemu u) as [fq|]; [|eauto].
      destruct (from_qemu_readable env); [|eauto].
      unfold qemu_get_byte.
      destruct Hcmd as [Hc | [Hc | Hc]]; [discriminate | |];
        rewrite Hc.
      - cbv zeta. rewrite Z.eqb_refl. eauto.
      - cbv zeta. change (0 =? UMEM_QEMU_QUIT) with false.
        change (0 =? 0) with true. cbv iota. eauto. }
    assert (Hafter : forall v, after = Some v ->
               to_qemu v = true /\ to_qemu_pipe v = to_qemu_pipe u
               /\ state_has v UMEM_STATE_ERROR_REQ = true
               /\ state_has v UMEM_STATE_ERROR_SENDING = false).
    { intros v Hv. unfold after in Hv.
      assert (Hquit : forall w,
                 to_qemu w = true -> to_qemu_pipe w = to_qemu_pipe u ->
                 state_has w UMEM_STATE_ERROR_REQ = true ->
                 state_has w UMEM_STATE_ERROR_SENDING = false ->
                 let w' := postcopy_incoming_umem_done
                             (postcopy_incoming_umem_recv_quit w) in
                 to_qemu w' = true /\ to_qemu_pipe w' = to_qemu_pipe u
                 /\ state_has w' UMEM_STATE_ERROR_REQ = true
                 /\ state_has w' UMEM_STATE_ERROR_SENDING = false).
      { intros w H1 H2 H3 H4 w'.
        destruct (quit_done_adds_bits w) as (G1 & G2 & m & G3 & G4 & G5).
        fold w' in G1, G2, G3.
        unfold state_has in *.
        rewrite (@state_has_lor _ _ _ _ G3 G4), (@state_has_lor _ _ _ _ G3 G5).
        rewrite G1, G2. auto. }
      destruct (from_qemu u) as [fq|]; [|injection Hv as <-; auto].
      destruct (from_qemu_readable env); [|injection Hv as <-; auto].
      destruct (qemu_get_byte fq) as [c f0].
      destruct (c =? UMEM_QEMU_QUIT).
      - injection Hv as <-. apply Hquit; auto.
      - destruct (c =? 0); [|discriminate Hv]. injection Hv as <-. auto. }
    fold after. destruct Hsome as (v & Hv). rewrite Hv.
    destruct (Hafter v Hv) as (Hv1 & Hv2 & Hv3 & Hv4).
    rewrite Hv1, Hv3, Hv4. cbn [negb andb].
    match goal with
    | |- context [if ?c then _ else _] => destruct c
    end; eexists; eexists; (split; [reflexivity|]);
      cbn [to_qemu_pipe state set_state set_to_qemu set_to_qemu_pipe];
      (split;
        [ unfold umem_daemon_error, umem_daemon_quit, QF.qemu_put_byte;
          rewrite Hv2; rewrite <- ?app_assoc; reflexivity |]);
      rewrite ?Z.land_lor_distr_l, Z.land_diag;
      apply Z.bits_inj'; intros n0 Hn;
      rewrite ?Z.lor_spec, ?Z.land_spec;
      destruct (Z.testbit UMEM_STATE_ERROR_SENT n0);
      rewrite ?andb_false_r, ?orb_false_r, ?orb_true_r; reflexivity.
Qed.

Lemma bad_bitmap_length_rejected_witness :
  exists u' u'',
    postcopy_incoming_umemd_thread
      (Some (postcopy_incoming_umemd_mig_read_init 12 false))
      (fun u => Some (0, u)) 5 umemd_bad_second_bitmap = Some (O, u')
    /\ state u' = UMEM_STATE_ERROR_REQ
    /\ map UMB.phys_received (blocks u') = [5]
    /\ postcopy_incoming_umemd_pipe_loop (mkPipeEnv 0 false false) u'
       = Some (0, u'')
    /\ to_qemu_pipe u'' = [UMEM_DAEMON_ERROR]
    /\ Z.land (state u'') UMEM_STATE_ERROR_SENT = UMEM_STATE_ERROR_SENT.
Proof.
  destruct (bad_bitmap_length_rejected 12) as (_ & H2 & H3).
  assert (Hacc : exists f' bs',
             accepted_records 12
               ([1; 114] ++ [0; 0; 0; 0; 0; 0; 0; 0]
                  ++ [0; 0; 0; 0; 0; 8; 0; 0] ++ [0; 0; 0; 0; 0; 0; 0; 16]
                  ++ [0; 0; 0; 0; 0; 0; 0; 5; 0; 0; 0; 0; 0; 0; 0; 0]
                  ++ [1; 114] ++ [0; 0; 0; 0; 0; 0; 0; 0]
                  ++ [0; 0; 0; 0; 0; 8; 0; 0] ++ [0; 0; 0; 0; 0; 0; 0; 12]
                  ++ [255; 0; 0; 0; 0; 0; 0; 1; 128; 0; 0; 0])
               (blocks umemd_bad_second_bitmap) f' bs' 1
             /\ f' = [1; 114] ++ [0; 0; 0; 0; 0; 0; 0; 0]
                       ++ [0; 0; 0; 0; 0; 8; 0; 0]
                       ++ [0; 0; 0; 0; 0; 0; 0; 12]
                       ++ [255; 0; 0; 0; 0; 0; 0; 1; 128; 0; 0; 0]
             /\ map UMB.phys_received bs' = [5]).
  { eexists. eexists. split; [|split].
    - eapply accepted_next;
        [vm_compute; reflexivity | reflexivity | vm_compute; reflexivity
         | lia | apply accepted_none].
    - reflexivity.
    - reflexivity. }
  destruct Hacc as (f' & bs' & Hacc & Hf' & Hbs').
  assert (Hhdr : clean_bitmap_header f'
                 = (1, [114], 0, 524288, 12,
                    [255; 0; 0; 0; 0; 0; 0; 1; 128; 0; 0; 0]))
    by (rewrite Hf'; vm_compute; reflexivity).
  assert (Hbad : 12 mod 8 <> 0) by (vm_compute; discriminate).
  destruct (H2 umemd_bad_second_bitmap _ f' _ bs' 1%nat _ _ _ _ _ false
               (fun u => Some (0, u)) 5%nat eq_refl eq_refl Hacc Hhdr Hbad)
    as (_ & u' & Hrun & Hbl & Hst & Hreq & Hq & Hqp & Hfq).
  destruct (H3 (mkPipeEnv 0 false false) u') as (u'' & tail & Hp & Hw & Hs).
  { cbn. discriminate. }
  { rewrite Hq. reflexivity. }
  { exact Hreq. }
  { unfold state_has. rewrite Hst. reflexivity. }
  { unfold no_unknown_command. rewrite Hfq. left. reflexivity. }
  exists u', u''. split; [exact Hrun|]. split; [exact Hst|].
  split; [rewrite Hbl; exact Hbs'|]. split; [exact Hp|].
  split; [|exact Hs].
  clear - Hrun Hp. vm_compute in Hrun. injection Hrun as <-.
  vm_compute in Hp. injection Hp as <-. reflexivity.
Defined.
(* ===================================================================== *)
(** * Host pages larger than target pages *)

(** C1 (second half), evaluated where it fails.  Host pages of 8192 bytes
    over target pages of 4096 bytes: one host page covers 2 target pages.
    The block has received target pages 0 and 1 (host page 0).  When target
    page 2 arrives, [postcopy_incoming_umem_ram_loaded] hands host page 1
    to mark_cached although target page 3, the other half of host page 1,
    has not been received: the completeness check masks the bit index with
    [nr_host_pages_per_target_page], which is 0 here, and so inspects the
    target pages of host page 0. *)
Theorem ram_loaded_marks_cached_before_all_received :
  let g := prepare_geom 12 8192 in
  let block := UMB.mk [114] 0 16384 0 3 0 0 0 in
  nr_target_pages_per_host_page g = 2
  /\ nr_host_pages_per_target_page g = 0
  /\ exists block',
      postcopy_incoming_umem_ram_loaded 12 g block 8192 = (block', [1])
      /\ test_bit 2 (UMB.phys_received block') = true
      /\ test_bit 3 (UMB.phys_received block') = false.
Proof.
  cbv zeta. split; [reflexivity|]. split; [reflexivity|].
  eexists. split; [vm_compute; reflexivity|]. split; reflexivity.
Qed.

(* ===================================================================== *)
(** * The clean bitmap on the wire *)

Lemma clean_word_loop_spec (bitmap i : Z) (k : nat) :
  forall (tmp j n : Z),
    0 <= j -> 0 <= n ->
    Z.testbit (clean_word_loop bitmap i tmp j k) n =
    if (j <=? n) && (n <? j + Z.of_nat k)
    then negb (test_bit (i + n) bitmap) || Z.testbit tmp n
    else Z.testbit tmp n.
Proof.
  induction k as [|k IH]; intros tmp j n Hj Hn.
  - cbn [clean_word_loop].
    destruct (Z.leb_spec j n), (Z.ltb_spec n (j + Z.of_nat 0));
      cbn [andb]; try reflexivity; lia.
  - cbn [clean_word_loop]. rewrite IH by lia.
    destruct (Z.leb_spec j n), (Z.ltb_spec n (j + Z.of_nat (S k))),
      (Z.leb_spec (j + 1) n), (Z.ltb_spec n (j + 1 + Z.of_nat k));
      cbn [andb]; try lia;
      unfold set_bit; destruct (negb (test_bit (i + j) bitmap)) eqn:E;
      rewrite ?Z.setbit_neq by lia; try reflexivity.
    + assert (n = j) by lia. subst n. rewrite E, Z.setbit_eq by lia.
      reflexivity.
    + assert (n = j) by lia. subst n. rewrite E. reflexivity.
Qed.

(** C3, where it fails.  For a block whose first page index is not a
    multiple of 64, every full word written by the unaligned loop has the
    complement of the dirty bits in its bits 0..62, but bit 63 is always
    clear, whether the 64th page is dirty or not.  At the block of pages
    1..64 with no page dirty, the word sent is [0x7fffffffffffffff] and not
    all ones: the clean page 64 is reported as not clean.  (The aligned
    loop complements all 64 bits.) *)
Theorem clean_bitmap_unaligned_word_misses_bit_63 :
  (forall bitmap i : Z,
      let word := postcopy_bitmap_to_uint64
                    (clean_word_loop bitmap i 0 0 63) 0 in
      (forall j, 0 <= j < 63 ->
                 Z.testbit word j = negb (test_bit (i + j) bitmap))
      /\ Z.testbit word 63 = false)
  /\ (let block := RB.mk [114] 4096 (64 * 4096) in
      let dirty := 0 in
      postcopy_outgoing_send_clean_bitmap 12 [] dirty [block]
      = [1; 114] ++ be64_bytes 4096 ++ be64_bytes (64 * 4096)
        ++ be64_bytes 8
        ++ be64_bytes 0x7fffffffffffffff
        ++ [0] ++ be64_bytes 0 ++ be64_bytes 0 ++ be64_bytes 0
      /\ test_bit 64 dirty = false)
  /\ (let block := RB.mk [114] 0 (64 * 4096) in
      postcopy_outgoing_send_clean_bitmap 12 [] 0 [block]
      = [1; 114] ++ be64_bytes 0 ++ be64_bytes (64 * 4096)
        ++ be64_bytes 8
        ++ be64_bytes 0xffffffffffffffff
        ++ [0] ++ be64_bytes 0 ++ be64_bytes 0 ++ be64_bytes 0).
Proof.
  split; [|split; [split|]]; [|vm_compute; reflexivity ..].
  intros bitmap i word.
  assert (Hw : forall n, 0 <= n ->
             Z.testbit word n
             = (n <? 64) && Z.testbit (clean_word_loop bitmap i 0 0 63) n).
  { intros n Hn. unfold word, postcopy_bitmap_to_uint64.
    rewrite Z.land_spec, Z.shiftr_spec by lia.
    replace (n + 64 * 0) with n by lia.
    destruct (Z.ltb_spec n 64).
    - rewrite Z.ones_spec_low by lia. now rewrite andb_true_r.
    - rewrite Z.ones_spec_high by lia. now rewrite andb_false_r. }
  split.
  - intros j Hj. rewrite Hw, clean_word_loop_spec by lia.
    destruct (Z.ltb_spec j 64), (Z.leb_spec 0 j),
      (Z.ltb_spec j (0 + Z.of_nat 63)); try lia.
    cbn [andb]. rewrite Z.bits_0, orb_false_r. reflexivity.
  - rewrite Hw, clean_word_loop_spec by lia.
    replace ((0 <=? 63) && (63 <? 0 + Z.of_nat 63)) with false
      by reflexivity.
    rewrite Z.bits_0. apply andb_false_r.
Qed.
(* ===================================================================== *)
(** * Serving a page request *)

Section ServeOrder.
Variable TPB : Z.
Variable b : RB.t.
Hypothesis HTPB : 0 <= TPB <= 32.
Hypothesis Hlen : RB.length b <= 2 ^ 63.

Local Notation "'T'" := (2 ^ TPB) (at level 0).

Lemma page_size_range : 1 <= T <= 2 ^ 32.
Proof.
  split.
  - change 1 with (2 ^ 0). apply Z.pow_le_mono_r; lia.
  - apply Z.pow_le_mono_r; lia.
Qed.

Lemma prefault_no_wrap (p j : Z) :
  0 <= p -> p * T < RB.length b -> 0 <= j < 2 ^ 31 ->
  0 <= (p + j) * T < 2 ^ 64 /\ 0 <= p + j < 2 ^ 64.
Proof.
  intros Hp Hin Hj. pose proof page_size_range as HT.
  change (2 ^ 32) with 4294967296 in HT.
  change (2 ^ 31) with 2147483648 in Hj.
  change (2 ^ 63) with 9223372036854775808 in Hlen.
  change (2 ^ 64) with 18446744073709551616.
  assert (j * T <= 2147483647 * 4294967296) by nia.
  nia.
Qed.

Lemma save_page_forward (f : list stream_item) (p j : Z) :
  0 <= p -> in_block TPB b p = true -> 0 <= j < 2 ^ 31 ->
  postcopy_outgoing_ram_save_page TPB f (Some b) p true j =
  Some (f ++ if in_block TPB b (p + j) then [SavePage b ((p + j) * T)]
             else []).
Proof.
  intros Hp Hin Hj. unfold in_block in *.
  apply Z.ltb_lt in Hin.
  destruct (prefault_no_wrap Hp Hin Hj) as [Hm Hs].
  unfold postcopy_outgoing_ram_save_page. cbn [andb].
  unfold u64. rewrite (Z.mod_small (p + j)) by lia.
  rewrite Z.shiftl_mul_pow2 by lia.
  rewrite (Z.mod_small ((p + j) * T)) by lia.
  destruct (Z.ltb_spec ((p + j) * T) (RB.length b)) as [Hlt|Hge].
  - destruct (Z.geb_spec ((p + j) * T) (RB.length b)); [lia|].
    reflexivity.
  - destruct (Z.geb_spec ((p + j) * T) (RB.length b)); [|lia].
    assert (j > 0) by nia.
    destruct (Z.gtb_spec j 0); [|lia]. now rewrite app_nil_r.
Qed.

Lemma save_page_backward (f : list stream_item) (p j : Z) :
  0 <= p -> in_block TPB b p = true -> 0 <= j < 2 ^ 31 ->
  postcopy_outgoing_ram_save_page TPB f (Some b) p false j =
  Some (f ++ if j <=? p then [SavePage b ((p - j) * T)] else []).
Proof.
  intros Hp Hin Hj. unfold in_block in *.
  apply Z.ltb_lt in Hin. pose proof page_size_range as HT.
  destruct (prefault_no_wrap Hp Hin Hj) as [Hm Hs].
  unfold postcopy_outgoing_ram_save_page.
  unfold u64. rewrite (Z.mod_small j) by lia.
  destruct (Z.ltb_spec p j) as [Hlt|Hge].
  - destruct (Z.leb_spec j p); [lia|]. now rewrite app_nil_r.
  - destruct (Z.leb_spec j p); [|lia].
    rewrite (Z.mod_small (p - j)) by lia.
    rewrite Z.shiftl_mul_pow2 by lia.
    assert (0 <= (p - j) * T <= p * T) by nia.
    rewrite (Z.mod_small ((p - j) * T)) by lia.
    destruct (Z.geb_spec ((p - j) * T) (RB.length b)); [lia|].
    reflexivity.
Qed.

Lemma save_pages_forward (ps : list Z) (j : Z) :
  in_range TPB b ps -> 0 <= j < 2 ^ 31 ->
  forall f,
    save_pages TPB f (Some b) ps true j =
    Some (f ++ map (fun p => SavePage b (p * T))
                   (filter (in_block TPB b) (map (fun p => p + j) ps))).
Proof.
  intros Hps Hj. induction Hps as [|p ps [Hp Hin] _ IH]; intros f.
  - cbn. now rewrite app_nil_r.
  - cbn [save_pages map filter].
    rewrite (save_page_forward f Hp Hin Hj), IH.
    destruct (in_block TPB b (p + j)); cbn [map app];
      rewrite <- app_assoc; reflexivity.
Qed.

Lemma save_pages_backward (ps : list Z) (j : Z) :
  in_range TPB b ps -> 0 <= j < 2 ^ 31 ->
  forall f,
    save_pages TPB f (Some b) ps false j =
    Some (f ++ map (fun p => SavePage b (p * T))
                   (flat_map (fun p => if j <=? p then [p - j] else []) ps)).
Proof.
  intros Hps Hj. induction Hps as [|p ps [Hp Hin] _ IH]; intros f.
  - cbn. now rewrite app_nil_r.
  - cbn [save_pages flat_map].
    rewrite (save_page_backward f Hp Hin Hj), IH, map_app.
    destruct (j <=? p); cbn [map app]; rewrite <- app_assoc; reflexivity.
Qed.

Lemma to_int_small (j : Z) : 0 <= j < 2 ^ 31 -> to_int j = j.
Proof.
  intros H. unfold to_int. rewrite Z.mod_small; lia.
Qed.

Lemma zrange_cons (a : Z) (k : nat) :
  zrange a (S k) = a :: zrange (a + 1) k.
Proof.
  unfold zrange. cbn [seq map]. f_equal; [lia|].
  rewrite <- seq_shift, map_map. apply map_ext. intros i. lia.
Qed.

Lemma prefault_pages_spec (forward : bool) (ps : list Z)
      (g : Z -> list Z) :
  (forall j f, 0 <= j < 2 ^ 31 ->
               save_pages TPB f (Some b) ps forward j =
               Some (f ++ map (fun p => SavePage b (p * T)) (g j))) ->
  forall (k : nat) (j : Z) (f : list stream_item),
    0 <= j -> j + Z.of_nat k <= 2 ^ 31 ->
    prefault_pages TPB f (Some b) ps forward j k =
    Some (f ++ map (fun p => SavePage b (p * T))
                   (flat_map g (zrange j k))).
Proof.
  intros Hg. induction k as [|k IH]; intros j f Hj Hk.
  - cbn. now rewrite app_nil_r.
  - cbn [prefault_pages]. rewrite to_int_small by lia.
    rewrite Hg by lia. rewrite IH by lia.
    rewrite zrange_cons. cbn [flat_map]. now rewrite map_app, app_assoc.
Qed.

End ServeOrder.

Lemma move_background_last_seen_fields (TPB : Z) (ms ms' : MigrationState)
      (req : QEMUUMemReq) :
  move_background_last_seen TPB ms req = Some ms' ->
  po ms' = po ms /\ last_block_read ms' = last_block_read ms
  /\ file ms' = file ms /\ file_read ms' = file_read ms
  /\ ram_list ms' = ram_list ms
  /\ prefault_forward ms' = prefault_forward ms
  /\ prefault_backward ms' = prefault_backward ms
  /\ move_background ms' = move_background ms
  /\ no_background ms' = no_background ms.
Proof.
  unfold move_background_last_seen.
  destruct (move_background ms) eqn:Emb.
  - destruct (last_block_read ms) as [block|] eqn:El; [|discriminate].
    destruct ((nr req <=? 0) || (Z.of_nat (length (pgoffs req)) <? nr req));
      [discriminate|].
    intros E; injection E as <-. cbn. rewrite El, Emb. repeat split.
  - intros E; injection E as <-. rewrite Emb. repeat split.
Qed.

Lemma move_background_last_seen_some (TPB : Z) (ms : MigrationState)
      (req : QEMUUMemReq) (block : RB.t) :
  last_block_read ms = Some block ->
  0 < nr req <= Z.of_nat (length (pgoffs req)) ->
  exists ms', move_background_last_seen TPB ms req = Some ms'.
Proof.
  intros Hl Hnr. unfold move_background_last_seen. rewrite Hl.
  destruct (move_background ms); [|eauto].
  replace (nr req <=? 0) with false by (symmetry; apply Z.leb_gt; lia).
  replace (Z.of_nat (length (pgoffs req)) <? nr req) with false
    by (symmetry; apply Z.ltb_ge; lia).
  cbn [orb]. eauto.
Qed.

(** C5 as stated fails in one state: once all pages have been sent
    ([PO_STATE_ALL_PAGES_SENT]) a PAGE request is accepted and nothing is
    sent for it, not even the requested page. *)
Lemma page_request_after_all_pages_sent_sends_nothing :
  let block := RB.mk [114] 0 (10 * 4096) in
  let ms := mkMS PO_STATE_ALL_PAGES_SENT None [] [] [block] 2 1 false false
                 None in
  let req := mkReq QEMU_UMEM_REQ_PAGE 0 [114] 1 [5] in
  in_range 12 block [5]
  /\ exists ms',
      postcopy_outgoing_handle_req 12 ms req = Some (0, ms')
      /\ file ms' = [].
Proof.
  cbv zeta. split.
  - constructor; [split; [lia | reflexivity] | constructor].
  - eexists. split; [vm_compute; reflexivity | reflexivity].
Qed.

(** C5, amended.  Unless the state is [PO_STATE_ALL_PAGES_SENT], serving a
    PAGE request for one or more pages inside a known block appends to the
    stream, in this order: the requested pages; for each distance j = 1..F the page j
    after each requested page, if it lies inside the block; for each
    distance j = 1..B the page j before each requested page, if it is not
    below page 0.  Nothing else is written.  For one requested page p these
    are p, then p+1..p+F up to the end of the block, then p-1..p-B down to
    page 0.  The offsets are computed without wrap-around under the
    bounds taken here: target pages of at most 2^32 bytes, a block of at
    most 2^63 bytes, and windows F and B below 2^31 (the distance is
    passed as an [int]). *)
Theorem page_request_service_order (TPB : Z) (ms : MigrationState)
        (req : QEMUUMemReq) (block : RB.t) :
  0 <= TPB <= 32 ->
  RB.length block <= 2 ^ 63 ->
  0 <= prefault_forward ms < 2 ^ 31 ->
  0 <= prefault_backward ms < 2 ^ 31 ->
  po ms <> PO_STATE_ALL_PAGES_SENT ->
  cmd req = QEMU_UMEM_REQ_PAGE ->
  nr req = Z.of_nat (length (pgoffs req)) ->
  0 < nr req ->
  ram_find_block (ram_list ms) (idstr req) (strlen (idstr req))
  = Some block ->
  in_range TPB block (pgoffs req) ->
  exists ms',
    postcopy_outgoing_handle_req TPB ms req = Some (0, ms')
    /\ po ms' = po ms
    /\ last_block_read ms' = Some block
    /\ file ms' =
       file ms
       ++ map (fun p => SavePage block (p * 2 ^ TPB))
              (served_pages TPB block (pgoffs req)
                            (prefault_forward ms) (prefault_backward ms)).
Proof.
  intros HT Hlen HF HB Hpo Hcmd Hnr Hnr0 Hfind Hps.
  unfold postcopy_outgoing_handle_req.
  rewrite Hcmd. change (QEMU_UMEM_REQ_PAGE =? QEMU_UMEM_REQ_EOC) with false.
  change (QEMU_UMEM_REQ_PAGE =? QEMU_UMEM_REQ_PAGE) with true. cbv iota.
  rewrite Hfind.
  cbn [po last_block_read file set_last_block_read prefault_forward
       prefault_backward move_background].
  assert (Hne : po_state_eqb (po ms) PO_STATE_ALL_PAGES_SENT = false)
    by (destruct (po ms); try reflexivity; contradiction).
  rewrite Hne.
  rewrite req_pgoffs_array_firstn by lia.
  rewrite Hnr, Nat2Z.id, firstn_all.
  assert (H0 : 0 <= 0 < 2 ^ 31) by lia.
  rewrite (save_pages_forward HT Hlen Hps H0).
  assert (Hid : filter (in_block TPB block) (map (fun p => p + 0) (pgoffs req))
                = pgoffs req).
  { clear - Hps. induction Hps as [|p ps [Hp Hin] _ IH]; [reflexivity|].
    cbn [map filter]. rewrite Z.add_0_r, Hin, IH. reflexivity. }
  rewrite Hid.
  unfold u64. rewrite !Z.mod_small by lia.
  rewrite (@prefault_pages_spec TPB block true (pgoffs req)
             (fun j => filter (in_block TPB block)
                              (map (fun p => p + j) (pgoffs req))))
    by (try lia; intros j f Hj; now apply save_pages_forward).
  set (f1 := _ ++ map _ (flat_map _ (zrange 1 _))).
  assert (Hback : forall m : MigrationState,
             last_block_read m = Some block ->
             prefault_backward m = prefault_backward ms ->
             prefault_pages TPB f1 (last_block_read m) (pgoffs req) false 1
               (Z.to_nat (prefault_backward m mod 2 ^ 64))
             = Some (f1 ++ map (fun p => SavePage block (p * 2 ^ TPB))
                       (flat_map
                          (fun j => flat_map
                                      (fun p => if j <=? p then [p - j]
                                                else [])
                                      (pgoffs req))
                          (zrange 1 (Z.to_nat (prefault_backward ms)))))).
  { intros m Hl Hb. rewrite Hl, Hb, Z.mod_small by lia.
    apply (@prefault_pages_spec TPB block false (pgoffs req)
             (fun j => flat_map (fun p => if j <=? p then [p - j] else [])
                                (pgoffs req))); try lia.
    intros j f Hj. now apply save_pages_backward. }
  destruct (@move_background_last_seen_some
              TPB (set_last_block_read ms (Some block)) req block eq_refl)
    as (m1 & Em1); [lia|].
  rewrite Em1.
  destruct (@move_background_last_seen_fields TPB _ m1 req Em1)
    as (Hp1 & Hl1 & _ & _ & _ & _ & Hb1 & _).
  rewrite Hback by assumption.
  eexists. split; [reflexivity|].
  cbn [po last_block_read file set_file]. rewrite Hp1, Hl1.
  repeat split. unfold f1, served_pages.
  now rewrite !map_app, <- !app_assoc.
Qed.

Lemma page_request_service_order_witness :
  let block := RB.mk [114] 0 (10 * 4096) in
  let ms := mkMS PO_STATE_ACTIVE None [] [] [block] 2 1 false false None in
  exists ms',
    postcopy_outgoing_handle_req 12 ms
      (mkReq QEMU_UMEM_REQ_PAGE 0 [114] 1 [5]) = Some (0, ms')
    /\ file ms' = [SavePage block (5 * 4096); SavePage block (6 * 4096);
                   SavePage block (7 * 4096); SavePage block (4 * 4096)].
Proof.
  cbv zeta.
  destruct (@page_request_service_order 12
              (mkMS PO_STATE_ACTIVE None [] []
                    [RB.mk [114] 0 (10 * 4096)] 2 1 false false None)
              (mkReq QEMU_UMEM_REQ_PAGE 0 [114] 1 [5])
              (RB.mk [114] 0 (10 * 4096)))
    as (ms' & Hrun & _ & _ & Hfile);
    try (cbn; lia); try reflexivity; try discriminate.
  - constructor; [split; [lia | reflexivity] | constructor].
  - exists ms'. split; [exact Hrun|]. rewrite Hfile. reflexivity.
Defined.

(* ===================================================================== *)
(** * End of commands on the source *)

Lemma handle_req_eoc (TPB : Z) (ms : MigrationState) (req : QEMUUMemReq) :
  cmd req = QEMU_UMEM_REQ_EOC ->
  postcopy_outgoing_handle_req TPB ms req =
  Some (1, set_po ms (if po_state_eqb (po ms) PO_STATE_ALL_PAGES_SENT
                      then PO_STATE_COMPLETED else PO_STATE_EOC_RECEIVED)).
Proof.
  intros Hc. unfold postcopy_outgoing_handle_req. rewrite Hc.
  change (QEMU_UMEM_REQ_EOC =? QEMU_UMEM_REQ_EOC) with true. cbv iota.
  destruct (po_state_eqb (po ms) PO_STATE_ALL_PAGES_SENT); reflexivity.
Qed.

Lemma recv_req_eoc (rest : list Z) (req : QEMUUMemReq) :
  postcopy_outgoing_recv_req (QEMU_UMEM_REQ_EOC :: rest) req =
  Some (0, set_cmd req QEMU_UMEM_REQ_EOC, rest).
Proof.
  unfold postcopy_outgoing_recv_req. cbv zeta.
  assert (Hpeek1 : QR.qemu_peek_buffer (QEMU_UMEM_REQ_EOC :: rest) 1 0
                   = [QEMU_UMEM_REQ_EOC]) by reflexivity.
  rewrite Hpeek1. cbn [length hd]. change (Z.of_nat 1 <=? 0) with false.
  cbv iota. change (cmd (set_cmd req QEMU_UMEM_REQ_EOC))
    with QEMU_UMEM_REQ_EOC.
  change (QEMU_UMEM_REQ_EOC =? QEMU_UMEM_REQ_EOC) with true. cbv iota.
  change (QEMU_UMEM_REQ_EOC :: rest) with ([QEMU_UMEM_REQ_EOC] ++ rest).
  rewrite qemu_file_skip_app by reflexivity. reflexivity.
Qed.

(** One call of the scheduler after EOC was received: nothing happens, or
    the end-of-stream marker is written and the state is COMPLETED. *)
Lemma outgoing_loop_after_eoc (TPB : Z) (env : LoopEnv)
      (ms : MigrationState) :
  po ms = PO_STATE_EOC_RECEIVED ->
  exists ret ms',
    postcopy_outgoing_loop TPB env ms = Some (ret, ms')
    /\ (ms' = ms
        \/ (ret = 0 /\ po ms' = PO_STATE_COMPLETED
            /\ file ms' = file ms ++ [PutBe64 RAM_SAVE_FLAG_EOS])).
Proof.
  intros Hpo. unfold postcopy_outgoing_loop. rewrite Hpo. cbn [po_state_eqb orb andb].
  destruct (sel_ret env =? -1).
  { destruct (sel_eintr env); eauto. }
  destruct (negb (rate_limit_hit env) && sel_write env); [|eauto].
  unfold postcopy_outgoing_ram_save_background. rewrite Hpo.
  do 2 eexists. split; [reflexivity|]. right. auto.
Qed.

(** C4.  (1) Handling an EOC request moves the state to COMPLETED if it
    was ALL_PAGES_SENT and to EOC_RECEIVED otherwise, and returns 1.
    (2) When the receive handler finds EOC in its buffer it stops there:
    nothing is written and the requests buffered behind EOC are not
    served.  (3) From the state EOC_RECEIVED, whatever the scheduler
    observes afterwards, the engine keeps running without aborting and the
    stream either stays as it is or gets exactly one more item, the
    END-OF-STREAM marker, with which the state becomes COMPLETED: no page
    is sent after EOC_RECEIVED. *)
Theorem eoc_received_then_only_end_of_stream (TPB : Z) :
  (forall (ms : MigrationState) (req : QEMUUMemReq),
      cmd req = QEMU_UMEM_REQ_EOC ->
      postcopy_outgoing_handle_req TPB ms req =
      Some (1, set_po ms
                 (if po_state_eqb (po ms) PO_STATE_ALL_PAGES_SENT
                  then PO_STATE_COMPLETED else PO_STATE_EOC_RECEIVED)))
  /\ (forall (ms : MigrationState) (rest : list Z),
         po ms = PO_STATE_ACTIVE \/ po ms = PO_STATE_ALL_PAGES_SENT ->
         file_read ms = QEMU_UMEM_REQ_EOC :: rest ->
         exists ms',
           postcopy_outgoing_recv_handler TPB ms = Some ms'
           /\ po ms' = (if po_state_eqb (po ms) PO_STATE_ALL_PAGES_SENT
                        then PO_STATE_COMPLETED else PO_STATE_EOC_RECEIVED)
           /\ file ms' = file ms
           /\ file_read ms' = rest)
  /\ (forall (envs : list LoopEnv) (ret : Z) (ms : MigrationState),
         po ms = PO_STATE_EOC_RECEIVED ->
         exists ret' ms',
           postcopy_outgoing TPB envs ret ms = Some (ret', ms')
           /\ ((po ms' = PO_STATE_EOC_RECEIVED /\ file ms' = file ms)
               \/ (po ms' = PO_STATE_COMPLETED
                   /\ file ms' = file ms ++ [PutBe64 RAM_SAVE_FLAG_EOS]))).
Proof.
  split; [|split].
  - intros ms req Hc. now apply handle_req_eoc.
  - intros ms rest Hpo Hfr.
    unfold postcopy_outgoing_recv_handler.
    assert (Hin : po_state_eqb (po ms) PO_STATE_ACTIVE
                  || po_state_eqb (po ms) PO_STATE_ALL_PAGES_SENT = true)
      by (destruct Hpo as [-> | ->]; reflexivity).
    rewrite Hin. cbn [recv_handler_loop]. rewrite Hfr, recv_req_eoc.
    change (0 <? 0) with false. cbv iota.
    rewrite handle_req_eoc by reflexivity.
    change (1 =? 0) with false. change (1 <? 0) with false. cbv iota.
    eexists. split; [reflexivity|].
    cbn [po file file_read set_po set_file_read]. auto.
  - induction envs as [|env envs IH]; intros ret ms Hpo.
    + cbn [postcopy_outgoing]. rewrite Hpo. cbn [po_state_eqb orb].
      exists ret, ms. split; [reflexivity|]. left. auto.
    + cbn [postcopy_outgoing]. rewrite Hpo. cbn [po_state_eqb orb].
      destruct (@outgoing_loop_after_eoc TPB env ms Hpo)
        as (r & ms1 & Hrun & [-> | (-> & Hc & Hf)]); rewrite Hrun.
      * destruct (r <? 0); [|apply IH, Hpo].
        exists r, ms. split; [reflexivity|]. left. auto.
      * change (0 <? 0) with false. cbv iota.
        exists 0, ms1.
        split; [|right; auto].
        destruct envs; cbn [postcopy_outgoing]; rewrite Hc;
          cbn [po_state_eqb orb]; reflexivity.
Qed.

Lemma eoc_received_then_only_end_of_stream_witness :
  let block := RB.mk [114] 0 (10 * 4096) in
  let ms := mkMS PO_STATE_ACTIVE (Some block) [] [0; 2; 0; 0; 0; 1]
                 [block] 2 1 false false None in
  exists ms',
    postcopy_outgoing_recv_handler 12 ms = Some ms'
    /\ po ms' = PO_STATE_EOC_RECEIVED /\ file ms' = []
    /\ exists ret' ms'',
        postcopy_outgoing 12 [mkLoopEnv false 1 false false true 0 []]
                          0 ms' = Some (ret', ms'')
        /\ (file ms'' = [] \/ file ms'' = [PutBe64 RAM_SAVE_FLAG_EOS]).
Proof.
  cbv zeta.
  destruct (eoc_received_then_only_end_of_stream 12) as (_ & H2 & H3).
  destruct (H2 (mkMS PO_STATE_ACTIVE (Some (RB.mk [114] 0 (10 * 4096))) []
                     [0; 2; 0; 0; 0; 1] [RB.mk [114] 0 (10 * 4096)]
                     2 1 false false None) [2; 0; 0; 0; 1])
    as (ms' & Hrun & Hpo & Hfile & _).
  - left. reflexivity.
  - reflexivity.
  - exists ms'. split; [exact Hrun|]. split; [exact Hpo|].
    split; [exact Hfile|].
    destruct (H3 [mkLoopEnv false 1 false false true 0 []] 0 ms' Hpo)
      as (r & ms2 & Hrun2 & Hcases).
    exists r, ms2. split; [exact Hrun2|].
    cbn [file] in Hfile. rewrite Hfile in Hcases. cbn [app] in Hcases.
    destruct Hcases as [[_ ->] | [_ ->]]; auto.
Defined.

(* ===================================================================== *)
(** * The fault-pipe readers *)

Lemma length_store (buf data : list Z) (pos : Z) :
  0 <= pos ->
  pos + Z.of_nat (length data) <= Z.of_nat (length buf) ->
  length (store buf pos data) = length buf.
Proof.
  intros Hp Hle. unfold store.
  rewrite !length_app, length_firstn, length_skipn. lia.
Qed.

Lemma firstn_store (buf data : list Z) (pos : Z) :
  0 <= pos ->
  pos + Z.of_nat (length data) <= Z.of_nat (length buf) ->
  firstn (Z.to_nat (pos + Z.of_nat (length data))) (store buf pos data)
  = firstn (Z.to_nat pos) buf ++ data.
Proof.
  intros Hp Hle. unfold store.
  rewrite app_assoc, firstn_app.
  replace (Z.to_nat (pos + Z.of_nat (length data))
           - length (firstn (Z.to_nat pos) buf ++ data))%nat with 0%nat
    by (rewrite length_app, length_firstn; lia).
  cbn [firstn]. rewrite app_nil_r. apply firstn_all2.
  rewrite length_app, length_firstn. lia.
Qed.

Lemma length_memmove_front (buf : list Z) (src n : Z) :
  0 <= src -> 0 <= n -> src + n <= Z.of_nat (length buf) ->
  length (memmove_front buf src n) = length buf.
Proof.
  intros Hs Hn Hle. unfold memmove_front. apply length_store; [lia|].
  rewrite length_firstn, length_skipn. lia.
Qed.

Lemma firstn_memmove_front (buf : list Z) (src n : Z) :
  0 <= src -> 0 <= n -> src + n <= Z.of_nat (length buf) ->
  firstn (Z.to_nat n) (memmove_front buf src n)
  = firstn (Z.to_nat n) (skipn (Z.to_nat src) buf).
Proof.
  intros Hs Hn Hle. unfold memmove_front.
  set (d := firstn (Z.to_nat n) (skipn (Z.to_nat src) buf)).
  assert (Hd : length d = Z.to_nat n)
    by (unfold d; rewrite length_firstn, length_skipn; lia).
  pose proof (@firstn_store buf d 0 ltac:(lia) ltac:(lia)) as H.
  cbn [Z.to_nat firstn app] in H.
  replace (Z.to_nat (0 + Z.of_nat (length d))) with (Z.to_nat n) in H by lia.
  exact H.
Qed.

Lemma pipe_read_spec (pipe : list Z) (cap : nat) (count : Z) :
  0 < count ->
  let '(data, pipe') := pipe_read pipe cap count in
  data ++ pipe' = pipe
  /\ Z.of_nat (length data) <= count
  /\ (length data = 0%nat -> pipe = []).
Proof.
  intros Hc. unfold pipe_read.
  split; [apply firstn_skipn|]. split.
  - rewrite length_firstn. lia.
  - rewrite length_firstn. intros H.
    destruct pipe; [reflexivity|]. cbn [length] in H. lia.
Qed.

Lemma groups8_firstn (n : nat) :
  forall (l : list Z) (m : nat),
    (8 * n <= m)%nat -> groups8 n (firstn m l) = groups8 n l.
Proof.
  induction n as [|n IH]; intros l m Hm; [reflexivity|].
  cbn [groups8]. rewrite firstn_firstn, Nat.min_l by lia.
  f_equal. rewrite skipn_firstn_comm. apply IH. lia.
Qed.

Lemma groups8_app (a b : list Z) (n m : nat) :
  length a = (8 * n)%nat ->
  groups8 (n + m) (a ++ b) = groups8 n a ++ groups8 m b.
Proof.
  revert a. induction n as [|n IH]; intros a Ha.
  - destruct a; [reflexivity | discriminate Ha].
  - cbn [Nat.add groups8 app].
    rewrite firstn_app, skipn_app.
    replace (8 - length a)%nat with 0%nat by lia.
    change (firstn 0 b) with (@nil Z). change (skipn 0 b) with b.
    rewrite app_nil_r. f_equal.
    apply IH. rewrite length_skipn. lia.
Qed.

Lemma buf_entries_groups (host_u64 : list Z -> Z) (f : Z -> Z)
      (buf : list Z) (n : nat) :
  map (fun i => f (buf_u64 host_u64 buf i)) (seq 0 n)
  = map (fun g => f (host_u64 g)) (groups8 n buf).
Proof.
  assert (H : forall k (l : list Z),
             map (fun i => f (host_u64 (firstn 8 (skipn (8 * i) buf))))
                 (seq k n)
             = map (fun g => f (host_u64 g))
                   (groups8 n (skipn (8 * k) buf))).
  { induction n as [|n IH]; intros k l; [reflexivity|].
    cbn [seq map groups8]. f_equal.
    rewrite (IH (S k) l), skipn_skipn. do 3 f_equal. lia. }
  apply (H 0%nat buf).
Qed.

Section FaultStep.
Variable PIPE_BUF : Z.
Variable shift : Z.
Variable host_u64 : list Z -> Z.
Hypothesis HPB : 8 <= PIPE_BUF < 2 ^ 31.

Lemma sizeof_buf_range : 8 <= sizeof_buf PIPE_BUF <= PIPE_BUF.
Proof.
  unfold sizeof_buf.
  pose proof (Z.div_mod PIPE_BUF 8 ltac:(lia)).
  pose proof (Z.mod_pos_bound PIPE_BUF 8 ltac:(lia)). lia.
Qed.

(** One read of [data] into a buffer holding [offset] bytes, then the
    entries that are complete are taken from the front: what is taken
    followed by what stays is what was held followed by [data]. *)
Lemma fault_step (buf data : list Z) (offset : Z) :
  fault_buf_ok PIPE_BUF (mkFaultBuf [] buf offset) ->
  0 < Z.of_nat (length data) <= sizeof_buf PIPE_BUF - offset ->
  let buf1 := store buf offset data in
  let off1 := offset + Z.of_nat (length data) in
  let nreq := to_int (off1 / 8) in
  let consumed := firstn (Z.to_nat (nreq * 8)) buf1 in
  let buf2 := memmove_front buf1 (nreq * 8) (off1 - nreq * 8) in
  0 <= nreq
  /\ Z.of_nat (length consumed) = nreq * 8
  /\ off1 - nreq * 8 = Z.land off1 (8 - 1)
  /\ fault_buf_ok PIPE_BUF (mkFaultBuf [] buf2 (off1 - nreq * 8))
  /\ consumed ++ firstn (Z.to_nat (off1 - nreq * 8)) buf2
     = firstn (Z.to_nat offset) buf ++ data
  /\ map (fun i => fault_addr shift (buf_u64 host_u64 buf1 i))
         (seq 0 (Z.to_nat nreq))
     = fault_addrs shift host_u64 consumed
  /\ fault_buf_ok PIPE_BUF (mkFaultBuf [] buf1 (off1 - nreq * 8))
  /\ firstn (Z.to_nat off1) buf1 = firstn (Z.to_nat offset) buf ++ data.
Proof.
  intros [Hlen Hoff] Hdata. cbn [fb_buf fb_offset] in Hlen, Hoff.
  pose proof sizeof_buf_range as Hsz.
  intros buf1 off1 nreq consumed buf2.
  assert (Hoff1 : 0 < off1 <= sizeof_buf PIPE_BUF) by (unfold off1; lia).
  assert (Hq : 0 <= off1 / 8 < 2 ^ 31).
  { split; [apply Z.div_pos; lia|].
    apply Z.div_lt_upper_bound; lia. }
  assert (Hn : nreq = off1 / 8).
  { unfold nreq, to_int. rewrite Z.mod_small; lia. }
  pose proof (Z.div_mod off1 8 ltac:(lia)) as Hdm.
  pose proof (Z.mod_pos_bound off1 8 ltac:(lia)) as Hmb.
  assert (Hrest : off1 - nreq * 8 = off1 mod 8) by lia.
  assert (Hl1 : length buf1 = length buf)
    by (apply length_store; lia).
  assert (Hheld : firstn (Z.to_nat off1) buf1
                  = firstn (Z.to_nat offset) buf ++ data)
    by (apply firstn_store; lia).
  split; [lia|]. split.
  { unfold consumed. rewrite length_firstn. lia. }
  split.
  { rewrite Hrest. change (8 - 1) with (Z.ones 3).
    rewrite Z.land_ones by lia. reflexivity. }
  split.
  { split; cbn [fb_buf fb_offset]; [|lia].
    unfold buf2. rewrite length_memmove_front; lia. }
  split.
  { unfold buf2. rewrite firstn_memmove_front by lia.
    rewrite <- Hheld. unfold consumed.
    rewrite firstn_skipn_comm.
    replace (Z.to_nat (nreq * 8) + Z.to_nat (off1 - nreq * 8))%nat
      with (Z.to_nat off1) by lia.
    assert (Hc : firstn (Z.to_nat (nreq * 8)) buf1
                 = firstn (Z.to_nat (nreq * 8))
                          (firstn (Z.to_nat off1) buf1))
      by (rewrite firstn_firstn, Nat.min_l by lia; reflexivity).
    rewrite Hc. apply firstn_skipn. }
  split.
  { unfold fault_addrs. rewrite buf_entries_groups. unfold consumed.
    rewrite length_firstn.
    replace (Nat.min (Z.to_nat (nreq * 8)) (length buf1) / 8)%nat
      with (Z.to_nat nreq).
    - now rewrite groups8_firstn by lia.
    - rewrite Nat.min_l by lia.
      replace (Z.to_nat (nreq * 8)) with (Z.to_nat nreq * 8)%nat by lia.
      now rewrite Nat.div_mul. }
  split; [|exact Hheld].
  split; cbn [fb_buf fb_offset]; lia.
Qed.

Lemma fault_addrs_app (a c : list Z) :
  Z.of_nat (length a) mod 8 = 0 -> Z.of_nat (length c) mod 8 = 0 ->
  fault_addrs shift host_u64 (a ++ c)
  = fault_addrs shift host_u64 a ++ fault_addrs shift host_u64 c.
Proof.
  intros Ha Hc. unfold fault_addrs. rewrite <- map_app. f_equal.
  assert (Hdiv : forall l : list Z,
             Z.of_nat (length l) mod 8 = 0 ->
             length l = (8 * (length l / 8))%nat).
  { intros l Hl. pose proof (Nat.div_mod_eq (length l) 8) as E.
    assert ((length l mod 8)%nat = 0%nat) by
      (apply Nat2Z.inj; rewrite Nat2Z.inj_mod; exact Hl).
    lia. }
  rewrite length_app.
  replace ((length a + length c) / 8)%nat
    with (length a / 8 + length c / 8)%nat.
  - apply groups8_app. now apply Hdiv.
  - pose proof (Hdiv a Ha) as Ea. pose proof (Hdiv c Hc) as Ec.
    rewrite Ea at 2. rewrite Ec at 2.
    rewrite <- Nat.mul_add_distr_l, Nat.mul_comm, Nat.div_mul by lia.
    reflexivity.
Qed.

End FaultStep.

Section FaultReaders.
Variable PIPE_BUF : Z.
Variable shift : Z.
Variable host_u64 : list Z -> Z.
Hypothesis HPB : 8 <= PIPE_BUF < 2 ^ 31.

(** The supervisor's reader over any run of reads and writes: the
    addresses touched are those of whole 8-byte groups of a prefix of the
    bytes it had to deal with; unless a write fell short, that prefix is
    what was forwarded and the rest is still held or in the pipe. *)
Lemma fault_loop_conserves (turns : list FaultTurn) :
  forall st : FaultLoop,
    fault_buf_ok PIPE_BUF (fl_fb st) ->
    let st' := postcopy_incoming_fault_loop PIPE_BUF shift host_u64
                                            turns st in
    exists consumed rest,
      pending_bytes (fl_fb st) = consumed ++ rest
      /\ Z.of_nat (length consumed) mod 8 = 0
      /\ fl_touched st'
         = fl_touched st ++ fault_addrs shift host_u64 consumed
      /\ (fl_write_failed st' = false ->
          fl_out st' = fl_out st ++ consumed
          /\ rest = pending_bytes (fl_fb st')
          /\ fault_buf_ok PIPE_BUF (fl_fb st')).
Proof.
  induction turns as [|t turns IH]; intros st Hok.
  { cbn. exists [], (pending_bytes (fl_fb st)). rewrite !app_nil_r.
    split; [reflexivity|]. split; [reflexivity|]. split; [reflexivity|].
    intros _. split; [reflexivity|]. split; [reflexivity|exact Hok]. }
  destruct st as [[pipe buf offset] touched out wf cl].
  cbn [fl_fb fl_out fl_touched fl_write_failed] in *.
  cbn [postcopy_incoming_fault_loop].
  destruct (ft_read t) as [| |cap].
  - (* EINTR: continue *)
    apply (IH (mkFaultLoop (mkFaultBuf pipe buf offset) touched out wf cl)).
    exact Hok.
  - (* read error: leave *)
    cbn. exists [], (pending_bytes (mkFaultBuf pipe buf offset)).
    rewrite !app_nil_r.
    split; [reflexivity|]. split; [reflexivity|]. split; [reflexivity|].
    intros _. split; [reflexivity|]. split; [reflexivity|exact Hok].
  - pose proof (sizeof_buf_range HPB) as Hsz.
    destruct Hok as [Hlen Hoff]. cbn [fb_buf fb_offset] in Hlen, Hoff.
    pose proof (@pipe_read_spec pipe cap (sizeof_buf PIPE_BUF - offset)
                  ltac:(lia)) as Hrd.
    destruct (pipe_read pipe cap (sizeof_buf PIPE_BUF - offset))
      as [data pipe'].
    destruct Hrd as (Hsplit & Hcount & Hempty).
    destruct (Z.eqb_spec (Z.of_nat (length data)) 0) as [Hz|Hnz].
    { (* end of file *)
      cbn.
      assert (data = []) by (destruct data; [reflexivity|discriminate]).
      subst data. cbn [app] in Hsplit. subst pipe'.
      exists [], (pending_bytes (mkFaultBuf pipe buf offset)).
      rewrite !app_nil_r.
      split; [reflexivity|]. split; [reflexivity|]. split; [reflexivity|].
      intros _. split; [reflexivity|]. split; [reflexivity|].
      split; assumption. }
    destruct (@fault_step PIPE_BUF shift host_u64 HPB buf data offset)
      as (Hn0 & Hclen & Hland & Hok2 & Hcons & Haddrs & Hok1 & Hheld).
    { split; assumption. }
    { lia. }
    set (buf1 := store buf offset data) in *.
    set (off1 := offset + Z.of_nat (length data)) in *.
    set (nreq := to_int (off1 / 8)) in *.
    destruct (Z.eqb_spec nreq 0) as [Hnr|Hnr].
    { (* no complete entry yet *)
      destruct (IH (mkFaultLoop (mkFaultBuf pipe' buf1 off1)
                                touched out false false))
        as (c & r & Hp & Hm & Ht & Hrest);
        [ rewrite Hnr in Hok1;
          replace (off1 - 0 * 8) with off1 in Hok1 by lia; exact Hok1 |].
      exists c, r. cbn [fl_fb fl_out fl_touched fl_write_failed] in *.
      split.
      { rewrite <- Hp. unfold pending_bytes.
        cbn [fb_offset fb_buf fb_pipe].
        rewrite Hheld, <- app_assoc, Hsplit. reflexivity. }
      split; [exact Hm|]. split; [exact Ht|].
      intros Hf. apply Hrest; exact Hf. }
    rewrite Haddrs.
    set (consumed := firstn (Z.to_nat (nreq * 8)) buf1) in *.
    assert (Hcm : Z.of_nat (length consumed) mod 8 = 0)
      by (rewrite Hclen; apply Z_mod_mult).
    assert (Hall : pending_bytes (mkFaultBuf pipe buf offset)
                   = consumed
                       ++ firstn (Z.to_nat (off1 - nreq * 8))
                            (memmove_front buf1 (nreq * 8)
                                           (off1 - nreq * 8))
                       ++ pipe').
    { unfold pending_bytes. cbn [fb_offset fb_buf fb_pipe].
      rewrite app_assoc, Hcons, <- app_assoc, Hsplit. reflexivity. }
    destruct (Z.eqb_spec (ft_written t) (nreq * 8)) as [Hw|Hw];
      cbn [negb].
    2: { (* the write fell short: leave *)
      cbn [fl_fb fl_out fl_touched fl_write_failed].
      eexists consumed, _. split; [exact Hall|].
      split; [exact Hcm|]. split; [reflexivity|].
      intros Hf. discriminate Hf. }
    rewrite Hw. fold consumed.
    destruct (IH (mkFaultLoop
                    (mkFaultBuf pipe'
                       (memmove_front buf1 (nreq * 8) (off1 - nreq * 8))
                       (off1 - nreq * 8))
                    (touched ++ fault_addrs shift host_u64 consumed)
                    (out ++ consumed) false false))
      as (c & r & Hp & Hm & Ht & Hrest);
      [destruct Hok2 as [A B]; split; assumption |].
    exists (consumed ++ c), r.
    cbn [fl_fb fl_out fl_touched fl_write_failed] in *.
    split.
    { rewrite Hall, <- app_assoc. f_equal. exact Hp. }
    split.
    { rewrite length_app, Nat2Z.inj_add, Z.add_mod, Hcm, Hm by lia.
      reflexivity. }
    split.
    { rewrite Ht, <- app_assoc. f_equal. symmetry.
      apply fault_addrs_app; assumption. }
    intros Hf.
    destruct (Hrest Hf) as (Ho & Hr & Hk).
    split; [rewrite Ho; now rewrite app_assoc|]. split; assumption.
Qed.

Lemma remove_shmem_loop_app (bs : list UMB.t) (a b : list Z) :
  remove_shmem_loop bs (a ++ b)
  = match remove_shmem_loop bs a with
    | None => None
    | Some ca =>
        match remove_shmem_loop bs b with
        | None => None
        | Some cb => Some (ca ++ cb)
        end
    end.
Proof.
  induction a as [|x a IH]; cbn [app remove_shmem_loop].
  - destruct (remove_shmem_loop bs b); reflexivity.
  - destruct (remove_shmem_call bs 0 x); [|reflexivity].
    rewrite IH. destruct (remove_shmem_loop bs a); [|reflexivity].
    destruct (remove_shmem_loop bs b); reflexivity.
Qed.

Lemma check_umem_done_blocks (all_done : bool) (u : Umemd) :
  blocks (snd (postcopy_incoming_umem_check_umem_done all_done u))
  = blocks u.
Proof.
  unfold postcopy_incoming_umem_check_umem_done.
  destruct all_done; [|reflexivity].
  cbn [snd].
  unfold postcopy_incoming_umem_done,
    postcopy_incoming_umem_queue_quit_locked.
  destruct (state_has (postcopy_incoming_umem_req_eoc u)
                      UMEM_STATE_QUIT_QUEUED); reflexivity.
Qed.

(** One call of the daemon's reader. *)
Lemma umemd_fault_loop_conserves (rd : read_event) (all_done : bool)
      (u u' : Umemd) (fb fb' : FaultBuf) (ret : Z) (cs : list (nat * Z)) :
  fault_buf_ok PIPE_BUF fb ->
  postcopy_incoming_umemd_fault_loop PIPE_BUF shift host_u64
                                     rd all_done u fb
  = Some (ret, u', fb', cs) ->
  exists consumed,
    remove_shmem_loop (blocks u) (fault_addrs shift host_u64 consumed)
    = Some cs
    /\ Z.of_nat (length consumed) mod 8 = 0
    /\ consumed ++ pending_bytes fb' = pending_bytes fb
    /\ fault_buf_ok PIPE_BUF fb'
    /\ blocks u' = blocks u.
Proof.
  intros Hok. unfold postcopy_incoming_umemd_fault_loop.
  destruct fb as [pipe buf offset]. cbn [fb_pipe fb_buf fb_offset].
  destruct rd as [| |cap].
  - intros E. inversion E; subst. exists []. cbn [app].
    repeat split; try reflexivity; apply Hok.
  - intros E. inversion E; subst. exists []. cbn [app].
    repeat split; try reflexivity; apply Hok.
  - pose proof (sizeof_buf_range HPB) as Hsz.
    destruct Hok as [Hlen Hoff]. cbn [fb_buf fb_offset] in Hlen, Hoff.
    pose proof (@pipe_read_spec pipe cap (sizeof_buf PIPE_BUF - offset)
                  ltac:(lia)) as Hrd.
    destruct (pipe_read pipe cap (sizeof_buf PIPE_BUF - offset))
      as [data pipe'].
    destruct Hrd as (Hsplit & Hcount & Hempty).
    destruct (Z.eqb_spec (Z.of_nat (length data)) 0) as [Hz|Hnz].
    { intros E. inversion E; subst ret u' fb' cs. exists [].
      assert (data = []) by (destruct data; [reflexivity|discriminate]).
      subst data. cbn [app] in *. subst pipe'.
      split; [reflexivity|]. split; [reflexivity|]. split; [reflexivity|].
      split; [split; assumption | reflexivity]. }
    destruct (@fault_step PIPE_BUF shift host_u64 HPB buf data offset)
      as (Hn0 & Hclen & Hland & Hok2 & Hcons & Haddrs & Hok1 & Hheld).
    { split; assumption. }
    { lia. }
    set (buf1 := store buf offset data) in *.
    set (off1 := offset + Z.of_nat (length data)) in *.
    set (nreq := to_int (off1 / 8)) in *.
    rewrite Haddrs, <- Hland.
    set (consumed := firstn (Z.to_nat (nreq * 8)) buf1) in *.
    destruct (remove_shmem_loop (blocks u)
                (fault_addrs shift host_u64 consumed)) as [calls|] eqn:Ecalls;
      [|discriminate].
    pose proof (check_umem_done_blocks all_done u) as Hb.
    destruct (postcopy_incoming_umem_check_umem_done all_done u)
      as [done u1]. cbn [snd] in Hb.
    intros E. inversion E; subst ret u' fb' cs. exists consumed.
    split; [exact Ecalls|].
    split; [rewrite Hclen; apply Z_mod_mult|].
    split.
    { unfold pending_bytes. cbn [fb_offset fb_buf fb_pipe].
      rewrite app_assoc, Hcons, <- app_assoc, Hsplit. reflexivity. }
    split; [|exact Hb].
    destruct Hok2 as [A B]. split; assumption.
Qed.

(** The daemon's thread: the calls it makes one after the other. *)
Lemma umemd_fault_thread_conserves (reads : list (read_event * bool)) :
  forall (u u' : Umemd) (fb fb' : FaultBuf) (calls calls' : list (nat * Z))
         (left : bool),
    fault_buf_ok PIPE_BUF fb ->
    postcopy_incoming_umemd_fault_thread PIPE_BUF shift host_u64
                                         reads u fb calls
    = Some (left, u', fb', calls') ->
    exists consumed cs,
      calls' = calls ++ cs
      /\ remove_shmem_loop (blocks u) (fault_addrs shift host_u64 consumed)
         = Some cs
      /\ Z.of_nat (length consumed) mod 8 = 0
      /\ consumed ++ pending_bytes fb' = pending_bytes fb
      /\ fault_buf_ok PIPE_BUF fb'
      /\ blocks u' = blocks u.
Proof.
  induction reads as [|[rd all_done] reads IH];
    intros u u' fb fb' calls calls' left Hok;
    cbn [postcopy_incoming_umemd_fault_thread].
  { intros E. inversion E; subst. exists [], []. rewrite app_nil_r.
    cbn [app]. repeat split; try reflexivity; apply Hok. }
  destruct (postcopy_incoming_umemd_fault_loop PIPE_BUF shift host_u64
              rd all_done u fb) as [[[[ret u1] fb1] cs1]|] eqn:Eone;
    [|discriminate].
  destruct (umemd_fault_loop_conserves _ _ _ Hok Eone)
    as (c1 & Hc1 & Hm1 & Hp1 & Hk1 & Hb1).
  destruct (negb (ret =? 0)).
  { intros E. inversion E; subst. exists c1, cs1.
    repeat split; try assumption; try reflexivity; apply Hk1. }
  intros E.
  destruct (IH _ _ _ _ _ _ _ Hk1 E) as (c2 & cs2 & Hcalls & Hc2 & Hm2
                                         & Hp2 & Hk2 & Hb2).
  exists (c1 ++ c2), (cs1 ++ cs2).
  split; [rewrite Hcalls; now rewrite app_assoc|].
  split.
  { rewrite fault_addrs_app by assumption.
    rewrite remove_shmem_loop_app, Hc1. rewrite Hb1 in Hc2.
    rewrite Hc2. reflexivity. }
  split.
  { rewrite length_app, Nat2Z.inj_add, Z.add_mod, Hm1, Hm2 by lia.
    reflexivity. }
  split; [rewrite <- app_assoc, Hp2; exact Hp1|].
  split; [exact Hk2|]. now rewrite Hb2.
Qed.

End FaultReaders.

(** C10. Both fault-pipe readers deal with whole 8-byte entries only.
    [postcopy_incoming_fault_loop] (supervisor) over any run of reads and
    writes, and [postcopy_incoming_umemd_fault_thread] (daemon) over any
    run of calls of [postcopy_incoming_umemd_fault_loop], each started
    with fewer than 8 bytes held: the bytes a reader had to deal with
    (those held, then those in the pipe) split into a prefix, whose length
    is a multiple of 8, and a rest; the entries processed are exactly the
    successive 8-byte groups of that prefix, in order; the rest is what
    the reader still holds (fewer than 8 bytes, at the front of its array)
    followed by what is left in the pipe.  So no entry is lost,
    duplicated, or made of bytes of two entries. *)
Theorem fault_readers_process_whole_entries
        (PIPE_BUF shift : Z) (host_u64 : list Z -> Z) :
  8 <= PIPE_BUF < 2 ^ 31 ->
  (forall (turns : list FaultTurn) (st : FaultLoop),
      fault_buf_ok PIPE_BUF (fl_fb st) ->
      let st' := postcopy_incoming_fault_loop PIPE_BUF shift host_u64
                                              turns st in
      exists consumed rest,
        pending_bytes (fl_fb st) = consumed ++ rest
        /\ Z.of_nat (length consumed) mod 8 = 0
        /\ fl_touched st'
           = fl_touched st ++ fault_addrs shift host_u64 consumed
        /\ (fl_write_failed st' = false ->
            fl_out st' = fl_out st ++ consumed
            /\ rest = pending_bytes (fl_fb st')
            /\ fault_buf_ok PIPE_BUF (fl_fb st')))
  /\ (forall (reads : list (read_event * bool)) (u u' : Umemd)
             (fb fb' : FaultBuf) (calls calls' : list (nat * Z))
             (left : bool),
         fault_buf_ok PIPE_BUF fb ->
         postcopy_incoming_umemd_fault_thread PIPE_BUF shift host_u64
                                              reads u fb calls
         = Some (left, u', fb', calls') ->
         exists consumed cs,
           calls' = calls ++ cs
           /\ remove_shmem_loop (blocks u)
                                (fault_addrs shift host_u64 consumed)
              = Some cs
           /\ Z.of_nat (length consumed) mod 8 = 0
           /\ consumed ++ pending_bytes fb' = pending_bytes fb
           /\ fault_buf_ok PIPE_BUF fb').
Proof.
  intros HPB. split.
  - intros turns st Hok.
    exact (@fault_loop_conserves PIPE_BUF shift host_u64 HPB turns st Hok).
  - intros reads u u' fb fb' calls calls' left Hok Hrun.
    destruct (@umemd_fault_thread_conserves PIPE_BUF shift host_u64 HPB
                reads u u' fb fb' calls calls' left Hok Hrun)
      as (c & cs & H1 & H2 & H3 & H4 & H5 & _).
    exists c, cs. auto.
Qed.

Lemma fault_readers_process_whole_entries_witness :
  let le64 := fun l : list Z => be_to_cpu (rev l) in
  let pipe := [3; 0; 0; 0; 0; 0; 0; 0; 5; 0; 0; 0; 0; 0; 0; 0] in
  let fb := mkFaultBuf pipe (repeat 0 4096) 0 in
  let block := UMB.mk [114] 0 (10 * 4096) 0 0 0 0 0 in
  let u := mkUmemd 0 false [block] None true [] None [] in
  8 <= 4096 < 2 ^ 31
  /\ fault_buf_ok 4096 fb
  /\ (let st' := postcopy_incoming_fault_loop
                   4096 12 le64
                   [mkFaultTurn (ReadSome 5) 0; mkFaultTurn (ReadSome 6) 8;
                    mkFaultTurn (ReadSome 5) 8]
                   (mkFaultLoop fb [] [] false false) in
      exists consumed rest,
        pending_bytes fb = consumed ++ rest
        /\ Z.of_nat (length consumed) mod 8 = 0
        /\ fl_touched st' = [] ++ fault_addrs 12 le64 consumed
        /\ (fl_write_failed st' = false ->
            fl_out st' = [] ++ consumed
            /\ rest = pending_bytes (fl_fb st')
            /\ fault_buf_ok 4096 (fl_fb st')))
  /\ exists u' fb',
      postcopy_incoming_umemd_fault_thread
        4096 12 le64
        [(ReadSome 5, false); (ReadSome 6, false); (ReadSome 5, true)]
        u fb []
      = Some (true, u', fb', [(0%nat, 12288); (0%nat, 20480)])
      /\ exists consumed cs,
          [(0%nat, 12288); (0%nat, 20480)] = [] ++ cs
          /\ remove_shmem_loop (blocks u) (fault_addrs 12 le64 consumed)
             = Some cs
          /\ Z.of_nat (length consumed) mod 8 = 0
          /\ consumed ++ pending_bytes fb' = pending_bytes fb
          /\ fault_buf_ok 4096 fb'.
Proof.
  cbv zeta.
  assert (HPB : 8 <= 4096 < 2 ^ 31) by lia.
  assert (Hok : fault_buf_ok 4096
                  (mkFaultBuf [3; 0; 0; 0; 0; 0; 0; 0; 5; 0; 0; 0; 0; 0; 0; 0]
                              (repeat 0 4096) 0))
    by (split; [vm_compute; reflexivity | cbn; lia]).
  split; [exact HPB|]. split; [exact Hok|].
  pose proof (@fault_readers_process_whole_entries
                4096 12 (fun l : list Z => be_to_cpu (rev l)) HPB)
    as [H1 H2].
  split.
  - exact (H1 [mkFaultTurn (ReadSome 5) 0; mkFaultTurn (ReadSome 6) 8;
               mkFaultTurn (ReadSome 5) 8]
              (mkFaultLoop _ [] [] false false) Hok).
  - eexists. eexists.
    match goal with
    | |- ?A /\ _ => assert (E : A) by (vm_compute; reflexivity)
    end.
    split; [exact E|]. exact (H2 _ _ _ _ _ _ _ _ Hok E).
Defined.

(* ===================================================================== *)
(** * Further properties of the code *)

(* --------------------------------------------------------------------- *)
(** ** Page geometry *)

Lemma ffs_double (x : Z) : 0 < x -> ffs (2 * x) = 1 + ffs x.
Proof.
  destruct x as [|p|p]; try lia. intros _.
  change (2 * Z.pos p) with (Z.pos (xO p)). cbn [ffs ctz]. lia.
Qed.

Lemma ffs_pow2 (n : Z) : 0 <= n -> ffs (2 ^ n) = n + 1.
Proof.
  intros Hn. pattern n. apply natlike_ind; [reflexivity | | exact Hn].
  intros x Hx IH. rewrite Z.pow_succ_r by exact Hx.
  rewrite ffs_double by (apply Z.pow_pos_nonneg; lia). lia.
Qed.

Lemma quot_pow2 (a b : Z) :
  0 <= a -> 0 <= b ->
  Z.quot (2 ^ a) (2 ^ b) = if b <=? a then 2 ^ (a - b) else 0.
Proof.
  intros Ha Hb.
  assert (0 < 2 ^ a) by (apply Z.pow_pos_nonneg; lia).
  assert (0 < 2 ^ b) by (apply Z.pow_pos_nonneg; lia).
  rewrite Z.quot_div_nonneg by lia.
  destruct (Z.leb_spec b a).
  - replace a with ((a - b) + b) at 1 by lia.
    rewrite Z.pow_add_r by lia. apply Z.div_mul. lia.
  - apply Z.div_small. split; [lia|]. apply Z.pow_lt_mono_r; lia.
Qed.

(** X1. [postcopy_incoming_prepare] on power-of-two page sizes: with a
    host page of [2^h] bytes and a target page of [2^t] bytes, the number
    of pages of the smaller kind per page of the larger kind is the power
    of two of the difference and its shift is the difference, while the
    converse count is 0 (1 for equal sizes) and the converse shift is -1
    (0 for equal sizes). *)
Theorem prepare_geom_power_of_two (t h : Z) :
  0 <= t -> 0 <= h ->
  let g := prepare_geom t (2 ^ h) in
  host_page_size g = 2 ^ h
  /\ host_page_shift g = h
  /\ nr_host_pages_per_target_page g = (if h <=? t then 2 ^ (t - h) else 0)
  /\ target_to_host_page_shift g = (if h <=? t then t - h else -1)
  /\ nr_target_pages_per_host_page g = (if t <=? h then 2 ^ (h - t) else 0)
  /\ host_to_target_page_shift g = (if t <=? h then h - t else -1).
Proof.
  intros Ht Hh. unfold prepare_geom, TARGET_PAGE_SIZE. cbv zeta.
  cbn [host_page_size host_page_shift nr_host_pages_per_target_page
       target_to_host_page_shift nr_target_pages_per_host_page
       host_to_target_page_shift].
  rewrite Z.shiftl_1_l, !quot_pow2, ffs_pow2 by lia.
  split; [reflexivity|]. split; [lia|]. split; [reflexivity|].
  split; [|split; [reflexivity|]].
  - destruct (Z.leb_spec h t); [rewrite ffs_pow2 by lia; lia | reflexivity].
  - destruct (Z.leb_spec t h); [rewrite ffs_pow2 by lia; lia | reflexivity].
Qed.

Lemma prepare_geom_power_of_two_witness :
  prepare_geom 12 (2 ^ 13) = mkGeom 8192 13 0 1 2 (-1).
Proof.
  destruct (@prepare_geom_power_of_two 12 13 ltac:(lia) ltac:(lia))
    as (H1 & H2 & H3 & H4 & H5 & H6).
  destruct (prepare_geom 12 (2 ^ 13)) as [a b c d e f].
  cbn [host_page_size host_page_shift nr_host_pages_per_target_page
       target_to_host_page_shift nr_target_pages_per_host_page
       host_to_target_page_shift] in *.
  subst. reflexivity.
Defined.

(* --------------------------------------------------------------------- *)
(** ** Arrival of pages *)

(** X2. A target page that arrives a second time is not marked again:
    [postcopy_incoming_umem_ram_loaded], called again with the same
    offset, leaves the block as it is and hands no page to
    [postcopy_incoming_umem_mark_cached], whatever the page geometry. *)
Theorem ram_loaded_again_marks_nothing (TPB : Z) (g : PageGeom)
        (block : UMB.t) (offset : Z) :
  0 <= Z.shiftr offset TPB < 2 ^ 31 ->
  let r := postcopy_incoming_umem_ram_loaded TPB g block offset in
  postcopy_incoming_umem_ram_loaded TPB g (fst r) offset = (fst r, []).
Proof.
  intros Hbit. cbv zeta.
  assert (Hset : forall b : UMB.t,
             Z.testbit (UMB.phys_received b)
                       (to_int (Z.shiftr offset TPB)) = true ->
             postcopy_incoming_umem_ram_loaded TPB g b offset = (b, [])).
  { intros b Hb. unfold postcopy_incoming_umem_ram_loaded, test_and_set_bit.
    rewrite Hb. cbn [negb]. f_equal.
    destruct b as [i o l rq rc cb pc n]. unfold UMB.set_phys_received.
    cbn [UMB.idstr UMB.offset UMB.length UMB.phys_requested
         UMB.phys_received UMB.clean_bitmap UMB.pending_clean_bitmap
         UMB.nr_pending_clean] in *.
    f_equal. apply Z.bits_inj'. intros k Hk.
    rewrite Z.setbit_eqb by (rewrite to_int_small; lia).
    destruct (Z.eqb_spec (to_int (Z.shiftr offset TPB)) k) as [E|E];
      [rewrite <- E, Hb|]; reflexivity. }
  apply Hset.
  unfold postcopy_incoming_umem_ram_loaded, test_and_set_bit.
  assert (Hnew : Z.testbit
                   (Z.setbit (UMB.phys_received block)
                             (to_int (Z.shiftr offset TPB)))
                   (to_int (Z.shiftr offset TPB)) = true)
    by (apply Z.setbit_eq; rewrite to_int_small; lia).
  repeat match goal with
         | |- context [if ?c then _ else _] => destruct c
         end; cbn [fst]; destruct block; exact Hnew.
Qed.

Lemma ram_loaded_again_marks_nothing_witness :
  let g := prepare_geom 12 4096 in
  let block := UMB.mk [114] 0 (4 * 4096) 0 0 0 0 0 in
  let r := postcopy_incoming_umem_ram_loaded 12 g block 8192 in
  snd r = [2] /\ postcopy_incoming_umem_ram_loaded 12 g (fst r) 8192
                 = (fst r, []).
Proof.
  cbv zeta. split; [vm_compute; reflexivity|].
  apply (@ram_loaded_again_marks_nothing
           12 (prepare_geom 12 4096) (UMB.mk [114] 0 (4 * 4096) 0 0 0 0 0)
           8192).
  vm_compute. split; [discriminate | reflexivity].
Defined.

Lemma NoDup_map_in {A B : Type} (f : A -> B) (l : list A) :
  (forall x y, In x l -> In y l -> f x = f y -> x = y) ->
  NoDup l -> NoDup (map f l).
Proof.
  intros Hinj Hnd. induction Hnd as [|a l Ha Hnd IH]; cbn [map].
  - constructor.
  - constructor.
    + intros Hin. apply in_map_iff in Hin. destruct Hin as (x & Hx & Hxl).
      assert (x = a) by (apply Hinj; [now right | now left | exact Hx]).
      subst x. contradiction.
    + apply IH. intros x y Hx Hy. apply Hinj; now right.
Qed.

(** X3. With target pages at least as large as host pages (sizes [2^t]
    and [2^h], [h <= t]), the first arrival of the target page at a
    page-aligned [offset] hands to [postcopy_incoming_umem_mark_cached]
    exactly the host pages that lie under that target page, each once. *)
Theorem ram_loaded_marks_host_pages_under_target_page
        (t h : Z) (block : UMB.t) (offset : Z) :
  0 <= h <= t ->
  0 <= offset ->
  offset mod 2 ^ t = 0 ->
  Z.shiftr offset t < 2 ^ 31 ->
  offset + 2 ^ t <= 2 ^ 64 ->
  test_bit (Z.shiftr offset t) (UMB.phys_received block) = false ->
  let r := postcopy_incoming_umem_ram_loaded
             t (prepare_geom t (2 ^ h)) block offset in
  test_bit (Z.shiftr offset t) (UMB.phys_received (fst r)) = true
  /\ NoDup (snd r)
  /\ forall p, In p (snd r) <-> offset <= p * 2 ^ h < offset + 2 ^ t.
Proof.
  intros Hht Hoff Hal Hbit Hend Hclear. cbv zeta.
  assert (Hs0 : 0 <= Z.shiftr offset t) by (apply Z.shiftr_nonneg; lia).
  unfold postcopy_incoming_umem_ram_loaded, test_and_set_bit.
  rewrite to_int_small by lia.
  unfold test_bit in Hclear. rewrite Hclear. cbn [negb].
  unfold prepare_geom, TARGET_PAGE_SIZE. cbv zeta.
  cbn [host_page_size host_page_shift nr_host_pages_per_target_page].
  rewrite Z.shiftl_1_l, quot_pow2, ffs_pow2 by lia.
  assert (H2h : 0 < 2 ^ h) by (apply Z.pow_pos_nonneg; lia).
  assert (Hle : 2 ^ h <= 2 ^ t) by (apply Z.pow_le_mono_r; lia).
  destruct (Z.geb_spec (2 ^ t) (2 ^ h)) as [_|]; [|lia].
  destruct (Z.leb_spec h t) as [_|]; [|lia].
  replace (h + 1 - 1) with h by lia.
  cbn [fst snd].
  set (K := 2 ^ (t - h)).
  assert (HK : 0 < K) by (apply Z.pow_pos_nonneg; lia).
  assert (Ht : 2 ^ t = K * 2 ^ h)
    by (unfold K; rewrite <- Z.pow_add_r by lia; f_equal; lia).
  set (pgoff := Z.shiftr offset h).
  assert (Hpg : offset = pgoff * 2 ^ h).
  { unfold pgoff. rewrite Z.shiftr_div_pow2 by lia.
    apply Z.mod_divide in Hal; [|lia]. destruct Hal as [q Hq].
    rewrite Hq, Ht, Z.mul_assoc, Z.div_mul by lia. reflexivity. }
  assert (Hpg0 : 0 <= pgoff) by (apply Z.shiftr_nonneg; lia).
  assert (Hmax : pgoff + K <= 2 ^ 64) by nia.
  assert (Hu : forall i, In i (seq 0 (Z.to_nat K)) ->
                         u64 (pgoff + Z.of_nat i) = pgoff + Z.of_nat i).
  { intros i Hi. apply in_seq in Hi. unfold u64.
    apply Z.mod_small. lia. }
  split.
  { unfold test_bit. destruct block. cbn [UMB.set_phys_received
      UMB.phys_received]. apply Z.setbit_eq. exact Hs0. }
  split.
  { apply NoDup_map_in; [|apply seq_NoDup].
    intros x y Hx Hy. rewrite (Hu x Hx), (Hu y Hy). lia. }
  intros p. rewrite in_map_iff. split.
  - intros (i & Hi & Hin). rewrite (Hu i Hin) in Hi.
    apply in_seq in Hin. subst p. nia.
  - intros Hp. assert (pgoff <= p < pgoff + K) by nia.
    exists (Z.to_nat (p - pgoff)).
    assert (Hin : In (Z.to_nat (p - pgoff)) (seq 0 (Z.to_nat K)))
      by (apply in_seq; lia).
    split; [rewrite (Hu _ Hin); lia | exact Hin].
Qed.

Lemma ram_loaded_marks_host_pages_under_target_page_witness :
  let block := UMB.mk [114] 0 (4 * 8192) 0 0 0 0 0 in
  let r := postcopy_incoming_umem_ram_loaded
             13 (prepare_geom 13 (2 ^ 12)) block 8192 in
  snd r = [2; 3]
  /\ forall p, In p (snd r) <-> 8192 <= p * 2 ^ 12 < 8192 + 2 ^ 13.
Proof.
  cbv zeta. split; [vm_compute; reflexivity|].
  apply (@ram_loaded_marks_host_pages_under_target_page
           13 12 (UMB.mk [114] 0 (4 * 8192) 0 0 0 0 0) 8192);
    try lia; vm_compute; reflexivity.
Defined.

(* --------------------------------------------------------------------- *)
(** ** Building page requests *)


Lemma u64_nonneg (x : Z) : 0 <= u64 x.
Proof. unfold u64. apply Z.mod_pos_bound. reflexivity. Qed.






Lemma marked_clean_from_false (pre : bool) (block : UMB.t) (tp : Z)
      (k : nat) :
  forall j i : Z,
    j <= i < j + Z.of_nat k ->
    page_present pre block (u64 (tp + i)) = false ->
    marked_clean_from pre block tp j k = false.
Proof.
  induction k as [|k IH]; intros j i Hi Hnp; [lia|].
  cbn [marked_clean_from].
  destruct (Z.eq_dec i j) as [->|Hne].
  - unfold page_present, test_bit in Hnp. apply orb_false_iff in Hnp.
    destruct Hnp as [A B]. unfold test_bit. rewrite A, B. reflexivity.
  - assert (Hrec : marked_clean_from pre block tp (j + 1) k = false)
      by (apply (IH (j + 1) i); [lia | exact Hnp]).
    rewrite Hrec.
    destruct (pre && test_bit (u64 (tp + j)) (UMB.clean_bitmap block));
      [reflexivity|].
    destruct (test_bit (u64 (tp + j)) (UMB.phys_received block));
      reflexivity.
Qed.

Lemma request_from_fresh (tp : Z) (k : nat) :
  forall (r : Z) (acc : list Z) (j : Z),
    0 <= tp -> 0 <= j -> tp + j + Z.of_nat k <= 2 ^ 64 ->
    (forall i, j <= i < j + Z.of_nat k -> Z.testbit r (tp + i) = false) ->
    snd (request_from r acc tp j k)
    = acc ++ map (fun i => tp + j + Z.of_nat i) (seq 0 k).
Proof.
  induction k as [|k IH]; intros r acc j Htp Hj Hmax Hclear;
    cbn [request_from].
  - cbn. now rewrite app_nil_r.
  - assert (Hu : u64 (tp + j) = tp + j)
      by (unfold u64; apply Z.mod_small; lia).
    unfold test_and_set_bit. rewrite Hu, (Hclear j) by lia. cbn [negb].
    rewrite IH; try lia.
    + rewrite <- app_assoc. f_equal. cbn [seq map app].
      f_equal; [lia|]. rewrite <- seq_shift, map_map.
      apply map_ext. intros i. lia.
    + intros i Hi. rewrite Z.setbit_neq by lia. apply Hclear. lia.
Qed.

(** X5. A fault on a host page that spans [N = 2^(h-t)] target pages
    (host pages larger than target pages), of which none has been
    requested and at least one is not present, puts all [N] target pages
    of that host page into the request, in ascending order. *)
Theorem send_page_req_host_page_fault_requests_its_target_pages
        (t h pgoff : Z) (pre same : bool) (block : UMB.t) (missing : Z) :
  0 <= t < h ->
  0 <= pgoff ->
  (pgoff + 1) * 2 ^ (h - t) <= 2 ^ 64 ->
  (forall j, 0 <= j < 2 ^ (h - t) ->
             test_bit (pgoff * 2 ^ (h - t) + j) (UMB.phys_requested block)
             = false) ->
  0 <= missing < 2 ^ (h - t) ->
  page_present pre block (pgoff * 2 ^ (h - t) + missing) = false ->
  exists block' req,
    send_page_req_build t (prepare_geom t (2 ^ h)) pre same block [pgoff]
    = Some (block', req, [])
    /\ pgoffs req
       = map (fun j => pgoff * 2 ^ (h - t) + Z.of_nat j)
             (seq 0 (Z.to_nat (2 ^ (h - t))))
    /\ nr req = 2 ^ (h - t).
Proof.
  intros Hth Hp Hmax Hclear Hm Hmiss.
  set (N := 2 ^ (h - t)) in *.
  assert (HN : 0 < N) by (apply Z.pow_pos_nonneg; lia).
  assert (H2t : 0 < 2 ^ t) by (apply Z.pow_pos_nonneg; lia).
  assert (Hlt : 2 ^ t < 2 ^ h) by (apply Z.pow_lt_mono_r; lia).
  unfold send_page_req_build, prepare_geom, TARGET_PAGE_SIZE. cbv zeta.
  cbn [host_page_size host_to_target_page_shift fold_left].
  unfold send_page_req_step, TARGET_PAGE_SIZE.
  cbn [host_page_size host_to_target_page_shift
       nr_target_pages_per_host_page].
  rewrite Z.shiftl_1_l, !quot_pow2 by lia.
  destruct (Z.geb_spec (2 ^ t) (2 ^ h)) as [|_]; [lia|]. cbn [andb].
  destruct (Z.leb_spec t h) as [_|]; [|lia].
  rewrite ffs_pow2 by lia. replace (h - t + 1 - 1) with (h - t) by lia.
  fold N.
  assert (Htp : u64 (Z.shiftl pgoff (h - t)) = pgoff * N).
  { rewrite Z.shiftl_mul_pow2 by lia. unfold u64. apply Z.mod_small.
    fold N. nia. }
  rewrite Htp.
  rewrite (@marked_clean_from_false pre block (pgoff * N) (Z.to_nat N)
             0 missing); [|lia|].
  2: { replace (u64 (pgoff * N + missing)) with (pgoff * N + missing);
       [exact Hmiss|]. unfold u64. symmetry. apply Z.mod_small. nia. }
  pose proof (@request_from_fresh (pgoff * N) (Z.to_nat N)
                (UMB.phys_requested block) [] 0) as Hreq.
  destruct (request_from (UMB.phys_requested block) [] (pgoff * N) 0
                         (Z.to_nat N)) as [r' acc'].
  cbn [snd app] in Hreq.
  assert (Hacc : acc' = map (fun i => pgoff * N + 0 + Z.of_nat i)
                            (seq 0 (Z.to_nat N))).
  { apply Hreq; try nia. intros i Hi. apply Hclear. lia. }
  assert (Hacc' : acc' = map (fun j => pgoff * N + Z.of_nat j)
                             (seq 0 (Z.to_nat N))).
  { rewrite Hacc. apply map_ext. intros i. lia. }
  assert (Hlen : Z.of_nat (length acc') = N)
    by (rewrite Hacc, length_map, length_seq; lia).
  destruct same; cbn [negb]; eexists; eexists;
    (split; [reflexivity|]); cbn [pgoffs nr]; split; assumption.
Qed.

Lemma send_page_req_host_page_fault_requests_its_target_pages_witness :
  let block := UMB.mk [114] 0 (8 * 4096) 0 0 0 0 0 in
  exists block' req,
    send_page_req_build 12 (prepare_geom 12 (2 ^ 14)) false false block [1]
    = Some (block', req, [])
    /\ pgoffs req = [4; 5; 6; 7]
    /\ nr req = 4.
Proof.
  cbv zeta.
  destruct (@send_page_req_host_page_fault_requests_its_target_pages
              12 14 1 false false (UMB.mk [114] 0 (8 * 4096) 0 0 0 0 0) 0)
    as (b & r & E & Hp & Hn); try lia.
  - intros j _. unfold test_bit. cbn [UMB.phys_requested].
    apply Z.testbit_0_l.
  - reflexivity.
  - exists b, r. split; [exact E|]. split; [exact Hp | exact Hn].
Defined.

(* --------------------------------------------------------------------- *)
(** ** Serving requests: what is written *)

Section SavedPages.
Variable TPB : Z.
Hypothesis HTPB : 0 <= TPB <= 64.

Lemma u64_shiftl_aligned (x : Z) : u64 (Z.shiftl x TPB) mod 2 ^ TPB = 0.
Proof.
  unfold u64. rewrite Z.shiftl_mul_pow2 by lia.
  assert (H64 : 2 ^ 64 = 2 ^ (64 - TPB) * 2 ^ TPB)
    by (rewrite <- Z.pow_add_r by lia; f_equal; lia).
  assert (0 < 2 ^ TPB) by (apply Z.pow_pos_nonneg; lia).
  assert (0 < 2 ^ (64 - TPB)) by (apply Z.pow_pos_nonneg; lia).
  rewrite H64, Z.mul_mod_distr_r by lia.
  apply Z.mod_mul. lia.
Qed.

Lemma save_page_appends (f f' : list stream_item) (b : RB.t)
      (p : Z) (fw : bool) (j : Z) :
  postcopy_outgoing_ram_save_page TPB f (Some b) p fw j = Some f' ->
  exists items, f' = f ++ items /\ Forall (page_of TPB b) items.
Proof.
  unfold postcopy_outgoing_ram_save_page, ram_save_page.
  assert (Hgo : forall q,
             (if u64 (Z.shiftl q TPB) >=? RB.length b
              then if fw && (j >? 0) then Some f else None
              else Some (f ++ [SavePage b (u64 (Z.shiftl q TPB))]))
             = Some f' ->
             exists items, f' = f ++ items /\ Forall (page_of TPB b) items).
  { intros q. destruct (Z.geb_spec (u64 (Z.shiftl q TPB)) (RB.length b)).
    - destruct (fw && (j >? 0)); [|discriminate].
      intros E. injection E as <-. exists []. now rewrite app_nil_r.
    - intros E. injection E as <-. eexists. split; [reflexivity|].
      constructor; [|constructor]. eexists. split; [reflexivity|].
      split; [|apply u64_shiftl_aligned].
      pose proof (u64_nonneg (Z.shiftl q TPB)). lia. }
  destruct fw; [apply Hgo|].
  destruct (p <? u64 j); [|apply Hgo].
  intros E. injection E as <-. exists []. now rewrite app_nil_r.
Qed.

Lemma save_pages_appends (b : RB.t) (fw : bool) (j : Z) (ps : list Z) :
  forall f f' : list stream_item,
    save_pages TPB f (Some b) ps fw j = Some f' ->
    exists items, f' = f ++ items /\ Forall (page_of TPB b) items.
Proof.
  induction ps as [|p ps IH]; intros f f'; cbn [save_pages].
  - intros E. injection E as <-. exists []. now rewrite app_nil_r.
  - destruct (postcopy_outgoing_ram_save_page TPB f (Some b) p fw j)
      as [f1|] eqn:E1; [|discriminate].
    intros E2. apply save_page_appends in E1. destruct E1 as (i1 & -> & H1).
    apply IH in E2. destruct E2 as (i2 & -> & H2).
    exists (i1 ++ i2). rewrite app_assoc. split; [reflexivity|].
    apply Forall_app. now split.
Qed.

Lemma prefault_pages_appends (b : RB.t) (fw : bool) (ps : list Z)
      (k : nat) :
  forall (j : Z) (f f' : list stream_item),
    prefault_pages TPB f (Some b) ps fw j k = Some f' ->
    exists items, f' = f ++ items /\ Forall (page_of TPB b) items.
Proof.
  induction k as [|k IH]; intros j f f'; cbn [prefault_pages].
  - intros E. injection E as <-. exists []. now rewrite app_nil_r.
  - destruct (save_pages TPB f (Some b) ps fw (to_int j)) as [f1|] eqn:E1;
      [|discriminate].
    intros E2. apply save_pages_appends in E1. destruct E1 as (i1 & -> & H1).
    apply IH in E2. destruct E2 as (i2 & -> & H2).
    exists (i1 ++ i2). rewrite app_assoc. split; [reflexivity|].
    apply Forall_app. now split.
Qed.

Lemma save_pages_no_block (f : list stream_item) (fw : bool) (j : Z)
      (ps : list Z) (f' : list stream_item) :
  save_pages TPB f None ps fw j = Some f' -> ps = [] /\ f' = f.
Proof.
  destruct ps as [|p ps]; cbn [save_pages].
  - intros E. injection E as <-. auto.
  - unfold postcopy_outgoing_ram_save_page. discriminate.
Qed.

Lemma prefault_pages_nil (last : option RB.t) (fw : bool) (k : nat) :
  forall (j : Z) (f : list stream_item),
    prefault_pages TPB f last [] fw j k = Some f.
Proof.
  induction k as [|k IH]; intros j f; cbn [prefault_pages save_pages];
    auto.
Qed.

(** What one request adds to the stream and does to the state. *)
Lemma handle_req_appends (ms ms' : MigrationState) (req : QEMUUMemReq)
      (r : Z) :
  postcopy_outgoing_handle_req TPB ms req = Some (r, ms') ->
  exists items,
    file ms' = file ms ++ items
    /\ file_read ms' = file_read ms
    /\ (items = [] \/
        exists b, last_block_read ms' = Some b
                  /\ Forall (page_of TPB b) items)
    /\ ((r = 0 /\ po ms' = po ms)
        \/ (r = - EINVAL /\ ms' = ms)
        \/ (r = 1 /\ items = [] /\ cmd req = QEMU_UMEM_REQ_EOC
            /\ po ms' = if po_state_eqb (po ms) PO_STATE_ALL_PAGES_SENT
                        then PO_STATE_COMPLETED
                        else PO_STATE_EOC_RECEIVED)).
Proof.
  unfold postcopy_outgoing_handle_req.
  assert (Hserve : forall m : MigrationState,
    (if po_state_eqb (po m) PO_STATE_ALL_PAGES_SENT then Some (0, m)
     else
       match save_pages TPB (file m) (last_block_read m)
                        (req_pgoffs_array req) true 0 with
       | None => None
       | Some f =>
           match prefault_pages TPB f (last_block_read m)
                   (req_pgoffs_array req) true 1
                   (Z.to_nat (u64 (prefault_forward m))) with
           | None => None
           | Some f0 =>
               match move_background_last_seen TPB m req with
               | None => None
               | Some ms0 =>
                   match prefault_pages TPB f0 (last_block_read ms0)
                           (req_pgoffs_array req) false 1
                           (Z.to_nat (u64 (prefault_backward ms0))) with
                   | None => None
                   | Some f1 => Some (0, set_file ms0 f1)
                   end
               end
           end
       end) = Some (r, ms') ->
    exists items,
      file ms' = file m ++ items
      /\ file_read ms' = file_read m
      /\ (items = [] \/
          exists b, last_block_read ms' = Some b
                    /\ Forall (page_of TPB b) items)
      /\ r = 0 /\ po ms' = po m
      /\ last_block_read ms' = last_block_read m).
  { intros m.
    destruct (po_state_eqb (po m) PO_STATE_ALL_PAGES_SENT).
    { intros E. injection E as <- <-. exists []. rewrite app_nil_r.
      repeat split; auto. }
    destruct (last_block_read m) as [b|] eqn:Hlast.
    - destruct (save_pages TPB (file m) (Some b) (req_pgoffs_array req)
                           true 0) as [f1|] eqn:E1; [|discriminate].
      apply save_pages_appends in E1. destruct E1 as (i1 & -> & H1).
      destruct (prefault_pages TPB (file m ++ i1) (Some b) _ true 1 _)
        as [f2|] eqn:E2; [|discriminate].
      apply prefault_pages_appends in E2. destruct E2 as (i2 & -> & H2).
      destruct (move_background_last_seen TPB m req) as [ms0|] eqn:E0;
        [|discriminate].
      destruct (@move_background_last_seen_fields TPB m ms0 req E0)
        as (Hp0 & Hl0 & Hf0 & Hr0 & _).
      rewrite Hlast in Hl0. rewrite Hl0.
      destruct (prefault_pages TPB ((file m ++ i1) ++ i2) (Some b) _
                               false 1 _) as [f3|] eqn:E3; [|discriminate].
      apply prefault_pages_appends in E3. destruct E3 as (i3 & -> & H3).
      intros E. injection E as <- <-.
      exists (i1 ++ i2 ++ i3).
      cbn [set_file file file_read last_block_read po].
      rewrite <- !app_assoc. split; [reflexivity|].
      split; [exact Hr0|]. split.
      { right. exists b. split; [exact Hl0|].
        apply Forall_app; split; [exact H1|].
        apply Forall_app; split; assumption. }
      split; [reflexivity|]. split; [exact Hp0 | exact Hl0].
    - destruct (save_pages TPB (file m) None (req_pgoffs_array req) true 0)
        as [f1|] eqn:E1; [|discriminate].
      apply save_pages_no_block in E1. destruct E1 as [Hps ->].
      rewrite Hps, prefault_pages_nil.
      destruct (move_background_last_seen TPB m req) as [ms0|] eqn:E0;
        [|discriminate].
      destruct (@move_background_last_seen_fields TPB m ms0 req E0)
        as (Hp0 & Hl0 & Hf0 & Hr0 & _).
      rewrite prefault_pages_nil.
      intros E. injection E as <- <-. exists [].
      cbn [set_file file file_read last_block_read po].
      rewrite app_nil_r, Hl0, Hlast. repeat split; auto. }
  destruct (cmd req =? QEMU_UMEM_REQ_EOC) eqn:Hc0.
  { apply Z.eqb_eq in Hc0.
    destruct (po_state_eqb (po ms) PO_STATE_ALL_PAGES_SENT);
      intros E; injection E as <- <-; exists []; rewrite app_nil_r;
      cbn [set_po file file_read po]; repeat split; auto;
      right; right; auto. }
  destruct (cmd req =? QEMU_UMEM_REQ_PAGE).
  { destruct (ram_find_block (ram_list ms) (idstr req)
                             (strlen (idstr req))) as [block|].
    - intros E. apply Hserve in E.
      destruct E as (items & Hf & Hr & Hi & -> & Hp & _).
      exists items. cbn [set_last_block_read file file_read po] in *.
      repeat split; auto.
    - intros E. injection E as <- <-. exists []. rewrite app_nil_r.
      repeat split; auto. }
  destruct (cmd req =? QEMU_UMEM_REQ_PAGE_CONT).
  - intros E. apply Hserve in E.
    destruct E as (items & Hf & Hr & Hi & -> & Hp & _).
    exists items. repeat split; auto.
  - intros E. injection E as <- <-. exists []. rewrite app_nil_r.
    repeat split; auto.
Qed.

End SavedPages.

(** X6. Whatever the request, [postcopy_outgoing_handle_req] only appends
    to the stream, and what it appends are pages of the block the request
    reads from, each at a page-aligned offset inside that block: no page
    past the end of the block is ever sent. *)
Theorem handle_req_sends_only_pages_inside_block
        (TPB : Z) (ms ms' : MigrationState) (req : QEMUUMemReq) (r : Z) :
  0 <= TPB <= 64 ->
  postcopy_outgoing_handle_req TPB ms req = Some (r, ms') ->
  exists items,
    file ms' = file ms ++ items
    /\ (items = [] \/
        exists b, last_block_read ms' = Some b
                  /\ Forall (page_of TPB b) items).
Proof.
  intros HT E. destruct (handle_req_appends HT _ _ E)
    as (items & Hf & _ & Hi & _).
  exists items. split; assumption.
Qed.

Lemma handle_req_sends_only_pages_inside_block_witness :
  let block := RB.mk [114] 0 (10 * 4096) in
  let ms := mkMS PO_STATE_ACTIVE None [] [] [block] 3 0 false false None in
  exists ms' items,
    postcopy_outgoing_handle_req 12 ms
      (mkReq QEMU_UMEM_REQ_PAGE 0 [114] 1 [8]) = Some (0, ms')
    /\ file ms' = [] ++ items
    /\ (items = [] \/
        exists b, last_block_read ms' = Some b
                  /\ Forall (page_of 12 b) items).
Proof.
  cbv zeta. eexists.
  assert (E : postcopy_outgoing_handle_req
                12 (mkMS PO_STATE_ACTIVE None [] []
                         [RB.mk [114] 0 (10 * 4096)] 3 0 false false None)
                (mkReq QEMU_UMEM_REQ_PAGE 0 [114] 1 [8])
              = Some (0, mkMS PO_STATE_ACTIVE
                              (Some (RB.mk [114] 0 (10 * 4096)))
                              [SavePage (RB.mk [114] 0 (10 * 4096)) 32768;
                               SavePage (RB.mk [114] 0 (10 * 4096)) 36864]
                              [] [RB.mk [114] 0 (10 * 4096)] 3 0 false false
                              None))
    by (vm_compute; reflexivity).
  destruct (@handle_req_sends_only_pages_inside_block
              12 _ _ _ _ ltac:(lia) E) as (items & Hf & Hi).
  exists items. split; [exact E|]. split; [exact Hf | exact Hi].
Defined.

(* --------------------------------------------------------------------- *)
(** ** The request handler on bad or partial input *)

Lemma set_file_read_same (ms : MigrationState) :
  set_file_read ms (file_read ms) = ms.
Proof. destruct ms; reflexivity. Qed.

Lemma recv_req_first_byte (c : Z) (rest : list Z) (req : QEMUUMemReq) :
  postcopy_outgoing_recv_req (c :: rest) req =
  let req := set_cmd req c in
  if c =? QEMU_UMEM_REQ_EOC then
    Some (0, req, QR.qemu_file_skip (c :: rest) 1)
  else if c =? QEMU_UMEM_REQ_PAGE then
    let '(ret, req, offset) :=
      postcopy_outgoing_recv_req_idstr (c :: rest) req 1 in
    if ret <? 0 then Some (ret, req, c :: rest)
    else
      let '(ret, req, offset) :=
        postcopy_outgoing_recv_req_pgoffs (c :: rest) req offset in
      if ret <? 0 then Some (ret, req, c :: rest)
      else Some (0, req, QR.qemu_file_skip (c :: rest) offset)
  else if c =? QEMU_UMEM_REQ_PAGE_CONT then
    let '(ret, req, offset) :=
      postcopy_outgoing_recv_req_pgoffs (c :: rest) req 1 in
    if ret <? 0 then Some (ret, req, c :: rest)
    else Some (0, req, QR.qemu_file_skip (c :: rest) offset)
  else None.
Proof.
  unfold postcopy_outgoing_recv_req. cbv zeta.
  assert (Hpeek1 : QR.qemu_peek_buffer (c :: rest) 1 0 = [c])
    by reflexivity.
  rewrite Hpeek1. cbn [length hd]. change (Z.of_nat 1 <=? 0) with false.
  cbv iota. change (cmd (set_cmd req c)) with c.
  change (0 + 1) with 1. reflexivity.
Qed.

(** X7. A PAGE request that names a block the source does not know ends
    the session: the request is consumed, nothing is written to the
    stream, and the state becomes ERROR_RECEIVE (from ACTIVE) or COMPLETED
    (from ALL_PAGES_SENT). *)
Theorem request_for_unknown_block_ends_session
        (TPB : Z) (ms : MigrationState) (r : QEMUUMemReq) (rest : list Z) :
  req_wf r ->
  cmd r = QEMU_UMEM_REQ_PAGE ->
  file_read ms = wire_bytes r ++ rest ->
  ram_find_block (ram_list ms) (idstr r) (strlen (idstr r)) = None ->
  po ms = PO_STATE_ACTIVE \/ po ms = PO_STATE_ALL_PAGES_SENT ->
  postcopy_outgoing_recv_handler TPB ms
  = Some (set_po (set_file_read ms rest)
                 (if po_state_eqb (po ms) PO_STATE_ALL_PAGES_SENT
                  then PO_STATE_COMPLETED else PO_STATE_ERROR_RECEIVE)).
Proof.
  intros Hwf Hc Hfr Hfind Hpo.
  unfold postcopy_outgoing_recv_handler.
  assert (Hin : po_state_eqb (po ms) PO_STATE_ACTIVE
                || po_state_eqb (po ms) PO_STATE_ALL_PAGES_SENT = true)
    by (destruct Hpo as [-> | ->]; reflexivity).
  rewrite Hin. cbn [recv_handler_loop]. rewrite Hfr.
  destruct (recv_req_complete rest Hwf) as (req' & Hrecv & Hcmd & Hid & _).
  rewrite Hrecv. change (0 <? 0) with false. cbv iota.
  unfold postcopy_outgoing_handle_req.
  rewrite Hcmd, Hc, (Hid Hc).
  change (QEMU_UMEM_REQ_PAGE =? QEMU_UMEM_REQ_EOC) with false.
  change (QEMU_UMEM_REQ_PAGE =? QEMU_UMEM_REQ_PAGE) with true. cbv iota.
  cbn [ram_list set_file_read]. rewrite Hfind.
  change (- EINVAL =? 0) with false. change (- EINVAL <? 0) with true.
  cbv iota. cbn [po set_file_read].
  destruct Hpo as [-> | ->]; reflexivity.
Qed.

Lemma request_for_unknown_block_ends_session_witness :
  let block := RB.mk [114] 0 (10 * 4096) in
  let ms := mkMS PO_STATE_ACTIVE None []
                 [1; 1; 120; 0; 0; 0; 1; 0; 0; 0; 0; 0; 0; 0; 5; 0]
                 [block] 2 1 false false None in
  postcopy_outgoing_recv_handler 12 ms
  = Some (mkMS PO_STATE_ERROR_RECEIVE None [] [0] [block] 2 1 false false
               None).
Proof.
  cbv zeta.
  apply (@request_for_unknown_block_ends_session
           12 (mkMS PO_STATE_ACTIVE None []
                    [1; 1; 120; 0; 0; 0; 1; 0; 0; 0; 0; 0; 0; 0; 5; 0]
                    [RB.mk [114] 0 (10 * 4096)] 2 1 false false None)
           (mkReq QEMU_UMEM_REQ_PAGE 1 [120] 1 [5]) [0]).
  - constructor; cbn [cmd idstr nr pgoffs length strlen].
    + right; left; reflexivity.
    + constructor; [lia | constructor].
    + vm_compute. split; [reflexivity | discriminate].
    + reflexivity.
    + reflexivity.
    + constructor; [lia | constructor].
  - reflexivity.
  - reflexivity.
  - reflexivity.
  - left; reflexivity.
Defined.

(** X8. A request that has arrived only in part is left alone: when the
    read buffer holds a proper prefix of a message, the handler returns
    with the buffer, the state and the stream unchanged. *)
Theorem partial_request_is_left_in_buffer
        (TPB : Z) (ms : MigrationState) (r : QEMUUMemReq)
        (suffix : list Z) :
  req_wf r ->
  file_read ms ++ suffix = wire_bytes r ->
  suffix <> [] ->
  po ms = PO_STATE_ACTIVE \/ po ms = PO_STATE_ALL_PAGES_SENT ->
  postcopy_outgoing_recv_handler TPB ms = Some ms.
Proof.
  intros Hwf Hw Hs Hpo.
  unfold postcopy_outgoing_recv_handler.
  assert (Hin : po_state_eqb (po ms) PO_STATE_ACTIVE
                || po_state_eqb (po ms) PO_STATE_ALL_PAGES_SENT = true)
    by (destruct Hpo as [-> | ->]; reflexivity).
  rewrite Hin. cbn [recv_handler_loop].
  destruct (@recv_req_prefix r (file_read ms) suffix Hwf Hw Hs)
    as (req' & Hrecv).
  rewrite Hrecv. change (- EAGAIN <? 0) with true. cbv iota.
  change (- EAGAIN =? - EAGAIN) with true. cbv iota.
  change (0 <? 0) with false. cbv iota.
  now rewrite set_file_read_same.
Qed.

Lemma partial_request_is_left_in_buffer_witness :
  let block := RB.mk [114] 0 (10 * 4096) in
  let ms := mkMS PO_STATE_ACTIVE None []
                 [1; 1; 114; 0; 0; 0; 1; 0; 0; 0]
                 [block] 2 1 false false None in
  postcopy_outgoing_recv_handler 12 ms = Some ms.
Proof.
  cbv zeta.
  apply (@partial_request_is_left_in_buffer
           12 (mkMS PO_STATE_ACTIVE None []
                    [1; 1; 114; 0; 0; 0; 1; 0; 0; 0]
                    [RB.mk [114] 0 (10 * 4096)] 2 1 false false None)
           (mkReq QEMU_UMEM_REQ_PAGE 1 [114] 1 [5]) [0; 0; 0; 0; 5]).
  - constructor; cbn [cmd idstr nr pgoffs length strlen].
    + right; left; reflexivity.
    + constructor; [lia | constructor].
    + vm_compute. split; [reflexivity | discriminate].
    + reflexivity.
    + reflexivity.
    + constructor; [lia | constructor].
  - reflexivity.
  - discriminate.
  - left; reflexivity.
Defined.

(** X9. A command byte other than EOC, PAGE and PAGE_CONT makes
    [postcopy_outgoing_recv_req] call [abort()], and with it the handler:
    the source does not survive an unknown command from the peer. *)
Theorem unknown_command_aborts
        (TPB : Z) (ms : MigrationState) (c : Z) (rest : list Z) :
  c <> QEMU_UMEM_REQ_EOC ->
  c <> QEMU_UMEM_REQ_PAGE ->
  c <> QEMU_UMEM_REQ_PAGE_CONT ->
  file_read ms = c :: rest ->
  postcopy_outgoing_recv_req (file_read ms) req_init = None
  /\ postcopy_outgoing_recv_handler TPB ms = None.
Proof.
  intros H0 H1 H2 Hfr.
  assert (Hrecv : postcopy_outgoing_recv_req (file_read ms) req_init = None).
  { rewrite Hfr, recv_req_first_byte. cbv zeta.
    destruct (Z.eqb_spec c QEMU_UMEM_REQ_EOC); [contradiction|].
    destruct (Z.eqb_spec c QEMU_UMEM_REQ_PAGE); [contradiction|].
    destruct (Z.eqb_spec c QEMU_UMEM_REQ_PAGE_CONT); [contradiction|].
    reflexivity. }
  split; [exact Hrecv|].
  unfold postcopy_outgoing_recv_handler.
  destruct (po_state_eqb (po ms) PO_STATE_ACTIVE
            || po_state_eqb (po ms) PO_STATE_ALL_PAGES_SENT);
    [|reflexivity].
  cbn [recv_handler_loop]. now rewrite Hrecv.
Qed.

Lemma unknown_command_aborts_witness :
  let ms := mkMS PO_STATE_ACTIVE None [] [3; 0; 0] [] 0 0 false false None in
  postcopy_outgoing_recv_req (file_read ms) req_init = None
  /\ postcopy_outgoing_recv_handler 12 ms = None.
Proof.
  cbv zeta.
  apply (@unknown_command_aborts
           12 (mkMS PO_STATE_ACTIVE None [] [3; 0; 0] [] 0 0 false false
                    None) 3 [0; 0]);
    [discriminate | discriminate | discriminate | reflexivity].
Defined.

(** X10. A PAGE message whose block name has length 0 is never consumed:
    whatever follows it in the buffer, the parser answers try-again and
    leaves the buffer as it was, so the handler returns with nothing
    changed and the bytes behind that message are never reached. *)
Theorem page_request_with_empty_name_is_never_consumed
        (TPB : Z) (ms : MigrationState) (rest : list Z) :
  file_read ms = QEMU_UMEM_REQ_PAGE :: 0 :: rest ->
  po ms = PO_STATE_ACTIVE \/ po ms = PO_STATE_ALL_PAGES_SENT ->
  (exists req',
      postcopy_outgoing_recv_req (file_read ms) req_init
      = Some (- EAGAIN, req', file_read ms))
  /\ postcopy_outgoing_recv_handler TPB ms = Some ms.
Proof.
  intros Hfr Hpo.
  assert (Hrecv : postcopy_outgoing_recv_req (file_read ms) req_init
                  = Some (- EAGAIN,
                          set_len (set_cmd req_init QEMU_UMEM_REQ_PAGE) 0,
                          file_read ms)).
  { rewrite Hfr, recv_req_first_byte. cbv zeta.
    change (QEMU_UMEM_REQ_PAGE =? QEMU_UMEM_REQ_EOC) with false.
    change (QEMU_UMEM_REQ_PAGE =? QEMU_UMEM_REQ_PAGE) with true. cbv iota.
    unfold postcopy_outgoing_recv_req_idstr. cbv zeta.
    change (QR.qemu_peek_byte (QEMU_UMEM_REQ_PAGE :: 0 :: rest) 1) with 0.
    cbn [len set_len]. change (0 =? 0) with true. cbv iota.
    change (- EAGAIN <? 0) with true. cbv iota. reflexivity. }
  split; [eexists; exact Hrecv|].
  unfold postcopy_outgoing_recv_handler.
  assert (Hin : po_state_eqb (po ms) PO_STATE_ACTIVE
                || po_state_eqb (po ms) PO_STATE_ALL_PAGES_SENT = true)
    by (destruct Hpo as [-> | ->]; reflexivity).
  rewrite Hin. cbn [recv_handler_loop]. rewrite Hrecv.
  change (- EAGAIN <? 0) with true. cbv iota.
  change (- EAGAIN =? - EAGAIN) with true. cbv iota.
  change (0 <? 0) with false. cbv iota.
  now rewrite set_file_read_same.
Qed.

Lemma page_request_with_empty_name_is_never_consumed_witness :
  let ms := mkMS PO_STATE_ACTIVE None [] [1; 0; 0; 0; 0; 0; 0] [] 0 0
                 false false None in
  (exists req',
      postcopy_outgoing_recv_req (file_read ms) req_init
      = Some (- EAGAIN, req', file_read ms))
  /\ postcopy_outgoing_recv_handler 12 ms = Some ms.
Proof.
  cbv zeta.
  apply (@page_request_with_empty_name_is_never_consumed
           12 (mkMS PO_STATE_ACTIVE None [] [1; 0; 0; 0; 0; 0; 0] [] 0 0
                    false false None) [0; 0; 0; 0; 0]);
    [reflexivity | left; reflexivity].
Defined.

(* --------------------------------------------------------------------- *)
(** ** The shape of the outgoing stream *)

Section StreamShape.
Variable TPB : Z.
Hypothesis HTPB : 0 <= TPB <= 64.

Lemma page_of_is_page (b : RB.t) (items : list stream_item) :
  Forall (page_of TPB b) items -> Forall is_page items.
Proof.
  apply Forall_impl. intros it (off & -> & _). exact I.
Qed.

Lemma handle_req_all_pages_sent (ms ms' : MigrationState)
      (req : QEMUUMemReq) (r : Z) :
  po ms = PO_STATE_ALL_PAGES_SENT ->
  postcopy_outgoing_handle_req TPB ms req = Some (r, ms') ->
  file ms' = file ms.
Proof.
  intros Hpo. unfold postcopy_outgoing_handle_req.
  destruct (cmd req =? QEMU_UMEM_REQ_EOC).
  { rewrite Hpo. cbn [po_state_eqb]. intros E. now injection E as <- <-. }
  destruct (cmd req =? QEMU_UMEM_REQ_PAGE).
  { destruct (ram_find_block _ _ _).
    - cbn [po set_last_block_read]. rewrite Hpo. cbn [po_state_eqb].
      intros E. now injection E as <- <-.
    - intros E. now injection E as <- <-. }
  destruct (cmd req =? QEMU_UMEM_REQ_PAGE_CONT).
  - rewrite Hpo. cbn [po_state_eqb]. intros E. now injection E as <- <-.
  - intros E. now injection E as <- <-.
Qed.

Lemma recv_handler_loop_shape (fuel : nat) :
  forall (ms ms' : MigrationState) (r : Z),
    recv_handler_loop TPB fuel ms = Some (r, ms') ->
    exists items,
      file ms' = file ms ++ items
      /\ Forall is_page items
      /\ (po ms = PO_STATE_ALL_PAGES_SENT -> items = [])
      /\ (po ms' = po ms
          \/ (0 <= r
              /\ po ms' = if po_state_eqb (po ms) PO_STATE_ALL_PAGES_SENT
                          then PO_STATE_COMPLETED
                          else PO_STATE_EOC_RECEIVED)).
Proof.
  induction fuel as [|fuel IH]; intros ms ms' r; cbn [recv_handler_loop];
    [discriminate|].
  destruct (postcopy_outgoing_recv_req (file_read ms) req_init)
    as [[[ret req] fr]|]; [|discriminate].
  destruct (ret <? 0).
  { intros E. injection E as <- <-. exists []. rewrite app_nil_r.
    cbn [set_file_read file po]. repeat split; auto. }
  destruct (postcopy_outgoing_handle_req TPB (set_file_read ms fr) req)
    as [[ret2 ms2]|] eqn:Eh; [|discriminate].
  pose proof (handle_req_appends HTPB _ _ Eh)
    as (i1 & Hf1 & _ & Hi1 & Hst).
  cbn [set_file_read file po] in Hf1, Hst.
  assert (Hp1 : Forall is_page i1).
  { destruct Hi1 as [-> | (b & _ & Hb)]; [constructor|].
    eapply page_of_is_page; exact Hb. }
  assert (Haps : po ms = PO_STATE_ALL_PAGES_SENT -> i1 = []).
  { intros Hpo. pose proof (@handle_req_all_pages_sent (set_file_read ms fr) ms2 req
                  ret2 Hpo Eh) as Hs.
    cbn [set_file_read file] in Hs. rewrite Hf1 in Hs.
    rewrite <- (app_nil_r (file ms)) in Hs at 2.
    now apply app_inv_head in Hs. }
  destruct (Z.eqb_spec ret2 0) as [Hz|Hnz].
  - intros E. apply IH in E. destruct E as (i2 & Hf2 & Hp2 & Ha2 & Hst2).
    assert (Hpo2 : po ms2 = po ms).
    { destruct Hst as [[_ H] | [[H _] | [H _]]];
        [exact H | | ]; subst ret2; discriminate. }
    rewrite Hpo2 in *.
    exists (i1 ++ i2). rewrite Hf2, Hf1, app_assoc.
    split; [reflexivity|]. split; [apply Forall_app; now split|].
    split; [|exact Hst2].
    intros Hpo. rewrite (Haps Hpo), (Ha2 Hpo). reflexivity.
  - intros E. injection E as <- <-. exists i1.
    split; [exact Hf1|]. split; [exact Hp1|]. split; [exact Haps|].
    destruct Hst as [[H _] | [[_ H] | (Hr & _ & _ & H)]].
    + contradiction.
    + left. rewrite H. reflexivity.
    + right. split; [lia | exact H].
Qed.

Lemma recv_handler_shape (ms ms' : MigrationState) :
  postcopy_outgoing_recv_handler TPB ms = Some ms' ->
  exists items,
    file ms' = file ms ++ items
    /\ Forall is_page items
    /\ ((po ms = PO_STATE_ACTIVE
         /\ (po ms' = PO_STATE_ACTIVE \/ po ms' = PO_STATE_EOC_RECEIVED
             \/ po ms' = PO_STATE_ERROR_RECEIVE))
        \/ (po ms = PO_STATE_ALL_PAGES_SENT /\ items = []
            /\ (po ms' = PO_STATE_ALL_PAGES_SENT
                \/ po ms' = PO_STATE_COMPLETED))).
Proof.
  unfold postcopy_outgoing_recv_handler.
  destruct (po_state_eqb (po ms) PO_STATE_ACTIVE
            || po_state_eqb (po ms) PO_STATE_ALL_PAGES_SENT) eqn:Hin;
    [|discriminate].
  destruct (recv_handler_loop TPB (S (length (file_read ms))) ms)
    as [[ret ms1]|] eqn:El; [|discriminate].
  apply recv_handler_loop_shape in El.
  destruct El as (items & Hf & Hp & Ha & Hst).
  assert (Hpo : po ms = PO_STATE_ACTIVE \/ po ms = PO_STATE_ALL_PAGES_SENT)
    by (destruct (po ms); try discriminate; auto).
  destruct (Z.ltb_spec ret 0) as [Hneg|Hpos].
  - destruct Hst as [Hsame | [Hr _]]; [|lia].
    destruct Hpo as [Hpo|Hpo]; rewrite Hsame, Hpo; intros E;
      injection E as <-; exists items; cbn [set_po file po];
      (split; [exact Hf|]); (split; [exact Hp|]).
    + left. auto.
    + right. auto.
  - intros E. injection E as <-. exists items.
    split; [exact Hf|]. split; [exact Hp|].
    destruct Hpo as [Hpo|Hpo]; rewrite Hpo in *; cbn [po_state_eqb] in Hst.
    + left. split; [reflexivity|]. destruct Hst as [-> | [_ ->]]; auto.
    + right. split; [reflexivity|]. split; [auto|].
      destruct Hst as [-> | [_ ->]]; auto.
Qed.

Lemma background_loop_shape (iters : list BgIter) :
  forall (i : Z) (ms ms' : MigrationState),
    po ms = PO_STATE_ACTIVE ->
    background_loop iters i ms = Some ms' ->
    exists pages,
      Forall is_page pages
      /\ ((po ms' = PO_STATE_ACTIVE /\ file ms' = file ms ++ pages)
          \/ (po ms' = PO_STATE_ALL_PAGES_SENT
              /\ file ms' = file ms ++ pages
                            ++ [PutBe64 RAM_SAVE_FLAG_EOS])).
Proof.
  induction iters as [|it iters IH]; intros i ms ms' Hpo;
    cbn [background_loop].
  { intros E. injection E as <-. exists []. rewrite app_nil_r. auto. }
  destruct (rate_limited it).
  { intros E. injection E as <-. exists []. rewrite app_nil_r. auto. }
  destruct (saved it) as [[block offset]|].
  - assert (Hstop : forall m, Some (set_file ms (ram_save_page (file ms)
                                                   block offset)) = Some m ->
              exists pages,
                Forall is_page pages
                /\ ((po m = PO_STATE_ACTIVE /\ file m = file ms ++ pages)
                    \/ (po m = PO_STATE_ALL_PAGES_SENT
                        /\ file m = file ms ++ pages
                                    ++ [PutBe64 RAM_SAVE_FLAG_EOS]))).
    { intros m E. injection E as <-. exists [SavePage block offset].
      split; [repeat constructor|]. left.
      cbn [set_file po file]. unfold ram_save_page. auto. }
    destruct (select_ok it && (read_set it || negb (write_set it)));
      [apply Hstop|].
    destruct ((Z.land (i + 1) 63 =? 0) && (elapsed_ms it >? MAX_WAIT));
      [apply Hstop|].
    intros E. apply IH in E; [|exact Hpo].
    destruct E as (pages & Hp & Hst).
    exists (SavePage block offset :: pages).
    split; [constructor; [exact I | exact Hp]|].
    cbn [set_file file] in Hst. unfold ram_save_page in Hst.
    rewrite <- !app_assoc in Hst. exact Hst.
  - unfold postcopy_outgoing_ram_all_sent. rewrite Hpo.
    cbn [po_state_eqb]. intros E. injection E as <-. exists [].
    split; [constructor|]. right. cbn [set_file set_po po file]. auto.
Qed.

(** One call of the scheduler in the state ACTIVE. *)
Lemma outgoing_loop_active (env : LoopEnv) (ms ms' : MigrationState)
      (r : Z) :
  po ms = PO_STATE_ACTIVE ->
  postcopy_outgoing_loop TPB env ms = Some (r, ms') ->
  exists pages,
    Forall is_page pages
    /\ ((file ms' = file ms ++ pages
         /\ (po ms' = PO_STATE_ACTIVE \/ po ms' = PO_STATE_EOC_RECEIVED
             \/ po ms' = PO_STATE_ERROR_RECEIVE))
        \/ (file ms' = file ms ++ pages ++ [PutBe64 RAM_SAVE_FLAG_EOS]
            /\ po ms' = PO_STATE_ALL_PAGES_SENT)).
Proof.
  intros Hpo. unfold postcopy_outgoing_loop. rewrite Hpo.
  cbn [po_state_eqb orb andb].
  assert (Hnone : forall x, Some (x, ms) = Some (r, ms') ->
            exists pages,
              Forall is_page pages
              /\ ((file ms' = file ms ++ pages
                   /\ (po ms' = PO_STATE_ACTIVE
                       \/ po ms' = PO_STATE_EOC_RECEIVED
                       \/ po ms' = PO_STATE_ERROR_RECEIVE))
                  \/ (file ms' = file ms ++ pages
                                 ++ [PutBe64 RAM_SAVE_FLAG_EOS]
                      /\ po ms' = PO_STATE_ALL_PAGES_SENT))).
  { intros x E. injection E as _ <-. exists []. rewrite app_nil_r. auto. }
  destruct (sel_ret env =? -1).
  { destruct (sel_eintr env); apply Hnone. }
  destruct (sel_read env).
  { destruct (postcopy_outgoing_recv_handler TPB ms) as [m|] eqn:Eh;
      [|discriminate].
    intros E. injection E as _ <-.
    apply recv_handler_shape in Eh.
    destruct Eh as (items & Hf & Hp & [[_ Hst] | [Habs _]]).
    - exists items. auto.
    - rewrite Hpo in Habs. discriminate. }
  destruct (negb (rate_limit_hit env) && sel_write env); [|apply Hnone].
  unfold postcopy_outgoing_ram_save_background. rewrite Hpo.
  destruct (no_background ms).
  - destruct (bytes_remaining env =? 0); [|apply Hnone].
    unfold postcopy_outgoing_ram_all_sent. rewrite Hpo.
    cbn [po_state_eqb]. intros E. injection E as _ <-. exists [].
    cbn [set_file set_po po file app]. auto.
  - destruct (background_loop (bg_iters env) 0 ms) as [m|] eqn:Eb;
      [|discriminate].
    intros E. injection E as _ <-.
    apply background_loop_shape in Eb; [|exact Hpo].
    destruct Eb as (pages & Hp & [[Hs Hf] | [Hs Hf]]); exists pages; auto.
Qed.

(** One call of the scheduler in the state ALL_PAGES_SENT. *)
Lemma outgoing_loop_all_pages_sent (env : LoopEnv)
      (ms ms' : MigrationState) (r : Z) :
  po ms = PO_STATE_ALL_PAGES_SENT ->
  postcopy_outgoing_loop TPB env ms = Some (r, ms') ->
  file ms' = file ms
  /\ (po ms' = PO_STATE_ALL_PAGES_SENT \/ po ms' = PO_STATE_COMPLETED).
Proof.
  intros Hpo. unfold postcopy_outgoing_loop. rewrite Hpo.
  cbn [po_state_eqb orb andb].
  assert (Hnone : forall x, Some (x, ms) = Some (r, ms') ->
            file ms' = file ms
            /\ (po ms' = PO_STATE_ALL_PAGES_SENT
                \/ po ms' = PO_STATE_COMPLETED)).
  { intros x E. injection E as _ <-. auto. }
  destruct (sel_ret env =? -1).
  { destruct (sel_eintr env); apply Hnone. }
  destruct (sel_read env); [|apply Hnone].
  destruct (postcopy_outgoing_recv_handler TPB ms) as [m|] eqn:Eh;
    [|discriminate].
  intros E. injection E as _ <-.
  apply recv_handler_shape in Eh.
  destruct Eh as (items & Hf & Hp & [[Habs _] | (_ & -> & Hst)]).
  - rewrite Hpo in Habs. discriminate.
  - rewrite app_nil_r in Hf. auto.
Qed.

Lemma outgoing_all_pages_sent (envs : list LoopEnv) :
  forall (ret r : Z) (ms ms' : MigrationState),
    po ms = PO_STATE_ALL_PAGES_SENT \/ po ms = PO_STATE_COMPLETED ->
    postcopy_outgoing TPB envs ret ms = Some (r, ms') ->
    file ms' = file ms
    /\ (po ms' = PO_STATE_ALL_PAGES_SENT \/ po ms' = PO_STATE_COMPLETED).
Proof.
  induction envs as [|env envs IH]; intros ret r ms ms' Hpo;
    cbn [postcopy_outgoing].
  { destruct (_ || _); intros E; injection E as _ <-; auto. }
  destruct Hpo as [Hpo|Hpo].
  2: { rewrite Hpo. cbn [po_state_eqb orb]. intros E.
       injection E as _ <-. auto. }
  rewrite Hpo. cbn [po_state_eqb orb].
  destruct (postcopy_outgoing_loop TPB env ms) as [[r1 m1]|] eqn:El;
    [|discriminate].
  apply outgoing_loop_all_pages_sent in El; [|exact Hpo].
  destruct El as [Hf Hst].
  destruct (r1 <? 0).
  - intros E. injection E as _ <-. auto.
  - intros E. apply IH in E; [|exact Hst]. rewrite <- Hf. exact E.
Qed.

Lemma outgoing_eoc_received (envs : list LoopEnv) :
  forall (ret r : Z) (ms ms' : MigrationState),
    po ms = PO_STATE_EOC_RECEIVED ->
    postcopy_outgoing TPB envs ret ms = Some (r, ms') ->
    (file ms' = file ms /\ po ms' = PO_STATE_EOC_RECEIVED)
    \/ (file ms' = file ms ++ [PutBe64 RAM_SAVE_FLAG_EOS]
        /\ po ms' = PO_STATE_COMPLETED).
Proof.
  induction envs as [|env envs IH]; intros ret r ms ms' Hpo;
    cbn [postcopy_outgoing]; rewrite Hpo; cbn [po_state_eqb orb].
  { intros E; injection E as _ <-; auto. }
  destruct (outgoing_loop_after_eoc TPB env _ Hpo)
    as (r1 & m1 & El & Hcases).
  rewrite El.
  destruct Hcases as [-> | (Hr & Hc & Hf)].
  - destruct (r1 <? 0).
    + intros E. injection E as _ <-. auto.
    + intros E. now apply IH in E.
  - subst r1. change (0 <? 0) with false. cbv iota.
    destruct envs; cbn [postcopy_outgoing]; rewrite Hc;
      cbn [po_state_eqb orb]; intros E; injection E as _ <-; auto.
Qed.

Lemma outgoing_active (envs : list LoopEnv) :
  forall (ret r : Z) (ms ms' : MigrationState),
    po ms = PO_STATE_ACTIVE ->
    postcopy_outgoing TPB envs ret ms = Some (r, ms') ->
    exists pages,
      Forall is_page pages
      /\ ((file ms' = file ms ++ pages
           /\ (po ms' = PO_STATE_ACTIVE \/ po ms' = PO_STATE_EOC_RECEIVED
               \/ po ms' = PO_STATE_ERROR_RECEIVE))
          \/ (file ms' = file ms ++ pages ++ [PutBe64 RAM_SAVE_FLAG_EOS]
              /\ (po ms' = PO_STATE_ALL_PAGES_SENT
                  \/ po ms' = PO_STATE_COMPLETED))).
Proof.
  induction envs as [|env envs IH]; intros ret r ms ms' Hpo;
    cbn [postcopy_outgoing]; rewrite Hpo; cbn [po_state_eqb orb].
  { intros E; injection E as _ <-. exists []. rewrite app_nil_r. auto. }
  destruct (postcopy_outgoing_loop TPB env ms) as [[r1 m1]|] eqn:El;
    [|discriminate].
  apply outgoing_loop_active in El; [|exact Hpo].
  destruct El as (p1 & Hp1 & Hst).
  assert (Hstop : Some (r1, m1) = Some (r, ms') ->
            exists pages,
              Forall is_page pages
              /\ ((file ms' = file ms ++ pages
                   /\ (po ms' = PO_STATE_ACTIVE
                       \/ po ms' = PO_STATE_EOC_RECEIVED
                       \/ po ms' = PO_STATE_ERROR_RECEIVE))
                  \/ (file ms' = file ms ++ pages
                                 ++ [PutBe64 RAM_SAVE_FLAG_EOS]
                      /\ (po ms' = PO_STATE_ALL_PAGES_SENT
                          \/ po ms' = PO_STATE_COMPLETED)))).
  { intros E. injection E as _ <-. exists p1. split; [exact Hp1|].
    destruct Hst as [[Hf Hs] | [Hf Hs]]; auto. }
  destruct (r1 <? 0); [exact Hstop|].
  destruct Hst as [[Hf [Hs | [Hs | Hs]]] | [Hf Hs]].
  - (* still active *)
    intros E. apply IH in E; [|exact Hs].
    destruct E as (p2 & Hp2 & Hst2). exists (p1 ++ p2).
    split; [apply Forall_app; now split|].
    rewrite Hf, <- !app_assoc in Hst2. rewrite <- !app_assoc. exact Hst2.
  - (* EOC received *)
    intros E. apply outgoing_eoc_received in E; [|exact Hs].
    exists p1. split; [exact Hp1|]. rewrite Hf in E.
    destruct E as [[E1 E2] | [E1 E2]].
    + left. split; [exact E1|]. right. left. exact E2.
    + right. rewrite <- app_assoc in E1. split; [exact E1|].
      right. exact E2.
  - (* error: the loop ends *)
    destruct envs; cbn [postcopy_outgoing]; rewrite Hs;
      cbn [po_state_eqb orb]; intros E; injection E as _ <-;
      exists p1; (split; [exact Hp1|]); left; (split; [exact Hf|]);
      right; right; exact Hs.
  - (* all pages sent *)
    intros E. apply outgoing_all_pages_sent in E; [|left; exact Hs].
    destruct E as [E1 E2]. exists p1. split; [exact Hp1|].
    right. rewrite E1. split; [exact Hf | exact E2].
Qed.

End StreamShape.

(** X11. Once all pages have been sent (state ALL_PAGES_SENT, the
    end-of-stream marker is on the wire) the source writes nothing more:
    whatever requests arrive and whatever the scheduler observes, a run of
    [postcopy_outgoing] leaves the stream as it is and ends in
    ALL_PAGES_SENT or COMPLETED. *)
Theorem after_all_pages_sent_nothing_is_written
        (TPB : Z) (envs : list LoopEnv) (ret r : Z)
        (ms ms' : MigrationState) :
  0 <= TPB <= 64 ->
  po ms = PO_STATE_ALL_PAGES_SENT ->
  postcopy_outgoing TPB envs ret ms = Some (r, ms') ->
  file ms' = file ms
  /\ (po ms' = PO_STATE_ALL_PAGES_SENT \/ po ms' = PO_STATE_COMPLETED).
Proof.
  intros HT Hpo E.
  exact (@outgoing_all_pages_sent TPB HT envs ret r ms ms'
           (or_introl Hpo) E).
Qed.

Lemma after_all_pages_sent_nothing_is_written_witness :
  let block := RB.mk [114] 0 (10 * 4096) in
  let ms := mkMS PO_STATE_ALL_PAGES_SENT (Some block)
                 [PutBe64 RAM_SAVE_FLAG_EOS]
                 [2; 0; 0; 0; 1; 0; 0; 0; 0; 0; 0; 0; 3; 0]
                 [block] 2 1 false false None in
  exists ms',
    postcopy_outgoing 12 [mkLoopEnv false 1 false true true 0 []] 0 ms
    = Some (0, ms')
    /\ file ms' = [PutBe64 RAM_SAVE_FLAG_EOS]
    /\ (po ms' = PO_STATE_ALL_PAGES_SENT \/ po ms' = PO_STATE_COMPLETED).
Proof.
  cbv zeta. eexists.
  match goal with
  | |- ?A /\ _ => assert (E : A) by (vm_compute; reflexivity)
  end.
  split; [exact E|].
  pose proof (fun HT Hpo =>
                @after_all_pages_sent_nothing_is_written
                  12 _ _ _ _ _ HT Hpo E) as H.
  apply H; [lia | reflexivity].
Defined.

(** X12. The stream a run of [postcopy_outgoing] produces from the state
    ACTIVE is a sequence of pages followed by at most one end-of-stream
    marker, and the marker is there exactly when the run ends in
    ALL_PAGES_SENT or COMPLETED: the marker is never written twice and no
    page follows it. *)
Theorem outgoing_stream_is_pages_then_at_most_one_marker
        (TPB : Z) (envs : list LoopEnv) (ret r : Z)
        (ms ms' : MigrationState) :
  0 <= TPB <= 64 ->
  po ms = PO_STATE_ACTIVE ->
  postcopy_outgoing TPB envs ret ms = Some (r, ms') ->
  exists pages,
    Forall is_page pages
    /\ ((file ms' = file ms ++ pages
         /\ (po ms' = PO_STATE_ACTIVE \/ po ms' = PO_STATE_EOC_RECEIVED
             \/ po ms' = PO_STATE_ERROR_RECEIVE))
        \/ (file ms' = file ms ++ pages ++ [PutBe64 RAM_SAVE_FLAG_EOS]
            /\ (po ms' = PO_STATE_ALL_PAGES_SENT
                \/ po ms' = PO_STATE_COMPLETED))).
Proof.
  intros HT Hpo E.
  exact (@outgoing_active TPB HT envs ret r ms ms' Hpo E).
Qed.

Lemma outgoing_stream_is_pages_then_at_most_one_marker_witness :
  let block := RB.mk [114] 0 (10 * 4096) in
  let ms := mkMS PO_STATE_ACTIVE None []
                 [1; 1; 114; 0; 0; 0; 1; 0; 0; 0; 0; 0; 0; 0; 5]
                 [block] 1 0 false false None in
  let envs :=
    [mkLoopEnv false 1 false true true 0 [];
     mkLoopEnv false 1 false false true 0
               [mkBgIter false (Some (block, 0)) true false true 0;
                mkBgIter false None true false true 0];
     mkLoopEnv false 1 false true true 0 []] in
  exists ms',
    postcopy_outgoing 12 envs 0 ms = Some (0, ms')
    /\ file ms' = [SavePage block (5 * 4096); SavePage block (6 * 4096);
                   SavePage block 0; PutBe64 RAM_SAVE_FLAG_EOS]
    /\ po ms' = PO_STATE_ALL_PAGES_SENT
    /\ exists pages,
        Forall is_page pages
        /\ ((file ms' = [] ++ pages
             /\ (po ms' = PO_STATE_ACTIVE \/ po ms' = PO_STATE_EOC_RECEIVED
                 \/ po ms' = PO_STATE_ERROR_RECEIVE))
            \/ (file ms' = [] ++ pages ++ [PutBe64 RAM_SAVE_FLAG_EOS]
                /\ (po ms' = PO_STATE_ALL_PAGES_SENT
                    \/ po ms' = PO_STATE_COMPLETED))).
Proof.
  cbv zeta. eexists.
  match goal with
  | |- ?A /\ _ => assert (E : A) by (vm_compute; reflexivity)
  end.
  split; [exact E|]. split; [reflexivity|]. split; [reflexivity|].
  pose proof (fun HT Hpo =>
                @outgoing_stream_is_pages_then_at_most_one_marker
                  12 _ _ _ _ _ HT Hpo E) as H.
  apply H; [lia | reflexivity].
Defined.

(* --------------------------------------------------------------------- *)
(** ** The clean bitmap the source sends *)

Lemma clean_bits_spec (bitmap i n j : Z) :
  0 <= i -> 0 <= n -> 0 <= j ->
  Z.testbit (clean_bits bitmap i n) j
  = (j <? n) && negb (Z.testbit bitmap (i + j)).
Proof.
  intros Hi Hn Hj. unfold clean_bits.
  rewrite Z.land_spec, Z.lnot_spec, Z.shiftr_spec by lia.
  rewrite (Z.add_comm j i).
  destruct (Z.ltb_spec j n).
  - rewrite Z.ones_spec_low by lia. now rewrite andb_true_r.
  - rewrite Z.ones_spec_high by lia. now rewrite andb_false_r.
Qed.

Lemma clean_bits_range (bitmap i n : Z) :
  0 <= n -> 0 <= clean_bits bitmap i n < 2 ^ n.
Proof.
  intros Hn. unfold clean_bits. rewrite Z.land_ones by lia.
  apply Z.mod_pos_bound. apply Z.pow_pos_nonneg; lia.
Qed.

Lemma u64_testbit (x j : Z) :
  0 <= j -> Z.testbit (u64 x) j = (j <? 64) && Z.testbit x j.
Proof.
  intros Hj. unfold u64. destruct (Z.ltb_spec j 64).
  - now rewrite Z.mod_pow2_bits_low by lia.
  - now rewrite Z.mod_pow2_bits_high by lia.
Qed.

Lemma bitmap_to_uint64_testbit (bitmap w j : Z) :
  0 <= w -> 0 <= j ->
  Z.testbit (postcopy_bitmap_to_uint64 bitmap w) j
  = (j <? 64) && Z.testbit bitmap (64 * w + j).
Proof.
  intros Hw Hj. unfold postcopy_bitmap_to_uint64.
  rewrite Z.land_spec, Z.shiftr_spec by lia.
  rewrite (Z.add_comm j). destruct (Z.ltb_spec j 64).
  - rewrite Z.ones_spec_low by lia. now rewrite andb_true_r.
  - rewrite Z.ones_spec_high by lia. now rewrite andb_false_r.
Qed.

(** The word the aligned loop writes for the 64 pages from [i] on. *)
Lemma aligned_word_clean_bits (bitmap i : Z) :
  0 <= i -> i mod 64 = 0 ->
  u64 (Z.lnot (postcopy_bitmap_to_uint64 bitmap (BIT_WORD i)))
  = clean_bits bitmap i 64.
Proof.
  intros Hi Hal. apply Z.bits_inj'. intros j Hj.
  assert (Hw : 64 * BIT_WORD i = i).
  { unfold BIT_WORD. pose proof (Z.div_mod i 64 ltac:(lia)). lia. }
  assert (0 <= BIT_WORD i) by (unfold BIT_WORD; apply Z.div_pos; lia).
  rewrite u64_testbit, Z.lnot_spec, bitmap_to_uint64_testbit by lia.
  rewrite clean_bits_spec, Hw by lia.
  destruct (j <? 64); reflexivity.
Qed.

Lemma clean_words_aligned_spec (bitmap : Z) (k : nat) :
  forall (f : QF.t) (i : Z),
    0 <= i -> i mod 64 = 0 ->
    clean_words_aligned f bitmap i k
    = f ++ flat_map be64_bytes
             (map (fun w => clean_bits bitmap (i + 64 * Z.of_nat w) 64)
                  (seq 0 k)).
Proof.
  induction k as [|k IH]; intros f i Hi Hal; cbn [clean_words_aligned].
  - cbn. now rewrite app_nil_r.
  - cbv zeta. rewrite aligned_word_clean_bits, qemu_put_be64_app by lia.
    rewrite IH.
    + cbn [seq map flat_map]. rewrite <- app_assoc.
      replace (i + 64 * Z.of_nat 0) with i by lia. do 3 f_equal.
      rewrite <- seq_shift, map_map. apply map_ext. intros w.
      f_equal. lia.
    + lia.
    + rewrite <- Zplus_mod_idemp_l, Hal. reflexivity.
Qed.

Lemma clean_tail_loop_spec (bitmap e : Z) (k : nat) :
  forall (tmp i n : Z),
    e <= i -> 0 <= n ->
    Z.testbit (clean_tail_loop bitmap e tmp i k) n =
    if (i - e <=? n) && (n <? i - e + Z.of_nat k)
    then negb (test_bit (e + n) bitmap) || Z.testbit tmp n
    else Z.testbit tmp n.
Proof.
  induction k as [|k IH]; intros tmp i n Hi Hn.
  - cbn [clean_tail_loop].
    destruct (Z.leb_spec (i - e) n), (Z.ltb_spec n (i - e + Z.of_nat 0));
      cbn [andb]; try reflexivity; lia.
  - cbn [clean_tail_loop]. rewrite IH by lia.
    destruct (Z.leb_spec (i - e) n),
      (Z.ltb_spec n (i - e + Z.of_nat (S k))),
      (Z.leb_spec (i + 1 - e) n), (Z.ltb_spec n (i + 1 - e + Z.of_nat k));
      cbn [andb]; try lia;
      unfold set_bit; destruct (negb (test_bit i bitmap)) eqn:E;
      rewrite ?Z.setbit_neq by lia; try reflexivity.
    + assert (n = i - e) by lia. subst n.
      replace (e + (i - e)) with i by lia.
      rewrite E, Z.setbit_eq by lia. reflexivity.
    + assert (n = i - e) by lia. subst n.
      replace (e + (i - e)) with i by lia. rewrite E. reflexivity.
Qed.

(** The word written for the last, partial group of pages. *)
Lemma tail_word_clean_bits (bitmap e : Z) (k : nat) :
  0 <= e -> (k <= 64)%nat ->
  postcopy_bitmap_to_uint64 (clean_tail_loop bitmap e 0 e k) 0
  = clean_bits bitmap e (Z.of_nat k).
Proof.
  intros He Hk. apply Z.bits_inj'. intros j Hj.
  rewrite bitmap_to_uint64_testbit, clean_tail_loop_spec by lia.
  rewrite clean_bits_spec by lia.
  replace (64 * 0 + j) with j by lia. unfold test_bit.
  rewrite Z.bits_0, orb_false_r.
  destruct (Z.ltb_spec j 64), (Z.leb_spec (e - e) j),
    (Z.ltb_spec j (e - e + Z.of_nat k)), (Z.ltb_spec j (Z.of_nat k));
    cbn [andb]; try reflexivity; lia.
Qed.

Lemma land_mask_63 (x : Z) :
  0 <= x < 2 ^ 64 -> Z.land x (u64 (Z.lnot 63)) = 64 * (x / 64).
Proof.
  intros Hx. apply Z.bits_inj'. intros j Hj.
  rewrite Z.land_spec, u64_testbit, Z.lnot_spec by lia.
  change 63 with (Z.ones 6). change 64 with (2 ^ 6) at 2 3.
  rewrite Z.mul_comm, <- Z.shiftl_mul_pow2, <- Z.shiftr_div_pow2 by lia.
  destruct (Z.ltb_spec j 6).
  - rewrite Z.ones_spec_low, Z.shiftl_spec_low by lia.
    cbn [negb]. now rewrite andb_false_r, andb_false_r.
  - rewrite Z.ones_spec_high, Z.shiftl_spec, Z.shiftr_spec by lia.
    replace (j - 6 + 6) with j by lia. cbn [negb].
    rewrite andb_true_r. destruct (Z.ltb_spec j 64).
    + now rewrite andb_true_r.
    + rewrite andb_false_r. symmetry.
      destruct (Z.eq_dec x 0) as [->|Hx0].
      * apply Z.bits_0.
      * apply Z.bits_above_log2; [lia|].
        apply Z.lt_le_trans with 64; [|lia].
        apply Z.log2_lt_pow2; lia.
Qed.

Lemma nth_map_seq {A : Type} (g : nat -> A) (n w : nat) (d : A) :
  (w < n)%nat -> nth w (map g (seq 0 n)) d = g w.
Proof.
  intros Hw. rewrite (nth_indep _ d (g 0%nat))
    by (rewrite length_map, length_seq; exact Hw).
  rewrite map_nth, seq_nth by exact Hw. reflexivity.
Qed.

Lemma length_clean_words_unaligned (bitmap : Z) (k : nat) :
  forall (f : QF.t) (i : Z),
    length (clean_words_unaligned f bitmap i k) = (length f + 8 * k)%nat.
Proof.
  induction k as [|k IH]; intros f i; cbn [clean_words_unaligned].
  - lia.
  - cbv zeta. rewrite IH, length_qemu_put_be64. lia.
Qed.

Section CleanBitmapBlock.
Variable TPB : Z.
Variable bitmap : Z.
Variable block : RB.t.
Hypothesis HTPB : 0 <= TPB.
Hypothesis Hoff : 0 <= RB.offset block.
Hypothesis Hlen : 0 <= RB.length block.
Hypothesis Hend : RB.offset block + RB.length block < 2 ^ 64.

Local Notation "'first_page'" :=
  (Z.shiftr (RB.offset block) TPB) (at level 0).
Local Notation "'end_page'" :=
  (Z.shiftr (RB.offset block + RB.length block) TPB) (at level 0).

Lemma pages_range : 0 <= first_page <= end_page /\ end_page < 2 ^ 64.
Proof.
  assert (H2 : 0 < 2 ^ TPB) by (apply Z.pow_pos_nonneg; lia).
  rewrite !Z.shiftr_div_pow2 by lia. split; [split|].
  - apply Z.div_pos; lia.
  - apply Z.div_le_mono; lia.
  - apply Z.le_lt_trans with (RB.offset block + RB.length block); [|lia].
    apply Z.div_le_upper_bound; [lia|]. nia.
Qed.

(** The bounds the function computes. *)
Lemma block_bounds :
  let np := end_page - first_page in
  Z.shiftr (u64 (RB.offset block + RB.length block)) TPB = end_page
  /\ u64 (first_page + Z.land (u64 np) (u64 (Z.lnot 63)))
     = first_page + 64 * (np / 64)
  /\ (first_page + 64 * (np / 64) - first_page + 63) / 64 = np / 64.
Proof.
  cbv zeta. pose proof pages_range as [[H0 H1] H2].
  assert (Hu : u64 (RB.offset block + RB.length block)
               = RB.offset block + RB.length block)
    by (unfold u64; apply Z.mod_small; lia).
  rewrite Hu. split; [reflexivity|].
  set (np := end_page - first_page).
  assert (Hnp : 0 <= np < 2 ^ 64) by (unfold np; lia).
  assert (Hunp : u64 np = np) by (unfold u64; apply Z.mod_small; lia).
  rewrite Hunp, land_mask_63 by lia.
  pose proof (Z.div_mod np 64 ltac:(lia)) as Hdm.
  pose proof (Z.mod_pos_bound np 64 ltac:(lia)) as Hmb.
  split.
  - unfold u64. apply Z.mod_small. unfold np in *. lia.
  - replace (first_page + 64 * (np / 64) - first_page + 63)
      with (63 + (np / 64) * 64) by lia.
    rewrite Z.div_add by lia. reflexivity.
Qed.


Lemma send_clean_bitmap_block_header (f : QF.t) :
  let np := end_page - first_page in
  send_clean_bitmap_block TPB bitmap f block
  = let f :=
      f ++ [strlen (RB.idstr block) mod 256]
        ++ map (fun b => b mod 256) (RB.idstr block)
        ++ be64_bytes (RB.offset block)
        ++ be64_bytes (RB.length block)
        ++ be64_bytes (postcopy_bitmap_length TPB (RB.length block)) in
    let f :=
      if first_page mod 64 =? 0
      then clean_words_aligned f bitmap first_page (Z.to_nat (np / 64))
      else clean_words_unaligned f bitmap first_page (Z.to_nat (np / 64)) in
    if 0 <? np mod 64 then
      f ++ be64_bytes
             (postcopy_bitmap_to_uint64
                (clean_tail_loop bitmap (first_page + 64 * (np / 64)) 0
                                 (first_page + 64 * (np / 64))
                                 (Z.to_nat (np mod 64))) 0)
    else f.
Proof.
  cbv zeta. unfold send_clean_bitmap_block. cbv zeta.
  destruct block_bounds as (Hb1 & Hb2 & Hb3).
  rewrite Hb1, Hb2, Hb3.
  change (QF.qemu_put_byte f (strlen (RB.idstr block)))
    with (f ++ [strlen (RB.idstr block) mod 256]).
  rewrite qemu_put_buffer_app, !qemu_put_be64_app, <- !app_assoc.
  pose proof (Z.div_mod (end_page - first_page) 64 ltac:(lia)) as Hdm.
  replace (end_page - (first_page + 64 * ((end_page - first_page) / 64)))
    with ((end_page - first_page) mod 64) by lia.
  replace (first_page + 64 * ((end_page - first_page) / 64) <? end_page)
    with (0 <? (end_page - first_page) mod 64); [reflexivity|].
  destruct (Z.ltb_spec 0 ((end_page - first_page) mod 64)),
    (Z.ltb_spec (first_page + 64 * ((end_page - first_page) / 64))
                end_page); try reflexivity; lia.
Qed.

(** The words written for a block whose first page index is a multiple
    of 64. *)
Lemma send_clean_bitmap_block_aligned (f : QF.t) :
  first_page mod 64 = 0 ->
  let np := end_page - first_page in
  exists words,
    send_clean_bitmap_block TPB bitmap f block
    = f ++ [strlen (RB.idstr block) mod 256]
        ++ map (fun b => b mod 256) (RB.idstr block)
        ++ be64_bytes (RB.offset block)
        ++ be64_bytes (RB.length block)
        ++ be64_bytes (postcopy_bitmap_length TPB (RB.length block))
        ++ flat_map be64_bytes words
    /\ Z.of_nat (length words) = (np + 63) / 64
    /\ Forall (fun w => 0 <= w < 2 ^ 64) words
    /\ forall p, 0 <= p < 64 * ((np + 63) / 64) ->
                 Z.testbit (nth (Z.to_nat (p / 64)) words 0) (p mod 64)
                 = (p <? np) && negb (test_bit (first_page + p) bitmap).
Proof.
  intros Hal np. pose proof pages_range as [[H0 H1] H2].
  assert (Hnp : 0 <= np) by (unfold np; lia).
  pose proof (Z.div_mod np 64 ltac:(lia)) as Hdm.
  pose proof (Z.mod_pos_bound np 64 ltac:(lia)) as Hmb.
  assert (Hq : 0 <= np / 64) by (apply Z.div_pos; lia).
  set (full := map (fun w => clean_bits bitmap
                               (first_page + 64 * Z.of_nat w) 64)
                   (seq 0 (Z.to_nat (np / 64)))).
  set (tail := if 0 <? np mod 64
               then [clean_bits bitmap (first_page + 64 * (np / 64))
                                (np mod 64)]
               else []).
  assert (Hlf : length full = Z.to_nat (np / 64))
    by (unfold full; now rewrite length_map, length_seq).
  assert (Hceil : (np + 63) / 64
                  = np / 64 + (if 0 <? np mod 64 then 1 else 0)).
  { destruct (Z.ltb_spec 0 (np mod 64)).
    - replace (np + 63) with (np mod 64 + 63 + (np / 64) * 64) by lia.
      rewrite Z.div_add by lia.
      replace ((np mod 64 + 63) / 64) with 1; [lia|].
      apply Z.div_unique with (np mod 64 - 1); lia.
    - replace (np + 63) with (63 + (np / 64) * 64) by lia.
      rewrite Z.div_add by lia. change (63 / 64) with 0. lia. }
  exists (full ++ tail). split; [|split; [|split]].
  - rewrite send_clean_bitmap_block_header. cbv zeta. fold np.
    rewrite Hal. change (0 =? 0) with true. cbv iota.
    rewrite clean_words_aligned_spec by lia. fold full.
    rewrite flat_map_app, <- !app_assoc. unfold tail.
    destruct (0 <? np mod 64).
    + rewrite tail_word_clean_bits by lia.
      rewrite Z2Nat.id by lia. cbn [flat_map].
      rewrite ?app_nil_r, <- ?app_assoc. reflexivity.
    + cbn [flat_map]. rewrite ?app_nil_r, <- ?app_assoc. reflexivity.
  - rewrite length_app, Hlf, Hceil. unfold tail.
    destruct (0 <? np mod 64); cbn [length]; lia.
  - apply Forall_app. split.
    + unfold full. apply Forall_forall. intros w Hw.
      apply in_map_iff in Hw. destruct Hw as (n & <- & _).
      apply (@clean_bits_range bitmap _ 64). lia.
    + unfold tail. destruct (0 <? np mod 64); constructor; [|constructor].
      pose proof (@clean_bits_range bitmap (first_page + 64 * (np / 64))
                    (np mod 64) ltac:(lia)) as Hr.
      assert (2 ^ (np mod 64) <= 2 ^ 64)
        by (apply Z.pow_le_mono_r; lia).
      lia.
  - intros p Hp. rewrite Hceil in Hp.
    pose proof (Z.div_mod p 64 ltac:(lia)) as Hpdm.
    pose proof (Z.mod_pos_bound p 64 ltac:(lia)) as Hpmb.
    assert (Hpq : 0 <= p / 64) by (apply Z.div_pos; lia).
    unfold test_bit.
    destruct (Z.lt_ge_cases (p / 64) (np / 64)) as [Hw|Hw].
    + rewrite app_nth1 by (rewrite Hlf; lia).
      unfold full. rewrite nth_map_seq by lia.
      rewrite Z2Nat.id, clean_bits_spec by lia.
      replace (first_page + 64 * (p / 64) + p mod 64)
        with (first_page + p) by lia.
      destruct (Z.ltb_spec (p mod 64) 64), (Z.ltb_spec p np);
        try reflexivity; lia.
    + destruct (Z.ltb_spec 0 (np mod 64)) as [Ht|Ht]; [|lia].
      assert (Hpw : p / 64 = np / 64) by lia.
      rewrite app_nth2 by (rewrite Hlf; lia).
      rewrite Hlf, Hpw, Nat.sub_diag. unfold tail.
      destruct (Z.ltb_spec 0 (np mod 64)); [|lia]. cbn [nth].
      rewrite clean_bits_spec by lia.
      replace (first_page + 64 * (np / 64) + p mod 64)
        with (first_page + p) by lia.
      destruct (Z.ltb_spec (p mod 64) (np mod 64)), (Z.ltb_spec p np);
        try reflexivity; lia.
Qed.

(** X13. For a block whose first page index is a multiple of 64, what
    [postcopy_outgoing_send_clean_bitmap] writes after the header of the
    block is the clean bitmap of the block, 64 pages to a big-endian word:
    bit [p mod 64] of word [p / 64] is set exactly when page [p] of the
    block exists and is not dirty, and the padding bits of the last word
    are clear. *)
Theorem clean_bitmap_of_aligned_block_is_complement_of_dirty (f : QF.t) :
  first_page mod 64 = 0 ->
  let np := end_page - first_page in
  exists words,
    send_clean_bitmap_block TPB bitmap f block
    = f ++ [strlen (RB.idstr block) mod 256]
        ++ map (fun b => b mod 256) (RB.idstr block)
        ++ be64_bytes (RB.offset block)
        ++ be64_bytes (RB.length block)
        ++ be64_bytes (postcopy_bitmap_length TPB (RB.length block))
        ++ flat_map be64_bytes words
    /\ Z.of_nat (length words) = (np + 63) / 64
    /\ Forall (fun w => 0 <= w < 2 ^ 64) words
    /\ forall p, 0 <= p < 64 * ((np + 63) / 64) ->
                 Z.testbit (nth (Z.to_nat (p / 64)) words 0) (p mod 64)
                 = (p <? np) && negb (test_bit (first_page + p) bitmap).
Proof. exact (send_clean_bitmap_block_aligned f). Qed.

(** For a block that starts on a page boundary the announced bitmap
    length is eight bytes for every 64 pages, rounded up. *)
Lemma bitmap_length_words :
  RB.offset block mod 2 ^ TPB = 0 ->
  let np := end_page - first_page in
  Z.shiftr (RB.length block) TPB = np
  /\ postcopy_bitmap_length TPB (RB.length block) = (np + 63) / 64 * 8
  /\ 0 <= (np + 63) / 64 * 8 < 2 ^ 64.
Proof.
  intros Hpal np. pose proof pages_range as [[H0 H1] H2].
  assert (H2T : 0 < 2 ^ TPB) by (apply Z.pow_pos_nonneg; lia).
  assert (Hnp : np = Z.shiftr (RB.length block) TPB).
  { unfold np. rewrite !Z.shiftr_div_pow2 by lia.
    apply Z.mod_divide in Hpal; [|lia]. destruct Hpal as [q Hq].
    rewrite Hq, Z.add_comm, Z.div_add, Z.div_mul by lia. lia. }
  assert (Hnp0 : 0 <= np < 2 ^ 64) by (unfold np; lia).
  assert (Hr : 0 <= (np + 63) / 64 * 8 < 2 ^ 64).
  { assert (0 <= (np + 63) / 64) by (apply Z.div_pos; lia).
    assert ((np + 63) / 64 < 2 ^ 58 + 1).
    { apply Z.div_lt_upper_bound; [lia|].
      change (64 * (2 ^ 58 + 1)) with (2 ^ 64 + 64). lia. }
    change (2 ^ 64) with (2 ^ 58 * 64). lia. }
  split; [now symmetry|]. split; [|exact Hr].
  unfold postcopy_bitmap_length. rewrite <- Hnp. unfold u64.
  apply Z.mod_small. exact Hr.
Qed.

(** X14. Whatever the alignment of the block, the bitmap length announced
    in the header of a block is the number of bitmap bytes that follow it:
    for a block that starts on a page boundary the function writes the
    name length, the name, three 64-bit fields and then exactly
    [postcopy_bitmap_length] bytes. *)
Theorem clean_bitmap_block_length_matches_header (f : QF.t) :
  RB.offset block mod 2 ^ TPB = 0 ->
  Z.of_nat (length (send_clean_bitmap_block TPB bitmap f block))
  = Z.of_nat (length f) + 1 + Z.of_nat (length (RB.idstr block)) + 24
    + postcopy_bitmap_length TPB (RB.length block).
Proof.
  intros Hpal. pose proof pages_range as [[H0 H1] H2].
  set (np := end_page - first_page).
  assert (H2T : 0 < 2 ^ TPB) by (apply Z.pow_pos_nonneg; lia).
  assert (Hnp : np = Z.shiftr (RB.length block) TPB).
  { unfold np. rewrite !Z.shiftr_div_pow2 by lia.
    apply Z.mod_divide in Hpal; [|lia]. destruct Hpal as [q Hq].
    rewrite Hq, Z.add_comm, Z.div_add, Z.div_mul by lia. lia. }
  assert (Hnp0 : 0 <= np) by (unfold np; lia).
  pose proof (Z.div_mod np 64 ltac:(lia)) as Hdm.
  pose proof (Z.mod_pos_bound np 64 ltac:(lia)) as Hmb.
  assert (Hq : 0 <= np / 64) by (apply Z.div_pos; lia).
  assert (Hceil : (np + 63) / 64
                  = np / 64 + (if 0 <? np mod 64 then 1 else 0)).
  { destruct (Z.ltb_spec 0 (np mod 64)).
    - replace (np + 63) with (np mod 64 + 63 + (np / 64) * 64) by lia.
      rewrite Z.div_add by lia.
      replace ((np mod 64 + 63) / 64) with 1; [lia|].
      apply Z.div_unique with (np mod 64 - 1); lia.
    - replace (np + 63) with (63 + (np / 64) * 64) by lia.
      rewrite Z.div_add by lia. change (63 / 64) with 0. lia. }
  assert (Hbl : postcopy_bitmap_length TPB (RB.length block)
                = (np + 63) / 64 * 8).
  { unfold postcopy_bitmap_length. rewrite <- Hnp. unfold u64.
    apply Z.mod_small. rewrite Hceil.
    assert (np < 2 ^ 64) by (unfold np; lia).
    destruct (0 <? np mod 64); lia. }
  rewrite send_clean_bitmap_block_header. cbv zeta. fold np.
  rewrite Hbl, Hceil.
  set (hdr := f ++ _).
  assert (Hh : Z.of_nat (length hdr)
               = Z.of_nat (length f) + 1
                 + Z.of_nat (length (RB.idstr block)) + 24).
  { unfold hdr. rewrite !length_app, length_map, !length_be64_bytes.
    cbn [length]. lia. }
  assert (Hw : forall g : QF.t,
             g = (if first_page mod 64 =? 0
                  then clean_words_aligned hdr bitmap first_page
                         (Z.to_nat (np / 64))
                  else clean_words_unaligned hdr bitmap first_page
                         (Z.to_nat (np / 64))) ->
             Z.of_nat (length g) = Z.of_nat (length hdr) + 8 * (np / 64)).
  { intros g ->. destruct (first_page mod 64 =? 0) eqn:E.
    - apply Z.eqb_eq in E.
      rewrite clean_words_aligned_spec, length_app, Nat2Z.inj_add by lia.
      rewrite length_flat_map_be64, length_map, length_seq. lia.
    - rewrite length_clean_words_unaligned. lia. }
  match goal with
  | |- context [if 0 <? np mod 64 then ?g ++ _ else _] =>
      specialize (Hw g eq_refl); set (body := g) in *
  end.
  destruct (0 <? np mod 64).
  - rewrite length_app, length_be64_bytes. lia.
  - lia.
Qed.

End CleanBitmapBlock.

Lemma clean_bitmap_of_aligned_block_is_complement_of_dirty_witness :
  let block := RB.mk [114] 0 (70 * 4096) in
  let dirty := 5 in
  let np := Z.shiftr (RB.offset block + RB.length block) 12
            - Z.shiftr (RB.offset block) 12 in
  np = 70
  /\ exists words,
      send_clean_bitmap_block 12 dirty [] block
      = [] ++ [strlen (RB.idstr block) mod 256]
           ++ map (fun b => b mod 256) (RB.idstr block)
           ++ be64_bytes (RB.offset block)
           ++ be64_bytes (RB.length block)
           ++ be64_bytes (postcopy_bitmap_length 12 (RB.length block))
           ++ flat_map be64_bytes words
      /\ Z.of_nat (length words) = (np + 63) / 64
      /\ Forall (fun w => 0 <= w < 2 ^ 64) words
      /\ forall p, 0 <= p < 64 * ((np + 63) / 64) ->
                   Z.testbit (nth (Z.to_nat (p / 64)) words 0) (p mod 64)
                   = (p <? np)
                     && negb (test_bit (Z.shiftr (RB.offset block) 12 + p)
                                       dirty).
Proof.
  cbv zeta. split; [reflexivity|].
  apply (@clean_bitmap_of_aligned_block_is_complement_of_dirty
           12 5 (RB.mk [114] 0 (70 * 4096)));
    cbn [RB.offset RB.length]; try lia; reflexivity.
Defined.

Lemma clean_bitmap_block_length_matches_header_witness :
  let block := RB.mk [114] 4096 (70 * 4096) in
  postcopy_bitmap_length 12 (RB.length block) = 16
  /\ Z.of_nat (length (send_clean_bitmap_block 12 5 [] block))
     = Z.of_nat (length (@nil Z)) + 1
       + Z.of_nat (length (RB.idstr block)) + 24
       + postcopy_bitmap_length 12 (RB.length block).
Proof.
  cbv zeta. split; [reflexivity|].
  apply (@clean_bitmap_block_length_matches_header
           12 5 (RB.mk [114] 4096 (70 * 4096)));
    cbn [RB.offset RB.length]; try lia; reflexivity.
Defined.

(* --------------------------------------------------------------------- *)
(** ** The clean bitmap from the source to the daemon *)

Lemma qemu_get_bytes_app (a : list Z) :
  forall f : QR.t, qemu_get_bytes (length a) (a ++ f) = (a, f).
Proof.
  induction a as [|x a IH]; intros f; cbn [length qemu_get_bytes app].
  - reflexivity.
  - unfold qemu_get_byte. cbn [hd tl]. now rewrite IH.
Qed.

Lemma qemu_get_be64_app (v : Z) (f : QR.t) :
  0 <= v < 2 ^ 64 -> qemu_get_be64 (be64_bytes v ++ f) = (v, f).
Proof.
  intros Hv. unfold qemu_get_be64.
  rewrite <- (length_be64_bytes v), qemu_get_bytes_app.
  now rewrite be_to_cpu_be64.
Qed.

Lemma qemu_get_buffer_app (a : list Z) (f : QR.t) (size : Z) :
  size = Z.of_nat (length a) -> qemu_get_buffer (a ++ f) size = (a, f).
Proof.
  intros ->. unfold qemu_get_buffer. rewrite Nat2Z.id.
  rewrite firstn_app, firstn_all, Nat.sub_diag, app_nil_r.
  rewrite skipn_app, skipn_all, Nat.sub_diag. reflexivity.
Qed.

Lemma clean_bitmap_header_app (name : list Z) (o l bl : Z) (rest : list Z) :
  0 <= o < 2 ^ 64 -> 0 <= l < 2 ^ 64 -> 0 <= bl < 2 ^ 64 ->
  clean_bitmap_header
    (Z.of_nat (length name) :: name ++ be64_bytes o ++ be64_bytes l
                                    ++ be64_bytes bl ++ rest)
  = (Z.of_nat (length name), name, o, l, bl, rest).
Proof.
  intros Ho Hl Hbl. unfold clean_bitmap_header, qemu_get_byte.
  cbn [hd tl]. rewrite qemu_get_buffer_app by reflexivity.
  now rewrite !qemu_get_be64_app.
Qed.

Lemma be64_to_bitmap_words (ws : list Z) (rest : list Z) :
  Forall (fun w => 0 <= w < 2 ^ 64) ws ->
  postcopy_be64_to_bitmap (flat_map be64_bytes ws ++ rest) (length ws) = ws.
Proof.
  induction 1 as [|w ws Hw _ IH]; cbn [flat_map length
                                            postcopy_be64_to_bitmap].
  - reflexivity.
  - rewrite <- app_assoc.
    assert (H8 : length (be64_bytes w) = 8%nat) by apply length_be64_bytes.
    rewrite firstn_app, H8, Nat.sub_diag, firstn_0, app_nil_r.
    rewrite <- H8 at 1. rewrite firstn_all.
    rewrite skipn_app, H8, Nat.sub_diag.
    rewrite <- H8 at 1. rewrite skipn_all. cbn [skipn app].
    now rewrite be_to_cpu_be64, IH.
Qed.

Lemma bitmap_of_words_testbit (ws : list Z) :
  Forall (fun w => 0 <= w < 2 ^ 64) ws ->
  forall p, 0 <= p ->
            Z.testbit (bitmap_of_words ws) p
            = Z.testbit (nth (Z.to_nat (p / 64)) ws 0) (p mod 64).
Proof.
  induction 1 as [|w ws Hw _ IH]; intros p Hp; cbn [bitmap_of_words].
  - destruct (Z.to_nat (p / 64)); cbn [nth]; now rewrite !Z.bits_0.
  - pose proof (Z.div_mod p 64 ltac:(lia)) as Hdm.
    pose proof (Z.mod_pos_bound p 64 ltac:(lia)) as Hmb.
    rewrite Z.lor_spec.
    destruct (Z.lt_ge_cases p 64) as [Hlt|Hge].
    + rewrite Z.shiftl_spec_low by lia. rewrite orb_false_r.
      rewrite Z.div_small, Z.mod_small by lia. reflexivity.
    + rewrite Z.shiftl_spec by lia.
      assert (Hwp : Z.testbit w p = false).
      { destruct (Z.eq_dec w 0) as [->|]; [apply Z.bits_0|].
        apply Z.bits_above_log2; [lia|].
        apply Z.lt_le_trans with 64; [|lia].
        apply Z.log2_lt_pow2; lia. }
      rewrite Hwp, IH by lia. cbn [orb].
      replace (p - 64) with (p + (-1) * 64) by lia.
      rewrite Z.div_add, Z.mod_add by lia.
      assert (Hq : 1 <= p / 64)
        by (apply Z.div_le_lower_bound; lia).
      replace (Z.to_nat (p / 64)) with (S (Z.to_nat (p / 64 + -1)))
        by lia.
      reflexivity.
Qed.

Lemma length_bitmap_bytes (old : Z) (n : nat) :
  length (bitmap_bytes old n) = n.
Proof. unfold bitmap_bytes. now rewrite length_map, length_seq. Qed.

Lemma load_be64_bitmap_testbit (old : Z) (ws : list Z) (p : Z) :
  Forall (fun w => 0 <= w < 2 ^ 64) ws ->
  0 <= p < 64 * Z.of_nat (length ws) ->
  Z.testbit (load_be64_bitmap old (flat_map be64_bytes ws)
                              (8 * Z.of_nat (length ws))) p
  = Z.testbit (nth (Z.to_nat (p / 64)) ws 0) (p mod 64).
Proof.
  intros Hws Hp. unfold load_be64_bitmap. cbv zeta.
  pose proof (length_flat_map_be64 ws) as Hl.
  assert (Hlen : length (flat_map be64_bytes ws)
                 = Z.to_nat (8 * Z.of_nat (length ws))) by lia.
  rewrite skipn_all2 by (rewrite length_bitmap_bytes; lia).
  replace (8 * Z.of_nat (length ws) / 8) with (Z.of_nat (length ws))
    by (rewrite Z.mul_comm, Z.div_mul; lia).
  rewrite Nat2Z.id, be64_to_bitmap_words by exact Hws.
  rewrite Z.lor_spec, Z.shiftl_spec_low by lia.
  rewrite orb_false_r. apply bitmap_of_words_testbit; [exact Hws | lia].
Qed.

Lemma bitmap_copy_testbit (dst src nbits p : Z) :
  0 <= nbits -> 0 <= p < 64 * ((nbits + 63) / 64) ->
  Z.testbit (bitmap_copy dst src nbits) p = Z.testbit src p.
Proof.
  intros Hn Hp. unfold bitmap_copy. cbv zeta.
  rewrite Z.lor_spec, Z.land_spec, Z.shiftl_spec_low by lia.
  rewrite Z.ones_spec_low by lia.
  now rewrite andb_true_r, orb_false_r.
Qed.

Lemma strncmp_eq_refl (a : list Z) (n : nat) : strncmp_eq a a n = true.
Proof.
  revert a. induction n as [|n IH]; intros a; destruct a as [|x a];
    cbn [strncmp_eq]; try reflexivity.
  now rewrite Z.eqb_refl, IH.
Qed.

(** X15. The clean bitmap survives the trip from the source to the
    daemon.  For a block that starts on a page boundary at a page index
    that is a multiple of 64, what [postcopy_outgoing_send_clean_bitmap]
    writes for the block, followed by the terminator, is read by
    [postcopy_file_incoming_umemd_read_clean_bitmap] without error and up
    to the terminator, and afterwards page [p] of the block is marked
    clean, received and requested in the daemon exactly when it is not
    dirty on the source. *)
Theorem clean_bitmap_reaches_the_daemon
        (TPB bitmap : Z) (block : RB.t) (ub : UMB.t) (rest : list Z) :
  0 <= TPB ->
  0 <= RB.offset block ->
  0 <= RB.length block ->
  RB.offset block + RB.length block < 2 ^ 64 ->
  RB.offset block mod 2 ^ TPB = 0 ->
  Z.shiftr (RB.offset block) TPB mod 64 = 0 ->
  Forall (fun b => 0 < b < 256) (RB.idstr block) ->
  0 < strlen (RB.idstr block) <= 255 ->
  UMB.idstr ub = RB.idstr block ->
  UMB.length ub = RB.length block ->
  exists ub',
    postcopy_file_incoming_umemd_read_clean_bitmap
      TPB (postcopy_outgoing_send_clean_bitmap TPB [] bitmap [block] ++ rest)
      [ub]
    = Some (0, rest, [ub'])
    /\ forall p,
      0 <= p < Z.shiftr (RB.length block) TPB ->
      let clean := negb (test_bit (Z.shiftr (RB.offset block) TPB + p)
                                  bitmap) in
      test_bit p (UMB.clean_bitmap ub') = clean
      /\ test_bit p (UMB.phys_received ub') = clean
      /\ test_bit p (UMB.phys_requested ub') = clean.
Proof.
  intros HT Hoff Hlen Hend Hpal Hal Hid Hidlen Hname Hublen.
  destruct (@send_clean_bitmap_block_aligned TPB bitmap block HT Hoff Hlen
              Hend [] Hal) as (words & Hsend & Hlw & Hrange & Hbits).
  destruct (@bitmap_length_words TPB block HT Hoff Hlen Hend Hpal)
    as (Hnp & Hbl & Hblr).
  set (np := Z.shiftr (RB.offset block + RB.length block) TPB
             - Z.shiftr (RB.offset block) TPB) in *.
  assert (Hnp0 : 0 <= np)
    by (rewrite <- Hnp; apply Z.shiftr_nonneg; exact Hlen).
  assert (Hblw : postcopy_bitmap_length TPB (RB.length block)
                 = 8 * Z.of_nat (length words)) by lia.
  set (ub1 := postcopy_incoming_umemd_read_clean_bitmap_done
                TPB (UMB.set_phys_received
                       ub (load_be64_bitmap
                             (UMB.phys_received ub)
                             (flat_map be64_bytes words)
                             (8 * Z.of_nat (length words))))).
  exists ub1. split.
  - unfold postcopy_outgoing_send_clean_bitmap. cbn [fold_left].
    rewrite Hsend.
    change (QF.qemu_put_byte ?f 0) with (f ++ [0]).
    rewrite !qemu_put_be64_app, Hblw.
    rewrite (Z.mod_small (strlen (RB.idstr block))) by lia.
    rewrite map_mod_bytes
      by (eapply Forall_impl; [|exact Hid]; cbv beta; lia).
    rewrite <- !app_assoc. cbn [app].
    unfold postcopy_file_incoming_umemd_read_clean_bitmap.
    cbn [length]. rewrite read_clean_bitmap_loop_step.
    unfold strlen. rewrite clean_bitmap_header_app by lia.
    assert (Hz : (Z.of_nat (length (RB.idstr block)) =? 0) = false)
      by (apply Z.eqb_neq; unfold strlen in Hidlen; lia).
    rewrite Hz. cbn [andb].
    unfold postcopy_incoming_umemd_read_clean_bitmap.
    rewrite Z.mul_comm, Z.mod_mul by lia. change (0 =? 0) with true.
    cbn [negb]. rewrite Z.mul_comm.
    rewrite c_str_nonzero by exact Hid.
    cbn [find_block_index]. rewrite Hname, strncmp_eq_refl. cbn [nth].
    assert (Halloc : (bitmap_alloc_bytes TPB ub
                      <? 8 * Z.of_nat (length words)) = false).
    { apply Z.ltb_ge. unfold bitmap_alloc_bytes.
      rewrite Hublen, Hnp. lia. }
    rewrite Halloc.
    rewrite qemu_get_buffer_app
      by (symmetry; apply length_flat_map_be64).
    cbn [update_block]. change (0 <? 0) with false. cbv iota.
    fold ub1.
    match goal with
    | |- read_clean_bitmap_loop _ (S ?n) _ _ = _ =>
        rewrite (read_clean_bitmap_loop_step TPB n)
    end.
    change (0 :: be64_bytes 0 ++ be64_bytes 0 ++ be64_bytes 0 ++ rest)
      with (Z.of_nat (length (@nil Z))
              :: [] ++ be64_bytes 0 ++ be64_bytes 0 ++ be64_bytes 0
                    ++ rest).
    rewrite clean_bitmap_header_app by lia. reflexivity.
  - intros p Hp clean.
    assert (Hp64 : 0 <= p < 64 * ((np + 63) / 64)).
    { pose proof (Z.div_mod (np + 63) 64 ltac:(lia)).
      pose proof (Z.mod_pos_bound (np + 63) 64 ltac:(lia)). lia. }
    assert (Hload : Z.testbit
                      (load_be64_bitmap (UMB.phys_received ub)
                         (flat_map be64_bytes words)
                         (8 * Z.of_nat (length words))) p = clean).
    { rewrite load_be64_bitmap_testbit by (try exact Hrange; lia).
      rewrite Hbits by exact Hp64. unfold clean.
      destruct (Z.ltb_spec p np); [reflexivity | lia]. }
    assert (Hnb : Z.shiftr (UMB.length ub) TPB = np)
      by (rewrite Hublen; exact Hnp).
    unfold ub1, postcopy_incoming_umemd_read_clean_bitmap_done, test_bit.
    destruct ub as [i o l rq rc cb pc n].
    cbn [UMB.set_phys_received UMB.set_phys_requested UMB.set_clean_bitmap
         UMB.idstr UMB.offset UMB.length UMB.phys_requested
         UMB.phys_received UMB.clean_bitmap UMB.pending_clean_bitmap
         UMB.nr_pending_clean] in *.
    rewrite Hnb, !bitmap_copy_testbit by lia.
    repeat split; exact Hload.
Qed.

Lemma clean_bitmap_reaches_the_daemon_witness :
  let block := RB.mk [114] 0 (70 * 4096) in
  let ub := UMB.mk [114] 0 (70 * 4096) 0 0 0 0 0 in
  let dirty := 5 in
  exists ub',
    postcopy_file_incoming_umemd_read_clean_bitmap
      12 (postcopy_outgoing_send_clean_bitmap 12 [] dirty [block] ++ [16])
      [ub]
    = Some (0, [16], [ub'])
    /\ forall p,
      0 <= p < Z.shiftr (RB.length block) 12 ->
      let clean := negb (test_bit (Z.shiftr (RB.offset block) 12 + p)
                                  dirty) in
      test_bit p (UMB.clean_bitmap ub') = clean
      /\ test_bit p (UMB.phys_received ub') = clean
      /\ test_bit p (UMB.phys_requested ub') = clean.
Proof.
  cbv zeta.
  apply (@clean_bitmap_reaches_the_daemon
           12 5 (RB.mk [114] 0 (70 * 4096))
           (UMB.mk [114] 0 (70 * 4096) 0 0 0 0 0) [16]);
    cbn [RB.offset RB.length RB.idstr UMB.idstr UMB.length];
    try lia; try reflexivity.
  - constructor; [lia | constructor].
  - vm_compute. split; [reflexivity | discriminate].
Defined.

(* --------------------------------------------------------------------- *)
(** ** The QEMU_VM_POSTCOPY sections from the source to the destination *)

Lemma qemu_get_be32_app (v : Z) (f : QR.t) :
  0 <= v < 2 ^ 32 -> qemu_get_be32 (be32_bytes v ++ f) = (v, f).
Proof.
  intros Hv. unfold qemu_get_be32.
  rewrite <- (length_be32_bytes v), qemu_get_bytes_app.
  now rewrite be_to_cpu_be32.
Qed.

(** X16. The INIT section written by [postcopy_outgoing_state_begin] is
    accepted by [postcopy_incoming_loadvm_state] on a destination that can
    do post-copy (read/write or RDMA connection, no [mem_path], RAM
    prepared): it returns 0, consumes exactly the section, turns precopy
    on exactly when the source had [precopy_count > 0], and installs the
    matching RAM loader. *)
Theorem init_section_round_trip
        (env : InitEnv) (ce : Z) (pre : bool) (h : ram_load_handler)
        (precopy_count : Z) (rest : list Z) :
  file_is_rdma env = true \/ fd_is_rdwr env = true ->
  mem_path_set env = false ->
  prepare_error env = 0 ->
  postcopy_incoming_loadvm_state
    env ce pre h (postcopy_outgoing_state_begin [] precopy_count ++ rest)
  = (0, precopy_count >? 0,
     if precopy_count >? 0 then postcopy_incoming_ram_load_precopy
     else postcopy_incoming_ram_load,
     rest, None).
Proof.
  intros Hconn Hmem Hprep.
  unfold postcopy_outgoing_state_begin. cbv zeta.
  change (QF.qemu_put_byte [] QEMU_VM_POSTCOPY_INIT)
    with [QEMU_VM_POSTCOPY_INIT].
  rewrite qemu_put_be32_app, qemu_put_be64_app, <- !app_assoc.
  cbn [app].
  unfold postcopy_incoming_loadvm_state, qemu_get_byte. cbn [hd tl].
  rewrite qemu_get_be32_app by lia.
  change (QEMU_VM_POSTCOPY_INIT =? QEMU_VM_POSTCOPY_INIT) with true.
  cbv iota. unfold postcopy_incoming_loadvm_init.
  change (negb (8 =? 8)) with false. cbv iota.
  assert (Hconn' : negb (file_is_rdma env) && negb (fd_is_rdwr env)
                   = false)
    by (destruct Hconn as [-> | ->]; cbn;
        [reflexivity | apply andb_false_r]).
  destruct (precopy_count >? 0).
  - change (Z.lor 0 POSTCOPY_OPTION_PRECOPY) with 1.
    rewrite qemu_get_be64_app by lia. cbn -[Z.pow].
    rewrite Hconn', Hmem, Hprep. reflexivity.
  - rewrite qemu_get_be64_app by lia. cbn -[Z.pow].
    rewrite Hconn', Hmem, Hprep. reflexivity.
Qed.

Lemma init_section_round_trip_witness :
  postcopy_incoming_loadvm_state
    (mkInitEnv false true false 0) 0 false postcopy_incoming_ram_load
    (postcopy_outgoing_state_begin [] 3 ++ [1; 2])
  = (0, true, postcopy_incoming_ram_load_precopy, [1; 2], None).
Proof.
  apply (@init_section_round_trip
           (mkInitEnv false true false 0) 0 false
           postcopy_incoming_ram_load 3 [1; 2]);
    [right; reflexivity | reflexivity | reflexivity].
Defined.

(** X17. The SECTION_FULL section written by
    [postcopy_outgoing_state_complete] for a device-state buffer of at
    most 16 MiB is read back whole by [postcopy_incoming_loadvm_state]:
    the section is consumed, and when the daemon can be created the
    buffer handed on is the one the source wrote.  A size above 16 MiB is
    refused with -EINVAL before anything of the buffer is read, although
    the source writes such a section without complaint. *)
Theorem section_full_round_trip :
  (forall (env : InitEnv) (ce : Z) (pre : bool) (h : ram_load_handler)
          (buffer rest : list Z),
      is_bytes buffer ->
      Z.of_nat (length buffer) <= SAVE_VM_FULL_SIZE_MAX ->
      postcopy_incoming_loadvm_state
        env ce pre h (postcopy_outgoing_state_complete [] buffer ++ rest)
      = (ce, pre, h, rest, if ce =? 0 then Some buffer else None))
  /\ (forall (ce : Z) (f : QR.t) (size : Z),
         SAVE_VM_FULL_SIZE_MAX < size ->
         postcopy_incoming_loadvm_section_full ce f size
         = (- EINVAL, f, None)).
Proof.
  split.
  - intros env ce pre h buffer rest Hb Hlen.
    unfold postcopy_outgoing_state_complete. cbv zeta.
    change (QF.qemu_put_byte [] QEMU_VM_POSTCOPY_SECTION_FULL)
      with [QEMU_VM_POSTCOPY_SECTION_FULL].
    rewrite qemu_put_be32_app, qemu_put_buffer_app, <- !app_assoc.
    cbn [app].
    assert (Hm : map (fun b => b mod 256) buffer = buffer).
    { clear Hlen. induction Hb as [|b l Hb0 _ IH]; cbn [map];
        [reflexivity|]. rewrite IH, Z.mod_small by lia. reflexivity. }
    rewrite Hm.
    unfold postcopy_incoming_loadvm_state, qemu_get_byte. cbn [hd tl].
    unfold SAVE_VM_FULL_SIZE_MAX in Hlen.
    rewrite qemu_get_be32_app by lia.
    change (QEMU_VM_POSTCOPY_SECTION_FULL =? QEMU_VM_POSTCOPY_INIT)
      with false.
    change (QEMU_VM_POSTCOPY_SECTION_FULL =? QEMU_VM_POSTCOPY_SECTION_FULL)
      with true. cbv iota.
    unfold postcopy_incoming_loadvm_section_full, SAVE_VM_FULL_SIZE_MAX.
    destruct (Z.gtb_spec (Z.of_nat (length buffer)) (16 * 1024 * 1024));
      [lia|].
    rewrite qemu_get_buffer_app by reflexivity.
    rewrite Z.eqb_refl. cbn [negb].
    destruct (Z.eqb_spec ce 0) as [->|Hce]; reflexivity.
  - intros ce f size Hsize.
    unfold postcopy_incoming_loadvm_section_full.
    destruct (Z.gtb_spec size SAVE_VM_FULL_SIZE_MAX); [reflexivity | lia].
Qed.

Lemma section_full_round_trip_witness :
  postcopy_incoming_loadvm_state
    (mkInitEnv false true false 0) 0 true postcopy_incoming_ram_load_precopy
    (postcopy_outgoing_state_complete [] [7; 8; 9] ++ [1])
  = (0, true, postcopy_incoming_ram_load_precopy, [1], Some [7; 8; 9])
  /\ postcopy_incoming_loadvm_section_full 0 [7; 8; 9] 16777217
     = (- EINVAL, [7; 8; 9], None).
Proof.
  destruct section_full_round_trip as [H1 H2]. split.
  - apply (H1 (mkInitEnv false true false 0) 0 true
              postcopy_incoming_ram_load_precopy [7; 8; 9] [1]).
    + repeat constructor; lia.
    + vm_compute. discriminate.
  - apply H2. reflexivity.
Defined.

(* --------------------------------------------------------------------- *)
(** ** A split request from the daemon to the source *)

Lemma send_req_one_frame (r : QEMUUMemReq) (f : QF.t) :
  req_wf (frame_on_wire r) ->
  postcopy_incoming_send_req_one f r
  = Some (f ++ wire_bytes (frame_on_wire r)).
Proof.
  intros Hwf. rewrite <- (send_req_one_wire f Hwf).
  unfold postcopy_incoming_send_req_one, frame_on_wire.
  cbn [cmd idstr nr pgoffs set_pgoffs].
  rewrite !send_req_pgoffs_array. cbv zeta.
  assert (Harr : map (fun i => nth i (req_pgoffs_array r) 0)
                     (seq 0 (Z.to_nat (nr r)))
                 = map (fun i => nth i (pgoffs r) 0)
                       (seq 0 (Z.to_nat (nr r)))).
  { apply map_ext_in. intros i Hi. apply in_seq in Hi.
    unfold req_pgoffs_array. now rewrite nth_map_seq by lia. }
  rewrite Harr. reflexivity.
Qed.

Lemma send_all_frames (fs : list QEMUUMemReq) :
  Forall (fun r => req_wf (frame_on_wire r)) fs ->
  forall f : QF.t,
    send_all postcopy_incoming_send_req_one fs f
    = Some (f ++ flat_map (fun r => wire_bytes (frame_on_wire r)) fs).
Proof.
  induction 1 as [|r fs Hr _ IH]; intros f; cbn [send_all flat_map].
  - now rewrite app_nil_r.
  - rewrite (send_req_one_frame f Hr), IH, <- app_assoc. reflexivity.
Qed.

Lemma Forall_concat_inv {A : Type} (P : A -> Prop) (ls : list (list A)) :
  Forall P (concat ls) -> Forall (Forall P) ls.
Proof.
  induction ls as [|l ls IH]; cbn [concat]; intros H; constructor.
  - apply Forall_app in H. apply H.
  - apply IH. apply Forall_app in H. apply H.
Qed.

Section ServeFrames.
Variable TPB : Z.
Variable block : RB.t.
Hypothesis HTPB : 0 <= TPB <= 32.
Hypothesis Hlen : RB.length block <= 2 ^ 63.

(** Serving the pages of one message, with no prefault. *)
Lemma handle_page_message (ms : MigrationState) (req : QEMUUMemReq) :
  po ms = PO_STATE_ACTIVE ->
  prefault_forward ms = 0 -> prefault_backward ms = 0 ->
  nr req = Z.of_nat (length (pgoffs req)) ->
  0 < nr req ->
  in_range TPB block (pgoffs req) ->
  (cmd req = QEMU_UMEM_REQ_PAGE
   /\ ram_find_block (ram_list ms) (idstr req) (strlen (idstr req))
      = Some block)
  \/ (cmd req = QEMU_UMEM_REQ_PAGE_CONT
      /\ last_block_read ms = Some block) ->
  exists ms',
    postcopy_outgoing_handle_req TPB ms req = Some (0, ms')
    /\ file ms' = file ms ++ map (fun p => SavePage block (p * 2 ^ TPB))
                                 (pgoffs req)
    /\ po ms' = PO_STATE_ACTIVE
    /\ last_block_read ms' = Some block
    /\ file_read ms' = file_read ms
    /\ ram_list ms' = ram_list ms
    /\ prefault_forward ms' = 0 /\ prefault_backward ms' = 0.
Proof.
  intros Hpo HF HB Hnr Hnr0 Hps Hcase.
  assert (Harr : req_pgoffs_array req = pgoffs req).
  { rewrite req_pgoffs_array_firstn by lia.
    rewrite Hnr, Nat2Z.id. apply firstn_all. }
  assert (Hsave : forall f,
             save_pages TPB f (Some block) (pgoffs req) true 0
             = Some (f ++ map (fun p => SavePage block (p * 2 ^ TPB))
                              (pgoffs req))).
  { intros f.
    rewrite (@save_pages_forward TPB block HTPB Hlen (pgoffs req) 0 Hps)
      by lia.
    do 3 f_equal. clear Hnr Harr.
    induction Hps as [|p ps [Hp Hin] _ IH]; cbn [map filter];
      [reflexivity|].
    rewrite Z.add_0_r, Hin, IH. reflexivity. }
  assert (Hserve : forall m : MigrationState,
             po m = PO_STATE_ACTIVE ->
             prefault_forward m = 0 -> prefault_backward m = 0 ->
             last_block_read m = Some block ->
             exists ms',
               (if po_state_eqb (po m) PO_STATE_ALL_PAGES_SENT
                then Some (0, m)
                else
                  match save_pages TPB (file m) (last_block_read m)
                                   (req_pgoffs_array req) true 0 with
                  | None => None
                  | Some f =>
                      match prefault_pages TPB f (last_block_read m)
                              (req_pgoffs_array req) true 1
                              (Z.to_nat (u64 (prefault_forward m))) with
                      | None => None
                      | Some f0 =>
                          match move_background_last_seen TPB m req with
                          | None => None
                          | Some ms0 =>
                              match prefault_pages
                                      TPB f0 (last_block_read ms0)
                                      (req_pgoffs_array req) false 1
                                      (Z.to_nat (u64 (prefault_backward ms0)))
                              with
                              | None => None
                              | Some f1 => Some (0, set_file ms0 f1)
                              end
                          end
                      end
                  end) = Some (0, ms')
               /\ file ms' = file m
                             ++ map (fun p => SavePage block (p * 2 ^ TPB))
                                    (pgoffs req)
               /\ po ms' = PO_STATE_ACTIVE
               /\ last_block_read ms' = Some block
               /\ file_read ms' = file_read m
               /\ ram_list ms' = ram_list m
               /\ prefault_forward ms' = 0 /\ prefault_backward ms' = 0).
  { intros m Hm HmF HmB Hml.
    rewrite Hm, Hml, Harr, Hsave, HmF. cbn [po_state_eqb].
    change (Z.to_nat (u64 0)) with 0%nat. cbn [prefault_pages].
    destruct (@move_background_last_seen_some TPB m req block Hml)
      as (m1 & Em1); [lia|].
    rewrite Em1.
    destruct (@move_background_last_seen_fields TPB m m1 req Em1)
      as (Hp1 & Hl1 & Hf1 & Hr1 & Hrl1 & HF1 & HB1 & _).
    rewrite HB1, HmB. change (Z.to_nat (u64 0)) with 0%nat.
    cbn [prefault_pages]. eexists. split; [reflexivity|].
    cbn [set_file file po last_block_read file_read ram_list
         prefault_forward prefault_backward].
    rewrite Hp1, Hl1, Hr1, Hrl1, HF1, HB1. repeat split; assumption. }
  unfold postcopy_outgoing_handle_req.
  destruct Hcase as [[Hc Hfind] | [Hc Hlast]]; rewrite Hc.
  - change (QEMU_UMEM_REQ_PAGE =? QEMU_UMEM_REQ_EOC) with false.
    change (QEMU_UMEM_REQ_PAGE =? QEMU_UMEM_REQ_PAGE) with true. cbv iota.
    rewrite Hfind.
    destruct (Hserve (set_last_block_read ms (Some block)) Hpo HF HB
                     eq_refl) as (ms' & E & H).
    exists ms'. split; [exact E | exact H].
  - change (QEMU_UMEM_REQ_PAGE_CONT =? QEMU_UMEM_REQ_EOC) with false.
    change (QEMU_UMEM_REQ_PAGE_CONT =? QEMU_UMEM_REQ_PAGE) with false.
    change (QEMU_UMEM_REQ_PAGE_CONT =? QEMU_UMEM_REQ_PAGE_CONT) with true.
    cbv iota.
    destruct (Hserve ms Hpo HF HB Hlast) as (ms' & E & H).
    exists ms'. split; [exact E | exact H].
Qed.


Lemma wire_bytes_nonempty (r : QEMUUMemReq) : wire_bytes r <> [].
Proof. unfold wire_bytes. discriminate. Qed.

(** The messages that follow the first one of a split request. *)
Lemma serve_cont_messages (fs : list QEMUUMemReq) :
  forall (ms : MigrationState) (fuel : nat),
    Forall (fun r => cmd r = QEMU_UMEM_REQ_PAGE_CONT
                     /\ 0 < nr r
                     /\ req_wf (frame_on_wire r)
                     /\ in_range TPB block (req_pgoffs_array r)) fs ->
    po ms = PO_STATE_ACTIVE ->
    prefault_forward ms = 0 -> prefault_backward ms = 0 ->
    last_block_read ms = Some block ->
    file_read ms = flat_map (fun r => wire_bytes (frame_on_wire r)) fs ->
    (length fs < fuel)%nat ->
    exists ms',
      recv_handler_loop TPB fuel ms = Some (0, ms')
      /\ file ms' = file ms
                    ++ map (fun p => SavePage block (p * 2 ^ TPB))
                           (concat (map req_pgoffs_array fs))
      /\ po ms' = PO_STATE_ACTIVE
      /\ file_read ms' = [].
Proof.
  induction fs as [|r fs IH]; intros ms fuel Hall Hpo HF HB Hlast Hfr Hfuel;
    (destruct fuel as [|fuel]; [cbn [length] in Hfuel; lia|]);
    cbn [recv_handler_loop].
  - cbn [flat_map] in Hfr. rewrite Hfr.
    change (postcopy_outgoing_recv_req [] req_init)
      with (Some (- EAGAIN, req_init, @nil Z)).
    change (- EAGAIN <? 0) with true. cbv iota.
    change (- EAGAIN =? - EAGAIN) with true. cbv iota.
    eexists. split; [reflexivity|].
    cbn [set_file_read file po file_read map concat].
    rewrite app_nil_r. auto.
  - inversion Hall as [|r0 fs0 (Hc & Hpos & Hwf & Hin) Hall']; subst r0 fs0.
    cbn [flat_map] in Hfr. rewrite Hfr.
    destruct (recv_req_complete
                (flat_map (fun r => wire_bytes (frame_on_wire r)) fs) Hwf)
      as (req' & Hrecv & Hcmd & _ & Hoffs).
    rewrite Hrecv. change (0 <? 0) with false. cbv iota.
    assert (Hne : cmd (frame_on_wire r) <> QEMU_UMEM_REQ_EOC)
      by (unfold frame_on_wire; cbn [cmd set_pgoffs]; rewrite Hc;
          discriminate).
    destruct (Hoffs Hne) as [Hnr' Hpg'].
    unfold frame_on_wire in Hcmd, Hnr', Hpg'.
    cbn [cmd nr pgoffs set_pgoffs] in Hcmd, Hnr', Hpg'.
    destruct (@handle_page_message
                (set_file_read
                   ms (flat_map (fun r => wire_bytes (frame_on_wire r)) fs))
                req')
      as (ms1 & Eh & Hf1 & Hp1 & Hl1 & Hr1 & _ & HF1 & HB1);
      cbn [set_file_read po prefault_forward prefault_backward
           last_block_read]; try assumption.
    { rewrite Hnr', Hpg'. destruct Hwf as [_ _ _ Hwnr _ _].
      unfold frame_on_wire in Hwnr. cbn [nr pgoffs set_pgoffs] in Hwnr.
      exact Hwnr. }
    { rewrite Hnr'. exact Hpos. }
    { rewrite Hpg'. exact Hin. }
    { right. rewrite Hcmd, Hc. auto. }
    rewrite Eh. change (0 =? 0) with true. cbv iota.
    destruct (IH ms1 fuel Hall' Hp1 HF1 HB1 Hl1)
      as (ms' & El & Hf' & Hp' & Hr').
    { rewrite Hr1. reflexivity. }
    { cbn [length] in Hfuel. lia. }
    exists ms'. split; [exact El|].
    split; [|split; assumption].
    rewrite Hf', Hf1, Hpg'. cbn [set_file_read file map concat].
    rewrite map_app, <- app_assoc. reflexivity.
Qed.

End ServeFrames.

(** X18. A page request of any size, with at least one page, reaches the
    source whole.  When the daemon writes such a PAGE request for a block
    the source knows, splitting
    it into messages as [postcopy_file_incoming_send_req] does, and the
    source then runs [postcopy_outgoing_recv_handler] on these bytes with
    no prefault configured, the handler consumes all of them and sends
    exactly the requested pages of that block, in the order they were
    requested. *)
Theorem split_request_is_served_whole
        (TPB : Z) (block : RB.t) (ms : MigrationState) (req : QEMUUMemReq)
        (w : list Z) :
  0 <= TPB <= 32 ->
  RB.length block <= 2 ^ 63 ->
  req_wf req ->
  cmd req = QEMU_UMEM_REQ_PAGE ->
  0 < nr req ->
  in_range TPB block (pgoffs req) ->
  ram_find_block (ram_list ms) (idstr req) (strlen (idstr req))
  = Some block ->
  po ms = PO_STATE_ACTIVE ->
  prefault_forward ms = 0 -> prefault_backward ms = 0 ->
  postcopy_file_incoming_send_req postcopy_incoming_send_req_one [] req
  = Some w ->
  file_read ms = w ->
  exists ms',
    postcopy_outgoing_recv_handler TPB ms = Some ms'
    /\ file ms' = file ms
                  ++ map (fun p => SavePage block (p * 2 ^ TPB))
                         (pgoffs req)
    /\ po ms' = PO_STATE_ACTIVE
    /\ file_read ms' = [].
Proof.
  intros HT Hlen Hwf Hc Hpos Hin Hfind Hpo HF HB Hsend Hfr.
  pose proof Hwf as [_ Hid Hidlen Hnr Hn32 Hoffs].
  destruct (frames_of_page req Hc Hnr)
    as (rest & Hfs & Hall & Hcat & _).
  set (m := Z.min (nr req) MAX_PAGE_NR) in *.
  set (first := set_nr req m) in *.
  assert (Hm : 0 <= m <= nr req /\ m <= MAX_PAGE_NR)
    by (unfold m; rewrite MAX_PAGE_NR_eq; lia).
  assert (Hfa : req_pgoffs_array first = firstn (Z.to_nat m) (pgoffs req)).
  { rewrite req_pgoffs_array_firstn; unfold first; cbn [nr pgoffs set_nr];
      [reflexivity | lia]. }
  (* every message is well formed on the wire and within the block *)
  assert (Hrange : forall l, Forall (fun v => 0 <= v < 2 ^ 64) l ->
                             in_range TPB block l ->
                             forall r,
                               req_pgoffs_array r = l ->
                               0 <= nr r < 2 ^ 32 ->
                               idstr r = idstr req ->
                               cmd r = QEMU_UMEM_REQ_PAGE
                               \/ cmd r = QEMU_UMEM_REQ_PAGE_CONT ->
                               req_wf (frame_on_wire r)
                               /\ in_range TPB block (req_pgoffs_array r)).
  { intros l Hl1 Hl2 r Hr Hn Hi Hcr. split; [|now rewrite Hr].
    constructor; unfold frame_on_wire; cbn [cmd idstr nr pgoffs set_pgoffs].
    - tauto.
    - now rewrite Hi.
    - now rewrite Hi.
    - unfold req_pgoffs_array. rewrite length_map, length_seq. lia.
    - lia.
    - now rewrite Hr. }
  assert (Hfirst : req_wf (frame_on_wire first)
                   /\ in_range TPB block (req_pgoffs_array first)).
  { apply (Hrange (firstn (Z.to_nat m) (pgoffs req))).
    - apply Forall_forall. intros x Hx.
      apply (proj1 (Forall_forall _ _) Hoffs).
      rewrite <- (firstn_skipn (Z.to_nat m) (pgoffs req)).
      apply in_or_app. now left.
    - apply Forall_forall. intros x Hx.
      apply (proj1 (Forall_forall _ _) Hin).
      rewrite <- (firstn_skipn (Z.to_nat m) (pgoffs req)).
      apply in_or_app. now left.
    - exact Hfa.
    - unfold first. cbn [nr set_nr]. rewrite MAX_PAGE_NR_eq in Hm. lia.
    - reflexivity.
    - left. exact Hc. }
  assert (Hrest : Forall (fun r => cmd r = QEMU_UMEM_REQ_PAGE_CONT
                                   /\ 0 < nr r
                                   /\ req_wf (frame_on_wire r)
                                   /\ in_range TPB block
                                               (req_pgoffs_array r)) rest).
  { assert (Hs1 : Forall (fun v => 0 <= v < 2 ^ 64)
                         (concat (map req_pgoffs_array rest))).
    { rewrite Hcat. apply Forall_forall. intros x Hx.
      apply (proj1 (Forall_forall _ _) Hoffs).
      rewrite <- (firstn_skipn (Z.to_nat m) (pgoffs req)).
      apply in_or_app. now right. }
    assert (Hs2 : in_range TPB block (concat (map req_pgoffs_array rest))).
    { rewrite Hcat. apply Forall_forall. intros x Hx.
      apply (proj1 (Forall_forall _ _) Hin).
      rewrite <- (firstn_skipn (Z.to_nat m) (pgoffs req)).
      apply in_or_app. now right. }
    apply Forall_concat_inv in Hs1. apply Forall_concat_inv in Hs2.
    clear Hcat Hfs. induction Hall as [|r rest (Hrc & Hri & Hrn & _) _ IH];
      [constructor|].
    cbn [map] in Hs1, Hs2.
    inversion Hs1 as [|? ? Ha1 Hb1]; subst.
    inversion Hs2 as [|? ? Ha2 Hb2]; subst.
    constructor; [|apply IH; assumption].
    split; [exact Hrc|]. split; [lia|].
    apply (Hrange (req_pgoffs_array r)); auto.
    rewrite MAX_PAGE_NR_eq in Hrn. lia. }
  (* the bytes written *)
  rewrite postcopy_file_incoming_send_req_sink, Hfs in Hsend.
  rewrite send_all_frames in Hsend.
  2: { constructor; [apply Hfirst|].
       eapply Forall_impl; [|exact Hrest]. cbv beta. tauto. }
  injection Hsend as Hw.
  assert (Hw' : w = wire_bytes (frame_on_wire first)
                    ++ flat_map (fun r => wire_bytes (frame_on_wire r))
                                rest)
    by (rewrite <- Hw; reflexivity).
  clear Hw.
  (* the first message *)
  unfold postcopy_outgoing_recv_handler. rewrite Hpo.
  cbn [po_state_eqb orb recv_handler_loop]. rewrite Hfr, Hw'.
  destruct (recv_req_complete
              (flat_map (fun r => wire_bytes (frame_on_wire r)) rest)
              (proj1 Hfirst)) as (req' & Hrecv & Hcmd & Hidr & Hoff').
  rewrite Hrecv. change (0 <? 0) with false. cbv iota.
  assert (Hcf : cmd (frame_on_wire first) = QEMU_UMEM_REQ_PAGE)
    by exact Hc.
  assert (Hne : cmd (frame_on_wire first) <> QEMU_UMEM_REQ_EOC)
    by (rewrite Hcf; discriminate).
  destruct (Hoff' Hne) as [Hnr' Hpg'].
  specialize (Hidr Hcf).
  unfold frame_on_wire in Hcmd, Hnr', Hpg', Hidr.
  cbn [cmd nr pgoffs idstr set_pgoffs] in Hcmd, Hnr', Hpg', Hidr.
  unfold first in Hcmd, Hidr. cbn [cmd idstr set_nr] in Hcmd, Hidr.
  destruct (@handle_page_message
              TPB block HT Hlen
              (set_file_read
                 ms (flat_map (fun r => wire_bytes (frame_on_wire r)) rest))
              req')
    as (ms1 & Eh & Hf1 & Hp1 & Hl1 & Hr1 & _ & HF1 & HB1);
    cbn [set_file_read po prefault_forward prefault_backward
         last_block_read ram_list]; try assumption.
  { rewrite Hnr', Hpg'. destruct Hfirst as [[_ _ _ Hwnr _ _] _].
    unfold frame_on_wire in Hwnr. cbn [nr pgoffs set_pgoffs] in Hwnr.
    exact Hwnr. }
  { rewrite Hnr'. unfold first. cbn [nr set_nr]. unfold m.
    rewrite MAX_PAGE_NR_eq. lia. }
  { rewrite Hpg'. apply Hfirst. }
  { left. rewrite Hcmd, Hidr. auto. }
  rewrite Eh. change (0 =? 0) with true. cbv iota.
  (* the messages that follow *)
  destruct (@serve_cont_messages TPB block HT Hlen rest ms1
              (length (wire_bytes (frame_on_wire first)
                       ++ flat_map (fun r => wire_bytes (frame_on_wire r))
                                   rest))
              Hrest Hp1 HF1 HB1 Hl1)
    as (ms' & El & Hf' & Hp' & Hr').
  { rewrite Hr1. reflexivity. }
  { rewrite length_app.
    assert (Hl : (length rest
                  <= length (flat_map
                               (fun r => wire_bytes (frame_on_wire r))
                               rest))%nat).
    { clear. induction rest as [|r rest IH]; cbn [flat_map length];
        [lia|]. rewrite length_app.
      pose proof (@wire_bytes_nonempty (frame_on_wire r)).
      destruct (wire_bytes (frame_on_wire r)); [contradiction|].
      cbn [length]. lia. }
    pose proof (@wire_bytes_nonempty (frame_on_wire first)).
    destruct (wire_bytes (frame_on_wire first)); [contradiction|].
    cbn [length]. lia. }
  rewrite El. change (0 <? 0) with false. cbv iota.
  exists ms'. split; [reflexivity|]. split; [|split; assumption].
  rewrite Hf', Hf1, Hpg', Hfa, Hcat. cbn [set_file_read file].
  rewrite <- app_assoc, <- map_app, firstn_skipn. reflexivity.
Qed.

Lemma split_request_is_served_whole_witness :
  let block := RB.mk [114] 0 (10 * 4096) in
  let w := [1; 1; 114; 0; 0; 0; 2;
            0; 0; 0; 0; 0; 0; 0; 5; 0; 0; 0; 0; 0; 0; 0; 7] in
  let ms := mkMS PO_STATE_ACTIVE None [] w [block] 0 0 false false None in
  postcopy_file_incoming_send_req
    postcopy_incoming_send_req_one []
    (mkReq QEMU_UMEM_REQ_PAGE 0 [114] 2 [5; 7]) = Some w
  /\ exists ms',
      postcopy_outgoing_recv_handler 12 ms = Some ms'
      /\ file ms' = [] ++ map (fun p => SavePage block (p * 2 ^ 12)) [5; 7]
      /\ po ms' = PO_STATE_ACTIVE
      /\ file_read ms' = [].
Proof.
  cbv zeta.
  assert (E : postcopy_file_incoming_send_req
                postcopy_incoming_send_req_one []
                (mkReq QEMU_UMEM_REQ_PAGE 0 [114] 2 [5; 7])
              = Some [1; 1; 114; 0; 0; 0; 2;
                      0; 0; 0; 0; 0; 0; 0; 5; 0; 0; 0; 0; 0; 0; 0; 7])
    by (vm_compute; reflexivity).
  split; [exact E|].
  apply (@split_request_is_served_whole
           12 (RB.mk [114] 0 (10 * 4096))
           (mkMS PO_STATE_ACTIVE None []
                 [1; 1; 114; 0; 0; 0; 2;
                  0; 0; 0; 0; 0; 0; 0; 5; 0; 0; 0; 0; 0; 0; 0; 7]
                 [RB.mk [114] 0 (10 * 4096)] 0 0 false false None)
           (mkReq QEMU_UMEM_REQ_PAGE 0 [114] 2 [5; 7])
           [1; 1; 114; 0; 0; 0; 2;
            0; 0; 0; 0; 0; 0; 0; 5; 0; 0; 0; 0; 0; 0; 0; 7]);
    try reflexivity; try exact E; try (cbn [RB.length]; lia).
  - constructor; cbn [cmd idstr nr pgoffs length strlen].
    + right; left; reflexivity.
    + constructor; [lia | constructor].
    + vm_compute. split; [reflexivity | discriminate].
    + reflexivity.
    + reflexivity.
    + constructor; [lia | constructor; [lia | constructor]].
  - constructor; [split; [lia | reflexivity]|].
    constructor; [split; [lia | reflexivity] | constructor].
Defined.

(* --------------------------------------------------------------------- *)
(** ** What the daemon tells the supervisor *)

Lemma state_has_set_lor (u : Umemd) (m mask : Z) :
  state_has u mask = true ->
  state_has (set_state u (Z.lor (state u) m)) mask = true.
Proof.
  unfold state_has. cbn [state set_state]. intros H.
  apply negb_true_iff in H. apply Z.eqb_neq in H.
  apply negb_true_iff. apply Z.eqb_neq. intros E. apply H.
  apply Z.bits_inj'. intros n Hn.
  assert (En : Z.testbit (Z.land (Z.lor (state u) m) mask) n = false)
    by (rewrite E; apply Z.bits_0).
  rewrite Z.land_spec, Z.lor_spec in En. rewrite Z.land_spec, Z.bits_0.
  destruct (Z.testbit (state u) n), (Z.testbit mask n);
    cbn in *; congruence.
Qed.

Lemma state_has_set_self (u : Umemd) (m : Z) :
  m <> 0 -> 0 <= m ->
  state_has (set_state u (Z.lor (state u) m)) m = true.
Proof.
  intros Hm H0. unfold state_has. cbn [state set_state].
  apply negb_true_iff. apply Z.eqb_neq.
  rewrite Z.land_lor_distr_l, Z.land_diag. intros E.
  apply Z.lor_eq_0_iff in E. tauto.
Qed.

Lemma pipe_loop_parts (env : PipeEnv) (u : Umemd) :
  postcopy_incoming_umemd_pipe_loop env u =
  if select_ret env =? -1 then
    if errno_is_eintr env then Some (0, u) else Some (select_ret env, u)
  else
    match pipe_loop_command env u with
    | None => None
    | Some u =>
        if negb (to_qemu u) then Some (0, u)
        else Some (0, pipe_loop_quit (pipe_loop_error u))
    end.
Proof. reflexivity. Qed.

(** The supervisor has been told [e], [q]: the bytes in the pipe, and the
    state bits and the file that go with them. *)
Lemma told_keep (u v : Umemd) (e q : bool) :
  to_qemu_pipe v = to_qemu_pipe u -> to_qemu v = to_qemu u ->
  (forall mask, state_has u mask = true -> state_has v mask = true) ->
  to_qemu_pipe u = supervisor_told e q
  /\ (e = true -> state_has u UMEM_STATE_ERROR_SENDING = true)
  /\ (q = true -> state_has u (Z.lor UMEM_STATE_QUIT_SENDING
                                     UMEM_STATE_QUIT_SENT) = true
                  /\ to_qemu u = false) ->
  to_qemu_pipe v = supervisor_told e q
  /\ (e = true -> state_has v UMEM_STATE_ERROR_SENDING = true)
  /\ (q = true -> state_has v (Z.lor UMEM_STATE_QUIT_SENDING
                                     UMEM_STATE_QUIT_SENT) = true
                  /\ to_qemu v = false).
Proof.
  intros Hp Ho Hs (A & B & C). rewrite Hp, Ho.
  split; [exact A|]. split.
  - intros E. apply Hs. now apply B.
  - intros E. destruct (C E) as [C1 C2]. split; [now apply Hs | exact C2].
Qed.

Lemma set_lor_keeps (u : Umemd) (m : Z) :
  to_qemu_pipe (set_state u (Z.lor (state u) m)) = to_qemu_pipe u
  /\ to_qemu (set_state u (Z.lor (state u) m)) = to_qemu u
  /\ (forall mask, state_has u mask = true ->
                   state_has (set_state u (Z.lor (state u) m)) mask = true).
Proof.
  split; [reflexivity|]. split; [reflexivity|].
  intros mask. apply state_has_set_lor.
Qed.

Lemma queue_quit_keeps (u : Umemd) :
  to_qemu_pipe (postcopy_incoming_umem_queue_quit_locked u) = to_qemu_pipe u
  /\ to_qemu (postcopy_incoming_umem_queue_quit_locked u) = to_qemu u
  /\ (forall mask, state_has u mask = true ->
                   state_has (postcopy_incoming_umem_queue_quit_locked u)
                             mask = true).
Proof.
  unfold postcopy_incoming_umem_queue_quit_locked.
  destruct (state_has u UMEM_STATE_QUIT_QUEUED); [auto|].
  apply set_lor_keeps.
Qed.

Lemma recv_quit_keeps (u : Umemd) :
  to_qemu_pipe (postcopy_incoming_umem_recv_quit u) = to_qemu_pipe u
  /\ to_qemu (postcopy_incoming_umem_recv_quit u) = to_qemu u
  /\ (forall mask, state_has u mask = true ->
                   state_has (postcopy_incoming_umem_recv_quit u)
                             mask = true).
Proof.
  unfold postcopy_incoming_umem_recv_quit.
  destruct (state_has u UMEM_STATE_QUIT_RECEIVED); [auto|].
  split; [reflexivity|]. split; [reflexivity|].
  intros mask H.
  apply (@state_has_set_lor
           (set_from_qemu
              (set_state u (Z.lor (state u) UMEM_STATE_QUIT_RECEIVED))
              None)).
  unfold state_has. cbn [state set_from_qemu].
  change (state_has (set_state u (Z.lor (state u)
                                        UMEM_STATE_QUIT_RECEIVED)) mask
          = true).
  now apply state_has_set_lor.
Qed.

Lemma keeps_trans (u v w : Umemd) :
  (to_qemu_pipe v = to_qemu_pipe u /\ to_qemu v = to_qemu u
   /\ (forall mask, state_has u mask = true -> state_has v mask = true)) ->
  (to_qemu_pipe w = to_qemu_pipe v /\ to_qemu w = to_qemu v
   /\ (forall mask, state_has v mask = true -> state_has w mask = true)) ->
  to_qemu_pipe w = to_qemu_pipe u /\ to_qemu w = to_qemu u
  /\ (forall mask, state_has u mask = true -> state_has w mask = true).
Proof.
  intros (A1 & A2 & A3) (B1 & B2 & B3).
  split; [congruence|]. split; [congruence|]. auto.
Qed.

Lemma done_keeps (u : Umemd) :
  to_qemu_pipe (postcopy_incoming_umem_done u) = to_qemu_pipe u
  /\ to_qemu (postcopy_incoming_umem_done u) = to_qemu u
  /\ (forall mask, state_has u mask = true ->
                   state_has (postcopy_incoming_umem_done u) mask = true).
Proof.
  unfold postcopy_incoming_umem_done, postcopy_incoming_umem_req_eoc.
  eapply keeps_trans; [apply set_lor_keeps | apply queue_quit_keeps].
Qed.

Lemma eos_received_keeps (u : Umemd) :
  to_qemu_pipe (postcopy_incoming_umem_eos_received u) = to_qemu_pipe u
  /\ to_qemu (postcopy_incoming_umem_eos_received u) = to_qemu u
  /\ (forall mask, state_has u mask = true ->
                   state_has (postcopy_incoming_umem_eos_received u)
                             mask = true).
Proof.
  unfold postcopy_incoming_umem_eos_received. cbv zeta.
  eapply keeps_trans; [apply queue_quit_keeps | apply set_lor_keeps].
Qed.

Lemma pipe_loop_command_keeps (env : PipeEnv) (u v : Umemd) :
  pipe_loop_command env u = Some v ->
  to_qemu_pipe v = to_qemu_pipe u /\ to_qemu v = to_qemu u
  /\ (forall mask, state_has u mask = true -> state_has v mask = true).
Proof.
  unfold pipe_loop_command. destruct (from_qemu u) as [f|].
  2: { intros E; injection E as <-. auto. }
  destruct (from_qemu_readable env).
  2: { intros E; injection E as <-. auto. }
  destruct (qemu_get_byte f) as [c f0].
  destruct (c =? UMEM_QEMU_QUIT).
  - intros E; injection E as <-.
    eapply keeps_trans; [|apply done_keeps].
    eapply keeps_trans; [|apply recv_quit_keeps].
    split; [reflexivity|]. split; [reflexivity|]. auto.
  - destruct (c =? 0); [|discriminate].
    intros E; injection E as <-. auto.
Qed.

Lemma told_error (u : Umemd) (e : bool) :
  to_qemu_pipe u = supervisor_told e false ->
  (e = true -> state_has u UMEM_STATE_ERROR_SENDING = true) ->
  exists e',
    to_qemu_pipe (pipe_loop_error u) = supervisor_told e' false
    /\ (e' = true ->
        state_has (pipe_loop_error u) UMEM_STATE_ERROR_SENDING = true)
    /\ to_qemu (pipe_loop_error u) = to_qemu u.
Proof.
  intros Hp He. unfold pipe_loop_error.
  destruct (state_has u UMEM_STATE_ERROR_REQ
            && negb (state_has u UMEM_STATE_ERROR_SENDING)) eqn:Hc.
  - apply andb_true_iff in Hc. destruct Hc as [_ Hns].
    apply negb_true_iff in Hns.
    assert (He0 : e = false).
    { destruct e; [|reflexivity]. rewrite (He eq_refl) in Hns.
      discriminate. }
    subst e. exists true. cbv zeta.
    cbn [to_qemu_pipe set_state set_to_qemu_pipe state to_qemu].
    rewrite Hp. split; [reflexivity|]. split; [|reflexivity].
    intros _.
    apply (@state_has_set_lor
             (set_to_qemu_pipe
                (set_state u (Z.lor (state u) UMEM_STATE_ERROR_SENDING))
                (umem_daemon_error (supervisor_told false false)))
             UMEM_STATE_ERROR_SENT UMEM_STATE_ERROR_SENDING).
    apply (@state_has_set_self u UMEM_STATE_ERROR_SENDING);
      [discriminate | vm_compute; discriminate].
  - exists e. auto.
Qed.

Lemma told_quit (u : Umemd) (e : bool) :
  to_qemu_pipe u = supervisor_told e false ->
  (e = true -> state_has u UMEM_STATE_ERROR_SENDING = true) ->
  exists q',
    to_qemu_pipe (pipe_loop_quit u) = supervisor_told e q'
    /\ (e = true ->
        state_has (pipe_loop_quit u) UMEM_STATE_ERROR_SENDING = true)
    /\ (q' = true ->
        state_has (pipe_loop_quit u)
                  (Z.lor UMEM_STATE_QUIT_SENDING UMEM_STATE_QUIT_SENT)
        = true
        /\ to_qemu (pipe_loop_quit u) = false).
Proof.
  intros Hp He. unfold pipe_loop_quit.
  destruct (state_has u UMEM_STATE_QUIT_QUEUED
            && negb (state_has u (Z.lor UMEM_STATE_QUIT_SENDING
                                        UMEM_STATE_QUIT_SENT))).
  - exists true. cbv zeta.
    cbn [to_qemu_pipe set_state set_to_qemu_pipe set_to_qemu state
         to_qemu].
    rewrite Hp. split.
    { unfold supervisor_told, umem_daemon_quit, QF.qemu_put_byte.
      rewrite app_nil_r. reflexivity. }
    split.
    + intros E.
      apply (@state_has_set_lor
               (set_to_qemu
                  (set_to_qemu_pipe
                     (set_state u (Z.lor (state u)
                                         UMEM_STATE_QUIT_SENDING))
                     (umem_daemon_quit (supervisor_told e false)))
                  false)
               UMEM_STATE_QUIT_SENT UMEM_STATE_ERROR_SENDING).
      unfold state_has. cbn [state set_to_qemu set_to_qemu_pipe].
      change (state_has (set_state u (Z.lor (state u)
                                            UMEM_STATE_QUIT_SENDING))
                        UMEM_STATE_ERROR_SENDING = true).
      apply state_has_set_lor. now apply He.
    + intros _. split; [|reflexivity].
      unfold state_has. cbn [state set_state set_to_qemu
                                   set_to_qemu_pipe].
      apply negb_true_iff. apply Z.eqb_neq.
      rewrite !Z.land_lor_distr_l. intros E.
      apply Z.lor_eq_0_iff in E. destruct E as [_ E].
      vm_compute in E. discriminate.
  - exists false. split; [exact Hp|]. split; [exact He | discriminate].
Qed.

Lemma told_step (u u' : Umemd) (e q : bool) :
  daemon_step u u' ->
  to_qemu_pipe u = supervisor_told e q
  /\ (e = true -> state_has u UMEM_STATE_ERROR_SENDING = true)
  /\ (q = true -> state_has u (Z.lor UMEM_STATE_QUIT_SENDING
                                     UMEM_STATE_QUIT_SENT) = true
                  /\ to_qemu u = false) ->
  exists e' q',
    to_qemu_pipe u' = supervisor_told e' q'
    /\ (e' = true -> state_has u' UMEM_STATE_ERROR_SENDING = true)
    /\ (q' = true -> state_has u' (Z.lor UMEM_STATE_QUIT_SENDING
                                         UMEM_STATE_QUIT_SENT) = true
                     /\ to_qemu u' = false).
Proof.
  intros Hstep Hinv.
  destruct Hstep as [env u u' ret Hloop | u | u | u | u
                    | u Hreq Hnot | u Hsending | u u' Es Ep Eo Epipe Ef].
  - rewrite pipe_loop_parts in Hloop.
    destruct (select_ret env =? -1).
    { exists e, q.
      destruct (errno_is_eintr env); injection Hloop as _ <-; exact Hinv. }
    destruct (pipe_loop_command env u) as [v|] eqn:Hcmd; [|discriminate].
    apply pipe_loop_command_keeps in Hcmd. destruct Hcmd as (K1 & K2 & K3).
    pose proof (@told_keep u v e q K1 K2 K3 Hinv) as (A & B & C).
    destruct (to_qemu v) eqn:Hopen; cbn [negb] in Hloop;
      injection Hloop as _ <-.
    + assert (Hq0 : q = false).
      { destruct q; [|reflexivity]. destruct (C eq_refl) as [_ D].
        discriminate. }
      subst q.
      destruct (@told_error v e A B) as (e1 & A1 & B1 & _).
      destruct (@told_quit (pipe_loop_error v) e1 A1 B1)
        as (q1 & A2 & B2 & C2).
      exists e1, q1. auto.
    + exists e, q. rewrite Hopen in *. auto.
  - exists e, q.
    destruct (set_lor_keeps u UMEM_STATE_ERROR_REQ) as (K1 & K2 & K3).
    exact (@told_keep _ _ e q K1 K2 K3 Hinv).
  - exists e, q.
    destruct (set_lor_keeps u UMEM_STATE_EOC_SEND_REQ) as (K1 & K2 & K3).
    exact (@told_keep _ _ e q K1 K2 K3 Hinv).
  - exists e, q. destruct (eos_received_keeps u) as (K1 & K2 & K3).
    exact (@told_keep _ _ e q K1 K2 K3 Hinv).
  - exists e, q. destruct (done_keeps u) as (K1 & K2 & K3).
    exact (@told_keep _ _ e q K1 K2 K3 Hinv).
  - exists e, q.
    destruct (set_lor_keeps u UMEM_STATE_EOC_SENDING) as (K1 & K2 & K3).
    exact (@told_keep _ _ e q K1 K2 K3 Hinv).
  - exists e, q.
    destruct (set_lor_keeps u UMEM_STATE_EOC_SENT) as (K1 & K2 & K3).
    exact (@told_keep _ _ e q K1 K2 K3 Hinv).
  - exists e, q.
    apply (@told_keep u u' e q Epipe Eo); [|exact Hinv].
    intros mask. unfold state_has. now rewrite Es.
Qed.

(** X19. Over any interleaving of turns of the pipe loop with the state
    updates of the other threads (those of the end-of-connection request
    included) and with their changes to the blocks and the stream file,
    the daemon tells the supervisor ERROR at most once and QUIT at most
    once, never ERROR after QUIT, and once QUIT has been written the file
    to the supervisor is closed. *)
Theorem daemon_tells_supervisor_at_most_once (u0 u : Umemd) :
  to_qemu_pipe u0 = [] ->
  daemon_run u0 u ->
  exists e q,
    to_qemu_pipe u = supervisor_told e q
    /\ (q = true -> to_qemu u = false).
Proof.
  intros H0 Hrun.
  assert (Hinv : exists e q,
             to_qemu_pipe u = supervisor_told e q
             /\ (e = true -> state_has u UMEM_STATE_ERROR_SENDING = true)
             /\ (q = true ->
                 state_has u (Z.lor UMEM_STATE_QUIT_SENDING
                                    UMEM_STATE_QUIT_SENT) = true
                 /\ to_qemu u = false)).
  { induction Hrun as [u|u v w Hrun IH Hstep].
    - exists false, false. split; [exact H0|]. split; discriminate.
    - destruct (IH H0) as (e & q & Hinv).
      exact (@told_step v w e q Hstep Hinv). }
  destruct Hinv as (e & q & A & _ & C).
  exists e, q. split; [exact A|]. intros E. now apply C.
Qed.

Lemma daemon_tells_supervisor_at_most_once_witness :
  let u0 := mkUmemd 0 false [] None true [] (Some [UMEM_QEMU_QUIT]) [] in
  let u1 := postcopy_incoming_umem_error_req u0 in
  exists u2,
    postcopy_incoming_umemd_pipe_loop (mkPipeEnv 1 false true) u1
    = Some (0, u2)
    /\ to_qemu_pipe u2 = [UMEM_DAEMON_ERROR; UMEM_DAEMON_QUIT]
    /\ let u3 := set_state u2 (Z.lor (state u2) UMEM_STATE_EOC_SENDING) in
       let u4 := set_state u3 (Z.lor (state u3) UMEM_STATE_EOC_SENT) in
       state_has u4 UMEM_STATE_EOC_SENT = true
       /\ exists e q,
           to_qemu_pipe u4 = supervisor_told e q
           /\ (q = true -> to_qemu u4 = false).
Proof.
  cbv zeta. eexists.
  match goal with
  | |- ?A /\ _ => assert (E : A) by (vm_compute; reflexivity)
  end.
  split; [exact E|]. split; [reflexivity|]. split; [reflexivity|].
  apply (@daemon_tells_supervisor_at_most_once
           (mkUmemd 0 false [] None true [] (Some [UMEM_QEMU_QUIT]) []));
    [reflexivity|].
  eapply run_step;
    [eapply run_step;
     [eapply run_step; [eapply run_step; [apply run_refl|]|]|]|].
  - apply step_error_req.
  - eapply step_pipe_loop. exact E.
  - apply step_eoc_sending; reflexivity.
  - apply step_eoc_sent; reflexivity.
Defined.

Lemma pipe_loop_error_grows (u : Umemd) (mask : Z) :
  state_has u mask = true -> state_has (pipe_loop_error u) mask = true.
Proof.
  intros H. unfold pipe_loop_error.
  destruct (_ && _); [|exact H]. cbv zeta.
  apply (@state_has_set_lor
           (set_to_qemu_pipe
              (set_state u (Z.lor (state u) UMEM_STATE_ERROR_SENDING))
              (umem_daemon_error
                 (to_qemu_pipe
                    (set_state u (Z.lor (state u)
                                        UMEM_STATE_ERROR_SENDING)))))).
  unfold state_has. cbn [state set_to_qemu_pipe].
  change (state_has (set_state u (Z.lor (state u)
                                        UMEM_STATE_ERROR_SENDING)) mask
          = true).
  now apply state_has_set_lor.
Qed.

Lemma pipe_loop_quit_grows (u : Umemd) (mask : Z) :
  state_has u mask = true -> state_has (pipe_loop_quit u) mask = true.
Proof.
  intros H. unfold pipe_loop_quit.
  destruct (_ && _); [|exact H]. cbv zeta.
  match goal with
  | |- state_has (set_state ?w _) _ = true =>
      apply (@state_has_set_lor w)
  end.
  unfold state_has. cbn [state set_to_qemu set_to_qemu_pipe].
  change (state_has (set_state u (Z.lor (state u)
                                        UMEM_STATE_QUIT_SENDING)) mask
          = true).
  now apply state_has_set_lor.
Qed.

(** X20. No step of the daemon clears a bit of the state word, the two
    updates of [postcopy_incoming_umem_check_eoc_req] included: a
    condition [state & mask] that holds at some point of a run holds from
    then on. *)
Theorem daemon_state_bits_are_never_cleared (u0 u : Umemd) (mask : Z) :
  daemon_run u0 u ->
  state_has u0 mask = true ->
  state_has u mask = true.
Proof.
  intros Hrun H0. induction Hrun as [u|u v w Hrun IH Hstep];
    [exact H0|].
  specialize (IH H0).
  destruct Hstep as [env v w ret Hloop | v | v | v | v
                    | v Hreq Hnot | v Hsending | v w Es Ep Eo Epipe Ef].
  - rewrite pipe_loop_parts in Hloop.
    destruct (select_ret env =? -1).
    { destruct (errno_is_eintr env); injection Hloop as _ <-; exact IH. }
    destruct (pipe_loop_command env v) as [v1|] eqn:Hcmd; [|discriminate].
    apply pipe_loop_command_keeps in Hcmd. destruct Hcmd as (_ & _ & K3).
    destruct (negb (to_qemu v1)); injection Hloop as _ <-.
    + now apply K3.
    + apply pipe_loop_quit_grows, pipe_loop_error_grows. now apply K3.
  - now apply state_has_set_lor.
  - now apply state_has_set_lor.
  - now apply eos_received_keeps.
  - now apply done_keeps.
  - now apply state_has_set_lor.
  - now apply state_has_set_lor.
  - unfold state_has in *. now rewrite Es.
Qed.

Lemma daemon_state_bits_are_never_cleared_witness :
  let u0 := mkUmemd UMEM_STATE_EOS_RECEIVED false [] None true []
                    (Some [UMEM_QEMU_QUIT]) [] in
  exists u1,
    postcopy_incoming_umemd_pipe_loop (mkPipeEnv 1 false true) u0
    = Some (0, u1)
    /\ state u1 = 0x1f3
    /\ let u2 := set_state u1 (Z.lor (state u1) UMEM_STATE_EOC_SENDING) in
       let u3 := set_state u2 (Z.lor (state u2) UMEM_STATE_EOC_SENT) in
       daemon_run u0 u3
       /\ state u3 = UMEM_STATE_END_MASK
       /\ state_has u3 UMEM_STATE_EOS_RECEIVED = true.
Proof.
  cbv zeta. eexists.
  match goal with
  | |- ?A /\ _ => assert (E : A) by (vm_compute; reflexivity)
  end.
  split; [exact E|]. split; [reflexivity|].
  match goal with
  | |- ?R /\ _ =>
      assert (Hrun : R)
        by (eapply run_step;
            [eapply run_step;
             [eapply run_step; [apply run_refl|];
              eapply step_pipe_loop; exact E
             | apply step_eoc_sending; reflexivity]
            | apply step_eoc_sent; reflexivity])
  end.
  split; [exact Hrun|]. split; [reflexivity|].
  exact (@daemon_state_bits_are_never_cleared _ _ UMEM_STATE_EOS_RECEIVED
           Hrun eq_refl).
Defined.

(* --------------------------------------------------------------------- *)
(** ** What the supervisor tells the daemon *)

(** X21. When the supervisor reads the daemon's QUIT while its own quit
    protocol has not started, [postcopy_incoming_qemu_handle_req] answers
    with exactly one QUIT command, closes both control files and their
    descriptors, removes its handler and ends with the three quit bits
    set. *)
Theorem supervisor_answers_quit (s : PIS.t) (rest : list Z) :
  PIS.state s = 0 ->
  PIS.to_umemd s = true ->
  0 <= PIS.to_umemd_fd s ->
  PIS.from_umemd s = Some (UMEM_DAEMON_QUIT :: rest) ->
  postcopy_incoming_qemu_handle_req s
  = Some (PIS.mk (Z.lor PIS_STATE_QUIT_RECEIVED
                        (Z.lor PIS_STATE_QUIT_QUEUED PIS_STATE_QUIT_SENT))
                 (-1) false (PIS.to_umemd_pipe s ++ [UMEM_QEMU_QUIT])
                 (fd_close (PIS.from_umemd_fd s)) None false
                 (PIS.vm_stopped s)).
Proof.
  intros Hst Hopen Hfd Hfrom.
  destruct s as [st tfd t tp ffd f h vs].
  cbn [PIS.state PIS.to_umemd PIS.to_umemd_fd PIS.from_umemd
       PIS.to_umemd_pipe PIS.from_umemd_fd PIS.vm_stopped] in *.
  subst st t f.
  unfold postcopy_incoming_qemu_handle_req.
  cbn [PIS.from_umemd qemu_get_byte hd tl PIS.state PIS.to_umemd
       PIS.to_umemd_fd PIS.to_umemd_pipe PIS.from_umemd_fd PIS.handler
       PIS.vm_stopped].
  change (UMEM_DAEMON_QUIT =? UMEM_DAEMON_QUIT) with true. cbv iota.
  unfold postcopy_incoming_qemu_recv_quit, PIS.has.
  cbn [PIS.from_umemd PIS.state PIS.to_umemd PIS.to_umemd_fd
       PIS.to_umemd_pipe PIS.from_umemd_fd PIS.handler PIS.vm_stopped].
  change (negb (Z.land 0 PIS_STATE_QUIT_RECEIVED =? 0)) with false.
  cbv iota.
  unfold postcopy_incoming_qemu_queue_quit, PIS.has.
  cbn [PIS.from_umemd PIS.state PIS.to_umemd PIS.to_umemd_fd
       PIS.to_umemd_pipe PIS.from_umemd_fd PIS.handler PIS.vm_stopped].
  change (negb (Z.land (Z.lor 0 PIS_STATE_QUIT_RECEIVED)
                       PIS_STATE_QUIT_QUEUED =? 0)) with false.
  cbv iota.
  unfold postcopy_incoming_qemu_cleanup.
  cbn [PIS.from_umemd PIS.state PIS.to_umemd PIS.to_umemd_fd
       PIS.to_umemd_pipe PIS.from_umemd_fd PIS.handler PIS.vm_stopped].
  destruct (Z.geb_spec tfd 0) as [_|]; [|lia].
  unfold postcopy_incoming_qemu_queue_quit,
    postcopy_incoming_qemu_check_quite_queued, PIS.has.
  cbn [PIS.from_umemd PIS.state PIS.to_umemd PIS.to_umemd_fd
       PIS.to_umemd_pipe PIS.from_umemd_fd PIS.handler PIS.vm_stopped].
  change (Z.lor (Z.lor 0 PIS_STATE_QUIT_RECEIVED) PIS_STATE_QUIT_QUEUED)
    with 3.
  change (negb (Z.land 3 PIS_STATE_QUIT_QUEUED =? 0)) with true.
  change (negb (Z.land 3 PIS_STATE_QUIT_SENT =? 0)) with false.
  cbn [andb negb].
  cbn [PIS.from_umemd PIS.state PIS.to_umemd PIS.to_umemd_fd
       PIS.to_umemd_pipe PIS.from_umemd_fd PIS.handler PIS.vm_stopped].
  change (Z.lor 3 PIS_STATE_QUIT_SENT) with 7.
  change (negb (Z.land 7 PIS_STATE_QUIT_QUEUED =? 0)) with true.
  change (negb (Z.land 7 PIS_STATE_QUIT_SENT =? 0)) with true.
  cbn [andb negb].
  unfold fd_close at 1. destruct (Z.geb_spec tfd 0) as [_|]; [|lia].
  reflexivity.
Qed.

Lemma supervisor_answers_quit_witness :
  postcopy_incoming_qemu_handle_req
    (PIS.mk 0 7 true [] 6 (Some [UMEM_DAEMON_QUIT]) true false)
  = Some (PIS.mk 7 (-1) false [UMEM_QEMU_QUIT] (-1) None false false).
Proof.
  apply (@supervisor_answers_quit
           (PIS.mk 0 7 true [] 6 (Some [UMEM_DAEMON_QUIT]) true false) []);
    cbn; try reflexivity; lia.
Defined.

Lemma land_lor_eqb (a b k : Z) :
  (Z.land (Z.lor a b) k =? 0) = (Z.land a k =? 0) && (Z.land b k =? 0).
Proof.
  rewrite Z.land_lor_distr_l.
  destruct (Z.eqb_spec (Z.land a k) 0) as [Ha|Ha],
    (Z.eqb_spec (Z.land b k) 0) as [Hb|Hb]; cbn [andb].
  - rewrite Ha, Hb. reflexivity.
  - apply Z.eqb_neq. intros E. apply Z.lor_eq_0_iff in E. tauto.
  - apply Z.eqb_neq. intros E. apply Z.lor_eq_0_iff in E. tauto.
  - apply Z.eqb_neq. intros E. apply Z.lor_eq_0_iff in E. tauto.
Qed.

Lemma quit_told_recv_quit (s s' : PIS.t) :
  postcopy_incoming_qemu_recv_quit s = Some s' ->
  PIS.to_umemd_pipe s' = PIS.to_umemd_pipe s
  /\ PIS.has s' PIS_STATE_QUIT_QUEUED = PIS.has s PIS_STATE_QUIT_QUEUED.
Proof.
  unfold postcopy_incoming_qemu_recv_quit.
  destruct (PIS.has s PIS_STATE_QUIT_RECEIVED).
  { intros E. injection E as <-. auto. }
  destruct (PIS.from_umemd s); [|discriminate].
  intros E. injection E as <-. split; [reflexivity|].
  unfold PIS.has. cbn [PIS.state]. rewrite land_lor_eqb.
  change (Z.land PIS_STATE_QUIT_RECEIVED PIS_STATE_QUIT_QUEUED =? 0)
    with true.
  now rewrite andb_true_r.
Qed.

Lemma quit_told_check_queued (s s' : PIS.t) :
  postcopy_incoming_qemu_check_quite_queued s = Some s' ->
  PIS.to_umemd_pipe s' = PIS.to_umemd_pipe s
  /\ PIS.has s' PIS_STATE_QUIT_QUEUED = PIS.has s PIS_STATE_QUIT_QUEUED.
Proof.
  unfold postcopy_incoming_qemu_check_quite_queued.
  destruct (_ && _).
  2: { intros E. injection E as <-. auto. }
  destruct (PIS.to_umemd s); [|discriminate].
  intros E. injection E as <-. split; [reflexivity|].
  unfold PIS.has. cbn [PIS.state]. rewrite land_lor_eqb.
  change (Z.land PIS_STATE_QUIT_SENT PIS_STATE_QUIT_QUEUED =? 0)
    with true.
  now rewrite andb_true_r.
Qed.

Lemma quit_told_queue_quit (s s' : PIS.t) (p : list Z) :
  postcopy_incoming_qemu_queue_quit s = Some s' ->
  PIS.to_umemd_pipe s
  = p ++ (if PIS.has s PIS_STATE_QUIT_QUEUED then [UMEM_QEMU_QUIT]
          else []) ->
  PIS.to_umemd_pipe s'
  = p ++ (if PIS.has s' PIS_STATE_QUIT_QUEUED then [UMEM_QEMU_QUIT]
          else []).
Proof.
  unfold postcopy_incoming_qemu_queue_quit.
  destruct (PIS.has s PIS_STATE_QUIT_QUEUED) eqn:Hq.
  { intros E. injection E as <-. now rewrite Hq. }
  destruct (PIS.to_umemd s); [|discriminate].
  intros E. injection E as <-. intros Hp.
  cbn [PIS.to_umemd_pipe]. rewrite Hp, app_nil_r.
  unfold PIS.has. cbn [PIS.state]. rewrite land_lor_eqb.
  change (Z.land PIS_STATE_QUIT_QUEUED PIS_STATE_QUIT_QUEUED =? 0)
    with false.
  rewrite andb_false_r. reflexivity.
Qed.

Lemma quit_told_cleanup (s s' : PIS.t) (p : list Z) :
  postcopy_incoming_qemu_cleanup s = Some s' ->
  PIS.to_umemd_pipe s
  = p ++ (if PIS.has s PIS_STATE_QUIT_QUEUED then [UMEM_QEMU_QUIT]
          else []) ->
  PIS.to_umemd_pipe s'
  = p ++ (if PIS.has s' PIS_STATE_QUIT_QUEUED then [UMEM_QEMU_QUIT]
          else []).
Proof.
  unfold postcopy_incoming_qemu_cleanup.
  destruct (PIS.to_umemd_fd s >=? 0).
  2: { intros E. injection E as <-. auto. }
  destruct (postcopy_incoming_qemu_queue_quit s) as [s1|] eqn:E1;
    [|discriminate].
  intros E2 Hp. pose proof (@quit_told_queue_quit s s1 p E1 Hp) as H1.
  apply quit_told_check_queued in E2. destruct E2 as [A B].
  now rewrite A, B.
Qed.

(** X22. Over any sequence of calls of the fd handler and of
    [postcopy_incoming_qemu_cleanup], the supervisor writes the QUIT
    command to the daemon at most once and nothing else: the pipe holds
    what it held at the start, followed by QUIT exactly when
    [PIS_STATE_QUIT_QUEUED] is set. *)
Theorem supervisor_sends_quit_at_most_once (s0 s : PIS.t) :
  PIS.has s0 PIS_STATE_QUIT_QUEUED = false ->
  supervisor_run s0 s ->
  PIS.to_umemd_pipe s
  = PIS.to_umemd_pipe s0
    ++ (if PIS.has s PIS_STATE_QUIT_QUEUED then [UMEM_QEMU_QUIT] else []).
Proof.
  intros H0 Hrun. induction Hrun as [s|s t u Hrun IH Hstep].
  - now rewrite H0, app_nil_r.
  - specialize (IH H0). destruct Hstep as [t u Hh | t u Hc].
    + revert Hh. unfold postcopy_incoming_qemu_handle_req.
      destruct (PIS.from_umemd t) as [f|]; [|discriminate].
      destruct (qemu_get_byte f) as [c f0].
      set (t1 := PIS.mk (PIS.state t) (PIS.to_umemd_fd t) (PIS.to_umemd t)
                        (PIS.to_umemd_pipe t) (PIS.from_umemd_fd t)
                        (Some f0) (PIS.handler t) (PIS.vm_stopped t)).
      assert (H1 : PIS.to_umemd_pipe t1
                   = PIS.to_umemd_pipe s
                     ++ (if PIS.has t1 PIS_STATE_QUIT_QUEUED
                         then [UMEM_QEMU_QUIT] else [])) by exact IH.
      clearbody t1.
      destruct (c =? UMEM_DAEMON_QUIT).
      * destruct (postcopy_incoming_qemu_recv_quit t1) as [t2|] eqn:E2;
          [|discriminate].
        apply quit_told_recv_quit in E2. destruct E2 as [A2 B2].
        rewrite <- A2, <- B2 in H1.
        destruct (postcopy_incoming_qemu_queue_quit t2) as [t3|] eqn:E3;
          [|discriminate].
        pose proof (@quit_told_queue_quit t2 t3 _ E3 H1) as H3.
        destruct (postcopy_incoming_qemu_cleanup t3) as [t4|] eqn:E4;
          [|discriminate].
        pose proof (@quit_told_cleanup t3 t4 _ E4 H3) as H4.
        intros E5. apply quit_told_check_queued in E5.
        destruct E5 as [A5 B5]. now rewrite A5, B5.
      * destruct (c =? UMEM_DAEMON_ERROR); [|discriminate].
        intros E5. apply quit_told_check_queued in E5.
        destruct E5 as [A5 B5]. rewrite A5, B5. exact H1.
    + exact (@quit_told_cleanup t u _ Hc IH).
Qed.

Lemma supervisor_sends_quit_at_most_once_witness :
  let s0 := PIS.mk 0 7 true [] 6 (Some [UMEM_DAEMON_QUIT]) true false in
  exists s1 s2,
    postcopy_incoming_qemu_cleanup s0 = Some s1
    /\ postcopy_incoming_qemu_handle_req s1 = Some s2
    /\ PIS.to_umemd_pipe s2 = [UMEM_QEMU_QUIT].
Proof.
  cbv zeta. eexists. eexists.
  match goal with
  | |- ?A /\ _ => assert (E1 : A) by (vm_compute; reflexivity)
  end.
  split; [exact E1|].
  match goal with
  | |- ?A /\ _ => assert (E2 : A) by (vm_compute; reflexivity)
  end.
  split; [exact E2|].
  apply (@supervisor_sends_quit_at_most_once
           (PIS.mk 0 7 true [] 6 (Some [UMEM_DAEMON_QUIT]) true false));
    [reflexivity|].
  eapply sup_step; [eapply sup_step; [apply sup_refl|]|].
  - apply step_cleanup. exact E1.
  - apply step_handle_req. exact E2.
Defined.

(* ===================================================================== *)
(** * The end of the stream on the daemon's side *)

Lemma land_pow2_eqb (s k : Z) :
  0 <= k -> (Z.land s (2 ^ k) =? 0) = negb (Z.testbit s k).
Proof.
  intros Hk. destruct (Z.testbit s k) eqn:E; cbn [negb].
  - apply Z.eqb_neq. intros H0.
    assert (Hb : Z.testbit (Z.land s (2 ^ k)) k = false)
      by (rewrite H0; apply Z.bits_0).
    rewrite Z.land_spec, E, Z.pow2_bits_true in Hb by assumption.
    discriminate.
  - apply Z.eqb_eq. apply Z.bits_inj'. intros n Hn.
    rewrite Z.land_spec, Z.bits_0, Z.pow2_bits_eqb by assumption.
    destruct (Z.eqb_spec k n) as [->|]; [rewrite E|]; 
      now rewrite ?andb_false_r.
Qed.

Lemma lor_pow2_absorb (s k : Z) :
  0 <= k -> Z.testbit s k = true -> Z.lor s (2 ^ k) = s.
Proof.
  intros Hk E. apply Z.bits_inj'. intros n Hn.
  rewrite Z.lor_spec, Z.pow2_bits_eqb by assumption.
  destruct (Z.eqb_spec k n) as [->|]; [rewrite E|];
    now rewrite ?orb_false_r.
Qed.

Lemma queue_quit_locked_state (u : Umemd) :
  state (postcopy_incoming_umem_queue_quit_locked u)
  = Z.lor (state u) UMEM_STATE_QUIT_QUEUED.
Proof.
  unfold postcopy_incoming_umem_queue_quit_locked, state_has.
  change UMEM_STATE_QUIT_QUEUED with (2 ^ 6).
  rewrite land_pow2_eqb by lia. rewrite negb_involutive.
  destruct (Z.testbit (state u) 6) eqn:E; [|reflexivity].
  now rewrite lor_pow2_absorb by (lia || assumption).
Qed.

Lemma queue_quit_locked_fields (u : Umemd) :
  blocks (postcopy_incoming_umem_queue_quit_locked u) = blocks u
  /\ mig_read (postcopy_incoming_umem_queue_quit_locked u) = mig_read u
  /\ to_qemu (postcopy_incoming_umem_queue_quit_locked u) = to_qemu u
  /\ to_qemu_pipe (postcopy_incoming_umem_queue_quit_locked u)
     = to_qemu_pipe u
  /\ from_qemu (postcopy_incoming_umem_queue_quit_locked u) = from_qemu u.
Proof.
  unfold postcopy_incoming_umem_queue_quit_locked.
  destruct (state_has u UMEM_STATE_QUIT_QUEUED); repeat split.
Qed.

(** X23.  [postcopy_incoming_umem_check_eoc_req] sends its
    end-of-connection request at most once.  Whenever a call returns, either it
    sent nothing and changed nothing, or it appended the single byte
    [QEMU_UMEM_REQ_EOC] to the file to the source, closed that file and
    set EOC_SENDING and EOC_SENT; and every later call sends nothing and
    changes nothing, whatever it finds in the fields of its local
    request. *)
Theorem eoc_request_is_sent_at_most_once
        (junk junk' : QEMUUMemReq) (u u1 : Umemd) (w w1 : MigWrite)
        (out : option QF.t) :
  postcopy_incoming_umem_check_eoc_req junk u w = Some (u1, w1, out) ->
  match out with
  | None => u1 = u /\ w1 = w
  | Some f =>
      exists f0, mig_write w = Some f0
                 /\ f = f0 ++ [QEMU_UMEM_REQ_EOC]
                 /\ mig_write w1 = None
                 /\ state_has u UMEM_STATE_EOC_SEND_REQ = true
                 /\ state u1 = Z.lor (Z.lor (state u) UMEM_STATE_EOC_SENDING)
                                     UMEM_STATE_EOC_SENT
  end
  /\ postcopy_incoming_umem_check_eoc_req junk' u1 w1 = Some (u1, w1, None).
Proof.
  unfold postcopy_incoming_umem_check_eoc_req at 1.
  destruct (negb (state_has u UMEM_STATE_EOC_SEND_REQ)
            || state_has u (Z.lor UMEM_STATE_EOC_SENDING UMEM_STATE_EOC_SENT))
    eqn:Et.
  - intros E; injection E as <- <- <-. split; [auto|].
    unfold postcopy_incoming_umem_check_eoc_req. now rewrite Et.
  - apply orb_false_iff in Et. destruct Et as [Ereq Esent].
    apply negb_false_iff in Ereq.
    unfold postcopy_incoming_send_req.
    destruct (mig_write w) as [f0|] eqn:Ew; [|discriminate].
    unfold postcopy_file_incoming_send_req, postcopy_incoming_send_req_one.
    cbn [cmd set_cmd]. rewrite Z.eqb_refl.
    intros E; injection E as <- <- <-.
    split.
    + exists f0. repeat split; auto.
    + unfold postcopy_incoming_umem_check_eoc_req.
      replace (state_has _ (Z.lor UMEM_STATE_EOC_SENDING UMEM_STATE_EOC_SENT))
        with true; [now rewrite orb_true_r|].
      symmetry. unfold state_has. cbn [state set_state].
      apply negb_true_iff. apply Z.eqb_neq. intros E.
      assert (Hb : Z.testbit
                     (Z.land (Z.lor (Z.lor (state u) UMEM_STATE_EOC_SENDING)
                                    UMEM_STATE_EOC_SENT)
                             (Z.lor UMEM_STATE_EOC_SENDING
                                    UMEM_STATE_EOC_SENT)) 3 = false)
        by (rewrite E; apply Z.bits_0).
      rewrite Z.land_spec, !Z.lor_spec in Hb.
      change (Z.testbit UMEM_STATE_EOC_SENT 3) with true in Hb.
      rewrite !orb_true_r in Hb. discriminate.
Qed.

Lemma eoc_request_is_sent_at_most_once_witness :
  exists u1 w1,
    postcopy_incoming_umem_check_eoc_req
      (mkReq 7 0 [] 0 [])
      (mkUmemd UMEM_STATE_EOC_SEND_REQ true [] None true [] None [])
      (mkMigWrite (Some [1; 2]) None)
    = Some (u1, w1, Some [1; 2; 0])
    /\ postcopy_incoming_umem_check_eoc_req (mkReq 9 0 [] 0 []) u1 w1
       = Some (u1, w1, None).
Proof.
  eexists. eexists.
  match goal with |- ?A /\ _ => assert (E : A) by (vm_compute; reflexivity) end.
  split; [exact E|].
  exact (proj2 (@eoc_request_is_sent_at_most_once _ (mkReq 9 0 [] 0 [])
                  _ _ _ _ _ E)).
Defined.

Section RamLoadFacts.
Variable TPB : Z.
Variables MEM_SIZE COMPRESS PAGE XBZRLE CONTINUE : Z.
Variables PIPE_BUF EWOULDBLOCK : Z.
Variable host_bytes : Z -> list Z.

Lemma ram_load_eos_word
        (g : PageGeom) (env : RamLoadEnv) (last : option nat) (u : Umemd)
        (v : Z) (rest : QR.t) :
  5 <= TPB ->
  0 <= v < 2 ^ 64 ->
  Z.testbit v 4 = true ->
  Z.land (Z.land v (TARGET_PAGE_SIZE TPB - 1)) MEM_SIZE = 0 ->
  version_ok env = true ->
  get64_error env = 0 ->
  mig_read u = Some (be64_bytes v ++ rest) ->
  exists u',
    postcopy_incoming_umem_ram_load TPB MEM_SIZE COMPRESS PAGE XBZRLE
                                    CONTINUE PIPE_BUF EWOULDBLOCK host_bytes
                                    g env last u
    = Some (0, last, u', no_ram_load_out)
    /\ mig_read u' = None
    /\ blocks u' = blocks u
    /\ state u' = Z.lor (state u)
                        (Z.lor UMEM_STATE_EOS_RECEIVED
                               (Z.lor UMEM_STATE_EOC_SEND_REQ
                                      UMEM_STATE_QUIT_QUEUED))
    /\ to_qemu_pipe u' = to_qemu_pipe u.
Proof.
  intros HT Hv Hb Hm Hver Herr Hr.
  unfold postcopy_incoming_umem_ram_load,
    postcopy_incoming_ram_load_get64.
  rewrite Hver, Hr. cbn [negb].
  rewrite qemu_get_be64_app by assumption.
  rewrite Herr. cbn [Z.eqb negb]. rewrite Hm. cbn [Z.eqb negb].
  assert (Heos : (Z.land (Z.land v (TARGET_PAGE_SIZE TPB - 1))
                         RAM_SAVE_FLAG_EOS =? 0) = false).
  { change RAM_SAVE_FLAG_EOS with (2 ^ 4). rewrite land_pow2_eqb by lia.
    rewrite Z.land_spec, Hb. unfold TARGET_PAGE_SIZE.
    rewrite Z.shiftl_1_l.
    replace (2 ^ TPB - 1) with (Z.ones TPB) by (rewrite Z.ones_equiv; lia).
    rewrite Z.ones_spec_low by lia. reflexivity. }
  rewrite Heos. cbn [negb].
  eexists. split; [reflexivity|].
  unfold postcopy_incoming_umem_eos_received.
  cbn [mig_read blocks state set_state].
  destruct (queue_quit_locked_fields
              (set_mig_read
                 (postcopy_incoming_umem_req_eoc
                    (set_mig_read u (Some rest))) None))
    as (Eb & Em & _ & Ep & _).
  cbn [to_qemu_pipe set_state].
  rewrite Em, Eb, Ep, queue_quit_locked_state.
  cbn [mig_read blocks state to_qemu_pipe set_state set_mig_read
       postcopy_incoming_umem_req_eoc].
  repeat split.
  apply Z.bits_inj'. intros n Hn. rewrite !Z.lor_spec.
  destruct (Z.testbit (state u) n), (Z.testbit UMEM_STATE_EOC_SEND_REQ n),
    (Z.testbit UMEM_STATE_QUIT_QUEUED n),
    (Z.testbit UMEM_STATE_EOS_RECEIVED n); reflexivity.
Qed.

(** X24.  A stream word with the EOS bit ends the daemon's read side,
    whatever else the word holds (the MEM_SIZE bit apart, which fails an
    assertion): [postcopy_incoming_umem_ram_load] returns 0, closes the
    file from the source without looking at the bytes behind the word,
    leaves the blocks as they are, hands no page to the page cache,
    writes nothing to the fault pipe, marks no page pending, and sets
    exactly EOC_SEND_REQ, QUIT_QUEUED and EOS_RECEIVED in the state.
    The page size must exceed the EOS bit for it to count as a flag. *)
Theorem eos_word_ends_the_read_side
        (g : PageGeom) (env : RamLoadEnv) (last : option nat) (u : Umemd)
        (v : Z) (rest : QR.t) :
  5 <= TPB ->
  0 <= v < 2 ^ 64 ->
  Z.testbit v 4 = true ->
  Z.land (Z.land v (TARGET_PAGE_SIZE TPB - 1)) MEM_SIZE = 0 ->
  version_ok env = true ->
  get64_error env = 0 ->
  mig_read u = Some (be64_bytes v ++ rest) ->
  exists u',
    postcopy_incoming_umem_ram_load TPB MEM_SIZE COMPRESS PAGE XBZRLE
                                    CONTINUE PIPE_BUF EWOULDBLOCK host_bytes
                                    g env last u
    = Some (0, last, u', no_ram_load_out)
    /\ mig_read u' = None
    /\ blocks u' = blocks u
    /\ state u' = Z.lor (state u)
                        (Z.lor UMEM_STATE_EOS_RECEIVED
                               (Z.lor UMEM_STATE_EOC_SEND_REQ
                                      UMEM_STATE_QUIT_QUEUED)).
Proof.
  intros HT Hv Hb Hm Hver Herr Hr.
  destruct (@ram_load_eos_word g env last u v rest HT Hv Hb Hm Hver Herr Hr)
    as (u' & E & Hmr & Hbl & Hst & _).
  exists u'. auto.
Qed.

End RamLoadFacts.

Lemma eos_word_ends_the_read_side_witness :
  exists u',
    postcopy_incoming_umem_ram_load
      12 4 2 8 64 32 4096 11 (fun v => rev (be64_bytes v))
      (mkGeom 4096 12 1 0 1 0)
      (mkRamLoadEnv true 0 false (fun f => (0, f)) 0 0 []) None
      (mkUmemd 0 true [] (Some (be64_bytes 0x1018 ++ [1; 2; 3]))
               true [] None [])
    = Some (0, None, u', no_ram_load_out)
    /\ mig_read u' = None
    /\ blocks u' = []
    /\ state u' = 0x43.
Proof.
  apply (@eos_word_ends_the_read_side 12 4 2 8 64 32
           4096 11 (fun v => rev (be64_bytes v))
           (mkGeom 4096 12 1 0 1 0)
           (mkRamLoadEnv true 0 false (fun f => (0, f)) 0 0 []) None
           (mkUmemd 0 true [] (Some (be64_bytes 0x1018 ++ [1; 2; 3]))
                    true [] None [])
           0x1018 [1; 2; 3]);
    try reflexivity; try lia.
Defined.

(* ===================================================================== *)
(** * The daemon's write loop *)

Lemma qemu_put_buffer_appends (buf : list Z) :
  forall f : QF.t, exists mid, QF.qemu_put_buffer f buf = f ++ mid.
Proof.
  unfold QF.qemu_put_buffer.
  induction buf as [|b buf IH]; intros f; cbn [fold_left].
  - exists []. now rewrite app_nil_r.
  - destruct (IH (QF.qemu_put_byte f b)) as (mid & E). rewrite E.
    unfold QF.qemu_put_byte. rewrite <- app_assoc. eauto.
Qed.

Lemma send_req_one_appends (f f' : QF.t) (r : QEMUUMemReq) :
  postcopy_incoming_send_req_one f r = Some f' ->
  exists mid, f' = f ++ mid.
Proof.
  unfold postcopy_incoming_send_req_one, postcopy_incoming_send_req_idstr.
  cbv zeta. rewrite !send_req_pgoffs_array.
  destruct (qemu_put_buffer_appends (idstr r)
              (QF.qemu_put_byte (QF.qemu_put_byte f (cmd r))
                                (strlen (idstr r)))) as (mid & Em).
  rewrite Em. unfold QF.qemu_put_byte.
  destruct (cmd r =? QEMU_UMEM_REQ_EOC);
    [|destruct (cmd r =? QEMU_UMEM_REQ_PAGE);
      [|destruct (cmd r =? QEMU_UMEM_REQ_PAGE_CONT)]];
    intros E; try discriminate; injection E as <-;
    rewrite <- ?app_assoc; eauto.
Qed.

Lemma send_all_appends (fs : list QEMUUMemReq) :
  forall f f' : QF.t,
    send_all postcopy_incoming_send_req_one fs f = Some f' ->
    exists mid, f' = f ++ mid.
Proof.
  induction fs as [|r fs IH]; intros f f'; cbn [send_all].
  - intros E; injection E as <-. exists []. now rewrite app_nil_r.
  - destruct (postcopy_incoming_send_req_one f r) as [f1|] eqn:E1;
      [|discriminate].
    intros E. destruct (send_req_one_appends _ _ E1) as (m1 & ->).
    destruct (IH _ _ E) as (m2 & ->). rewrite <- app_assoc. eauto.
Qed.

Lemma send_req_loop_appends (n : Z) (tmp : QEMUUMemReq) (f f' : QF.t) :
  send_req_loop postcopy_incoming_send_req_one f n tmp = Some f' ->
  exists mid, f' = f ++ mid.
Proof.
  destruct (@send_req_loop_sink (Z.to_nat n) n tmp [] (le_n _))
    as (fs & _ & Hs).
  rewrite Hs. apply send_all_appends.
Qed.

Lemma file_send_req_appends (req : QEMUUMemReq) (f f' : QF.t) :
  postcopy_file_incoming_send_req postcopy_incoming_send_req_one f req
  = Some f' ->
  exists mid, f' = f ++ mid.
Proof.
  unfold postcopy_file_incoming_send_req. cbv zeta.
  destruct (cmd req =? QEMU_UMEM_REQ_EOC).
  { apply send_req_one_appends. }
  destruct (cmd req =? QEMU_UMEM_REQ_PAGE).
  { destruct (postcopy_incoming_send_req_one f _) as [f1|] eqn:E1;
      [|discriminate].
    intros E. destruct (send_req_one_appends _ _ E1) as (m1 & ->).
    destruct (send_req_loop_appends _ _ _ E) as (m2 & ->).
    rewrite <- app_assoc. eauto. }
  destruct (cmd req =? QEMU_UMEM_REQ_PAGE_CONT); [|discriminate].
  apply send_req_loop_appends.
Qed.

Lemma write_side_grows_refl (w : MigWrite) : write_side_grows w w.
Proof.
  unfold write_side_grows. destruct (mig_write w) as [f|]; [|reflexivity].
  exists []. now rewrite app_nil_r.
Qed.

Lemma write_side_grows_trans (a b c : MigWrite) :
  write_side_grows a b -> write_side_grows b c -> write_side_grows a c.
Proof.
  unfold write_side_grows.
  destruct (mig_write a) as [fa|].
  - intros (m1 & E1). rewrite E1. intros (m2 & E2).
    exists (m1 ++ m2). now rewrite app_assoc.
  - intros E1. now rewrite E1.
Qed.

Lemma send_page_req_write_side (TPB : Z) (g : PageGeom) (pre : bool)
      (w w' : MigWrite) (index : nat) (b b' : UMB.t) (ge : Z)
      (pr : list Z) (me ret : Z) (marked : option (list Z)) :
  postcopy_incoming_umem_send_page_req TPB g pre w index b ge pr me
  = Some (ret, w', b', marked) ->
  write_side_grows w w'.
Proof.
  unfold postcopy_incoming_umem_send_page_req.
  destruct (negb (ge =? 0)).
  { intros E; injection E as _ <- _ _. apply write_side_grows_refl. }
  destruct (send_page_req_build TPB g pre _ b pr) as [[[b1 req] pc]|];
    [|discriminate].
  destruct ((0 <? Z.of_nat (length pc)) && negb (me =? 0)).
  { intros E; injection E as _ <- _ _. apply write_side_grows_refl. }
  destruct (0 <? nr req).
  2:{ intros E; injection E as _ <- _ _. apply write_side_grows_refl. }
  destruct (mig_write w) as [f0|] eqn:Ew.
  2:{ intros E; injection E as _ <- _ _. apply write_side_grows_refl. }
  destruct (postcopy_file_incoming_send_req _ f0 req) as [f1|] eqn:Es;
    [|discriminate].
  intros E; injection E as _ <- _ _.
  unfold write_side_grows. rewrite Ew. cbn [mig_write].
  destruct (file_send_req_appends _ _ Es) as (mid & ->). eauto.
Qed.

Lemma mig_write_blocks_write_side (TPB : Z) (g : PageGeom) (pre : bool)
      (bs : list UMB.t) :
  forall (ready : list (option FaultEvent)) (index : nat)
         (w w' : MigWrite) (ret : Z) (bs' : list UMB.t)
         (marks : list (nat * list Z)),
    mig_write_blocks TPB g pre ready index bs w
    = Some (ret, w', bs', marks) ->
    write_side_grows w w'.
Proof.
  induction bs as [|b bs IH]; intros ready index w w' ret bs' marks;
    cbn [mig_write_blocks].
  { intros E; injection E as _ <- _ _. apply write_side_grows_refl. }
  destruct (hd None ready) as [e|].
  - destruct (postcopy_incoming_umem_send_page_req _ _ _ _ _ _ _ _ _)
      as [[[[r1 w1] b1] m1]|] eqn:Es; [|discriminate].
    pose proof (send_page_req_write_side _ _ _ _ _ _ _ _ _ Es) as H1.
    destruct (negb (r1 =? 0)).
    { intros E; injection E as _ <- _ _. exact H1. }
    destruct (mig_write_blocks TPB g pre (tl ready) (S index) bs w1)
      as [[[[r2 w2] b2] m2]|] eqn:Er; [|discriminate].
    intros E; injection E as _ <- _ _.
    eapply write_side_grows_trans; [exact H1|]. eapply IH; exact Er.
  - destruct (mig_write_blocks TPB g pre (tl ready) (S index) bs w)
      as [[[[r2 w2] b2] m2]|] eqn:Er; [|discriminate].
    intros E; injection E as _ <- _ _. eapply IH; exact Er.
Qed.

(** X25.  In one turn of [postcopy_incoming_umemd_mig_write_loop] the
    end-of-connection byte is the last byte the source is ever sent.
    Whenever the turn returns: bytes are only appended to the file to the
    source; if the file was closed in this turn, what it was given is the
    old contents, then the page requests of this turn, then the single
    byte [QEMU_UMEM_REQ_EOC], the return value is 0 and the file is NULL
    afterwards; and a file that was already NULL stays NULL, so page
    faults handled after the end-of-connection request send nothing. *)
Theorem write_loop_sends_eoc_last
        (TPB : Z) (g : PageGeom) (junk : QEMUUMemReq) (env : WriteEnv)
        (u u' : Umemd) (w w' : MigWrite) (ret : Z)
        (marks : list (nat * list Z)) (out : option QF.t) :
  postcopy_incoming_umemd_mig_write_loop TPB g junk env u w
  = Some (ret, u', w', marks, out) ->
  match out with
  | Some f =>
      exists f0 mid, mig_write w = Some f0
                     /\ f = f0 ++ mid ++ [QEMU_UMEM_REQ_EOC]
                     /\ mig_write w' = None /\ ret = 0
  | None => write_side_grows w w'
  end
  /\ (mig_write w = None -> mig_write w' = None /\ out = None).
Proof.
  unfold postcopy_incoming_umemd_mig_write_loop.
  assert (Hnone : forall (x y : MigWrite),
             write_side_grows x y ->
             mig_write x = None -> mig_write y = None).
  { unfold write_side_grows. intros x y H E. now rewrite E in H. }
  destruct (wsel_ret env =? -1).
  { destruct (wsel_eintr env); intros E; injection E as _ _ <- _ <-;
      (split; [apply write_side_grows_refl | auto]). }
  destruct (mig_write_blocks TPB g (precopy_enabled u) (wsel_ready env) 0
                             (blocks u) w)
    as [[[[r1 w1] bs1] m1]|] eqn:Eb; [|discriminate].
  pose proof (mig_write_blocks_write_side _ _ _ _ _ _ _ Eb) as Hg.
  destruct (negb (r1 =? 0)).
  { intros E; injection E as _ _ <- _ <-. split; [exact Hg|].
    intros Ew; split; [eapply Hnone; eassumption | reflexivity]. }
  destruct (postcopy_incoming_umem_check_eoc_req junk (set_blocks u bs1) w1)
    as [[[u2 w2] o2]|] eqn:Ec; [|discriminate].
  intros E; injection E as <- _ <- _ <-.
  unfold postcopy_incoming_umem_check_eoc_req in Ec.
  destruct (negb (state_has (set_blocks u bs1) UMEM_STATE_EOC_SEND_REQ)
            || state_has (set_blocks u bs1)
                         (Z.lor UMEM_STATE_EOC_SENDING UMEM_STATE_EOC_SENT)).
  { injection Ec as _ <- <-. split; [exact Hg|].
    intros Ew; split; [eapply Hnone; eassumption | reflexivity]. }
  unfold postcopy_incoming_send_req in Ec.
  destruct (mig_write w1) as [f1|] eqn:Ew1; [|discriminate].
  unfold postcopy_file_incoming_send_req, postcopy_incoming_send_req_one
    in Ec.
  cbn [cmd set_cmd] in Ec. rewrite Z.eqb_refl in Ec.
  injection Ec as _ <- <-.
  unfold write_side_grows in Hg.
  destruct (mig_write w) as [f0|] eqn:Ew.
  - destruct Hg as (mid & Hg). rewrite Hg in Ew1. injection Ew1 as <-.
    split; [|discriminate].
    exists f0, mid. unfold QF.qemu_put_byte.
    rewrite <- app_assoc. repeat split.
  - rewrite Hg in Ew1. discriminate.
Qed.

Lemma write_loop_sends_eoc_last_witness :
  exists u' w' marks,
    postcopy_incoming_umemd_mig_write_loop
      12 (mkGeom 4096 12 1 0 1 0) (mkReq 7 0 [] 0 [])
      (mkWriteEnv 1 false [Some (mkFaultEvent 0 [3] 0)])
      (mkUmemd UMEM_STATE_EOC_SEND_REQ false
               [UMB.mk [114] 0 65536 0 0 0 0 0] None true [] None [])
      (mkMigWrite (Some [9]) None)
    = Some (0, u', w', marks,
            Some ([9] ++ [1; 1; 114; 0; 0; 0; 1; 0; 0; 0; 0; 0; 0; 0; 3]
                      ++ [0]))
    /\ mig_write w' = None.
Proof.
  eexists. eexists. eexists.
  match goal with |- ?A /\ _ => assert (E : A) by (vm_compute; reflexivity) end.
  split; [exact E|].
  destruct (proj1 (@write_loop_sends_eoc_last _ _ _ _ _ _ _ _ _ _ _ E))
    as (f0 & mid & _ & _ & Hw & _).
  exact Hw.
Defined.

(* ===================================================================== *)
(** * The quit handshake *)

Lemma land_submask (s M m : Z) :
  Z.land s M = 0 -> Z.land m M = m -> Z.land s m = 0.
Proof.
  intros H Hm. rewrite <- Hm.
  rewrite Z.land_assoc, (Z.land_comm s m), <- Z.land_assoc, H.
  apply Z.land_0_r.
Qed.

Lemma state_test_lor (s c m : Z) :
  Z.land s m = 0 -> (Z.land (Z.lor s c) m =? 0) = (Z.land c m =? 0).
Proof. intros H. now rewrite Z.land_lor_distr_l, H, Z.lor_0_l. Qed.

Lemma queue_quit_locked_eq (u : Umemd) :
  postcopy_incoming_umem_queue_quit_locked u
  = set_state u (Z.lor (state u) UMEM_STATE_QUIT_QUEUED).
Proof.
  pose proof (queue_quit_locked_state u) as Hs.
  unfold postcopy_incoming_umem_queue_quit_locked in *.
  destruct (state_has u UMEM_STATE_QUIT_QUEUED); [|reflexivity].
  rewrite <- Hs. destruct u; reflexivity.
Qed.

Lemma lor_chain2 (s a b : Z) : Z.lor (Z.lor s a) b = Z.lor s (Z.lor a b).
Proof. symmetry. apply Z.lor_assoc. Qed.

Lemma pipe_loop_quit_command (env : PipeEnv) (u : Umemd) (fq : QR.t) :
  (select_ret env =? -1) = false ->
  from_qemu_readable env = true ->
  from_qemu u = Some (UMEM_QEMU_QUIT :: fq) ->
  to_qemu u = true ->
  Z.land (state u) UMEM_STATE_END_MASK = 0 ->
  Z.land (state u) UMEM_STATE_ERROR_REQ = 0 ->
  postcopy_incoming_umemd_pipe_loop env u
  = Some (0, mkUmemd (Z.lor (state u) 0x1F2) (precopy_enabled u) (blocks u)
                     (mig_read u) false
                     (to_qemu_pipe u ++ [UMEM_DAEMON_QUIT]) None
                     (spawned u)).
Proof.
  destruct u as [s pre bs mr tq tp fqm sp].
  cbn [state precopy_enabled blocks mig_read to_qemu to_qemu_pipe
       from_qemu spawned].
  intros Hsel Hrd -> -> Hend Herr.
  assert (Hsub : forall m, Z.land m UMEM_STATE_END_MASK = m ->
                           Z.land s m = 0)
    by (intros m; apply land_submask; exact Hend).
  rewrite pipe_loop_parts, Hsel.
  assert (Ecmd : pipe_loop_command env
                   (mkUmemd s pre bs mr true tp
                            (Some (UMEM_QEMU_QUIT :: fq)) sp)
                 = Some (mkUmemd (Z.lor s 0x72) pre bs mr true tp None sp)).
  { unfold pipe_loop_command. cbn [from_qemu]. rewrite Hrd.
    unfold qemu_get_byte. cbn [hd tl]. rewrite Z.eqb_refl.
    unfold postcopy_incoming_umem_done. rewrite queue_quit_locked_eq.
    unfold postcopy_incoming_umem_req_eoc,
      postcopy_incoming_umem_recv_quit, state_has.
    cbn [state set_from_qemu].
    rewrite (Hsub UMEM_STATE_QUIT_RECEIVED) by reflexivity.
    cbn [Z.eqb negb].
    cbn [state set_state set_from_qemu precopy_enabled blocks mig_read
         to_qemu to_qemu_pipe from_qemu spawned].
    rewrite !lor_chain2. reflexivity. }
  rewrite Ecmd. cbn [to_qemu negb].
  assert (Eerr : pipe_loop_error
                   (mkUmemd (Z.lor s 0x72) pre bs mr true tp None sp)
                 = mkUmemd (Z.lor s 0x72) pre bs mr true tp None sp).
  { unfold pipe_loop_error, state_has. cbn [state].
    rewrite (@state_test_lor _ _ _ Herr). reflexivity. }
  rewrite Eerr.
  unfold pipe_loop_quit, state_has. cbn [state].
  rewrite !state_test_lor by (apply Hsub; reflexivity).
  change (Z.land 114 UMEM_STATE_QUIT_QUEUED =? 0) with false.
  change (Z.land 114 (Z.lor UMEM_STATE_QUIT_SENDING UMEM_STATE_QUIT_SENT)
          =? 0) with true.
  cbn [negb andb state set_state set_to_qemu set_to_qemu_pipe
       precopy_enabled blocks mig_read to_qemu to_qemu_pipe from_qemu
       spawned].
  rewrite !lor_chain2. reflexivity.
Qed.

Lemma mig_write_blocks_idle (TPB : Z) (g : PageGeom) (pre : bool)
      (bs : list UMB.t) :
  forall (index : nat) (w : MigWrite),
    mig_write_blocks TPB g pre [] index bs w = Some (0, w, bs, []).
Proof.
  induction bs as [|b bs IH]; intros index w; cbn [mig_write_blocks hd tl].
  - reflexivity.
  - now rewrite IH.
Qed.

Lemma write_loop_idle_sends_eoc (TPB : Z) (g : PageGeom)
      (junk : QEMUUMemReq) (env : WriteEnv) (u : Umemd) (w : MigWrite)
      (f0 : QF.t) :
  (wsel_ret env =? -1) = false ->
  wsel_ready env = [] ->
  mig_write w = Some f0 ->
  state_has u UMEM_STATE_EOC_SEND_REQ = true ->
  state_has u (Z.lor UMEM_STATE_EOC_SENDING UMEM_STATE_EOC_SENT) = false ->
  postcopy_incoming_umemd_mig_write_loop TPB g junk env u w
  = Some (0,
          set_state u (Z.lor (Z.lor (state u) UMEM_STATE_EOC_SENDING)
                             UMEM_STATE_EOC_SENT),
          mkMigWrite None (last_block_write w), [],
          Some (f0 ++ [QEMU_UMEM_REQ_EOC])).
Proof.
  intros Hsel Hrd Hw Hreq Hsent.
  unfold postcopy_incoming_umemd_mig_write_loop.
  rewrite Hsel, Hrd, mig_write_blocks_idle. cbn [Z.eqb negb].
  assert (Eu : set_blocks u (blocks u) = u) by (destruct u; reflexivity).
  rewrite Eu. unfold postcopy_incoming_umem_check_eoc_req.
  rewrite Hreq, Hsent. cbn [negb orb].
  unfold postcopy_incoming_send_req. rewrite Hw.
  unfold postcopy_file_incoming_send_req, postcopy_incoming_send_req_one.
  cbn [cmd set_cmd]. rewrite Z.eqb_refl. reflexivity.
Qed.

Lemma source_eoc_then_eos (TPB : Z) (e1 e2 : LoopEnv)
      (ms : MigrationState) :
  po ms = PO_STATE_ACTIVE ->
  file_read ms = [QEMU_UMEM_REQ_EOC] ->
  (sel_ret e1 =? -1) = false -> sel_read e1 = true ->
  (sel_ret e2 =? -1) = false -> sel_write e2 = true ->
  rate_limit_hit e2 = false ->
  postcopy_outgoing TPB [e1; e2] 0 ms
  = Some (0, set_po (set_file (set_po (set_file_read ms [])
                                      PO_STATE_EOC_RECEIVED)
                              (file ms ++ [PutBe64 RAM_SAVE_FLAG_EOS]))
                    PO_STATE_COMPLETED).
Proof.
  intros Hpo Hfr H1 H1r H2 H2w H2l.
  cbn [postcopy_outgoing]. rewrite Hpo. cbn [po_state_eqb orb].
  unfold postcopy_outgoing_loop at 1. rewrite Hpo, H1, H1r.
  cbn [po_state_eqb orb andb].
  unfold postcopy_outgoing_recv_handler. rewrite Hpo, Hfr.
  cbn [po_state_eqb orb length recv_handler_loop].
  rewrite Hfr, recv_req_first_byte. cbv zeta.
  change (QEMU_UMEM_REQ_EOC =? QEMU_UMEM_REQ_EOC) with true. cbv iota.
  change (0 <? 0) with false. cbv iota.
  unfold postcopy_outgoing_handle_req.
  cbn [cmd set_cmd req_init po set_file_read].
  change (QEMU_UMEM_REQ_EOC =? QEMU_UMEM_REQ_EOC) with true. cbv iota.
  rewrite Hpo. cbn [po_state_eqb].
  change (1 =? 0) with false. change (1 <? 0) with false. cbv iota.
  change (0 <? 0) with false. cbv iota.
  cbn [po set_po po_state_eqb orb].
  unfold postcopy_outgoing_loop. cbn [po set_po po_state_eqb orb andb].
  rewrite H2, H2w, H2l. cbn [negb andb].
  unfold postcopy_outgoing_ram_save_background. cbn [po set_po].
  change (0 <? 0) with false. cbv iota.
  cbn [postcopy_outgoing po set_po po_state_eqb orb].
  reflexivity.
Qed.

Lemma supervisor_cleanup_sends_quit (p : PIS.t) :
  PIS.state p = 0 -> PIS.to_umemd p = true -> 0 <= PIS.to_umemd_fd p ->
  postcopy_incoming_qemu_cleanup p
  = Some (PIS.mk (Z.lor PIS_STATE_QUIT_QUEUED PIS_STATE_QUIT_SENT) (-1)
                 false (PIS.to_umemd_pipe p ++ [UMEM_QEMU_QUIT])
                 (PIS.from_umemd_fd p) (PIS.from_umemd p) (PIS.handler p)
                 (PIS.vm_stopped p)).
Proof.
  destruct p as [st tfd t tp ffd f h vs].
  cbn [PIS.state PIS.to_umemd PIS.to_umemd_fd PIS.from_umemd
       PIS.to_umemd_pipe PIS.from_umemd_fd PIS.vm_stopped PIS.handler].
  intros -> -> Hfd.
  unfold postcopy_incoming_qemu_cleanup. cbn [PIS.to_umemd_fd].
  assert (E : (tfd >=? 0) = true) by (apply Z.geb_le; lia).
  rewrite E.
  unfold postcopy_incoming_qemu_queue_quit, PIS.has.
  cbn [PIS.state PIS.to_umemd PIS.to_umemd_fd PIS.from_umemd
       PIS.to_umemd_pipe PIS.from_umemd_fd PIS.vm_stopped PIS.handler].
  change (negb (Z.land 0 PIS_STATE_QUIT_QUEUED =? 0)) with false. cbv iota.
  unfold postcopy_incoming_qemu_check_quite_queued, PIS.has.
  cbn [PIS.state PIS.to_umemd PIS.to_umemd_fd PIS.from_umemd
       PIS.to_umemd_pipe PIS.from_umemd_fd PIS.vm_stopped PIS.handler].
  change (negb (Z.land (Z.lor 0 PIS_STATE_QUIT_QUEUED)
                       PIS_STATE_QUIT_QUEUED =? 0)) with true.
  change (negb (Z.land (Z.lor 0 PIS_STATE_QUIT_QUEUED)
                       PIS_STATE_QUIT_SENT =? 0)) with false.
  cbn [negb andb]. unfold fd_close. rewrite E. reflexivity.
Qed.

Lemma supervisor_reads_quit_after_cleanup
      (pipe : QF.t) (ffd : Z) (h vs : bool) (rest : QR.t) :
  postcopy_incoming_qemu_handle_req
    (PIS.mk (Z.lor PIS_STATE_QUIT_QUEUED PIS_STATE_QUIT_SENT) (-1) false
            pipe ffd (Some (UMEM_DAEMON_QUIT :: rest)) h vs)
  = Some (PIS.mk (Z.lor PIS_STATE_QUIT_RECEIVED
                        (Z.lor PIS_STATE_QUIT_QUEUED PIS_STATE_QUIT_SENT))
                 (-1) false pipe (fd_close ffd) None false vs).
Proof. reflexivity. Qed.

(** X26.  The quit handshake, from the supervisor's cleanup to the end of
    the daemon's threads.  The supervisor, with its quit protocol not yet
    started, runs [postcopy_incoming_qemu_cleanup]; the daemon, which has
    no termination bit and no error request set, reads what that wrote in
    one turn of its pipe loop; with no page fault pending its write loop
    takes one turn; the source, in state ACTIVE, receives what the write
    loop sent and is scheduled twice, readable and then writable; the
    daemon's read loop reads what the source wrote ([PutBe64 v] stands
    for the eight bytes [be64_bytes v]); the supervisor reads what the
    pipe loop wrote.  Then: each party sends its QUIT, end-of-connection
    or end-of-stream exactly once, the source ends in COMPLETED, the
    supervisor ends with all three quit bits and both control files
    closed, the daemon's state holds every bit of [UMEM_STATE_END_MASK],
    and a daemon thread that tests the state returns without another
    call of its loop function. *)
Theorem quit_handshake_ends_all_parties
        (TPB MEM_SIZE COMPRESS PAGE XBZRLE CONTINUE : Z)
        (PIPE_BUF EWOULDBLOCK : Z) (host_bytes : Z -> list Z)
        (g : PageGeom) (junk : QEMUUMemReq) (penv : PipeEnv) (wenv : WriteEnv)
        (renv : RamLoadEnv) (e1 e2 : LoopEnv) (last : option nat)
        (p0 : PIS.t) (u0 : Umemd) (w0 : MigWrite) (f0 : QF.t)
        (ms0 : MigrationState) (rest : QR.t) :
  5 <= TPB ->
  Z.land RAM_SAVE_FLAG_EOS MEM_SIZE = 0 ->
  (* the supervisor *)
  PIS.state p0 = 0 -> PIS.to_umemd p0 = true -> 0 <= PIS.to_umemd_fd p0 ->
  PIS.to_umemd_pipe p0 = [] ->
  (* the daemon *)
  Z.land (state u0) UMEM_STATE_END_MASK = 0 ->
  Z.land (state u0) UMEM_STATE_ERROR_REQ = 0 ->
  to_qemu u0 = true -> to_qemu_pipe u0 = [] ->
  mig_write w0 = Some f0 ->
  (select_ret penv =? -1) = false -> from_qemu_readable penv = true ->
  (wsel_ret wenv =? -1) = false -> wsel_ready wenv = [] ->
  version_ok renv = true -> get64_error renv = 0 ->
  (* the source *)
  po ms0 = PO_STATE_ACTIVE -> file ms0 = [] ->
  (sel_ret e1 =? -1) = false -> sel_read e1 = true ->
  (sel_ret e2 =? -1) = false -> sel_write e2 = true ->
  rate_limit_hit e2 = false ->
  exists (p1 p2 : PIS.t) (u1 u2 u3 : Umemd) (w2 : MigWrite)
         (ms2 : MigrationState),
    postcopy_incoming_qemu_cleanup p0 = Some p1
    /\ PIS.to_umemd_pipe p1 = [UMEM_QEMU_QUIT]
    /\ postcopy_incoming_umemd_pipe_loop
         penv (set_from_qemu u0 (Some (PIS.to_umemd_pipe p1)))
       = Some (0, u1)
    /\ to_qemu_pipe u1 = [UMEM_DAEMON_QUIT]
    /\ postcopy_incoming_umemd_mig_write_loop TPB g junk wenv u1 w0
       = Some (0, u2, w2, [], Some (f0 ++ [QEMU_UMEM_REQ_EOC]))
    /\ mig_write w2 = None
    /\ postcopy_outgoing TPB [e1; e2] 0
                         (set_file_read ms0 [QEMU_UMEM_REQ_EOC])
       = Some (0, ms2)
    /\ po ms2 = PO_STATE_COMPLETED
    /\ file ms2 = [PutBe64 RAM_SAVE_FLAG_EOS]
    /\ file_read ms2 = []
    /\ postcopy_incoming_umemd_mig_read_loop
         TPB MEM_SIZE COMPRESS PAGE XBZRLE CONTINUE
         PIPE_BUF EWOULDBLOCK host_bytes g renv last
         (set_mig_read u2 (Some (be64_bytes RAM_SAVE_FLAG_EOS ++ rest)))
       = Some (0, last, u3, no_ram_load_out)
    /\ Z.land (state u3) UMEM_STATE_END_MASK = UMEM_STATE_END_MASK
    /\ to_qemu_pipe u3 = [UMEM_DAEMON_QUIT]
    /\ mig_read u3 = None
    /\ blocks u3 = blocks u0
    /\ (forall (loop_func : Umemd -> option (Z * Umemd)) (fuel : nat),
           umemd_thread_loop loop_func (S fuel) 0 u3 = Some (O, u3))
    /\ postcopy_incoming_qemu_handle_req
         (PIS.mk (PIS.state p1) (PIS.to_umemd_fd p1) (PIS.to_umemd p1)
                 (PIS.to_umemd_pipe p1) (PIS.from_umemd_fd p1)
                 (Some (to_qemu_pipe u3)) (PIS.handler p1)
                 (PIS.vm_stopped p1))
       = Some p2
    /\ PIS.state p2 = Z.lor PIS_STATE_QUIT_RECEIVED
                            (Z.lor PIS_STATE_QUIT_QUEUED PIS_STATE_QUIT_SENT)
    /\ PIS.to_umemd p2 = false /\ PIS.from_umemd p2 = None
    /\ PIS.to_umemd_pipe p2 = [UMEM_QEMU_QUIT].
Proof.
  intros HT Hmem Hps Hpo Hpfd Hpp Hend Herr Htq Htp Hw
         Hsel Hrd Hwsel Hwrd Hver Hg64 Hsrc Hfile H1 H1r H2 H2w H2l.
  pose proof (supervisor_cleanup_sends_quit p0 Hps Hpo Hpfd) as Ep1.
  rewrite Hpp in Ep1. cbn [app] in Ep1.
  assert (Eu1 := @pipe_loop_quit_command penv
                   (set_from_qemu u0 (Some [UMEM_QEMU_QUIT])) []
                   Hsel Hrd eq_refl Htq Hend Herr).
  cbn [state set_from_qemu precopy_enabled blocks mig_read to_qemu_pipe
       spawned] in Eu1.
  rewrite Htp in Eu1. cbn [app] in Eu1.
  assert (Hsub : forall m, Z.land m UMEM_STATE_END_MASK = m ->
                           Z.land (state u0) m = 0)
    by (intros m; apply land_submask; exact Hend).
  match type of Eu1 with _ = Some (_, ?U) => set (u1 := U) in * end.
  assert (Eu2 := @write_loop_idle_sends_eoc TPB g junk wenv u1 w0 f0
                   Hwsel Hwrd Hw).
  assert (Hreq : state_has u1 UMEM_STATE_EOC_SEND_REQ = true).
  { unfold state_has, u1; cbn [state].
    rewrite state_test_lor by (apply Hsub; reflexivity). reflexivity. }
  assert (Hsent : state_has u1 (Z.lor UMEM_STATE_EOC_SENDING
                                      UMEM_STATE_EOC_SENT) = false).
  { unfold state_has, u1; cbn [state].
    rewrite state_test_lor by (apply Hsub; reflexivity). reflexivity. }
  specialize (Eu2 Hreq Hsent).
  match type of Eu2 with _ = Some (_, ?U, _, _, _) => set (u2 := U) in * end.
  assert (Ems := @source_eoc_then_eos TPB e1 e2
                   (set_file_read ms0 [QEMU_UMEM_REQ_EOC])
                   Hsrc eq_refl H1 H1r H2 H2w H2l).
  destruct (@ram_load_eos_word TPB MEM_SIZE COMPRESS PAGE XBZRLE
              CONTINUE PIPE_BUF EWOULDBLOCK host_bytes g renv last
              (set_mig_read u2 (Some (be64_bytes RAM_SAVE_FLAG_EOS ++ rest)))
              RAM_SAVE_FLAG_EOS rest)
    as (u3 & Eload & Emr & Ebl & Est & Epipe);
    try assumption; try reflexivity.
  { unfold RAM_SAVE_FLAG_EOS. lia. }
  { rewrite <- Z.land_assoc, (Z.land_comm _ MEM_SIZE), Z.land_assoc.
    rewrite Hmem. reflexivity. }
  cbn [to_qemu_pipe blocks state set_mig_read set_state u1 u2] in Epipe,
    Ebl, Est.
  eexists. eexists. exists u1, u2, u3. eexists. eexists.
  split; [exact Ep1|]. cbn [PIS.to_umemd_pipe].
  split; [reflexivity|].
  split; [exact Eu1|]. split; [reflexivity|].
  split; [exact Eu2|]. split; [reflexivity|].
  split; [exact Ems|].
  split; [reflexivity|].
  split; [cbn [file set_po set_file set_file_read]; now rewrite Hfile|].
  split; [reflexivity|].
  split.
  { unfold postcopy_incoming_umemd_mig_read_loop.
    cbn [mig_read set_mig_read]. rewrite Eload. reflexivity. }
  assert (Hmask : Z.land (state u3) UMEM_STATE_END_MASK
                  = UMEM_STATE_END_MASK).
  { rewrite Est, !Z.land_lor_distr_l, Hend. reflexivity. }
  split; [exact Hmask|].
  split; [exact Epipe|].
  split; [exact Emr|].
  split; [exact Ebl|].
  split.
  { intros loop_func fuel. cbn [umemd_thread_loop].
    rewrite Hmask, Z.eqb_refl. reflexivity. }
  rewrite Epipe.
  cbn [PIS.state PIS.to_umemd_fd PIS.to_umemd PIS.to_umemd_pipe
       PIS.from_umemd_fd PIS.handler PIS.vm_stopped].
  split; [apply supervisor_reads_quit_after_cleanup|].
  repeat split.
Qed.

Lemma quit_handshake_ends_all_parties_witness :
  exists (u3 : Umemd) (ms2 : MigrationState) (p2 : PIS.t),
    Z.land (state u3) UMEM_STATE_END_MASK = UMEM_STATE_END_MASK
    /\ to_qemu_pipe u3 = [UMEM_DAEMON_QUIT]
    /\ postcopy_outgoing
         12 [mkLoopEnv false 1 false true false 5 [];
             mkLoopEnv false 1 false false true 5 []] 0
         (mkMS PO_STATE_ACTIVE None [] [QEMU_UMEM_REQ_EOC] [] 0 0 false
               false None)
       = Some (0, ms2)
    /\ po ms2 = PO_STATE_COMPLETED
    /\ file ms2 = [PutBe64 RAM_SAVE_FLAG_EOS]
    /\ PIS.state p2 = 7
    /\ PIS.to_umemd_pipe p2 = [UMEM_QEMU_QUIT].
Proof.
  destruct (@quit_handshake_ends_all_parties
              12 4 2 8 64 32 4096 11 (fun v => rev (be64_bytes v))
              (mkGeom 4096 12 1 0 1 0) (mkReq 7 0 [] 0 [])
              (mkPipeEnv 1 false true) (mkWriteEnv 0 false [])
              (mkRamLoadEnv true 0 false (fun f => (0, f)) 0 0 [])
              (mkLoopEnv false 1 false true false 5 [])
              (mkLoopEnv false 1 false false true 5 []) None
              (PIS.mk 0 5 true [] 6 (Some []) true false)
              (mkUmemd 0 true [] (Some []) true [] (Some []) [])
              (mkMigWrite (Some []) None) []
              (mkMS PO_STATE_ACTIVE None [] [] [] 0 0 false false None)
              [])
    as (p1 & p2 & u1 & u2 & u3 & w2 & ms2 & H);
    try reflexivity; try (cbn; lia).
  destruct H as (Hp1 & _ & Hu1 & _ & Hu2 & _ & Hms & Hpo & Hfile & _
                 & Hu3 & Hmask & Hpipe & _ & _ & _ & Hp2 & Hst & _ & _
                 & Hpp).
  exists u3, ms2, p2.
  repeat split; assumption.
Defined.

(* ===================================================================== *)
(** * Error reporting of the read loop *)

Lemma length_update_block (bs : list UMB.t) :
  forall (i : nat) (b : UMB.t),
    length (update_block bs i b) = length bs.
Proof.
  induction bs as [|x bs IH]; intros [|i] b; cbn [update_block length];
    auto.
Qed.

Lemma state_has_error_req_after (u : Umemd) :
  state_has (postcopy_incoming_umem_error_req u) UMEM_STATE_ERROR_REQ
  = true.
Proof.
  unfold postcopy_incoming_umem_error_req.
  apply state_has_set_self; unfold UMEM_STATE_ERROR_REQ; lia.
Qed.

Lemma same_but_pending_refl (b : UMB.t) : same_but_pending b b.
Proof.
  unfold same_but_pending. repeat split; auto. lia.
Qed.

Lemma same_but_pending_trans (a b c : UMB.t) :
  same_but_pending a b -> same_but_pending b c -> same_but_pending a c.
Proof.
  unfold same_but_pending.
  intros (A1 & A2 & A3 & A4 & A5 & A6 & A7 & A8)
         (B1 & B2 & B3 & B4 & B5 & B6 & B7 & B8).
  repeat split; try congruence; [auto | lia].
Qed.

Lemma blocks_same_refl (bs : list UMB.t) : Forall2 same_but_pending bs bs.
Proof.
  induction bs; constructor; auto using same_but_pending_refl.
Qed.

Lemma blocks_same_trans (xs : list UMB.t) :
  forall ys zs,
    Forall2 same_but_pending xs ys -> Forall2 same_but_pending ys zs ->
    Forall2 same_but_pending xs zs.
Proof.
  induction xs as [|x xs IH]; intros ys zs H1 H2.
  - inversion H1; subst. inversion H2; subst. constructor.
  - inversion H1; subst. inversion H2; subst.
    constructor; [eapply same_but_pending_trans; eauto | eapply IH; eauto].
Qed.

Lemma blocks_same_update (bs : list UMB.t) :
  forall (i : nat) (b' : UMB.t) (d : UMB.t),
    same_but_pending (nth i bs d) b' ->
    Forall2 same_but_pending bs (update_block bs i b').
Proof.
  induction bs as [|x bs IH]; intros [|i] b' d H; cbn [update_block];
    try constructor; auto using same_but_pending_refl, blocks_same_refl.
  eapply IH. exact H.
Qed.

Lemma blocks_same_nth_error (xs : list UMB.t) :
  forall (ys : list UMB.t) (j : nat) (b b' : UMB.t),
    Forall2 same_but_pending xs ys ->
    nth_error xs j = Some b -> nth_error ys j = Some b' ->
    same_but_pending b b'.
Proof.
  induction xs as [|x xs IH]; intros ys j b b' H Hb Hb'.
  - destruct j; discriminate.
  - inversion H; subst. destruct j as [|j]; cbn [nth_error] in Hb, Hb'.
    + congruence.
    + eapply IH; eauto.
Qed.

(** One turn of the marking loop: the count does not go down, nothing is
    written when it stays, and the blocks change only in their pending
    fields. *)
Lemma mark_pending_clean_one_inv (shift : Z) (bs bs' : list UMB.t)
      (a a' pgoff : Z) :
  mark_pending_clean_one shift (bs, a) pgoff = Some (bs', a') ->
  a <= a' /\ (a' = a -> bs' = bs) /\ Forall2 same_but_pending bs bs'.
Proof.
  unfold mark_pending_clean_one, test_and_set_bit.
  destruct (block_of_address bs 0 (u64 (Z.shiftl pgoff shift)))
    as [[index addr]|].
  2:{ intros [= <- <-]. repeat split; auto using blocks_same_refl. lia. }
  destruct (pending_clean_alloc_bits shift _ <=? Z.shiftr addr shift);
    [discriminate|].
  destruct (Z.testbit _ (Z.shiftr addr shift)).
  { intros [= <- <-]. repeat split; auto using blocks_same_refl. lia. }
  intros [= <- <-]. split; [lia|]. split; [lia|].
  eapply blocks_same_update with (d := UMB.mk [] 0 0 0 0 0 0 0).
  unfold same_but_pending, UMB.set_pending_clean.
  cbn [UMB.idstr UMB.offset UMB.length UMB.phys_requested
       UMB.phys_received UMB.clean_bitmap UMB.pending_clean_bitmap
       UMB.nr_pending_clean].
  repeat split; try lia.
  intros n Hn. unfold Z.setbit. rewrite Z.lor_spec, Hn. reflexivity.
Qed.

Lemma mark_pending_clean_inv (shift : Z) (pgoffs : list Z) :
  forall (bs bs' : list UMB.t) (a a' : Z),
    postcopy_incoming_umem_mark_pending_clean shift bs a pgoffs
    = Some (bs', a') ->
    a <= a' /\ (a' = a -> bs' = bs) /\ Forall2 same_but_pending bs bs'.
Proof.
  induction pgoffs as [|p pgoffs IH]; intros bs bs' a a';
    cbn [postcopy_incoming_umem_mark_pending_clean].
  - intros [= <- <-]. repeat split; auto using blocks_same_refl. lia.
  - destruct (mark_pending_clean_one shift (bs, a) p) as [[bs1 a1]|] eqn:E1;
      [|discriminate].
    intros E2. apply mark_pending_clean_one_inv in E1.
    apply IH in E2.
    destruct E1 as (L1 & S1 & F1), E2 as (L2 & S2 & F2).
    split; [lia|]. split.
    + intros ->. assert (a1 = a) by lia. subst a1.
      rewrite S2 by reflexivity. now apply S1.
    + eapply blocks_same_trans; eauto.
Qed.

Section ReadLoopFacts.
Variable TPB : Z.
Variables MEM_SIZE COMPRESS PAGE XBZRLE CONTINUE : Z.
Variables PIPE_BUF EWOULDBLOCK : Z.
Variable host_bytes : Z -> list Z.

(** What [postcopy_incoming_umem_mark_cached] does to the blocks: only
    pending fields change, and none does when no page is newly marked. *)
Lemma mark_cached_inv (g : PageGeom) (mark_error : Z)
      (events : list write_event) (bs bs' : list UMB.t) (pgoffs : list Z)
      (ret added : Z) (writes : list (list Z)) :
  postcopy_incoming_umem_mark_cached PIPE_BUF EWOULDBLOCK host_bytes
                                     g mark_error events bs pgoffs
  = Some (ret, bs', writes, added) ->
  0 <= added /\ (added = 0 -> bs' = bs)
  /\ Forall2 same_but_pending bs bs'.
Proof.
  unfold postcopy_incoming_umem_mark_cached.
  destruct (negb (mark_error =? 0)).
  { intros [= _ <- _ <-]. repeat split; auto using blocks_same_refl. lia. }
  destruct (postcopy_incoming_umem_fault_request _ _ _ _ _ _)
    as [[[r ws] pending]|]; [|discriminate].
  destruct pending.
  - destruct (postcopy_incoming_umem_mark_pending_clean _ _ _ _)
      as [[bs1 a1]|] eqn:E; [|discriminate].
    intros [= _ <- _ <-]. now apply mark_pending_clean_inv in E.
  - intros [= _ <- _ <-]. repeat split; auto using blocks_same_refl. lia.
Qed.

(** What a call of [postcopy_incoming_umem_ram_load] leaves of the
    daemon: the state only gains bits, the ERROR_REQ bit is as before,
    and there are as many blocks as before. *)
Lemma ram_load_keeps (g : PageGeom) (env : RamLoadEnv)
      (last last' : option nat) (u u' : Umemd) (ret : Z)
      (out : RamLoadOut) :
  postcopy_incoming_umem_ram_load TPB MEM_SIZE COMPRESS PAGE XBZRLE
                                  CONTINUE PIPE_BUF EWOULDBLOCK host_bytes
                                  g env last u
  = Some (ret, last', u', out) ->
  (forall mask, state_has u mask = true -> state_has u' mask = true)
  /\ state_has u' UMEM_STATE_ERROR_REQ = state_has u UMEM_STATE_ERROR_REQ
  /\ length (blocks u') = length (blocks u).
Proof.
  unfold postcopy_incoming_umem_ram_load.
  assert (Hsame : forall v : Umemd,
             state v = state u -> length (blocks v) = length (blocks u) ->
             (forall mask, state_has u mask = true ->
                           state_has v mask = true)
             /\ state_has v UMEM_STATE_ERROR_REQ
                = state_has u UMEM_STATE_ERROR_REQ
             /\ length (blocks v) = length (blocks u)).
  { intros v Es El. unfold state_has. rewrite Es. auto. }
  destruct (negb (version_ok env)).
  { intros E; injection E as _ _ <- _. now apply Hsame. }
  destruct (mig_read u) as [f|]; [|discriminate].
  destruct (postcopy_incoming_ram_load_get64 TPB f) as [[offset flags] f1].
  destruct (negb (get64_error env =? 0)).
  { intros E; injection E as _ _ <- _. now apply Hsame. }
  destruct (negb (Z.land flags MEM_SIZE =? 0)); [discriminate|].
  destruct (negb (Z.land flags RAM_SAVE_FLAG_EOS =? 0)).
  { intros E; injection E as _ _ <- _.
    unfold postcopy_incoming_umem_eos_received.
    rewrite queue_quit_locked_eq.
    unfold postcopy_incoming_umem_req_eoc, state_has.
    cbn [state blocks set_state set_mig_read].
    split; [|split; [|reflexivity]].
    - intros mask H. apply negb_true_iff in H.
      now rewrite !land_lor_eqb, H.
    - rewrite !land_lor_eqb.
      change (Z.land UMEM_STATE_EOC_SEND_REQ UMEM_STATE_ERROR_REQ =? 0)
        with true.
      change (Z.land UMEM_STATE_QUIT_QUEUED UMEM_STATE_ERROR_REQ =? 0)
        with true.
      change (Z.land UMEM_STATE_EOS_RECEIVED UMEM_STATE_ERROR_REQ =? 0)
        with true.
      now rewrite !andb_true_r. }
  destruct (Z.land flags (Z.lor COMPRESS (Z.lor PAGE XBZRLE)) =? 0).
  { intros E; injection E as _ _ <- _. now apply Hsame. }
  destruct (postcopy_incoming_umem_block_from_stream CONTINUE _ last f1
                                                     flags)
    as [[found last1] f2].
  destruct found as [i|].
  2:{ intros E; injection E as _ _ <- _. now apply Hsame. }
  destruct (shmem_finished env); [discriminate|].
  destruct (ram_load_page env f2) as [error f3].
  destruct (negb (error =? 0)).
  { intros E; injection E as _ _ <- _. now apply Hsame. }
  destruct (negb (page_file_error env =? 0)).
  { intros E; injection E as _ _ <- _. now apply Hsame. }
  destruct (postcopy_incoming_umem_ram_loaded TPB g _ offset)
    as [block cs].
  destruct (0 <? Z.of_nat (length cs)).
  - destruct (postcopy_incoming_umem_mark_cached _ _ _ _ _ _ _ _)
      as [[[[e bs2] ws] added]|] eqn:Emc; [|discriminate].
    intros E; injection E as _ _ <- _.
    apply Hsame; [reflexivity|].
    apply mark_cached_inv in Emc. destruct Emc as (_ & _ & HF).
    cbn [blocks set_blocks set_mig_read] in *.
    rewrite <- (Forall2_length HF). apply length_update_block.
  - intros E; injection E as _ _ <- _.
    apply Hsame; [reflexivity|].
    cbn [blocks set_blocks set_mig_read]. apply length_update_block.
Qed.

(** X27.  How [postcopy_incoming_umemd_mig_read_loop] reports errors.
    Called with the file from the source already closed, it returns
    -EINVAL and leaves the daemon as it is: no error is requested.  Called
    with the file open, whenever it returns, ERROR_REQ is set afterwards
    exactly if it was set before or the return value is not 0; no state
    bit is cleared; and the list of blocks keeps its length. *)
Theorem read_loop_requests_error_exactly_on_failure
        (g : PageGeom) (env : RamLoadEnv) (last : option nat) (u : Umemd) :
  (mig_read u = None ->
   postcopy_incoming_umemd_mig_read_loop TPB MEM_SIZE COMPRESS PAGE XBZRLE
                                         CONTINUE PIPE_BUF EWOULDBLOCK
                                         host_bytes g env last u
   = Some (- EINVAL, last, u, no_ram_load_out))
  /\ (forall (ret : Z) (last' : option nat) (u' : Umemd) (out : RamLoadOut),
         mig_read u <> None ->
         postcopy_incoming_umemd_mig_read_loop TPB MEM_SIZE COMPRESS PAGE
                                               XBZRLE CONTINUE PIPE_BUF
                                               EWOULDBLOCK host_bytes
                                               g env last u
         = Some (ret, last', u', out) ->
         (forall mask, state_has u mask = true -> state_has u' mask = true)
         /\ state_has u' UMEM_STATE_ERROR_REQ
            = state_has u UMEM_STATE_ERROR_REQ || negb (ret =? 0)
         /\ length (blocks u') = length (blocks u)).
Proof.
  unfold postcopy_incoming_umemd_mig_read_loop. split.
  { intros ->. reflexivity. }
  intros ret last' u' out Hopen.
  destruct (mig_read u) as [f|] eqn:Ef; [clear Hopen|congruence].
  destruct (postcopy_incoming_umem_ram_load TPB MEM_SIZE COMPRESS PAGE
              XBZRLE CONTINUE PIPE_BUF EWOULDBLOCK host_bytes g env last u)
    as [[[[r1 l1] u1] c1]|] eqn:El; [|discriminate].
  destruct (@ram_load_keeps _ _ _ _ _ _ _ _ El) as (Hmono & Herr & Hlen).
  destruct (negb (r1 =? 0)) eqn:Er; intros E; injection E as <- _ <- _.
  - rewrite Er, orb_true_r. split; [|split].
    + intros mask H. unfold postcopy_incoming_umem_error_req.
      apply state_has_set_lor. auto.
    + apply state_has_error_req_after.
    + exact Hlen.
  - rewrite Er, orb_false_r. auto.
Qed.

End ReadLoopFacts.

Lemma read_loop_requests_error_exactly_on_failure_witness :
  let env := mkRamLoadEnv true 0 false (fun f => (0, f)) 0 0 [] in
  let u := mkUmemd 0 true [UMB.mk [114] 0 65536 0 0 0 0 0]
                   (Some (be64_bytes 0x28)) true [] None [] in
  exists last' u' out,
    postcopy_incoming_umemd_mig_read_loop
      12 4 2 8 64 32 4096 11 (fun v => rev (be64_bytes v))
      (mkGeom 4096 12 1 0 1 0) env None u
    = Some (- EINVAL, last', u', out)
    /\ state_has u' UMEM_STATE_ERROR_REQ = true
    /\ length (blocks u') = 1%nat.
Proof.
  cbv zeta. eexists. eexists. eexists.
  match goal with |- ?A /\ _ => assert (E : A) by (vm_compute; reflexivity) end.
  split; [exact E|].
  pose proof (fun H =>
                proj2 (@read_loop_requests_error_exactly_on_failure
                         12 4 2 8 64 32 4096 11 (fun v => rev (be64_bytes v))
                         (mkGeom 4096 12 1 0 1 0) _ None _)
                      _ _ _ _ H E) as H.
  destruct H as (_ & He & Hl); [discriminate|].
  split; [exact He | exact Hl].
Defined.

(* ===================================================================== *)
(** * Writing to the fault pipe *)

Lemma land_lnot_7 (x : Z) :
  0 <= x < 2 ^ 64 -> Z.land x (u64 (Z.lnot (8 - 1))) = 8 * (x / 8).
Proof.
  intros Hx. apply Z.bits_inj'. intros j Hj.
  rewrite Z.land_spec, u64_testbit, Z.lnot_spec by lia.
  change (8 - 1) with (Z.ones 3). change 8 with (2 ^ 3).
  rewrite Z.mul_comm, <- Z.shiftl_mul_pow2, <- Z.shiftr_div_pow2 by lia.
  destruct (Z.ltb_spec j 3).
  - rewrite Z.ones_spec_low, Z.shiftl_spec_low by lia.
    cbn [negb]. now rewrite andb_false_r, andb_false_r.
  - rewrite Z.ones_spec_high, Z.shiftl_spec, Z.shiftr_spec by lia.
    replace (j - 3 + 3) with j by lia. cbn [negb].
    rewrite andb_true_r. destruct (Z.ltb_spec j 64).
    + now rewrite andb_true_r.
    + rewrite andb_false_r. symmetry.
      destruct (Z.eq_dec x 0) as [->|Hx0].
      * apply Z.bits_0.
      * apply Z.bits_above_log2; [lia|].
        apply Z.lt_le_trans with 64; [|lia].
        apply Z.log2_lt_pow2; lia.
Qed.

Lemma firstn_plus {A : Type} (m k : nat) :
  forall l : list A,
    firstn (m + k) l = firstn m l ++ firstn k (skipn m l).
Proof.
  induction m as [|m IH]; intros [|x l]; cbn [Nat.add firstn skipn app];
    try reflexivity.
  - now rewrite firstn_nil.
  - now rewrite IH.
Qed.

Section FaultRequestFacts.
Variable PIPE_BUF : Z.
Variable EWOULDBLOCK : Z.
Variable host_bytes : Z -> list Z.
Hypothesis HPB : 8 <= PIPE_BUF < 2 ^ 31.
Hypothesis Hbytes : forall v, length (host_bytes v) = 8%nat.

Lemma length_entries (l : list Z) :
  length (flat_map host_bytes l) = (8 * length l)%nat.
Proof.
  induction l as [|x l IH]; cbn [flat_map length]; [reflexivity|].
  rewrite length_app, Hbytes, IH. lia.
Qed.

Lemma firstn_entries (m : nat) :
  forall l : list Z,
    firstn (8 * m) (flat_map host_bytes l)
    = flat_map host_bytes (firstn m l).
Proof.
  induction m as [|m IH]; intros l.
  - reflexivity.
  - destruct l as [|x l]; [reflexivity|].
    cbn [flat_map firstn].
    replace (8 * S m)%nat with (length (host_bytes x) + 8 * m)%nat
      by (rewrite Hbytes; lia).
    rewrite firstn_app_2, IH. reflexivity.
Qed.

Lemma skipn_entries (m : nat) :
  forall l : list Z,
    skipn (8 * m) (flat_map host_bytes l)
    = flat_map host_bytes (skipn m l).
Proof.
  induction m as [|m IH]; intros l.
  - reflexivity.
  - destruct l as [|x l]; [reflexivity|].
    cbn [flat_map skipn].
    replace (8 * S m)%nat with (length (host_bytes x) + 8 * m)%nat
      by (rewrite Hbytes; lia).
    rewrite skipn_app, skipn_all2 by lia.
    replace (length (host_bytes x) + 8 * m - length (host_bytes x))%nat
      with (8 * m)%nat by lia.
    rewrite IH. reflexivity.
Qed.

(** The size of the next chunk when [rest] is still to be written. *)
Lemma chunk_size (rest : list Z) :
  rest <> [] ->
  exists m : nat,
    (1 <= m <= length rest)%nat
    /\ Z.of_nat (8 * m) <= PIPE_BUF
    /\ Z.land (Z.min PIPE_BUF
                     (Z.of_nat (length (flat_map host_bytes rest))))
              (u64 (Z.lnot (8 - 1)))
       = Z.of_nat (8 * m).
Proof.
  intros Hne. rewrite length_entries.
  assert (Hn : (1 <= length rest)%nat)
    by (destruct rest; [congruence | cbn; lia]).
  set (n := length rest) in *.
  exists (Z.to_nat (Z.min (PIPE_BUF / 8) (Z.of_nat n))).
  assert (H8 : 1 <= PIPE_BUF / 8)
    by (apply Z.div_le_lower_bound; lia).
  assert (Hle : 8 * (PIPE_BUF / 8) <= PIPE_BUF)
    by (apply Z.mul_div_le; lia).
  rewrite land_lnot_7 by lia.
  assert (Hdiv : Z.min PIPE_BUF (Z.of_nat (8 * n)) / 8
                 = Z.min (PIPE_BUF / 8) (Z.of_nat n)).
  { assert (E8 : Z.of_nat (8 * n) = 8 * Z.of_nat n) by lia.
    rewrite E8.
    assert (Ediv : 8 * Z.of_nat n / 8 = Z.of_nat n)
      by (rewrite Z.mul_comm; apply Z.div_mul; lia).
    destruct (Z.le_gt_cases PIPE_BUF (8 * Z.of_nat n)) as [Hc|Hc].
    - assert (PIPE_BUF / 8 <= Z.of_nat n)
        by (rewrite <- Ediv; apply Z.div_le_mono; lia).
      rewrite (Z.min_l PIPE_BUF), (Z.min_l (PIPE_BUF / 8)) by lia.
      reflexivity.
    - assert (Z.of_nat n <= PIPE_BUF / 8)
        by (rewrite <- Ediv; apply Z.div_le_mono; lia).
      rewrite (Z.min_r PIPE_BUF), (Z.min_r (PIPE_BUF / 8)) by lia.
      exact Ediv. }
  rewrite Hdiv. split; [lia|]. split; lia.
Qed.

Lemma fault_request_loop_writes (events : list write_event) :
  forall (nonblock : bool) (rest : list Z) (writes writes' : list (list Z))
         (ret : Z) (pending : bool),
    atomic_writes events ->
    fault_request_loop PIPE_BUF EWOULDBLOCK events nonblock
                       (flat_map host_bytes rest) writes
    = Some (ret, writes', pending) ->
    exists (k : nat) (new : list (list Z)),
      (k <= length rest)%nat
      /\ writes' = writes ++ new
      /\ concat new = flat_map host_bytes (firstn k rest)
      /\ Forall (whole_entries PIPE_BUF) new
      /\ (pending = true -> nonblock = true /\ ret = 0)
      /\ (ret = 0 -> pending = false -> k = length rest).
Proof.
  induction events as [|e events IH];
    intros nonblock rest writes writes' ret pending Hat.
  - destruct rest as [|x rest].
    + cbn. intros E; injection E as <- <- <-.
      exists O, []. rewrite app_nil_r. repeat split; auto; discriminate.
    + cbn [fault_request_loop]. rewrite length_entries.
      replace (Z.of_nat (8 * length (x :: rest)) >? 0) with true
        by (symmetry; apply Z.gtb_lt; cbn [length]; lia).
      discriminate.
  - inversion Hat as [|e0 ev0 He Hat']; subst e0 ev0.
    destruct rest as [|x rest].
    { cbn. intros E; injection E as <- <- <-.
      exists O, []. rewrite app_nil_r. repeat split; auto; discriminate. }
    destruct (@chunk_size (x :: rest)) as (m & Hm & Hmp & Hsize);
      [discriminate|].
    cbn [fault_request_loop]. cbv zeta. rewrite Hsize.
    replace (Z.of_nat (length (flat_map host_bytes (x :: rest))) >? 0)
      with true
      by (symmetry; apply Z.gtb_lt; rewrite length_entries;
          cbn [length]; lia).
    rewrite Nat2Z.id, firstn_entries, skipn_entries.
    destruct e as [|errno|n errno]; [| |contradiction].
    + replace (0 <? Z.of_nat (8 * m)) with true
        by (symmetry; apply Z.ltb_lt; lia).
      rewrite Z.eqb_refl. cbn [negb].
      intros E. destruct (IH _ _ _ _ _ _ Hat' E)
        as (k & new & Hk & Hw & Hc & Hall & Hp & Hr).
      exists (m + k)%nat, (flat_map host_bytes (firstn m (x :: rest)) :: new).
      rewrite length_skipn in Hk, Hr.
      split; [lia|].
      split; [rewrite Hw, <- app_assoc; reflexivity|].
      split.
      { cbn [concat]. rewrite Hc, firstn_plus, flat_map_app.
        reflexivity. }
      split.
      { constructor; [|exact Hall].
        unfold whole_entries. rewrite length_entries, length_firstn.
        rewrite Nat.min_l by lia.
        split; [lia|].
        replace (Z.of_nat (8 * m)) with (Z.of_nat m * 8) by lia.
        apply Z_mod_mult. }
      split; [exact Hp|].
      intros H0 Hpf. specialize (Hr H0 Hpf). lia.
    + change (0 <? 0) with false. cbv iota.
      replace (0 =? Z.of_nat (8 * m)) with false
        by (symmetry; apply Z.eqb_neq; lia).
      cbn [negb].
      destruct ((- errno =? - EAGAIN) || (- errno =? - EWOULDBLOCK)).
      * destruct nonblock.
        -- intros E; injection E as <- <- <-.
           exists O, []. rewrite app_nil_r.
           repeat split; auto using Nat.le_0_l; discriminate.
        -- intros E. destruct (IH _ _ _ _ _ _ Hat' E)
             as (k & new & Hk & Hw & Hc & Hall & Hp & Hr).
           exists k, new. repeat split; auto; apply Hp; assumption.
      * intros E; injection E as <- <- <-.
        exists O, []. rewrite app_nil_r.
        repeat split; auto using Nat.le_0_l; try discriminate.
        intros H0. lia.
Qed.

Lemma fault_request_loop_completes (n : nat) :
  forall (nonblock : bool) (rest : list Z) (writes : list (list Z)),
    (length rest <= n)%nat ->
    exists writes',
      fault_request_loop PIPE_BUF EWOULDBLOCK (repeat WriteAll n) nonblock
                         (flat_map host_bytes rest) writes
      = Some (0, writes', false).
Proof.
  induction n as [|n IH]; intros nonblock rest writes Hn.
  - destruct rest; [|cbn in Hn; lia]. cbn. eauto.
  - destruct rest as [|x rest]; [cbn; eauto|].
    destruct (@chunk_size (x :: rest)) as (m & Hm & Hmp & Hsize);
      [discriminate|].
    cbn [repeat fault_request_loop]. cbv zeta. rewrite Hsize.
    replace (Z.of_nat (length (flat_map host_bytes (x :: rest))) >? 0)
      with true
      by (symmetry; apply Z.gtb_lt; rewrite length_entries;
          cbn [length]; lia).
    rewrite Nat2Z.id, skipn_entries. rewrite Z.eqb_refl. cbn [negb].
    apply IH. rewrite length_skipn. cbn [length] in *. lia.
Qed.

(** X28.  [postcopy_incoming_umem_fault_request] puts whole entries into
    the fault pipe.  With [PIPE_BUF] at least 8 and writes that are
    atomic: whenever the function returns, every write was a chunk of at
    least one and at most [PIPE_BUF / 8] whole 8-byte entries, what went
    into the pipe is the entries of the first [k] pages in order, the
    pages are marked pending only in non-blocking mode and with return
    value 0, and a return of 0 without that mark means all pages were
    written.  And when every write is taken, as many writes as there are
    pages are enough for the function to return 0. *)
Theorem fault_request_writes_whole_entries
        (events : list write_event) (nonblock : bool) (pgoffs : list Z) :
  atomic_writes events ->
  (forall (ret : Z) (writes : list (list Z)) (pending : bool),
      postcopy_incoming_umem_fault_request PIPE_BUF EWOULDBLOCK host_bytes
                                           events nonblock pgoffs
      = Some (ret, writes, pending) ->
      exists k : nat,
        (k <= length pgoffs)%nat
        /\ concat writes = flat_map host_bytes (firstn k pgoffs)
        /\ Forall (whole_entries PIPE_BUF) writes
        /\ (pending = true -> nonblock = true /\ ret = 0)
        /\ (ret = 0 -> pending = false -> k = length pgoffs))
  /\ exists writes,
      postcopy_incoming_umem_fault_request
        PIPE_BUF EWOULDBLOCK host_bytes
        (repeat WriteAll (length pgoffs)) nonblock pgoffs
      = Some (0, writes, false).
Proof.
  intros Hat. unfold postcopy_incoming_umem_fault_request. split.
  - intros ret writes pending E.
    destruct (fault_request_loop_writes _ _ _ Hat E)
      as (k & new & Hk & Hw & Hc & Hall & Hp & Hr).
    cbn [app] in Hw. subst new. exists k. auto.
  - apply fault_request_loop_completes. lia.
Qed.

End FaultRequestFacts.

Lemma fault_request_writes_whole_entries_witness :
  let host_bytes := fun v => rev (be64_bytes v) in
  exists writes,
    postcopy_incoming_umem_fault_request
      16 11 host_bytes [WriteAll; WriteNone 11; WriteAll] false [1; 2; 3]
    = Some (0, writes, false)
    /\ concat writes = flat_map host_bytes [1; 2; 3].
Proof.
  cbv zeta. eexists.
  match goal with |- ?A /\ _ => assert (E : A) by (vm_compute; reflexivity) end.
  split; [exact E|].
  assert (HPB : 8 <= 16 < 2 ^ 31) by lia.
  assert (Hbytes : forall v, length (rev (be64_bytes v)) = 8%nat)
    by (intros v; rewrite length_rev; apply length_be64_bytes).
  assert (Hat : atomic_writes [WriteAll; WriteNone 11; WriteAll])
    by (repeat constructor).
  destruct (proj1 (@fault_request_writes_whole_entries
                     16 11 (fun v => rev (be64_bytes v)) HPB Hbytes
                     _ false [1; 2; 3] Hat) _ _ _ E)
    as (k & Hk & Hc & _ & _ & Hr).
  rewrite Hc, (Hr eq_refl eq_refl). reflexivity.
Defined.

(* ===================================================================== *)
(** * From the daemon's fault request to the supervisor's fault loop *)

Section FaultPipeRoundTrip.
Variable PIPE_BUF : Z.
Variable EWOULDBLOCK : Z.
Variable shift : Z.
Variable host_bytes : Z -> list Z.
Variable host_u64 : list Z -> Z.
Hypothesis HPB : 8 <= PIPE_BUF < 2 ^ 31.
Hypothesis Hbytes : forall v, length (host_bytes v) = 8%nat.
Hypothesis Hhost :
  forall v, 0 <= v < 2 ^ 64 -> host_u64 (host_bytes v) = v.

Lemma groups8_entries (l : list Z) :
  groups8 (length l) (flat_map host_bytes l) = map host_bytes l.
Proof.
  induction l as [|x l IH]; cbn [length groups8 flat_map map];
    [reflexivity|].
  rewrite firstn_app, skipn_app, Hbytes, Nat.sub_diag.
  rewrite firstn_all2, skipn_all2 by (rewrite Hbytes; lia).
  cbn [firstn skipn app]. rewrite app_nil_r, IH. reflexivity.
Qed.

Lemma fault_addrs_entries (l : list Z) :
  Forall (fun v => 0 <= v < 2 ^ 64) l ->
  fault_addrs shift host_u64 (flat_map host_bytes l)
  = map (fault_addr shift) l.
Proof.
  intros Hl. unfold fault_addrs. rewrite (length_entries host_bytes Hbytes).
  replace (8 * length l / 8)%nat with (length l)
    by (rewrite Nat.mul_comm, Nat.div_mul; lia).
  rewrite groups8_entries, map_map.
  apply map_ext_in. intros v Hv. rewrite Hhost; [reflexivity|].
  rewrite Forall_forall in Hl. now apply Hl.
Qed.

Lemma whole_prefix_entries (consumed rest : list Z) (l : list Z) :
  consumed ++ rest = flat_map host_bytes l ->
  Z.of_nat (length consumed) mod 8 = 0 ->
  consumed = flat_map host_bytes (firstn (length consumed / 8) l).
Proof.
  intros Happ Hmod.
  assert (Hlen : length consumed = (8 * (length consumed / 8))%nat).
  { pose proof (Nat.div_mod_eq (length consumed) 8) as E.
    assert ((length consumed mod 8)%nat = 0%nat)
      by (apply Nat2Z.inj; rewrite Nat2Z.inj_mod; exact Hmod).
    lia. }
  rewrite <- (firstn_entries host_bytes Hbytes), <- Hlen, <- Happ.
  rewrite firstn_app, firstn_all, Nat.sub_diag. cbn [firstn].
  now rewrite app_nil_r.
Qed.

(** X29.  A page fault request travels whole from the daemon to the
    supervisor's fault loop and back to the daemon's fault thread.  The
    daemon writes the entries of [pgoffs] with
    [postcopy_incoming_umem_fault_request]; the supervisor's
    [postcopy_incoming_fault_loop] reads that pipe with reads of any
    size, touches the pages and forwards the entries; the daemon's fault
    thread reads what was forwarded.  Then, for any run in which no
    forwarding write fell short: the addresses the supervisor touched are
    those of the first [k] pages in their order, what it forwarded is the
    entries of those pages, and the calls of [umem_remove_shmem] are those
    for the first [j <= k] pages: no entry is torn, reordered or
    invented on the way.  [host_bytes] and [host_u64] are the host's
    representation of a [uint64_t] and its reading. *)
Theorem fault_request_round_trip
        (events : list write_event) (nonblock : bool) (pgoffs : list Z)
        (writes : list (list Z)) (turns : list FaultTurn)
        (buf0 buf1 : list Z) (reads : list (read_event * bool))
        (u u' : Umemd) (fb' : FaultBuf) (calls' : list (nat * Z))
        (left : bool) :
  atomic_writes events ->
  Forall (fun v => 0 <= v < 2 ^ 64) pgoffs ->
  postcopy_incoming_umem_fault_request PIPE_BUF EWOULDBLOCK host_bytes
                                       events nonblock pgoffs
  = Some (0, writes, false) ->
  Z.of_nat (length buf0) = sizeof_buf PIPE_BUF ->
  Z.of_nat (length buf1) = sizeof_buf PIPE_BUF ->
  let st' :=
    postcopy_incoming_fault_loop
      PIPE_BUF shift host_u64 turns
      (mkFaultLoop (mkFaultBuf (concat writes) buf0 0) [] [] false false) in
  fl_write_failed st' = false ->
  postcopy_incoming_umemd_fault_thread
    PIPE_BUF shift host_u64 reads u (mkFaultBuf (fl_out st') buf1 0) []
  = Some (left, u', fb', calls') ->
  exists k j : nat,
    (j <= k)%nat
    /\ fl_touched st' = map (fault_addr shift) (firstn k pgoffs)
    /\ fl_out st' = flat_map host_bytes (firstn k pgoffs)
    /\ remove_shmem_loop (blocks u)
                         (map (fault_addr shift) (firstn j pgoffs))
       = Some calls'.
Proof.
  intros Hat Hrange Ereq Hb0 Hb1 st' Hwf Ethr.
  unfold postcopy_incoming_umem_fault_request in Ereq.
  destruct (@fault_request_loop_writes PIPE_BUF EWOULDBLOCK host_bytes HPB
              Hbytes events _ _ _ _ _ _ Hat Ereq)
    as (k0 & new & _ & Hw & Hc & _ & _ & Hall).
  cbn [app] in Hw. subst new.
  rewrite (Hall eq_refl eq_refl), firstn_all in Hc.
  destruct (@fault_loop_conserves
              PIPE_BUF shift host_u64 HPB turns
              (mkFaultLoop (mkFaultBuf (concat writes) buf0 0) [] []
                           false false))
    as (consumed & rest & Hsplit & Hmod & Htouch & Hout).
  { split; cbn [fl_fb fb_buf fb_offset]; [exact Hb0 | lia]. }
  fold st' in Htouch, Hout.
  destruct (Hout Hwf) as (Eout & _ & _).
  cbn [fl_fb fl_touched fl_out app] in Hsplit, Htouch, Eout.
  unfold pending_bytes in Hsplit. cbn [fb_offset fb_buf fb_pipe] in Hsplit.
  cbn [Z.to_nat firstn app] in Hsplit. rewrite Hc in Hsplit.
  pose proof (@whole_prefix_entries _ _ _ (eq_sym Hsplit) Hmod) as Econs.
  set (k := (length consumed / 8)%nat) in *.
  destruct (@umemd_fault_thread_conserves
              PIPE_BUF shift host_u64 HPB reads u u'
              (mkFaultBuf (fl_out st') buf1 0) fb' [] calls' left)
    as (consumed2 & cs & Ecalls & Hrm & Hmod2 & Hsplit2 & _ & _).
  { split; cbn [fb_buf fb_offset]; [exact Hb1 | lia]. }
  { exact Ethr. }
  cbn [app] in Ecalls. subst cs.
  unfold pending_bytes in Hsplit2 at 2.
  cbn [fb_offset fb_buf fb_pipe Z.to_nat firstn app] in Hsplit2.
  rewrite Eout, Econs in Hsplit2.
  pose proof (@whole_prefix_entries _ _ _ Hsplit2 Hmod2) as Econs2.
  rewrite firstn_firstn in Econs2.
  exists k, (Nat.min (length consumed2 / 8) k).
  split; [lia|].
  assert (Hfirst : forall n, Forall (fun v => 0 <= v < 2 ^ 64)
                                    (firstn n pgoffs)).
  { intros n. apply Forall_forall. intros v Hv.
    rewrite Forall_forall in Hrange. apply Hrange.
    rewrite <- (firstn_skipn n pgoffs). apply in_or_app. now left. }
  split; [rewrite Htouch, Econs; apply fault_addrs_entries, Hfirst|].
  split; [rewrite Eout; exact Econs|].
  rewrite <- fault_addrs_entries by apply Hfirst.
  rewrite <- Econs2. exact Hrm.
Qed.

End FaultPipeRoundTrip.

Lemma fault_request_round_trip_witness :
  let host_bytes := fun v => rev (be64_bytes v) in
  let host_u64 := fun l => be_to_cpu (rev l) in
  let turns := [mkFaultTurn (ReadSome 100) 16; mkFaultTurn (ReadSome 100) 8] in
  let reads := [(ReadSome 100, false); (ReadSome 100, false)] in
  let u := mkUmemd 0 true [UMB.mk [114] 0 65536 0 0 0 0 0] None true []
                   None [] in
  exists writes left u' fb' calls',
    postcopy_incoming_umem_fault_request
      16 11 host_bytes [WriteAll; WriteAll] false [1; 2; 3]
    = Some (0, writes, false)
    /\ postcopy_incoming_umemd_fault_thread
         16 12 host_u64 reads u
         (mkFaultBuf
            (fl_out (postcopy_incoming_fault_loop
                       16 12 host_u64 turns
                       (mkFaultLoop (mkFaultBuf (concat writes)
                                                (repeat 0 16) 0)
                                    [] [] false false)))
            (repeat 0 16) 0) []
       = Some (left, u', fb', calls')
    /\ exists k j : nat,
        (j <= k)%nat
        /\ fl_touched (postcopy_incoming_fault_loop
                         16 12 host_u64 turns
                         (mkFaultLoop (mkFaultBuf (concat writes)
                                                  (repeat 0 16) 0)
                                      [] [] false false))
           = map (fault_addr 12) (firstn k [1; 2; 3])
        /\ fl_out (postcopy_incoming_fault_loop
                     16 12 host_u64 turns
                     (mkFaultLoop (mkFaultBuf (concat writes)
                                              (repeat 0 16) 0)
                                  [] [] false false))
           = flat_map host_bytes (firstn k [1; 2; 3])
        /\ remove_shmem_loop (blocks u)
                             (map (fault_addr 12) (firstn j [1; 2; 3]))
           = Some calls'.
Proof.
  cbv zeta. eexists. eexists. eexists. eexists. eexists.
  match goal with |- ?A /\ _ => assert (E1 : A) by (vm_compute; reflexivity) end.
  split; [exact E1|].
  match goal with |- ?A /\ _ => assert (E2 : A) by (vm_compute; reflexivity) end.
  split; [exact E2|].
  assert (HPB : 8 <= 16 < 2 ^ 31) by lia.
  assert (Hbytes : forall v, length (rev (be64_bytes v)) = 8%nat)
    by (intros v; rewrite length_rev; apply length_be64_bytes).
  assert (Hhost : forall v, 0 <= v < 2 ^ 64 ->
                            be_to_cpu (rev (rev (be64_bytes v))) = v)
    by (intros v Hv; rewrite rev_involutive; now apply be_to_cpu_be64).
  assert (Hat : atomic_writes [WriteAll; WriteAll]) by (repeat constructor).
  assert (Hrange : Forall (fun v => 0 <= v < 2 ^ 64) [1; 2; 3])
    by (repeat constructor; lia).
  exact (@fault_request_round_trip
           16 11 12 (fun v => rev (be64_bytes v))
           (fun l => be_to_cpu (rev l)) HPB Hbytes Hhost
           _ _ _ _
           [mkFaultTurn (ReadSome 100) 16; mkFaultTurn (ReadSome 100) 8]
           (repeat 0 16) (repeat 0 16) _ _ _ _ _ _
           Hat Hrange E1 eq_refl eq_refl eq_refl E2).
Defined.

(* ===================================================================== *)
(** * Which block a page of the stream changes *)

Lemma nth_error_update_block (bs : list UMB.t) :
  forall (i j : nat) (b : UMB.t),
    nth_error (update_block bs i b) j
    = if Nat.eqb j i
      then match nth_error bs j with Some _ => Some b | None => None end
      else nth_error bs j.
Proof.
  induction bs as [|x bs IH]; intros i j b.
  - cbn [update_block]. destruct (Nat.eqb j i), j; reflexivity.
  - destruct i as [|i], j as [|j]; cbn [update_block nth_error Nat.eqb];
      try reflexivity.
    apply IH.
Qed.

Lemma nth_of_nth_error (bs : list UMB.t) (i : nat) (b d : UMB.t) :
  nth_error bs i = Some b -> nth i bs d = b.
Proof.
  revert i. induction bs as [|x bs IH]; intros [|i]; cbn; try discriminate.
  - now intros [= ->].
  - apply IH.
Qed.

Lemma ram_loaded_block (TPB : Z) (g : PageGeom) (b : UMB.t) (offset : Z) :
  fst (postcopy_incoming_umem_ram_loaded TPB g b offset)
  = UMB.set_phys_received
      b (Z.setbit (UMB.phys_received b)
                  (to_int (Z.shiftr offset TPB))).
Proof.
  unfold postcopy_incoming_umem_ram_loaded, test_and_set_bit. cbv zeta.
  repeat match goal with
         | |- context [if ?c then _ else _] => destruct c
         end; reflexivity.
Qed.

Section PageWordFacts.
Variable TPB : Z.
Variables MEM_SIZE COMPRESS PAGE XBZRLE CONTINUE : Z.
Variables PIPE_BUF EWOULDBLOCK : Z.
Variable host_bytes : Z -> list Z.

Lemma block_from_stream_found (bs : list UMB.t) (last last1 : option nat)
      (f f' : QR.t) (flags : Z) (i : nat) :
  postcopy_incoming_umem_block_from_stream CONTINUE bs last f flags
  = (Some i, last1, f') ->
  last1 = Some i.
Proof.
  unfold postcopy_incoming_umem_block_from_stream.
  destruct (negb (Z.land flags CONTINUE =? 0)).
  - intros [= -> <- _]. reflexivity.
  - destruct (qemu_get_byte f) as [len f1].
    destruct (qemu_get_buffer f1 len) as [id f2].
    destruct (block_index_from_stream bs (c_str id) len) as [k|];
      [|discriminate].
    intros [= <- <- _]. reflexivity.
Qed.

(** X30.  What a call of [postcopy_incoming_umem_ram_load] can change in
    the blocks.  There are as many blocks afterwards as before, and each
    keeps its name, offset, length, [phys_requested] and [clean_bitmap].
    [phys_received] changes in at most one block, the one
    [umemd.last_block_read] points to when the call returns, where it
    gains the bit of one target page and loses none.  The
    [pending_clean_bitmap] of a block, which
    [postcopy_incoming_umem_mark_pending_clean] writes when the fault
    pipe would block, loses no bit and [nr_pending_clean] does not go
    down; when the call marks no page newly pending, both are as before in
    every block.  This holds for pages sent with the block name and for
    pages sent with the CONTINUE flag alike. *)
Theorem ram_load_block_changes
        (g : PageGeom) (env : RamLoadEnv) (last last' : option nat)
        (u u' : Umemd) (ret : Z) (out : RamLoadOut) :
  postcopy_incoming_umem_ram_load TPB MEM_SIZE COMPRESS PAGE XBZRLE
                                  CONTINUE PIPE_BUF EWOULDBLOCK host_bytes
                                  g env last u
  = Some (ret, last', u', out) ->
  length (blocks u') = length (blocks u)
  /\ 0 <= rl_new_pending out
  /\ forall (j : nat) (b b' : UMB.t),
      nth_error (blocks u) j = Some b ->
      nth_error (blocks u') j = Some b' ->
      UMB.idstr b' = UMB.idstr b
      /\ UMB.offset b' = UMB.offset b
      /\ UMB.length b' = UMB.length b
      /\ UMB.phys_requested b' = UMB.phys_requested b
      /\ UMB.clean_bitmap b' = UMB.clean_bitmap b
      /\ (UMB.phys_received b' = UMB.phys_received b
          \/ (last' = Some j
              /\ exists bit,
                  UMB.phys_received b'
                  = Z.setbit (UMB.phys_received b) bit))
      /\ (forall n, Z.testbit (UMB.phys_received b) n = true ->
                    Z.testbit (UMB.phys_received b') n = true)
      /\ (forall n, Z.testbit (UMB.pending_clean_bitmap b) n = true ->
                    Z.testbit (UMB.pending_clean_bitmap b') n = true)
      /\ UMB.nr_pending_clean b <= UMB.nr_pending_clean b'
      /\ (rl_new_pending out = 0 ->
          UMB.pending_clean_bitmap b' = UMB.pending_clean_bitmap b
          /\ UMB.nr_pending_clean b' = UMB.nr_pending_clean b).
Proof.
  pose (Q := fun (bs' : list UMB.t) (lst : option nat) (added : Z) =>
    length bs' = length (blocks u)
    /\ 0 <= added
    /\ forall (j : nat) (b b' : UMB.t),
        nth_error (blocks u) j = Some b ->
        nth_error bs' j = Some b' ->
        UMB.idstr b' = UMB.idstr b
        /\ UMB.offset b' = UMB.offset b
        /\ UMB.length b' = UMB.length b
        /\ UMB.phys_requested b' = UMB.phys_requested b
        /\ UMB.clean_bitmap b' = UMB.clean_bitmap b
        /\ (UMB.phys_received b' = UMB.phys_received b
            \/ (lst = Some j
                /\ exists bit,
                    UMB.phys_received b'
                    = Z.setbit (UMB.phys_received b) bit))
        /\ (forall n, Z.testbit (UMB.phys_received b) n = true ->
                      Z.testbit (UMB.phys_received b') n = true)
        /\ (forall n, Z.testbit (UMB.pending_clean_bitmap b) n = true ->
                      Z.testbit (UMB.pending_clean_bitmap b') n = true)
        /\ UMB.nr_pending_clean b <= UMB.nr_pending_clean b'
        /\ (added = 0 ->
            UMB.pending_clean_bitmap b' = UMB.pending_clean_bitmap b
            /\ UMB.nr_pending_clean b' = UMB.nr_pending_clean b)).
  intros H.
  enough (HQ : Q (blocks u') last' (rl_new_pending out)) by exact HQ.
  revert H.
  unfold postcopy_incoming_umem_ram_load.
  assert (Hsame : forall (v : Umemd) (lst : option nat),
             blocks v = blocks u -> Q (blocks v) lst 0).
  { intros v lst Ev. unfold Q. rewrite Ev. split; [reflexivity|].
    split; [lia|].
    intros j b b' Hb Hb'. rewrite Hb in Hb'. injection Hb' as <-.
    repeat split; auto. lia. }
  destruct (negb (version_ok env)).
  { intros E; injection E as _ _ <- <-. now apply Hsame. }
  destruct (mig_read u) as [f|]; [|discriminate].
  destruct (postcopy_incoming_ram_load_get64 TPB f) as [[offset flags] f1].
  destruct (negb (get64_error env =? 0)).
  { intros E; injection E as _ _ <- <-. now apply Hsame. }
  destruct (negb (Z.land flags MEM_SIZE =? 0)); [discriminate|].
  destruct (negb (Z.land flags RAM_SAVE_FLAG_EOS =? 0)).
  { intros E; injection E as _ _ <- <-. apply Hsame.
    unfold postcopy_incoming_umem_eos_received.
    rewrite queue_quit_locked_eq. reflexivity. }
  destruct (Z.land flags (Z.lor COMPRESS (Z.lor PAGE XBZRLE)) =? 0).
  { intros E; injection E as _ _ <- <-. now apply Hsame. }
  destruct (postcopy_incoming_umem_block_from_stream CONTINUE _ last f1
                                                     flags)
    as [[found last1] f2] eqn:Efound.
  destruct found as [i|].
  2:{ intros E; injection E as _ _ <- <-. now apply Hsame. }
  apply block_from_stream_found in Efound. subst last1.
  destruct (shmem_finished env); [discriminate|].
  destruct (ram_load_page env f2) as [error f3].
  destruct (negb (error =? 0)).
  { intros E; injection E as _ _ <- <-. now apply Hsame. }
  destruct (negb (page_file_error env =? 0)).
  { intros E; injection E as _ _ <- <-. now apply Hsame. }
  pose proof (ram_loaded_block TPB g
                (nth i (blocks (set_mig_read
                                  (set_mig_read
                                     (set_mig_read u (Some f1)) (Some f2))
                                  (Some f3)))
                     (UMB.mk [] 0 0 0 0 0 0 0)) offset) as Hblock.
  destruct (postcopy_incoming_umem_ram_loaded TPB g _ offset)
    as [block cs].
  cbn [fst blocks set_mig_read set_blocks] in *.
  assert (Hfin : forall (bs2 : list UMB.t) (added : Z),
             0 <= added ->
             (added = 0 -> bs2 = update_block (blocks u) i block) ->
             Forall2 same_but_pending
                     (update_block (blocks u) i block) bs2 ->
             Q bs2 (Some i) added).
  { intros bs2 added Hadd Hzero HF. unfold Q.
    split; [rewrite <- (Forall2_length HF); apply length_update_block|].
    split; [exact Hadd|].
    intros j b b' Hb Hb'.
    assert (Hb1 : exists b1,
               nth_error (update_block (blocks u) i block) j = Some b1
               /\ (b1 = b
                   \/ (i = j
                       /\ b1 = UMB.set_phys_received
                                 b (Z.setbit (UMB.phys_received b)
                                             (to_int (Z.shiftr offset TPB)))))).
    { rewrite nth_error_update_block, Hb.
      destruct (Nat.eqb_spec j i) as [->|Hne].
      - exists block. split; [reflexivity|]. right. split; [reflexivity|].
        rewrite (nth_of_nth_error _ _ _ Hb) in Hblock. exact Hblock.
      - exists b. auto. }
    destruct Hb1 as (b1 & Hn1 & Hb1).
    pose proof (blocks_same_nth_error _ HF Hn1 Hb') as HS.
    destruct HS as (S1 & S2 & S3 & S4 & S5 & S6 & S7 & S8).
    assert (Hpend : added = 0 -> b' = b1).
    { intros Hz. rewrite (Hzero Hz), Hn1 in Hb'. congruence. }
    destruct Hb1 as [->|(-> & ->)].
    - split; [exact S1|]. split; [exact S2|]. split; [exact S3|].
      split; [exact S4|]. split; [exact S6|].
      split; [left; exact S5|].
      split; [intros n Hn; rewrite S5; exact Hn|].
      split; [exact S7|]. split; [exact S8|].
      intros Hz. rewrite (Hpend Hz). split; reflexivity.
    - cbn [UMB.set_phys_received UMB.idstr UMB.offset UMB.length
           UMB.phys_requested UMB.phys_received UMB.clean_bitmap
           UMB.pending_clean_bitmap UMB.nr_pending_clean] in *.
      split; [exact S1|]. split; [exact S2|]. split; [exact S3|].
      split; [exact S4|]. split; [exact S6|].
      split; [right; split; [reflexivity|]; eexists; exact S5|].
      split.
      { intros n Hn. rewrite S5. unfold Z.setbit.
        rewrite Z.lor_spec, Hn. reflexivity. }
      split; [exact S7|]. split; [exact S8|].
      intros Hz. rewrite (Hpend Hz). split; reflexivity. }
  destruct (0 <? Z.of_nat (length cs)).
  - destruct (postcopy_incoming_umem_mark_cached _ _ _ _ _ _ _ _)
      as [[[[e bs2] ws] added]|] eqn:Emc; [|discriminate].
    intros E; injection E as _ <- <- <-.
    cbn [blocks set_blocks rl_new_pending].
    apply mark_cached_inv in Emc. destruct Emc as (H0 & Hz & HF).
    now apply Hfin.
  - intros E; injection E as _ <- <- <-.
    cbn [blocks set_blocks rl_new_pending no_ram_load_out].
    apply Hfin; [lia|reflexivity|apply blocks_same_refl].
Qed.

End PageWordFacts.

Lemma ram_load_block_changes_witness :
  let a := UMB.mk [97] 0 65536 0 0 0 0 0 in
  let r := UMB.mk [114] 65536 65536 0 0 0 0 0 in
  let u := mkUmemd 0 true [a; r] (Some (be64_bytes 0x2008 ++ [1; 114]))
                   true [] None [] in
  let env := mkRamLoadEnv true 0 false (fun f => (0, f)) 0 0
                          [WriteNone 11] in
  exists u',
    postcopy_incoming_umem_ram_load 12 4 2 8 64 32 4096 11
                                    (fun v => rev (be64_bytes v))
                                    (mkGeom 4096 12 1 0 1 0) env None u
    = Some (0, Some 1%nat, u', mkRamLoadOut [2] [] 1)
    /\ blocks u'
       = [UMB.mk [97] 0 65536 0 0 0 4 1; UMB.mk [114] 65536 65536 0 4 0 0 0]
    /\ length (blocks u') = length (blocks u)
    /\ forall (j : nat) (b b' : UMB.t),
        nth_error (blocks u) j = Some b ->
        nth_error (blocks u') j = Some b' ->
        UMB.idstr b' = UMB.idstr b
        /\ UMB.phys_requested b' = UMB.phys_requested b
        /\ (UMB.phys_received b' = UMB.phys_received b
            \/ (Some 1%nat = Some j
                /\ exists bit,
                    UMB.phys_received b'
                    = Z.setbit (UMB.phys_received b) bit)).
Proof.
  cbv zeta. eexists.
  match goal with |- ?A /\ _ => assert (E : A) by (vm_compute; reflexivity) end.
  split; [exact E|].
  split; [reflexivity|].
  destruct (@ram_load_block_changes
              12 4 2 8 64 32 4096 11 (fun v => rev (be64_bytes v))
              _ _ _ _ _ _ _ _ E) as (Hlen & _ & Hall).
  split; [exact Hlen|].
  intros j b b' Hb Hb'.
  destruct (Hall j b b' Hb Hb') as (H1 & _ & _ & H4 & _ & H6 & _).
  auto.
Defined.
